(** * mapchete.config: the configuration resolution engine

    A shallow embedding of [mapchete/config/__init__.py] and the properties
    of its zoom filter, tree codec, content hash, input registry and
    configuration object.

    Python values are embedded as the inductive [pyval]; a [dict] is an
    insertion-ordered association list with string keys (the order is the
    one [six.iteritems] and [json.dumps] walk through).  Booleans and floats
    are outside the embedded fragment of values.  Exceptions are values of
    [exn]; a function that may raise returns a [result]. *)

From Stdlib Require Import String Ascii List ZArith Lia Bool Arith.
From Stdlib Require Import DecimalString.
From Stdlib Require DecimalPos.
From Equations Require Import Equations.
Import ListNotations.
Open Scope string_scope.
Open Scope Z_scope.

Set Implicit Arguments.

(* ===================================================================== *)
(** ** Exceptions and results *)
(* ===================================================================== *)

(** The exception classes the module raises or lets through.  Messages are
    kept without their interpolated operands. *)
Inductive exn : Type :=
| MapcheteConfigError (msg : string)
| MapcheteProcessSyntaxError (msg : string)
| MapcheteDriverError (msg : string)
| ValueError (msg : string)
| TypeError (msg : string)
| KeyError (msg : string)
| AttributeError (msg : string)
| NotImplementedError (msg : string).

Definition exn_msg (e : exn) : string :=
  match e with
  | MapcheteConfigError m | MapcheteProcessSyntaxError m
  | MapcheteDriverError m | ValueError m | TypeError m | KeyError m
  | AttributeError m | NotImplementedError m => m
  end.

Inductive result (A : Type) : Type :=
| Ok (a : A)
| Raise (e : exn).
Arguments Ok {A} a.
Arguments Raise {A} e.

Definition rbind {A B} (r : result A) (k : A -> result B) : result B :=
  match r with
  | Ok a => k a
  | Raise e => Raise e
  end.

Declare Scope result_scope.
Delimit Scope result_scope with result.
Notation "x <- r ;; k" := (rbind r (fun x => k))
  (at level 61, r at next level, right associativity) : result_scope.
Open Scope result_scope.

Definition is_ok {A} (r : result A) : bool :=
  match r with Ok _ => true | Raise _ => false end.

(** [try: ... except Exception as e: raise MapcheteConfigError(e)] *)
Definition reraise_config {A} (r : result A) : result A :=
  match r with
  | Ok a => Ok a
  | Raise e => Raise (MapcheteConfigError (exn_msg e))
  end.

(* ===================================================================== *)
(** ** Python strings *)
(* ===================================================================== *)

Module PyStr.

Definition mem (c : ascii) (chars : string) : bool :=
  existsb (Ascii.eqb c) (list_ascii_of_string chars).

(** [s.lstrip(chars)] *)
Fixpoint lstrip (chars s : string) : string :=
  match s with
  | EmptyString => EmptyString
  | String c s' => if mem c chars then lstrip chars s' else s
  end.

Definition rev (s : string) : string :=
  string_of_list_ascii (List.rev (list_ascii_of_string s)).

(** [s.rstrip(chars)] *)
Definition rstrip (chars s : string) : string :=
  rev (lstrip chars (rev s)).

(** [s.strip(chars)] *)
Definition strip (chars s : string) : string :=
  rstrip chars (lstrip chars s).

(** The characters [str.strip()] removes, among the first 256 code points:
    TAB, LF, VT, FF, CR, the separators U+001C to U+001F, space, U+0085
    and U+00A0. *)
Definition whitespace : string :=
  string_of_list_ascii
    (map ascii_of_nat [9; 10; 11; 12; 13; 28; 29; 30; 31; 32; 133; 160]%nat).

(** The characters [int(s)] skips at both ends of [s]: those of
    [str.strip()] but the separators U+001C to U+001F, which [int] leaves
    in place ([int("\x1f5")] is a [ValueError], [int("\xa05")] is 5). *)
Definition int_whitespace : string :=
  string_of_list_ascii
    (map ascii_of_nat [9; 10; 11; 12; 13; 32; 133; 160]%nat).

(** [s.strip()] *)
Definition strip_ws (s : string) : string := strip whitespace s.

(** [s.startswith(p)] *)
Definition startswith (p s : string) : bool := String.prefix p s.

Definition digit_of (c : ascii) : option Z :=
  let n := Z.of_nat (nat_of_ascii c) in
  if (48 <=? n) && (n <=? 57) then Some (n - 48) else None.

(** The digits of an integer literal.  One underscore may stand between
    two digits; [after_digit] tells that the character before was a digit,
    which an underscore and the end of the literal both ask for. *)
Fixpoint digits (acc : Z) (after_digit : bool) (s : string) : option Z :=
  match s with
  | EmptyString => if after_digit then Some acc else None
  | String c s' =>
      match digit_of c with
      | Some d => digits (10 * acc + d) true s'
      | None =>
          if Ascii.eqb c "_" && after_digit then digits acc false s'
          else None
      end
  end.

Definition unsigned (s : string) : option Z := digits 0 false s.

(** [int(s)] on a string: the white space at both ends is skipped, then
    come one optional sign and decimal digits, single underscores allowed
    between them (["1_0"] is 10), and nothing else.  [None] stands for the
    [ValueError] of an invalid literal.  The cap an interpreter may set on
    the number of digits ([sys.set_int_max_str_digits]) is left out. *)
Definition int (s : string) : option Z :=
  match strip int_whitespace s with
  | String "-" r => option_map Z.opp (unsigned r)
  | String "+" r => unsigned r
  | t => unsigned t
  end.

(** [sep.join(parts)] *)
Fixpoint join (sep : string) (parts : list string) : string :=
  match parts with
  | [] => EmptyString
  | [p] => p
  | p :: rest => p ++ sep ++ join sep rest
  end.

(** [s.split("/")]: the segments between the slashes, never empty as a
    list. *)
Fixpoint split_slash (s : string) : list string :=
  match s with
  | EmptyString => [EmptyString]
  | String c s' =>
      if Ascii.eqb c "/" then EmptyString :: split_slash s'
      else match split_slash s' with
           | [] => [String c EmptyString]
           | seg :: segs => String c seg :: segs
           end
  end.

(** ["/" in s] *)
Fixpoint has_slash (s : string) : bool :=
  match s with
  | EmptyString => false
  | String c s' => Ascii.eqb c "/" || has_slash s'
  end.

End PyStr.

(* ===================================================================== *)
(** ** Python values and dictionaries *)
(* ===================================================================== *)

#[warnings="-register-all"]
Inductive pyval : Type :=
| PNone
| PInt (z : Z)
| PStr (s : string)
| PList (l : list pyval)
| PDict (d : list (string * pyval))
| PObj (id : nat).   (* an opaque driver object, known by its identity *)

Definition dict : Type := list (string * pyval).

Definition is_none (v : pyval) : bool :=
  match v with PNone => true | _ => false end.

Section Dict.
Variable V : Type.

(** [d.get(k)] / [d[k]] *)
Fixpoint dict_get (d : list (string * V)) (k : string) : option V :=
  match d with
  | [] => None
  | (k', v) :: d' => if String.eqb k k' then Some v else dict_get d' k
  end.

(** [k in d] *)
Definition dict_in (k : string) (d : list (string * V)) : bool :=
  match dict_get d k with Some _ => true | None => false end.

(** [d[k] = v]: an existing key keeps its place, a new key goes last. *)
Fixpoint dict_set (d : list (string * V)) (k : string) (v : V)
  : list (string * V) :=
  match d with
  | [] => [(k, v)]
  | (k', v') :: d' =>
      if String.eqb k k' then (k', v) :: d'
      else (k', v') :: dict_set d' k v
  end.

(** [d.update(e)] *)
Definition dict_update (d e : list (string * V)) : list (string * V) :=
  fold_left (fun acc kv => dict_set acc (fst kv) (snd kv)) e d.

(** [dict(items)] *)
Definition dict_of_items (items : list (string * V)) : list (string * V) :=
  dict_update [] items.

Definition dict_keys (d : list (string * V)) : list string := map fst d.
End Dict.

(** [d.get(k, default)] *)
Definition dict_get_default (d : dict) (k : string) (default : pyval) : pyval :=
  match dict_get d k with Some v => v | None => default end.

(** [d[k]], raising [KeyError] *)
Definition dict_getitem (d : dict) (k : string) : result pyval :=
  match dict_get d k with Some v => Ok v | None => Raise (KeyError k) end.

(** [isinstance(value, dict) and "format" not in value]: the mappings the
    tree codec descends into; every other value is a leaf. *)
Definition is_branch (v : pyval) : bool :=
  match v with
  | PDict d => negb (dict_in "format" d)
  | _ => false
  end.

(* ===================================================================== *)
(** ** Zoom filtering: [_strip_zoom] and [_element_at_zoom] *)
(* ===================================================================== *)

Definition zoom_error : exn :=
  MapcheteConfigError "zoom level could not be determined".

Definition _strip_zoom (input_string strip_string : string) : result Z :=
  match PyStr.int (PyStr.strip strip_string input_string) with
  | Some z => Ok z
  | None => Raise zoom_error
  end.

(** The non-dictionary branch of [_element_at_zoom]; a comparison that does
    not hold falls off the end of the Python function, which returns
    [None]. *)
Definition zoom_statement (name : string) (element : pyval) (zoom : Z)
  : result pyval :=
  if PyStr.startswith "zoom" name then
    let cleaned := PyStr.strip_ws (PyStr.strip "zoom" name) in
    if PyStr.startswith "=" cleaned then
      z <- _strip_zoom cleaned "=" ;;
      Ok (if zoom =? z then element else PNone)
    else if PyStr.startswith "<=" cleaned then
      z <- _strip_zoom cleaned "<=" ;;
      Ok (if zoom <=? z then element else PNone)
    else if PyStr.startswith ">=" cleaned then
      z <- _strip_zoom cleaned ">=" ;;
      Ok (if zoom >=? z then element else PNone)
    else if PyStr.startswith "<" cleaned then
      z <- _strip_zoom cleaned "<" ;;
      Ok (if zoom <? z then element else PNone)
    else if PyStr.startswith ">" cleaned then
      z <- _strip_zoom cleaned ">" ;;
      Ok (if zoom >? z then element else PNone)
    else Ok PNone
  else Ok element.

(** [next(six.itervalues(d))] on a dictionary of length one. *)
Definition first_value (d : dict) : pyval :=
  match d with
  | (_, v) :: _ => v
  | [] => PNone
  end.

Definition collapse (name : string) (out_elements : dict) : pyval :=
  if (Nat.eqb (length out_elements) 1) && negb (String.eqb name "input")
  then first_value out_elements
  else if Nat.eqb (length out_elements) 0 then PNone
  else PDict out_elements.

Fixpoint _element_at_zoom (name : string) (element : pyval) (zoom : Z)
  {struct element} : result pyval :=
  match element with
  | PDict d =>
      if dict_in "format" d then Ok element
      else
        out_elements <-
          (fix items (l : list (string * pyval)) (out_elements : dict)
             {struct l} : result dict :=
             match l with
             | [] => Ok out_elements
             | (sub_name, sub_element) :: l' =>
                 out_element <- _element_at_zoom sub_name sub_element zoom ;;
                 if String.eqb name "input" then
                   items l' (dict_set out_elements sub_name out_element)
                 else if negb (is_none out_element) then
                   items l' (dict_set out_elements sub_name out_element)
                 else items l' out_elements
             end) d [] ;;
        Ok (collapse name out_elements)
  | _ => zoom_statement name element zoom
  end.

(* ===================================================================== *)
(** ** Tree codec: [_flatten_tree] and [_unflatten_tree] *)
(* ===================================================================== *)

(** [new_path = "/".join([old_path, key]) if old_path else key]; an empty
    [old_path] is falsy like [None]. *)
Definition new_path (old_path : option string) (key : string) : string :=
  match old_path with
  | Some (String _ _ as p) => PyStr.join "/" [p; key]
  | _ => key
  end.

(** One turn of the loop of [_flatten_tree], at the entry whose path is
    [path]: a mapping without ["format"] is walked through, anything else is
    appended whole. *)
Fixpoint flatten_value (path : string) (value : pyval) {struct value}
  : list (string * pyval) :=
  match value with
  | PDict d =>
      if negb (dict_in "format" d) then
        (fix items (l : list (string * pyval)) : list (string * pyval) :=
           match l with
           | [] => []
           | (key, v) :: l' =>
               (flatten_value (new_path (Some path) key) v ++ items l')%list
           end) d
      else [(path, value)]
  | _ => [(path, value)]
  end.

Definition _flatten_tree (tree : dict) (old_path : option string)
  : list (string * pyval) :=
  flat_map (fun kv => flatten_value (new_path old_path (fst kv)) (snd kv)) tree.

(** Termination of [_unflatten_tree]: the key handed to the recursive call
    is a proper suffix of the key it comes from. *)
Lemma split_slash_nonempty (s : string) : PyStr.split_slash s <> [].
Proof.
  destruct s as [| c s]; cbn; [discriminate |].
  destruct (Ascii.eqb c "/"); [discriminate |].
  destruct (PyStr.split_slash s); discriminate.
Qed.

Lemma join_cons_cons (sep p q : string) (l : list string) :
  PyStr.join sep (p :: q :: l) = p ++ sep ++ PyStr.join sep (q :: l).
Proof. reflexivity. Qed.

Lemma join_split_slash (s : string) :
  PyStr.join "/" (PyStr.split_slash s) = s.
Proof.
  induction s as [| c s IH]; [reflexivity |].
  cbn [PyStr.split_slash].
  pose proof (split_slash_nonempty s) as Hne.
  destruct (PyStr.split_slash s) as [| seg segs]; [congruence |].
  destruct (Ascii.eqb_spec c "/") as [-> | Hc].
  - rewrite join_cons_cons, IH. reflexivity.
  - destruct segs as [| seg' segs].
    + cbn in *. now subst.
    + rewrite join_cons_cons in *. rewrite <- IH. reflexivity.
Qed.

Lemma length_append (s t : string) :
  String.length (s ++ t) = (String.length s + String.length t)%nat.
Proof. induction s as [| c s IH]; cbn; [reflexivity | now rewrite IH]. Qed.

Lemma split_slash_tail_shorter (key p0 : string) (rest : list string) :
  PyStr.split_slash key = p0 :: rest -> rest <> [] ->
  (String.length (PyStr.join "/" rest) < String.length key)%nat.
Proof.
  intros E Hrest.
  pose proof (join_split_slash key) as J. rewrite E in J.
  destruct rest as [| p1 rest']; [congruence |].
  rewrite join_cons_cons in J. rewrite <- J.
  rewrite !length_append. cbn [String.length]. lia.
Qed.

Definition flat_size (flat : dict) : nat :=
  fold_right (fun kv n => S (String.length (fst kv) + n))%nat O flat.

Definition type_error : exn := TypeError "not a mapping".

(** The members of a value that is read as a sequence: the characters of a
    string, the members of a list, the keys of a mapping.  Nothing else
    among the embedded values is iterable. *)
Definition members (v : pyval) : option (list pyval) :=
  match v with
  | PStr s =>
      Some (map (fun c => PStr (String c EmptyString))
              (list_ascii_of_string s))
  | PList l => Some l
  | PDict d => Some (map (fun kv => PStr (fst kv)) d)
  | _ => None
  end.

(** [d.update(other)] for an [other] that is no mapping: every member of
    [other] is read as a sequence of two, a key and a value.  A key that is
    a list or a mapping is not hashable.  A key that is hashable and no
    string would make a mapping with a key that is no string, which is
    outside the embedded values; the model stops there with
    [NotImplementedError]. *)
Fixpoint update_pairs (d : dict) (items : list pyval) : result dict :=
  match items with
  | [] => Ok d
  | item :: items' =>
      match members item with
      | None =>
          Raise (TypeError "cannot convert dictionary update sequence element")
      | Some [PStr k; v] => update_pairs (dict_set d k v) items'
      | Some [PList _; _] | Some [PDict _; _] =>
          Raise (TypeError "unhashable type")
      | Some [_; _] => Raise (NotImplementedError "a key that is no string")
      | Some _ =>
          Raise (ValueError "dictionary update sequence element has not length 2")
      end
  end.

(** [d.update(other)]: a mapping hands over its pairs, any other value is
    read as a sequence of pairs; one that has no member, as the empty
    string and the empty list, leaves [d] as it is. *)
Definition py_update (d : dict) (other : pyval) : result dict :=
  match other with
  | PDict e => Ok (dict_update d e)
  | _ =>
      match members other with
      | Some items => update_pairs d items
      | None => Raise (TypeError "object is not iterable")
      end
  end.

(** The [else] branch of [_unflatten_tree], [tree[p0]] being [t0]:
    [tree[p0][p1] = branch[p1]] when [p1] is new under [p0], and
    [tree[p0][p1].update(branch[p1])] otherwise, which asks
    [tree[p0][p1]] for its [update] before [branch[p1]] is read.  A
    [tree[p0]] that is no mapping raises [TypeError], at [p1 in tree[p0]]
    or at the subscript that follows. *)
Definition merge_branch (tree : dict) (p0 p1 : string) (t0 : pyval)
  (branch : dict) : result dict :=
  match t0 with
  | PDict d0 =>
      match dict_get d0 p1 with
      | None =>
          b1 <- dict_getitem branch p1 ;;
          Ok (dict_set tree p0 (PDict (dict_set d0 p1 b1)))
      | Some (PDict d1) =>
          b1 <- dict_getitem branch p1 ;;
          d1' <- py_update d1 b1 ;;
          Ok (dict_set tree p0 (PDict (dict_set d0 p1 (PDict d1'))))
      | Some _ => Raise (AttributeError "object has no attribute 'update'")
      end
  | _ => Raise type_error
  end.

(** The loop of [_unflatten_tree] over the items of [flat], [tree] being the
    dictionary built so far; the recursive calls of the source start from an
    empty [tree]. *)
Equations? _unflatten_loop (flat : dict) (tree : dict) : result dict
  by wf (flat_size flat) lt :=
  _unflatten_loop [] tree := Ok tree;
  _unflatten_loop ((key, value) :: flat') tree
    with Logic.inspect (PyStr.split_slash key) := {
    | exist _ (p0 :: p1 :: rest) e =>
        match dict_get tree p0 with
        | None =>
            sub <- _unflatten_loop [(PyStr.join "/" (p1 :: rest), value)] [] ;;
            _unflatten_loop flat' (dict_set tree p0 (PDict sub))
        | Some t0 =>
            branch <-
              _unflatten_loop [(PyStr.join "/" (p1 :: rest), value)] [] ;;
            tree' <- merge_branch tree p0 p1 t0 branch ;;
            _unflatten_loop flat' tree'
        end
    | exist _ _ e => _unflatten_loop flat' (dict_set tree key value) }.
Proof.
  all: try (cbn; lia).
  all: pose proof (@split_slash_tail_shorter key p0 (p1 :: rest) e
                     ltac:(discriminate)) as Hlt;
       cbn in Hlt |- *; lia.
Qed.

Definition _unflatten_tree (flat : dict) : result dict :=
  _unflatten_loop flat [].

(** The trees the codec is exact on.  Keys are not empty and hold no
    slash, no key occurs twice in one mapping, no mapping that is walked
    through is empty, and [codec_tree depth tree] bounds the flattened
    paths of [tree] by [S depth] segments. *)
Definition key_ok (k : string) : bool :=
  negb (String.eqb k EmptyString) && negb (PyStr.has_slash k).

Fixpoint nodup_keys (l : list string) : bool :=
  match l with
  | [] => true
  | k :: l' => negb (existsb (String.eqb k) l') && nodup_keys l'
  end.

Definition is_empty (d : dict) : bool :=
  match d with [] => true | _ => false end.

Fixpoint codec_tree (depth : nat) (tree : dict) : bool :=
  nodup_keys (dict_keys tree) &&
  forallb
    (fun kv =>
       key_ok (fst kv) &&
       (if is_branch (snd kv) then
          match depth, snd kv with
          | S n, PDict d => negb (is_empty d) && codec_tree n d
          | _, _ => false
          end
        else true))
    tree.

(** The tree with the same mappings and [f] applied to every leaf. *)
Fixpoint map_leaves (f : pyval -> pyval) (v : pyval) {struct v} : pyval :=
  match v with
  | PDict d =>
      if negb (dict_in "format" d)
      then PDict (map (fun kv => (fst kv, map_leaves f (snd kv))) d)
      else f v
  | _ => f v
  end.

Definition map_tree (f : pyval -> pyval) (tree : dict) : dict :=
  map (fun kv => (fst kv, map_leaves f (snd kv))) tree.

(** [[(k, f(v)) for k, v in items]] *)
Definition map_values (f : pyval -> pyval) (items : list (string * pyval))
  : list (string * pyval) :=
  map (fun kv => (fst kv, f (snd kv))) items.

(** Python's [==] on the embedded values: sequences compare in order,
    mappings as sets of key-value pairs. *)
Fixpoint py_eq (a b : pyval) {struct a} : bool :=
  match a, b with
  | PNone, PNone => true
  | PInt x, PInt y => Z.eqb x y
  | PStr s, PStr t => String.eqb s t
  | PObj i, PObj j => Nat.eqb i j
  | PList l, PList m =>
      (fix all2 (l : list pyval) (m : list pyval) {struct l} : bool :=
         match l, m with
         | [], [] => true
         | x :: l', y :: m' => py_eq x y && all2 l' m'
         | _, _ => false
         end) l m
  | PDict d, PDict e =>
      Nat.eqb (length d) (length e) &&
      (fix all (l : list (string * pyval)) {struct l} : bool :=
         match l with
         | [] => true
         | (k, v) :: l' =>
             match dict_get e k with
             | Some w => py_eq v w
             | None => false
             end && all l'
         end) d
  | _, _ => false
  end.

(** Python's [<] on the embedded values: integers by their value, strings
    by their code points, lists by the first members that differ, a
    proper prefix coming first.  Nothing else is ordered: the comparison
    raises [TypeError]. *)
Fixpoint py_lt (a b : pyval) {struct a} : result bool :=
  match a, b with
  | PInt x, PInt y => Ok (x <? y)
  | PStr s, PStr t => Ok (String.ltb s t)
  | PList l, PList m =>
      (fix first_differing (l : list pyval) (m : list pyval) {struct l}
         : result bool :=
         match l, m with
         | [], [] => Ok false
         | [], _ :: _ => Ok true
         | _ :: _, [] => Ok false
         | x :: l', y :: m' =>
             if py_eq x y then first_differing l' m' else py_lt x y
         end) l m
  | _, _ => Raise (TypeError "unorderable types")
  end.

(** [min(l)] and [max(l)]: the first member stays until a later one is
    smaller, or larger. *)
Fixpoint py_min_from (m : pyval) (l : list pyval) : result pyval :=
  match l with
  | [] => Ok m
  | y :: l' =>
      smaller <- py_lt y m ;;
      py_min_from (if smaller then y else m) l'
  end.

Fixpoint py_max_from (m : pyval) (l : list pyval) : result pyval :=
  match l with
  | [] => Ok m
  | y :: l' =>
      larger <- py_lt m y ;;
      py_max_from (if larger then y else m) l'
  end.

Definition py_min (l : list pyval) : result pyval :=
  match l with
  | [] => Raise (ValueError "min() arg is an empty sequence")
  | x :: l' => py_min_from x l'
  end.

Definition py_max (l : list pyval) : result pyval :=
  match l with
  | [] => Raise (ValueError "max() arg is an empty sequence")
  | x :: l' => py_max_from x l'
  end.

(* ===================================================================== *)
(** ** Content identity: [json.dumps] and [get_hash] *)
(* ===================================================================== *)

Module Json.

Definition hex_digit (n : nat) : ascii :=
  match n with
  | 0 => "0" | 1 => "1" | 2 => "2" | 3 => "3" | 4 => "4" | 5 => "5"
  | 6 => "6" | 7 => "7" | 8 => "8" | 9 => "9" | 10 => "a" | 11 => "b"
  | 12 => "c" | 13 => "d" | 14 => "e" | _ => "f"
  end%nat%char.

(** One character inside a JSON string, [ensure_ascii] being on: the
    quote and the backslash are escaped, the usual control characters
    have their short form, and every other character outside the
    printable ASCII range is written as a four-digit unicode escape (strings are
    taken as sequences of code points below 256). *)
Definition backslash : string := String (ascii_of_nat 92) EmptyString.

Definition escape_char (c : ascii) : string :=
  let n := nat_of_ascii c in
  if Nat.eqb n 34 then backslash ++ String c EmptyString
  else if Nat.eqb n 92 then backslash ++ backslash
  else if Nat.eqb n 10 then backslash ++ "n"
  else if Nat.eqb n 13 then backslash ++ "r"
  else if Nat.eqb n 9 then backslash ++ "t"
  else if Nat.eqb n 8 then backslash ++ "b"
  else if Nat.eqb n 12 then backslash ++ "f"
  else if (Nat.leb 32 n) && (Nat.leb n 126) then String c EmptyString
  else backslash ++ "u00"
       ++ String (hex_digit (n / 16))
            (String (hex_digit (n mod 16)) EmptyString).

Fixpoint escape (s : string) : string :=
  match s with
  | EmptyString => EmptyString
  | String c s' => escape_char c ++ escape s'
  end.

Definition quoted (s : string) : string :=
  String (ascii_of_nat 34) (escape s ++ String (ascii_of_nat 34) EmptyString).

Definition number (z : Z) : string := NilZero.string_of_int (Z.to_int z).

(** [json.dumps(x)] with its default separators; the pairs of a mapping
    are written in the order the mapping holds them ([sort_keys] is
    off). *)
Fixpoint dumps (x : pyval) {struct x} : result string :=
  match x with
  | PNone => Ok "null"
  | PInt z => Ok (number z)
  | PStr s => Ok (quoted s)
  | PList l =>
      parts <-
        (fix elements (l : list pyval) : result (list string) :=
           match l with
           | [] => Ok []
           | v :: l' =>
               s <- dumps v ;;
               rest <- elements l' ;;
               Ok (s :: rest)
           end) l ;;
      Ok ("[" ++ PyStr.join ", " parts ++ "]")
  | PDict d =>
      parts <-
        (fix pairs (l : list (string * pyval)) : result (list string) :=
           match l with
           | [] => Ok []
           | (k, v) :: l' =>
               s <- dumps v ;;
               rest <- pairs l' ;;
               Ok ((quoted k ++ ": " ++ s) :: rest)
           end) d ;;
      Ok ("{" ++ PyStr.join ", " parts ++ "}")
  | PObj _ => Raise (TypeError "is not JSON serializable")
  end.

End Json.

(** The key of the input registry: the integer [hash] returns, or [None]
    for a value that is neither a string nor a mapping. *)
Definition identity : Type := option Z.

Definition identity_eqb (a b : identity) : bool :=
  match a, b with
  | Some x, Some y => Z.eqb x y
  | None, None => true
  | _, _ => false
  end.

(** Dictionaries whose keys are identities or zoom levels. *)
Section KeyedDict.
Variables K V : Type.
Variable eqb : K -> K -> bool.

Fixpoint kd_get (d : list (K * V)) (k : K) : option V :=
  match d with
  | [] => None
  | (k', v) :: d' => if eqb k k' then Some v else kd_get d' k
  end.

Fixpoint kd_set (d : list (K * V)) (k : K) (v : V) : list (K * V) :=
  match d with
  | [] => [(k, v)]
  | (k', v') :: d' =>
      if eqb k k' then (k', v) :: d' else (k', v') :: kd_set d' k v
  end.
End KeyedDict.

(* ===================================================================== *)
(** ** Types, validation and normalisation of the raw document *)
(* ===================================================================== *)

Inductive pytype : Type := TNone | TInt | TStr | TList | TDict | TObj.

Definition type_of (v : pyval) : pytype :=
  match v with
  | PNone => TNone
  | PInt _ => TInt
  | PStr _ => TStr
  | PList _ => TList
  | PDict _ => TDict
  | PObj _ => TObj
  end.

Definition pytype_eqb (a b : pytype) : bool :=
  match a, b with
  | TNone, TNone | TInt, TInt | TStr, TStr | TList, TList | TDict, TDict
  | TObj, TObj => true
  | _, _ => false
  end.

(** [isinstance(v, vtype)], [vtype] a type or a tuple of types *)
Definition isinstance (v : pyval) (vtype : list pytype) : bool :=
  existsb (pytype_eqb (type_of v)) vtype.

Definition validate_values (config : pyval) (values : list (string * list pytype))
  : result bool :=
  match config with
  | PDict config =>
      (fix check (values : list (string * list pytype)) : result bool :=
         match values with
         | [] => Ok true
         | (value, vtype) :: values' =>
             match dict_get config value with
             | None => Raise (ValueError (value ++ " not given"))
             | Some x =>
                 if isinstance x vtype then check values'
                 else Raise (TypeError (value ++ " has the wrong type"))
             end
         end) values
  | _ => Raise (TypeError "config must be a dictionary")
  end.

(** left, bottom, right, top *)
Definition Bounds : Type := (Z * Z * Z * Z)%type.

Definition bounds_error : exn := MapcheteConfigError "bounds not valid".

(** [_validate_bounds]; the three tests are evaluated before [any] looks at
    them, so a value without a length raises [TypeError]. *)
Definition _validate_bounds (bounds : pyval) : result Bounds :=
  match bounds with
  | PList [PInt l; PInt b; PInt r; PInt t] => Ok (l, b, r, t)
  | PList _ | PStr _ | PDict _ => Raise bounds_error
  | PNone | PInt _ | PObj _ => Raise (TypeError "object has no len()")
  end.

(** [range(lo, hi)] *)
Definition py_range (lo hi : Z) : list Z :=
  map (fun i => lo + Z.of_nat i) (seq 0 (Z.to_nat (hi - lo))).

(** [z in zooms] *)
Definition zoom_in (z : Z) (zooms : list Z) : bool := existsb (Z.eqb z) zooms.

(** [_map_to_new_config]; the deprecation warnings are not modelled. *)
Definition _map_to_new_config (config : dict) : result dict :=
  config <-
    (if negb (dict_in "pyramid" config) then
       if negb (dict_in "output" config)
       then Raise (MapcheteConfigError "output not provided")
       else
         output <- dict_getitem config "output" ;;
         grid <-
           match output with
           | PDict o => dict_getitem o "type"
           | _ => Raise (TypeError "output is not subscriptable")
           end ;;
         Ok (dict_set config "pyramid"
               (PDict [("grid", grid);
                       ("metatiling",
                        dict_get_default config "metatiling" (PInt 1));
                       ("pixelbuffer",
                        dict_get_default config "pixelbuffer" (PInt 0))]))
     else Ok config) ;;
  config <-
    (if negb (dict_in "zoom_levels" config) then
       match dict_get config "process_zoom" with
       | Some z => Ok (dict_set config "zoom_levels" z)
       | None =>
           match dict_get config "process_minzoom",
                 dict_get config "process_maxzoom" with
           | Some lo, Some hi =>
               Ok (dict_set config "zoom_levels"
                     (PDict [("min", lo); ("max", hi)]))
           | _, _ =>
               Raise (MapcheteConfigError
                        "process zoom levels not provided in config")
           end
       end
     else Ok config) ;;
  let config :=
    if negb (dict_in "bounds" config) then
      match dict_get config "process_bounds" with
      | Some b => dict_set config "bounds" b
      | None => dict_set config "bounds" PNone
      end
    else config in
  if negb (dict_in "input" config) then
    match dict_get config "input_files" with
    | Some i => Ok (dict_set config "input" i)
    | None => Raise (MapcheteConfigError "no 'input' found")
    end
  else if dict_in "input_files" config then
    Raise (MapcheteConfigError
             "'input' and 'input_files' are not allowed at the same time")
  else Ok config.

(** [_RESERVED_PARAMETERS] *)
Definition _RESERVED_PARAMETERS : list string :=
  ["baselevels"; "pyramid"; "zoom_levels"; "bounds"; "process_file";
   "config_dir"; "process_minzoom"; "process_maxzoom"; "process_zoom";
   "process_bounds"; "metatiling"; "pixelbuffer"].

Definition str_in (s : string) (l : list string) : bool :=
  existsb (String.eqb s) l.

(** The parameters of one zoom level, the inner loop of [_raw_at_zoom]. *)
Fixpoint params_at (config : dict) (zoom : Z) (params : dict) : result dict :=
  match config with
  | [] => Ok params
  | (name, element) :: config' =>
      if negb (str_in name _RESERVED_PARAMETERS) then
        out_element <- _element_at_zoom name element zoom ;;
        if negb (is_none out_element)
        then params_at config' zoom (dict_set params name out_element)
        else params_at config' zoom params
      else params_at config' zoom params
  end.

Fixpoint raw_at_zooms (config : dict) (zooms : list Z)
  (params_per_zoom : list (Z * dict)) : result (list (Z * dict)) :=
  match zooms with
  | [] => Ok params_per_zoom
  | zoom :: zooms' =>
      params <- params_at config zoom [] ;;
      raw_at_zooms config zooms' (kd_set Z.eqb params_per_zoom zoom params)
  end.

Definition _raw_at_zoom (config : dict) (zooms : list Z)
  : result (list (Z * dict)) :=
  raw_at_zooms config zooms [].

(* ===================================================================== *)
(** ** The collaborators outside the module *)
(* ===================================================================== *)

(** [dict(zoom=..., bounds=..., process_bounds=...)] *)
Record Delimiters : Type := {
  delim_zoom : list Z;
  delim_bounds : Bounds;
  delim_process_bounds : Bounds
}.

(** The dictionary [load_input_reader] is called with. *)
Inductive input_params (pyramid : Type) : Type :=
| PathParams (path : string) (pyr : pyramid) (pixelbuffer : pyval)
    (delimiters : Delimiters)
| AbstractParams (abstract : dict) (pyr : pyramid) (pixelbuffer : pyval)
    (delimiters : Delimiters) (conf_dir : pyval).

(** What the module imports: the [hash] builtin, [os.path], [py_compile],
    [yaml], [mapchete.tile], [mapchete.formats] and [shapely]. *)
Class Externals : Type := {
  hash : string -> Z;
  os_path_join : string -> string -> string;
  os_path_normpath : string -> string;
  os_path_isfile : string -> bool;
  os_path_splitext_ext : string -> string;
  os_path_dirname_realpath : string -> string;
  py_compile_compile : string -> bool;
  yaml_load_file : string -> result pyval;
  pyramid : Type;
  crs : Type;
  BufferedTilePyramid : pyval -> pyval -> pyval -> result pyramid;
  pyramid_type : pyramid -> pyval;
  pyramid_metatiling : pyramid -> pyval;
  pyramid_pixelbuffer : pyramid -> pyval;
  pyramid_bounds : pyramid -> Bounds;
  pyramid_crs : pyramid -> crs;
  writer : Type;
  reader : Type;
  available_output_formats : list string;
  load_output_writer : dict -> result writer;
  is_valid_with_config : writer -> dict -> result bool;
  load_input_reader : input_params pyramid -> bool -> result reader;
  geom : Type;
  bbox : reader -> crs -> result geom;
  box : Bounds -> geom;
  cascaded_union : list geom -> geom;
  intersection : geom -> geom -> geom;
  buffer0 : geom -> geom;
  geom_is_empty : geom -> bool;
  geom_bounds : geom -> Bounds
}.

Section Config.
Context {E : Externals}.

Definition get_hash (x : pyval) : result identity :=
  match x with
  | PStr s => Ok (Some (hash s))
  | PDict _ => s <- Json.dumps x ;; Ok (Some (hash s))
  | _ => Ok None
  end.

(** An input object: what the driver returned, and the identity of the
    Python object, its rank among the objects the registry created. *)
Record InputData : Type := {
  obj_id : nat;
  obj_reader : reader
}.

Definition registry : Type := list (identity * InputData).

Record Baselevels : Type := {
  bl_zooms : list Z;
  bl_lower : pyval;
  bl_higher : pyval;
  bl_tile_pyramid : pyramid
}.

(** The attributes of a [MapcheteConfig]; the last seven hold what
    [cached_property] has stored, [None] before the first access. *)
Record MapcheteConfig : Type := {
  _raw : dict;
  _cache_area_at_zoom : list (Z * geom);
  _cache_full_process_area : option geom;
  process_file : string;
  config_dir : pyval;
  process_pyramid : pyramid;
  output_pyramid : pyramid;
  mode : string;
  _params_at_zoom : list (Z * dict);
  zoom_levels_slot : option (list Z);
  init_zoom_levels_slot : option (list Z);
  bounds_slot : option Bounds;
  init_bounds_slot : option Bounds;
  output_slot : option writer;
  input_slot : option registry;
  baselevels_slot : option (option Baselevels)
}.

Definition set_raw (v : dict) (c : MapcheteConfig) : MapcheteConfig :=
  {| _raw := v;
     _cache_area_at_zoom := _cache_area_at_zoom c;
     _cache_full_process_area := _cache_full_process_area c;
     process_file := process_file c; config_dir := config_dir c;
     process_pyramid := process_pyramid c;
     output_pyramid := output_pyramid c; mode := mode c;
     _params_at_zoom := _params_at_zoom c;
     zoom_levels_slot := zoom_levels_slot c;
     init_zoom_levels_slot := init_zoom_levels_slot c;
     bounds_slot := bounds_slot c; init_bounds_slot := init_bounds_slot c;
     output_slot := output_slot c; input_slot := input_slot c;
     baselevels_slot := baselevels_slot c |}.

Definition set_cache_area_at_zoom (v : list (Z * geom)) (c : MapcheteConfig)
  : MapcheteConfig :=
  {| _raw := _raw c;
     _cache_area_at_zoom := v;
     _cache_full_process_area := _cache_full_process_area c;
     process_file := process_file c; config_dir := config_dir c;
     process_pyramid := process_pyramid c;
     output_pyramid := output_pyramid c; mode := mode c;
     _params_at_zoom := _params_at_zoom c;
     zoom_levels_slot := zoom_levels_slot c;
     init_zoom_levels_slot := init_zoom_levels_slot c;
     bounds_slot := bounds_slot c; init_bounds_slot := init_bounds_slot c;
     output_slot := output_slot c; input_slot := input_slot c;
     baselevels_slot := baselevels_slot c |}.

Definition set_cache_full_process_area (v : option geom)
  (c : MapcheteConfig) : MapcheteConfig :=
  {| _raw := _raw c;
     _cache_area_at_zoom := _cache_area_at_zoom c;
     _cache_full_process_area := v;
     process_file := process_file c; config_dir := config_dir c;
     process_pyramid := process_pyramid c;
     output_pyramid := output_pyramid c; mode := mode c;
     _params_at_zoom := _params_at_zoom c;
     zoom_levels_slot := zoom_levels_slot c;
     init_zoom_levels_slot := init_zoom_levels_slot c;
     bounds_slot := bounds_slot c; init_bounds_slot := init_bounds_slot c;
     output_slot := output_slot c; input_slot := input_slot c;
     baselevels_slot := baselevels_slot c |}.

Definition set_params_at_zoom (v : list (Z * dict)) (c : MapcheteConfig)
  : MapcheteConfig :=
  {| _raw := _raw c;
     _cache_area_at_zoom := _cache_area_at_zoom c;
     _cache_full_process_area := _cache_full_process_area c;
     process_file := process_file c; config_dir := config_dir c;
     process_pyramid := process_pyramid c;
     output_pyramid := output_pyramid c; mode := mode c;
     _params_at_zoom := v;
     zoom_levels_slot := zoom_levels_slot c;
     init_zoom_levels_slot := init_zoom_levels_slot c;
     bounds_slot := bounds_slot c; init_bounds_slot := init_bounds_slot c;
     output_slot := output_slot c; input_slot := input_slot c;
     baselevels_slot := baselevels_slot c |}.

Definition set_zoom_levels_slot (v : list Z) (c : MapcheteConfig)
  : MapcheteConfig :=
  {| _raw := _raw c;
     _cache_area_at_zoom := _cache_area_at_zoom c;
     _cache_full_process_area := _cache_full_process_area c;
     process_file := process_file c; config_dir := config_dir c;
     process_pyramid := process_pyramid c;
     output_pyramid := output_pyramid c; mode := mode c;
     _params_at_zoom := _params_at_zoom c;
     zoom_levels_slot := Some v;
     init_zoom_levels_slot := init_zoom_levels_slot c;
     bounds_slot := bounds_slot c; init_bounds_slot := init_bounds_slot c;
     output_slot := output_slot c; input_slot := input_slot c;
     baselevels_slot := baselevels_slot c |}.

Definition set_init_zoom_levels_slot (v : list Z) (c : MapcheteConfig)
  : MapcheteConfig :=
  {| _raw := _raw c;
     _cache_area_at_zoom := _cache_area_at_zoom c;
     _cache_full_process_area := _cache_full_process_area c;
     process_file := process_file c; config_dir := config_dir c;
     process_pyramid := process_pyramid c;
     output_pyramid := output_pyramid c; mode := mode c;
     _params_at_zoom := _params_at_zoom c;
     zoom_levels_slot := zoom_levels_slot c;
     init_zoom_levels_slot := Some v;
     bounds_slot := bounds_slot c; init_bounds_slot := init_bounds_slot c;
     output_slot := output_slot c; input_slot := input_slot c;
     baselevels_slot := baselevels_slot c |}.

Definition set_bounds_slot (v : Bounds) (c : MapcheteConfig)
  : MapcheteConfig :=
  {| _raw := _raw c;
     _cache_area_at_zoom := _cache_area_at_zoom c;
     _cache_full_process_area := _cache_full_process_area c;
     process_file := process_file c; config_dir := config_dir c;
     process_pyramid := process_pyramid c;
     output_pyramid := output_pyramid c; mode := mode c;
     _params_at_zoom := _params_at_zoom c;
     zoom_levels_slot := zoom_levels_slot c;
     init_zoom_levels_slot := init_zoom_levels_slot c;
     bounds_slot := Some v; init_bounds_slot := init_bounds_slot c;
     output_slot := output_slot c; input_slot := input_slot c;
     baselevels_slot := baselevels_slot c |}.

Definition set_init_bounds_slot (v : Bounds) (c : MapcheteConfig)
  : MapcheteConfig :=
  {| _raw := _raw c;
     _cache_area_at_zoom := _cache_area_at_zoom c;
     _cache_full_process_area := _cache_full_process_area c;
     process_file := process_file c; config_dir := config_dir c;
     process_pyramid := process_pyramid c;
     output_pyramid := output_pyramid c; mode := mode c;
     _params_at_zoom := _params_at_zoom c;
     zoom_levels_slot := zoom_levels_slot c;
     init_zoom_levels_slot := init_zoom_levels_slot c;
     bounds_slot := bounds_slot c; init_bounds_slot := Some v;
     output_slot := output_slot c; input_slot := input_slot c;
     baselevels_slot := baselevels_slot c |}.

Definition set_output_slot (v : writer) (c : MapcheteConfig)
  : MapcheteConfig :=
  {| _raw := _raw c;
     _cache_area_at_zoom := _cache_area_at_zoom c;
     _cache_full_process_area := _cache_full_process_area c;
     process_file := process_file c; config_dir := config_dir c;
     process_pyramid := process_pyramid c;
     output_pyramid := output_pyramid c; mode := mode c;
     _params_at_zoom := _params_at_zoom c;
     zoom_levels_slot := zoom_levels_slot c;
     init_zoom_levels_slot := init_zoom_levels_slot c;
     bounds_slot := bounds_slot c; init_bounds_slot := init_bounds_slot c;
     output_slot := Some v; input_slot := input_slot c;
     baselevels_slot := baselevels_slot c |}.

Definition set_input_slot (v : registry) (c : MapcheteConfig)
  : MapcheteConfig :=
  {| _raw := _raw c;
     _cache_area_at_zoom := _cache_area_at_zoom c;
     _cache_full_process_area := _cache_full_process_area c;
     process_file := process_file c; config_dir := config_dir c;
     process_pyramid := process_pyramid c;
     output_pyramid := output_pyramid c; mode := mode c;
     _params_at_zoom := _params_at_zoom c;
     zoom_levels_slot := zoom_levels_slot c;
     init_zoom_levels_slot := init_zoom_levels_slot c;
     bounds_slot := bounds_slot c; init_bounds_slot := init_bounds_slot c;
     output_slot := output_slot c; input_slot := Some v;
     baselevels_slot := baselevels_slot c |}.

Definition set_baselevels_slot (v : option Baselevels) (c : MapcheteConfig)
  : MapcheteConfig :=
  {| _raw := _raw c;
     _cache_area_at_zoom := _cache_area_at_zoom c;
     _cache_full_process_area := _cache_full_process_area c;
     process_file := process_file c; config_dir := config_dir c;
     process_pyramid := process_pyramid c;
     output_pyramid := output_pyramid c; mode := mode c;
     _params_at_zoom := _params_at_zoom c;
     zoom_levels_slot := zoom_levels_slot c;
     init_zoom_levels_slot := init_zoom_levels_slot c;
     bounds_slot := bounds_slot c; init_bounds_slot := init_bounds_slot c;
     output_slot := output_slot c; input_slot := input_slot c;
     baselevels_slot := Some v |}.

(** *** Methods: a computation on the object that returns or raises *)

Definition M (A : Type) : Type :=
  MapcheteConfig -> result A * MapcheteConfig.

Definition ret {A} (a : A) : M A := fun self => (Ok a, self).

Definition raise {A} (e : exn) : M A := fun self => (Raise e, self).

Definition lift {A} (r : result A) : M A := fun self => (r, self).

Definition bind {A B} (m : M A) (k : A -> M B) : M B :=
  fun self =>
    match m self with
    | (Ok a, self') => k a self'
    | (Raise e, self') => (Raise e, self')
    end.

Definition attr {A} (f : MapcheteConfig -> A) : M A :=
  fun self => (Ok (f self), self).

Definition assign (f : MapcheteConfig -> MapcheteConfig) : M unit :=
  fun self => (Ok tt, f self).

(** [@cached_property]: the body runs on the first access and its value
    is stored on the object; a body that raises stores nothing. *)
Definition cached_property {A} (slot : MapcheteConfig -> option A)
  (store : A -> MapcheteConfig -> MapcheteConfig) (body : M A) : M A :=
  fun self =>
    match slot self with
    | Some v => (Ok v, self)
    | None =>
        match body self with
        | (Ok v, self') => (Ok v, store v self')
        | (Raise e, self') => (Raise e, self')
        end
    end.

End Config.

Declare Scope method_scope.
Delimit Scope method_scope with method.
Notation "x <~ m ;; k" := (bind m (fun x => k))
  (at level 61, m at next level, right associativity) : method_scope.
Open Scope method_scope.

Section Methods.
Context {E : Externals}.

Definition zoom_minmax_error : exn :=
  MapcheteConfigError "provide minimum and maximum zoom level".

Definition zoom_unset_error : exn :=
  MapcheteConfigError "process zoom levels not properly set".

Definition zoom_subset_error : exn :=
  MapcheteConfigError
    "configuration init zooms levels must be subset of process zooms".

Definition zoom_format_error : exn :=
  MapcheteConfigError "configuration init zooms not properly formated".

(** The [try] block of [zoom_levels] *)
Definition zoom_levels_minmax (raw_zooms : dict) : result (list Z) :=
  _ <- validate_values (PDict raw_zooms) [("min", [TInt]); ("max", [TInt])] ;;
  match dict_get raw_zooms "min", dict_get raw_zooms "max" with
  | Some (PInt lo), Some (PInt hi) =>
      if lo =? hi then Ok [lo] else Ok (py_range lo (hi + 1))
  | _, _ => Raise (KeyError "min")
  end.

(** The body of [zoom_levels], which reads the raw document only *)
Definition declared_zoom_levels (raw : dict) : result (list Z) :=
  raw_zooms <- dict_getitem raw "zoom_levels" ;;
  match raw_zooms with
  | PInt z => Ok [z]
  | PDict d =>
      match zoom_levels_minmax d with
      | Ok zooms => Ok zooms
      | Raise _ => Raise zoom_minmax_error
      end
  | _ => Raise zoom_unset_error
  end.

Definition zoom_levels : M (list Z) :=
  cached_property zoom_levels_slot set_zoom_levels_slot
    (raw <~ attr _raw ;; lift (declared_zoom_levels raw)).

(** A list of at most two members is taken for its smallest and its
    largest member; [min(iz)] is computed before the zoom levels are read
    and [max(iz)] after.  A member that is no integer is no zoom level. *)
Definition init_zoom_levels : M (list Z) :=
  cached_property init_zoom_levels_slot set_init_zoom_levels_slot
    (raw <~ attr _raw ;;
     iz <~ lift (dict_getitem raw "init_zoom_levels") ;;
     match iz with
     | PNone => zoom_levels
     | PInt z =>
         zooms <~ zoom_levels ;;
         if negb (zoom_in z zooms) then raise zoom_subset_error
         else ret [z]
     | PList l =>
         if Nat.leb (length l) 2 then
           lo <~ lift (py_min l) ;;
           zooms <~ zoom_levels ;;
           hi <~ lift (py_max l) ;;
           match lo, hi with
           | PInt a, PInt b =>
               if negb (zoom_in a zooms) || negb (zoom_in b zooms)
               then raise zoom_subset_error
               else ret (py_range a (b + 1))
           | _, _ => raise zoom_subset_error
           end
         else raise zoom_format_error
     | _ => raise zoom_format_error
     end).

Definition bounds : M Bounds :=
  cached_property bounds_slot set_bounds_slot
    (raw <~ attr _raw ;;
     b <~ lift (dict_getitem raw "bounds") ;;
     if is_none b then
       pyr <~ attr process_pyramid ;; ret (pyramid_bounds pyr)
     else lift (_validate_bounds b)).

Definition init_bounds : M Bounds :=
  cached_property init_bounds_slot set_init_bounds_slot
    (raw <~ attr _raw ;;
     b <~ lift (dict_getitem raw "init_bounds") ;;
     if is_none b then bounds else lift (_validate_bounds b)).

(** [os.path.normpath(os.path.join(config_dir, path))] *)
Definition abs_path (config_dir path : pyval) : result string :=
  match config_dir, path with
  | PStr d, PStr p => Ok (os_path_normpath (os_path_join d p))
  | _, _ => Raise (TypeError "expected str")
  end.

(** Where the output mapping carries a format, [_element_at_zoom] has
    handed that very mapping on, and every zoom level of
    [_params_at_zoom] holds it under its own "output" key: an update of
    the mapping shows there too. *)
Definition share_output (shared : bool) (updated : dict)
  (per_zoom : list (Z * dict)) : list (Z * dict) :=
  map (fun zp =>
         (fst zp,
          if shared && dict_in "output" (snd zp)
          then dict_set (snd zp) "output" (PDict updated)
          else snd zp))
      per_zoom.

(** [output_params.update(k=v)], [output_params] being the very mapping
    under [self._raw["output"]]: the update is one of the raw
    document. *)
Definition update_output_params (output_params : dict) (k : string)
  (v : pyval) : M dict :=
  let updated := dict_set output_params k v in
  _ <~ assign
         (fun self =>
            set_params_at_zoom
              (share_output (dict_in "format" output_params) updated
                 (_params_at_zoom self))
              (set_raw (dict_set (_raw self) "output" (PDict updated))
                 self)) ;;
  ret updated.

Definition output : M writer :=
  cached_property output_slot set_output_slot
    (raw <~ attr _raw ;;
     o <~ lift (dict_getitem raw "output") ;;
     match o with
     | PDict output_params =>
         output_params <~
           match dict_get output_params "path" with
           | Some p =>
               dir <~ attr config_dir ;;
               path <~ lift (abs_path dir p) ;;
               update_output_params output_params "path" (PStr path)
           | None => update_output_params output_params "path" PNone
           end ;;
         pyr <~ attr output_pyramid ;;
         output_params <~
           update_output_params output_params "type" (pyramid_type pyr) ;;
         output_params <~
           update_output_params output_params "pixelbuffer"
             (pyramid_pixelbuffer pyr) ;;
         output_params <~
           update_output_params output_params "metatiling"
             (pyramid_metatiling pyr) ;;
         match dict_get output_params "format" with
         | None => raise (MapcheteConfigError "output format not specified")
         | Some fmt =>
             if match fmt with
                | PStr f => str_in f available_output_formats
                | _ => false
                end
             then
               w <~ lift (load_output_writer output_params) ;;
               match is_valid_with_config w output_params with
               | Ok _ => ret w
               | Raise _ =>
                   raise (MapcheteConfigError
                            "driver not compatible with configuration")
               end
             else raise (MapcheteConfigError "format not available")
         end
     | _ => raise (TypeError "argument is not iterable")
     end).

(** The first loop of [input], for one zoom level: every leaf of the
    flattened input tree that is not [None] is stored under its hash. *)
Fixpoint collect_inputs (flat : list (string * pyval))
  (raw_inputs : list (identity * pyval)) : result (list (identity * pyval)) :=
  match flat with
  | [] => Ok raw_inputs
  | (key, v) :: flat' =>
      if negb (is_none v) then
        h <- get_hash v ;;
        collect_inputs flat' (kd_set identity_eqb raw_inputs h v)
      else collect_inputs flat' raw_inputs
  end.

(** [_flatten_tree] called on a value: anything but a mapping has no
    items to iterate. *)
Definition flatten_input (input_at_zoom : pyval)
  : result (list (string * pyval)) :=
  match input_at_zoom with
  | PDict d => Ok (_flatten_tree d None)
  | _ => Raise (AttributeError "object has no attribute 'items'")
  end.

Definition key_error : exn := KeyError "key not found".

Fixpoint raw_inputs_of (params_at_zoom : list (Z * dict)) (zooms : list Z)
  (raw_inputs : list (identity * pyval)) : result (list (identity * pyval)) :=
  match zooms with
  | [] => Ok raw_inputs
  | zoom :: zooms' =>
      match kd_get Z.eqb params_at_zoom zoom with
      | None => Raise key_error
      | Some params =>
          match dict_get params "input" with
          | Some input_at_zoom =>
              if is_none input_at_zoom
              then raw_inputs_of params_at_zoom zooms' raw_inputs
              else
                flat <- flatten_input input_at_zoom ;;
                raw_inputs <- collect_inputs flat raw_inputs ;;
                raw_inputs_of params_at_zoom zooms' raw_inputs
          | None => raw_inputs_of params_at_zoom zooms' raw_inputs
          end
      end
  end.

Definition is_remote (v : string) : bool :=
  PyStr.startswith "s3://" v || PyStr.startswith "https://" v
  || PyStr.startswith "http://" v.

Definition driver_error (e : exn) : exn := MapcheteDriverError (exn_msg e).

Definition as_driver_error {A} (r : result A) : result A :=
  match r with
  | Ok a => Ok a
  | Raise e => Raise (driver_error e)
  end.

(** The body of the second loop of [input] for one item of [raw_inputs]. *)
Definition load_input (self : MapcheteConfig) (delimiters : Delimiters)
  (v : pyval) : result reader :=
  let pyr := process_pyramid self in
  rd <-
    match v with
    | PStr s =>
        path <-
          (if is_remote s then Ok s else abs_path (config_dir self) v) ;;
        as_driver_error
          (load_input_reader
             (PathParams path pyr (pyramid_pixelbuffer pyr) delimiters)
             (String.eqb (mode self) "readonly"))
    | PDict d =>
        as_driver_error
          (load_input_reader
             (AbstractParams d pyr (pyramid_pixelbuffer pyr) delimiters
                (config_dir self))
             (String.eqb (mode self) "readonly"))
    | _ => Raise (MapcheteConfigError "invalid input type")
    end ;;
  _ <- bbox rd (pyramid_crs pyr) ;;
  Ok rd.

Fixpoint initialize_inputs (self : MapcheteConfig) (delimiters : Delimiters)
  (raw_inputs : list (identity * pyval)) (initalized_inputs : registry)
  : result registry :=
  match raw_inputs with
  | [] => Ok initalized_inputs
  | (k, v) :: raw_inputs' =>
      rd <- load_input self delimiters v ;;
      initialize_inputs self delimiters raw_inputs'
        (kd_set identity_eqb initalized_inputs k
           {| obj_id := length initalized_inputs; obj_reader := rd |})
  end.

Definition input : M registry :=
  cached_property input_slot set_input_slot
    (zooms <~ init_zoom_levels ;;
     ib <~ init_bounds ;;
     pb <~ bounds ;;
     let delimiters :=
       {| delim_zoom := zooms; delim_bounds := ib;
          delim_process_bounds := pb |} in
     params <~ attr _params_at_zoom ;;
     raw_inputs <~ lift (raw_inputs_of params zooms []) ;;
     fun self => (initialize_inputs self delimiters raw_inputs [], self)).

Definition baselevels_error : exn :=
  MapcheteConfigError "invalid baselevel zoom parameter given".

(** [min(self.zoom_levels)] and [max(self.zoom_levels)] *)
Definition zooms_min (zooms : list Z) : result Z :=
  match zooms with
  | [] => Raise (ValueError "min() arg is an empty sequence")
  | z :: zs => Ok (fold_left Z.min zs z)
  end.

Definition zooms_max (zooms : list Z) : result Z :=
  match zooms with
  | [] => Raise (ValueError "max() arg is an empty sequence")
  | z :: zs => Ok (fold_left Z.max zs z)
  end.

(** [not isinstance(v, int) or v < 0] for one of the values of [minmax] *)
Definition bad_baselevel (v : pyval) : bool :=
  match v with
  | PInt z => z <? 0
  | _ => true
  end.

Definition baselevels : M (option Baselevels) :=
  cached_property baselevels_slot set_baselevels_slot
    (raw <~ attr _raw ;;
     match dict_get raw "baselevels" with
     | None => ret None
     | Some (PDict bl) =>
         let minmax :=
           filter (fun kv => str_in (fst kv) ["min"; "max"]) bl in
         if is_empty minmax then
           raise (MapcheteConfigError
                    "no min and max values given for baselevels")
         else if existsb (fun kv => bad_baselevel (snd kv)) minmax then
           raise baselevels_error
         else
           zooms <~ zoom_levels ;;
           lo_default <~ lift (zooms_min zooms) ;;
           zooms <~ zoom_levels ;;
           hi_default <~ lift (zooms_max zooms) ;;
           match dict_get_default minmax "min" (PInt lo_default),
                 dict_get_default minmax "max" (PInt hi_default) with
           | PInt lo, PInt hi =>
               opyr <~ attr output_pyramid ;;
               ppyr <~ attr process_pyramid ;;
               tp <~ lift (BufferedTilePyramid (pyramid_type opyr)
                             (pyramid_metatiling ppyr)
                             (pyramid_pixelbuffer opyr)) ;;
               ret (Some {| bl_zooms := py_range lo (hi + 1);
                            bl_lower :=
                              dict_get_default bl "lower" (PStr "nearest");
                            bl_higher :=
                              dict_get_default bl "higher" (PStr "nearest");
                            bl_tile_pyramid := tp |})
           | _, _ => raise (TypeError "an integer is required")
           end
     | Some _ => raise (AttributeError "object has no attribute 'items'")
     end).

Definition zoom_unavailable : exn :=
  ValueError "zoom level not available with current configuration".

(** The loop of [params_at_zoom] that replaces every input declaration by
    its input object. *)
Fixpoint dereference (flat : list (string * pyval)) (flat_inputs : dict)
  : M dict :=
  match flat with
  | [] => ret flat_inputs
  | (k, v) :: flat' =>
      if is_none v then dereference flat' (dict_set flat_inputs k PNone)
      else
        inputs <~ input ;;
        h <~ lift (get_hash v) ;;
        match kd_get identity_eqb inputs h with
        | Some obj =>
            dereference flat' (dict_set flat_inputs k (PObj (obj_id obj)))
        | None => raise key_error
        end
  end.

Definition params_at_zoom (zoom : Z) : M dict :=
  zooms <~ init_zoom_levels ;;
  if negb (zoom_in zoom zooms) then raise zoom_unavailable
  else
    per_zoom <~ attr _params_at_zoom ;;
    match kd_get Z.eqb per_zoom zoom with
    | None => raise key_error
    | Some params =>
        let out := dict_set params "input" (PDict []) in
        match dict_get params "input" with
        | Some input_at_zoom =>
            flat <~ lift (flatten_input input_at_zoom) ;;
            flat_inputs <~ dereference flat [] ;;
            tree <~ lift (_unflatten_tree flat_inputs) ;;
            ret (dict_set out "input" (PDict tree))
        | None => ret (dict_set out "input" (PDict []))
        end
    end.

(** The list comprehension of [_area_at_zoom]: the bounding geometries of
    the input objects under the top-level keys of the input mapping. *)
Fixpoint input_bboxes (items : list (string * pyval)) : M (list geom) :=
  match items with
  | [] => ret []
  | (k, v) :: items' =>
      if negb (is_none v) then
        inputs <~ input ;;
        h <~ lift (get_hash v) ;;
        match kd_get identity_eqb inputs h with
        | Some obj =>
            pyr <~ attr process_pyramid ;;
            g <~ lift (bbox (obj_reader obj) (pyramid_crs pyr)) ;;
            gs <~ input_bboxes items' ;;
            ret (g :: gs)
        | None => raise key_error
        end
      else input_bboxes items'
  end.

(** [self._cache_area_at_zoom[zoom] = g] *)
Definition cache_area (zoom : Z) (g : geom) : M unit :=
  assign (fun self =>
            set_cache_area_at_zoom
              (kd_set Z.eqb (_cache_area_at_zoom self) zoom g) self).

(** A [Bounds] tuple has four members and is never falsy, so the
    intersection with the box of [self.init_bounds] is always taken. *)
Definition _area_at_zoom (zoom : Z) : M geom :=
  cache <~ attr _cache_area_at_zoom ;;
  match kd_get Z.eqb cache zoom with
  | Some g => ret g
  | None =>
      per_zoom <~ attr _params_at_zoom ;;
      match kd_get Z.eqb per_zoom zoom with
      | None => raise key_error
      | Some params =>
          match dict_get params "input" with
          | Some input_at_zoom =>
              items <~
                match input_at_zoom with
                | PDict d => ret d
                | _ => raise (AttributeError "object has no attribute 'items'")
                end ;;
              boxes <~ input_bboxes items ;;
              let input_union := cascaded_union boxes in
              ib <~ init_bounds ;;
              ib' <~ init_bounds ;;
              let g := intersection input_union (box ib) in
              _ <~ cache_area zoom g ;;
              ret g
          | None =>
              ib <~ init_bounds ;;
              _ <~ cache_area zoom (box ib) ;;
              ret (box ib)
          end
      end
  end.

Fixpoint areas_at_zooms (zooms : list Z) : M (list geom) :=
  match zooms with
  | [] => ret []
  | z :: zooms' =>
      g <~ _area_at_zoom z ;;
      gs <~ areas_at_zooms zooms' ;;
      ret (g :: gs)
  end.

(** [not self._cache_full_process_area]: nothing stored yet, or an empty
    geometry, which is falsy. *)
Definition full_area_missing (c : option geom) : bool :=
  match c with
  | None => true
  | Some g => geom_is_empty g
  end.

Definition area_at_zoom (zoom : pyval) : M geom :=
  match zoom with
  | PInt z =>
      zooms <~ init_zoom_levels ;;
      if negb (zoom_in z zooms) then raise zoom_unavailable
      else _area_at_zoom z
  | PNone =>
      full <~ attr _cache_full_process_area ;;
      if full_area_missing full then
        zooms <~ init_zoom_levels ;;
        areas <~ areas_at_zooms zooms ;;
        let g := buffer0 (cascaded_union areas) in
        _ <~ assign (set_cache_full_process_area (Some g)) ;;
        ret g
      else
        match full with
        | Some g => ret g
        | None => raise key_error
        end
  | _ => raise (ValueError "zoom must be an integer")
  end.

(** [()] is [None] here. *)
Definition bounds_at_zoom (zoom : pyval) : M (option Bounds) :=
  a <~ area_at_zoom zoom ;;
  if geom_is_empty a then ret None
  else
    a' <~ area_at_zoom zoom ;;
    ret (Some (geom_bounds a')).

Definition update : M unit :=
  raise (NotImplementedError "updating MapcheteConfig not yet implemented").

End Methods.

Section Construction.
Context {E : Externals}.

Definition _config_to_dict (input_config : pyval) : result dict :=
  match input_config with
  | PDict d =>
      let raw := dict_set d "mapchete_file" PNone in
      if negb (dict_in "config_dir" raw)
      then Raise (MapcheteConfigError "config_dir parameter missing")
      else Ok raw
  | PStr path =>
      if String.eqb (os_path_splitext_ext path) ".mapchete" then
        loaded <- yaml_load_file path ;;
        match loaded with
        | PDict d =>
            Ok (dict_set
                  (dict_set d "config_dir"
                     (PStr (os_path_dirname_realpath path)))
                  "mapchete_file" (PStr path))
        | _ => Raise (AttributeError "object has no attribute 'update'")
        end
      else
        Raise (MapcheteConfigError
                 "Configuration has to be a dictionary or a .mapchete file.")
  | _ => Raise (TypeError "expected str")
  end.

Definition _validate_process_file (config : dict) : result string :=
  dir <- dict_getitem config "config_dir" ;;
  file <- dict_getitem config "process_file" ;;
  match dir, file with
  | PStr d, PStr f =>
      let abs_path := os_path_join d f in
      if negb (os_path_isfile abs_path)
      then Raise (MapcheteConfigError "process file is not available")
      else if py_compile_compile abs_path then Ok abs_path
      else Raise (MapcheteProcessSyntaxError "process file does not compile")
  | _, _ => Raise (TypeError "expected str")
  end.

(** [a > b]: integers by value, strings by code points, lists as
    [b < a]; other pairs are unorderable. *)
Definition py_gt (a b : pyval) : result bool :=
  match a, b with
  | PInt x, PInt y => Ok (x >? y)
  | PStr s, PStr t =>
      Ok (match String.compare s t with Gt => true | _ => false end)
  | PList _, PList _ => py_lt b a
  | _, _ => Raise (TypeError "unorderable types")
  end.

Definition metatiling_error : exn :=
  ValueError "output metatiles must be smaller than process metatiles".

(** The comparison of step (3) of [__init__] *)
Definition check_metatiling (raw : dict) : result (pyval * pyval) :=
  pyr <- dict_getitem raw "pyramid" ;;
  out <- dict_getitem raw "output" ;;
  match pyr, out with
  | PDict pyr, PDict out =>
      let process_metatiling := dict_get_default pyr "metatiling" (PInt 1) in
      let output_metatiling :=
        dict_get_default out "metatiling" process_metatiling in
      bigger <- py_gt output_metatiling process_metatiling ;;
      if bigger then Raise metatiling_error
      else Ok (process_metatiling, output_metatiling)
  | _, _ => Raise (AttributeError "object has no attribute 'get'")
  end.

(** Step (3) of [__init__], inside its [try] block *)
Definition set_pyramids (raw : dict) : result (pyramid * pyramid) :=
  pyr <- dict_getitem raw "pyramid" ;;
  out <- dict_getitem raw "output" ;;
  mt <- check_metatiling raw ;;
  match pyr, out with
  | PDict pyr, PDict out =>
      grid <- dict_getitem pyr "grid" ;;
      process_pyramid <-
        BufferedTilePyramid grid (fst mt)
          (dict_get_default pyr "pixelbuffer" (PInt 0)) ;;
      grid <- dict_getitem pyr "grid" ;;
      output_pyramid <-
        BufferedTilePyramid grid (snd mt)
          (dict_get_default out "pixelbuffer" (PInt 0)) ;;
      Ok (process_pyramid, output_pyramid)
  | _, _ => Raise (AttributeError "object has no attribute 'get'")
  end.

Definition modes : list string :=
  ["memory"; "continue"; "readonly"; "overwrite"].

Definition mode_error : exn := MapcheteConfigError "unknown mode".

(** Steps (5) to (7) of [__init__], on the object as steps (0) to (4)
    leave it. *)
Definition initialize : M unit :=
  zooms <~ init_zoom_levels ;;
  raw <~ attr _raw ;;
  per_zoom <~ lift (_raw_at_zoom raw zooms) ;;
  _ <~ assign (set_params_at_zoom per_zoom) ;;
  _ <~ output ;;
  _ <~ input ;;
  ret tt.

(** Step (0) of [__init__] and the two assignments after it: the raw
    document the object holds. *)
Definition raw_document (input_config zoom bounds : pyval) : result dict :=
  raw <- _config_to_dict input_config ;;
  raw <- _map_to_new_config raw ;;
  let raw := dict_set raw "init_zoom_levels" zoom in
  Ok (dict_set raw "init_bounds" bounds).

(** Steps (1) and (2) *)
Definition validate_document (raw : dict) : result string :=
  _ <- reraise_config
         (validate_values (PDict raw)
            [("process_file", [TStr]); ("pyramid", [TDict]);
             ("input", [TDict; TNone]); ("output", [TDict]);
             ("zoom_levels", [TInt; TDict])]) ;;
  _validate_process_file raw.

(** Steps (0) to (4) of [__init__].  The attributes are assigned one
    after the other in the source; here the object is put together
    after step (4), before the first step that reads it, with an empty
    [_params_at_zoom] and nothing stored by [cached_property]. *)
Definition preamble (input_config zoom bounds : pyval) (mode : string)
  : result MapcheteConfig :=
  raw <- raw_document input_config zoom bounds ;;
  process_file <- validate_document raw ;;
  config_dir <- dict_getitem raw "config_dir" ;;
  pyramids <- reraise_config (set_pyramids raw) ;;
  if negb (str_in mode modes) then Raise mode_error
  else
    Ok {| _raw := raw;
          _cache_area_at_zoom := [];
          _cache_full_process_area := None;
          process_file := process_file;
          config_dir := config_dir;
          process_pyramid := fst pyramids;
          output_pyramid := snd pyramids;
          mode := mode;
          _params_at_zoom := [];
          zoom_levels_slot := None;
          init_zoom_levels_slot := None;
          bounds_slot := None;
          init_bounds_slot := None;
          output_slot := None;
          input_slot := None;
          baselevels_slot := None |}.

(** [MapcheteConfig(input_config, zoom, bounds, mode=mode)]; an
    exception leaves no object. *)
Definition __init__ (input_config zoom bounds : pyval) (mode : string)
  : result MapcheteConfig :=
  self <- preamble input_config zoom bounds mode ;;
  match initialize self with
  | (Ok _, self') => Ok self'
  | (Raise e, _) => Raise e
  end.

End Construction.

(* ===================================================================== *)
(** ** Vocabulary of the statements *)
(* ===================================================================== *)

(** The field [{"zoom<3": "A", "zoom>=3": "B"}] *)
Definition zoom_node : pyval :=
  PDict [("zoom<3", PStr "A"); ("zoom>=3", PStr "B")].

(** The relation a cleaned zoom statement begins with, in the order the
    source tries them. *)
Definition zoom_relation (cleaned : string) : option string :=
  if PyStr.startswith "=" cleaned then Some "="
  else if PyStr.startswith "<=" cleaned then Some "<="
  else if PyStr.startswith ">=" cleaned then Some ">="
  else if PyStr.startswith "<" cleaned then Some "<"
  else if PyStr.startswith ">" cleaned then Some ">"
  else None.

Definition is_dict (v : pyval) : bool :=
  match v with PDict _ => true | _ => false end.

(** The hypothesis the specification puts on the round trip: no key inside
    a leaf subtree, a mapping that carries "format", holds a slash. *)
Fixpoint keys_slash_free (v : pyval) {struct v} : bool :=
  match v with
  | PDict d =>
      forallb (fun kv => negb (PyStr.has_slash (fst kv))
                         && keys_slash_free (snd kv)) d
  | PList l => forallb keys_slash_free l
  | _ => true
  end.

Fixpoint leaf_keys_slash_free (v : pyval) {struct v} : bool :=
  match v with
  | PDict d =>
      if dict_in "format" d then keys_slash_free v
      else forallb (fun kv => leaf_keys_slash_free (snd kv)) d
  | _ => true
  end.

(** Equality of two values key for key and in the same order: what two
    mappings with one and the same serialization have in common. *)
Fixpoint py_identical (a b : pyval) {struct a} : bool :=
  match a, b with
  | PNone, PNone => true
  | PInt x, PInt y => Z.eqb x y
  | PStr s, PStr t => String.eqb s t
  | PObj i, PObj j => Nat.eqb i j
  | PList l, PList m =>
      (fix all2 (l m : list pyval) {struct l} : bool :=
         match l, m with
         | [], [] => true
         | x :: l', y :: m' => py_identical x y && all2 l' m'
         | _, _ => false
         end) l m
  | PDict d, PDict e =>
      (fix all2 (l m : list (string * pyval)) {struct l} : bool :=
         match l, m with
         | [], [] => true
         | (k, x) :: l', (k', y) :: m' =>
             String.eqb k k' && py_identical x y && all2 l' m'
         | _, _ => false
         end) d e
  | _, _ => false
  end.

(** [tree[p0][p1]...] along the segments of a path *)
Fixpoint tree_lookup (path : list string) (v : pyval) : option pyval :=
  match path with
  | [] => Some v
  | k :: path' =>
      match v with
      | PDict d =>
          match dict_get d k with
          | Some v' => tree_lookup path' v'
          | None => None
          end
      | _ => None
      end
  end.

(** The zoom levels an initialization argument asks for: one level, or
    the range between the smallest and the largest member of a list of one
    or two levels. *)
Definition requested_zooms (zoom : pyval) : option (list Z) :=
  match zoom with
  | PInt z => Some [z]
  | PList [PInt a] => Some [a]
  | PList [PInt a; PInt b] => Some (py_range (Z.min a b) (Z.max a b + 1))
  | _ => None
  end.

(* ===================================================================== *)
(** ** A small world to run the methods in *)
(* ===================================================================== *)

Module Demo.

(** A hash without collisions: the string read as a number in bijective
    base 256. *)
Definition base256 (s : string) : Z :=
  fold_left (fun acc c => acc * 256 + Z.of_nat (nat_of_ascii c) + 1)
    (list_ascii_of_string s) 0.

(** Geometries are finite unions of boxes. *)
Definition boxes : Type := list Bounds.

Definition box_intersection (a b : Bounds) : list Bounds :=
  match a, b with
  | (l1, b1, r1, t1), (l2, b2, r2, t2) =>
      let l := Z.max l1 l2 in
      let b := Z.max b1 b2 in
      let r := Z.min r1 r2 in
      let t := Z.min t1 t2 in
      if (l <? r) && (b <? t) then [(l, b, r, t)] else []
  end.

Definition boxes_intersection (g h : boxes) : boxes :=
  flat_map (fun a => flat_map (box_intersection a) h) g.

Definition envelope (g : boxes) : Bounds :=
  match g with
  | [] => (0, 0, 0, 0)
  | b0 :: g' =>
      fold_left
        (fun acc b =>
           match acc, b with
           | (l1, b1, r1, t1), (l2, b2, r2, t2) =>
               (Z.min l1 l2, Z.min b1 b2, Z.max r1 r2, Z.max t1 t2)
           end) g' b0
  end.

Definition grid_pyramid : Type := (pyval * pyval * pyval)%type.

Definition world_bounds : Bounds := (-180, -90, 180, 90).

Definition metatiling_ok (m : pyval) : bool :=
  match m with
  | PInt z => existsb (Z.eqb z) [1; 2; 4; 8; 16]
  | _ => false
  end.

Definition world : Externals :=
  {| hash := base256;
     os_path_join := fun d f => d ++ "/" ++ f;
     os_path_normpath := fun p => p;
     os_path_isfile := fun _ => true;
     os_path_splitext_ext := fun _ => ".mapchete";
     os_path_dirname_realpath := fun _ => "/";
     py_compile_compile := fun _ => true;
     yaml_load_file := fun _ => Raise (ValueError "no such file");
     pyramid := grid_pyramid;
     crs := unit;
     BufferedTilePyramid :=
       fun grid metatiling pixelbuffer =>
         if metatiling_ok metatiling
         then Ok (grid, metatiling, pixelbuffer)
         else Raise (ValueError "invalid metatiling");
     pyramid_type := fun p => fst (fst p);
     pyramid_metatiling := fun p => snd (fst p);
     pyramid_pixelbuffer := fun p => snd p;
     pyramid_bounds := fun _ => world_bounds;
     pyramid_crs := fun _ => tt;
     writer := dict;
     reader := input_params grid_pyramid;
     available_output_formats := ["GTiff"; "PNG"; "GeoJSON"];
     load_output_writer := fun params => Ok params;
     is_valid_with_config := fun _ _ => Ok true;
     load_input_reader := fun params _ => Ok params;
     geom := boxes;
     bbox := fun _ _ => Ok [(0, 0, 10, 10)];
     box := fun b => [b];
     cascaded_union := fun gs => concat gs;
     intersection := boxes_intersection;
     buffer0 := fun g => g;
     geom_is_empty := fun g => match g with [] => true | _ => false end;
     geom_bounds := envelope |}.

(** A document with one file bound at every zoom, one bound below zoom
    3 only, and a group of two files. *)
Definition document : pyval :=
  PDict
    [("process_file", PStr "process.py");
     ("config_dir", PStr "/home/user");
     ("pyramid", PDict [("grid", PStr "geodetic"); ("metatiling", PInt 4)]);
     ("zoom_levels", PDict [("min", PInt 1); ("max", PInt 5)]);
     ("input",
      PDict [("dem", PStr "dem.tif");
             ("land", PDict [("zoom<3", PStr "coarse.tif");
                             ("zoom>=3", PStr "dem.tif")]);
             ("group", PDict [("a", PStr "a.tif"); ("b", PStr "dem.tif")])]);
     ("output", PDict [("format", PStr "GTiff"); ("path", PStr "out");
                       ("metatiling", PInt 2)])].

(** The same without the group: two paths, [dem] and [land], that are
    bound to the same file from zoom 3 on. *)
Definition flat_document : pyval :=
  PDict
    [("process_file", PStr "process.py");
     ("config_dir", PStr "/home/user");
     ("pyramid", PDict [("grid", PStr "geodetic"); ("metatiling", PInt 4)]);
     ("zoom_levels", PDict [("min", PInt 1); ("max", PInt 3)]);
     ("input",
      PDict [("dem", PStr "dem.tif");
             ("land", PDict [("zoom<3", PStr "coarse.tif");
                             ("zoom>=3", PStr "dem.tif")])]);
     ("output", PDict [("format", PStr "GTiff"); ("path", PStr "out");
                       ("metatiling", PInt 2)])].

(** Two abstract inputs that Python finds equal, their keys in a
    different order. *)
Definition key_order_document : pyval :=
  PDict
    [("process_file", PStr "process.py");
     ("config_dir", PStr "/home/user");
     ("pyramid", PDict [("grid", PStr "geodetic"); ("metatiling", PInt 4)]);
     ("zoom_levels", PInt 1);
     ("input",
      PDict [("a", PDict [("format", PStr "raster"); ("level", PInt 1)]);
             ("b", PDict [("level", PInt 1); ("format", PStr "raster")])]);
     ("output", PDict [("format", PStr "GTiff"); ("path", PStr "out")])].

(** Zoom levels from 5 down to 1. *)
Definition empty_range_document : pyval :=
  PDict
    [("process_file", PStr "process.py");
     ("config_dir", PStr "/home/user");
     ("pyramid", PDict [("grid", PStr "geodetic"); ("metatiling", PInt 4)]);
     ("zoom_levels", PDict [("min", PInt 5); ("max", PInt 1)]);
     ("input", PDict [("dem", PStr "dem.tif")]);
     ("output", PDict [("format", PStr "GTiff"); ("path", PStr "out")])].

(** An object no constructor has touched. *)
Definition blank : @MapcheteConfig world :=
  @Build_MapcheteConfig world [] [] None EmptyString PNone
    (PNone, PNone, PNone) (PNone, PNone, PNone) EmptyString [] None None
    None None None None None.

(** The object [__init__] has set the attributes of, before it reads the
    properties, and the object it returns; [blank] where it raises. *)
Definition prepared (doc : pyval) : @MapcheteConfig world :=
  match @preamble world doc PNone PNone "continue" with
  | Ok self => self
  | Raise _ => blank
  end.

Definition built_of (doc : pyval) : @MapcheteConfig world :=
  match @__init__ world doc PNone PNone "continue" with
  | Ok self => self
  | Raise _ => blank
  end.

(** A nested mapping of three levels with a leaf subtree. *)
Definition tree : dict :=
  [("a", PDict [("b", PDict [("c", PInt 1); ("d", PInt 2)]);
                ("f", PStr "f.tif")]);
   ("e", PDict [("format", PStr "GTiff"); ("p/q", PInt 1)])].

End Demo.

(* ===================================================================== *)
(** ** The life of a configuration object *)
(* ===================================================================== *)

(** [[f(x) for x in l]] with an [f] that may raise *)
Fixpoint rmap {A B} (f : A -> result B) (l : list A) : result (list B) :=
  match l with
  | [] => Ok []
  | x :: l' =>
      y <- f x ;;
      ys <- rmap f l' ;;
      Ok (y :: ys)
  end.

Section Life.
Context {E : Externals}.

(** What a caller can do with the object once it has it. *)
Inductive method : Type :=
| get_zoom_levels
| get_init_zoom_levels
| get_bounds
| get_init_bounds
| get_output
| get_input
| get_baselevels
| call_params_at_zoom (zoom : Z)
| call_area_at_zoom (zoom : pyval)
| call_bounds_at_zoom (zoom : pyval)
| call_update.

(** The object after the call, whether it returned or raised. *)
Definition after (m : method) (self : MapcheteConfig) : MapcheteConfig :=
  match m with
  | get_zoom_levels => snd (zoom_levels self)
  | get_init_zoom_levels => snd (init_zoom_levels self)
  | get_bounds => snd (bounds self)
  | get_init_bounds => snd (init_bounds self)
  | get_output => snd (output self)
  | get_input => snd (input self)
  | get_baselevels => snd (baselevels self)
  | call_params_at_zoom zoom => snd (params_at_zoom zoom self)
  | call_area_at_zoom zoom => snd (area_at_zoom zoom self)
  | call_bounds_at_zoom zoom => snd (bounds_at_zoom zoom self)
  | call_update => snd (update self)
  end.

(** The states of a successfully constructed object. *)
Inductive reachable : MapcheteConfig -> Prop :=
| reach_init (input_config zoom bounds : pyval) (mode : string)
    (self : MapcheteConfig) :
    __init__ input_config zoom bounds mode = Ok self -> reachable self
| reach_call (m : method) (self : MapcheteConfig) :
    reachable self -> reachable (after m self).

(** The attributes no method changes once the object is built. *)
Definition core (c : MapcheteConfig) :=
  (_raw c, process_file c, config_dir c, process_pyramid c,
   output_pyramid c, mode c, _params_at_zoom c,
   (zoom_levels_slot c, init_zoom_levels_slot c, bounds_slot c,
    init_bounds_slot c, output_slot c, input_slot c)).

Definition is_some {A} (o : option A) : bool :=
  match o with Some _ => true | None => false end.

(** The six properties the constructor has read are stored. *)
Definition ready (c : MapcheteConfig) : bool :=
  is_some (zoom_levels_slot c) && is_some (init_zoom_levels_slot c)
  && is_some (bounds_slot c) && is_some (init_bounds_slot c)
  && is_some (output_slot c) && is_some (input_slot c).

End Life.

(* ===================================================================== *)
(** ** Vocabulary of the proofs *)
(* ===================================================================== *)

(** The tree under construction while the loop is inside the top-level
    entry [k]: [done] holds the entries before [k], [d_done] what is built
    under [k] so far; likewise one level down under [k2]. *)
Definition attach1 (done : dict) (k : string) (d_done : dict) : dict :=
  match d_done with
  | [] => done
  | _ => (done ++ [(k, PDict d_done)])%list
  end.

Definition attach2 (done : dict) (k : string) (d_done : dict)
  (k2 : string) (e_done : dict) : dict :=
  attach1 done k
    match e_done with
    | [] => d_done
    | _ => (d_done ++ [(k2, PDict e_done)])%list
    end.

(** What [codec_tree] says of the first entry of a mapping. *)
Definition entry_ok (depth : nat) (v : pyval) : Prop :=
  is_branch v = false \/
  exists n d, depth = S n /\ v = PDict d /\ is_branch v = true /\
              d <> [] /\ codec_tree n d = true.

(** The segments of the prefix [_flatten_tree] puts before a key. *)
Definition prefix_segments (old_path : option string) : list string :=
  match old_path with
  | Some (String _ _ as p) => PyStr.split_slash p
  | _ => []
  end.

(** The part of [_flatten_tree] that comes from one entry. *)
Definition flatten_entry (old_path : option string) (k : string) (v : pyval)
  : list (string * pyval) :=
  if is_branch v
  then match v with
       | PDict d => _flatten_tree d (Some (new_path old_path k))
       | _ => []
       end
  else [(new_path old_path k, v)].

Section Vocabulary.
Context {E : Externals}.

(** The object after [m] is related to the object before it. *)
Definition respects (R : MapcheteConfig -> MapcheteConfig -> Prop) {A}
  (m : M A) : Prop :=
  forall s, R s (snd (m s)).

(** Once the object is ready, a method leaves [view] of it as it is. *)
Definition stable {V} (view : MapcheteConfig -> V) (s s' : MapcheteConfig)
  : Prop :=
  ready s = true -> view s' = view s.

(** The method does not touch the attribute [f]. *)
Definition keeps {F} (f : MapcheteConfig -> F) (s s' : MapcheteConfig)
  : Prop :=
  f s' = f s.

(** The two caches of the areas *)
Definition area_caches (c : MapcheteConfig) :=
  (_cache_area_at_zoom c, _cache_full_process_area c).

Definition whole (c : MapcheteConfig) := (core c, area_caches c).

(** The registry is what [input] computes from the parameters of the
    initialized zoom levels. *)
Definition registry_built (c : MapcheteConfig) (zooms : list Z)
  (reg : registry) : Prop :=
  exists raw_inputs delimiters self,
    raw_inputs_of (_params_at_zoom c) zooms [] = Ok raw_inputs /\
    initialize_inputs self delimiters raw_inputs [] = Ok reg /\
    process_pyramid self = process_pyramid c.

Definition built (c : MapcheteConfig) : Prop :=
  ready c = true /\
  exists zooms reg,
    init_zoom_levels_slot c = Some zooms /\ input_slot c = Some reg /\
    registry_built c zooms reg.

(** No zoom level, no parameters. *)
Definition no_params (s s' : MapcheteConfig) : Prop :=
  _params_at_zoom s = [] -> _params_at_zoom s' = [].

(** The object after [output] and the two bounds have been read. *)
Definition remaining_steps : M unit :=
  _ <~ output ;; _ <~ init_bounds ;; _ <~ bounds ;; ret tt.

(** The bounding geometries [_area_at_zoom] collects, read off the
    registry. *)
Fixpoint bboxes_of (reg : registry) (c : crs)
  (items : list (string * pyval)) : result (list geom) :=
  match items with
  | [] => Ok []
  | (k, v) :: items' =>
      if negb (is_none v) then
        h <- get_hash v ;;
        match kd_get identity_eqb reg h with
        | Some obj =>
            g <- bbox (obj_reader obj) c ;;
            gs <- bboxes_of reg c items' ;;
            Ok (g :: gs)
        | None => Raise key_error
        end
      else bboxes_of reg c items'
  end.

(** The area of a zoom level as [_area_at_zoom] computes it when the
    cache does not hold it. *)
Definition area_of (per_zoom : list (Z * dict)) (c : crs) (reg : registry)
  (ib : Bounds) (zoom : Z) : result geom :=
  match kd_get Z.eqb per_zoom zoom with
  | None => Raise key_error
  | Some params =>
      match dict_get params "input" with
      | Some (PDict d) =>
          boxes <- bboxes_of reg c d ;;
          Ok (intersection (cascaded_union boxes) (box ib))
      | Some _ => Raise (AttributeError "object has no attribute 'items'")
      | None => Ok (box ib)
      end
  end.

Definition area_now (s : MapcheteConfig) (reg : registry) (ib : Bounds)
  : Z -> result geom :=
  area_of (_params_at_zoom s) (pyramid_crs (process_pyramid s)) reg ib.

(** What the caches hold is what would be computed. *)
Definition caches_sound (s : MapcheteConfig) : Prop :=
  exists zooms reg ib,
    init_zoom_levels_slot s = Some zooms /\ input_slot s = Some reg /\
    init_bounds_slot s = Some ib /\
    (forall z g, kd_get Z.eqb (_cache_area_at_zoom s) z = Some g ->
                 area_now s reg ib z = Ok g) /\
    (forall g, _cache_full_process_area s = Some g ->
               exists gs, rmap (area_now s reg ib) zooms = Ok gs /\
                          g = buffer0 (cascaded_union gs)).

(** The value of [area_at_zoom], read off the stored properties. *)
Definition area_value (s : MapcheteConfig) (zooms : list Z) (reg : registry)
  (ib : Bounds) (zoom : pyval) : result geom :=
  match zoom with
  | PInt z =>
      if negb (zoom_in z zooms) then Raise zoom_unavailable
      else area_now s reg ib z
  | PNone =>
      gs <- rmap (area_now s reg ib) zooms ;;
      Ok (buffer0 (cascaded_union gs))
  | _ => Raise (ValueError "zoom must be an integer")
  end.

(** Every declaration of the list has an identity that is a key of the
    dictionary. *)
Definition declared {V} (flat : list (string * pyval))
  (d : list (identity * V)) : Prop :=
  forall k v, In (k, v) flat -> is_none v = false ->
    exists h x, get_hash v = Ok h /\ kd_get identity_eqb d h = Some x.

(** The declarations of the initialized zoom levels *)
Definition declared_at (params_at_zoom : list (Z * dict)) (zooms : list Z)
  {V} (d : list (identity * V)) : Prop :=
  forall zoom params tree,
    In zoom zooms -> kd_get Z.eqb params_at_zoom zoom = Some params ->
    dict_get params "input" = Some (PDict tree) ->
    declared (_flatten_tree tree None) d.

Definition ids (reg : registry) : list nat :=
  map (fun e => obj_id (snd e)) reg.

(** What [params_at_zoom] puts in the place of a declaration: the input
    object the registry holds under the declaration's identity. *)
Definition handle_of (reg : registry) (v : pyval) : pyval :=
  if is_none v then PNone
  else match get_hash v with
       | Ok h =>
           match kd_get identity_eqb reg h with
           | Some obj => PObj (obj_id obj)
           | None => PNone
           end
       | Raise _ => PNone
       end.

(** One input object for two declarations: the registry holds exactly
    one object under the identity both declarations have, no other
    identity has this object, and the snapshots of the two zoom levels
    hold it at the two paths. *)
Definition one_handle (c : MapcheteConfig) (zoom1 zoom2 : Z)
  (path1 path2 : string) (v1 v2 : pyval) : Prop :=
  exists (reg : registry) (h : identity) (obj : InputData),
    fst (input c) = Ok reg /\
    get_hash v1 = Ok h /\ get_hash v2 = Ok h /\
    filter (fun e => identity_eqb (fst e) h) reg = [(h, obj)] /\
    (forall h' obj', In (h', obj') reg -> obj_id obj' = obj_id obj ->
                     h' = h) /\
    exists snapshot1 snapshot2 input1 input2,
      fst (params_at_zoom zoom1 c) = Ok snapshot1 /\
      fst (params_at_zoom zoom2 c) = Ok snapshot2 /\
      dict_get snapshot1 "input" = Some input1 /\
      dict_get snapshot2 "input" = Some input2 /\
      tree_lookup (PyStr.split_slash path1) input1
      = Some (PObj (obj_id obj)) /\
      tree_lookup (PyStr.split_slash path2) input2
      = Some (PObj (obj_id obj)).

End Vocabulary.

(* ===================================================================== *)
(** ** Vocabulary of the further properties *)
(* ===================================================================== *)

(** The comparison the relation of a zoom statement stands for *)
Definition zoom_holds (rel : string) (zoom level : Z) : bool :=
  if String.eqb rel "=" then zoom =? level
  else if String.eqb rel "<=" then zoom <=? level
  else if String.eqb rel ">=" then zoom >=? level
  else if String.eqb rel "<" then zoom <? level
  else zoom >? level.

(** The relations of a zoom statement *)
Definition zoom_relations : list string := ["="; "<="; ">="; "<"; ">"].

(** [str(n)]: the decimal literal of an integer *)
Definition decimal (n : Z) : string := NilZero.string_of_int (Z.to_int n).

(** No character of [s] is one of [chars]. *)
Definition plain (chars s : string) : bool :=
  forallb (fun c => negb (PyStr.mem c chars)) (list_ascii_of_string s).

(** Every character of [s] is one of [chars]. *)
Definition made_of (chars s : string) : bool :=
  forallb (fun c => PyStr.mem c chars) (list_ascii_of_string s).

(** The number a string of digits stands for after the digits read so
    far stand for [acc]. *)
Fixpoint uint_value (acc : Z) (u : Decimal.uint) : Z :=
  match u with
  | Decimal.Nil => acc
  | Decimal.D0 u => uint_value (10 * acc) u
  | Decimal.D1 u => uint_value (10 * acc + 1) u
  | Decimal.D2 u => uint_value (10 * acc + 2) u
  | Decimal.D3 u => uint_value (10 * acc + 3) u
  | Decimal.D4 u => uint_value (10 * acc + 4) u
  | Decimal.D5 u => uint_value (10 * acc + 5) u
  | Decimal.D6 u => uint_value (10 * acc + 6) u
  | Decimal.D7 u => uint_value (10 * acc + 7) u
  | Decimal.D8 u => uint_value (10 * acc + 8) u
  | Decimal.D9 u => uint_value (10 * acc + 9) u
  end.

(** The loop of [_element_at_zoom] over the items of a mapping,
    [out_elements] being the dictionary built so far. *)
Fixpoint filter_items (name : string) (zoom : Z) (items : list (string * pyval))
  (out_elements : dict) : result dict :=
  match items with
  | [] => Ok out_elements
  | (sub_name, sub_element) :: items' =>
      out_element <- _element_at_zoom sub_name sub_element zoom ;;
      if String.eqb name "input" then
        filter_items name zoom items'
          (dict_set out_elements sub_name out_element)
      else if negb (is_none out_element) then
        filter_items name zoom items'
          (dict_set out_elements sub_name out_element)
      else filter_items name zoom items' out_elements
  end.

(** Every binding of [d] is a binding of [d']. *)
Definition extends (d d' : dict) : Prop :=
  forall k v, dict_get d k = Some v -> dict_get d' k = Some v.

(** A document with a parameter that depends on the zoom level and
    with baselevels. *)
Definition parameter_document : pyval :=
  PDict
    [("process_file", PStr "process.py");
     ("config_dir", PStr "/home/user");
     ("pyramid", PDict [("grid", PStr "geodetic"); ("metatiling", PInt 4)]);
     ("zoom_levels", PDict [("min", PInt 1); ("max", PInt 3)]);
     ("input", PDict [("dem", PStr "dem.tif")]);
     ("output", PDict [("format", PStr "GTiff"); ("path", PStr "out")]);
     ("baselevels", PDict [("min", PInt 2); ("lower", PStr "bilinear")]);
     ("threshold", PDict [("zoom<3", PInt 10); ("zoom>=3", PInt 20)])].

(** A document without inputs *)
Definition no_input_document : pyval :=
  PDict
    [("process_file", PStr "process.py");
     ("config_dir", PStr "/home/user");
     ("pyramid", PDict [("grid", PStr "geodetic"); ("metatiling", PInt 4)]);
     ("zoom_levels", PDict [("min", PInt 1); ("max", PInt 3)]);
     ("input", PNone);
     ("output", PDict [("format", PStr "GTiff"); ("path", PStr "out")])].

(** The objects of the demonstration for a [zoom] and a [bounds]
    argument: the one [__init__] has set the attributes of, the one it
    returns, and the registry of an object. *)
Definition prepared_with (doc zoom bounds : pyval)
  : @MapcheteConfig Demo.world :=
  match @preamble Demo.world doc zoom bounds "continue" with
  | Ok self => self
  | Raise _ => Demo.blank
  end.

Definition built_with (doc zoom bounds : pyval)
  : @MapcheteConfig Demo.world :=
  match @__init__ Demo.world doc zoom bounds "continue" with
  | Ok self => self
  | Raise _ => Demo.blank
  end.

Definition registry_of (c : @MapcheteConfig Demo.world)
  : @registry Demo.world :=
  match fst (@input Demo.world c) with
  | Ok reg => reg
  | Raise _ => []
  end.

Section FurtherVocabulary.
Context {E : Externals}.

(** The parameters of the zoom levels are those of [s], but for what
    is bound to "output". *)
Definition params_kept (s s' : MapcheteConfig) : Prop :=
  forall z,
    match kd_get Z.eqb (_params_at_zoom s) z with
    | Some p =>
        exists p', kd_get Z.eqb (_params_at_zoom s') z = Some p' /\
                   forall k, k <> "output" -> dict_get p' k = dict_get p k
    | None => kd_get Z.eqb (_params_at_zoom s') z = None
    end.

(** The zoom levels of a constructed object: the declared ones are what
    the raw document declares, the initialized ones are among them and
    are a run of consecutive levels, and there are parameters for the
    initialized levels and for no other. *)
Definition zooms_sound (c : MapcheteConfig) : Prop :=
  exists declared zs,
    zoom_levels_slot c = Some declared /\
    init_zoom_levels_slot c = Some zs /\
    declared_zoom_levels (_raw c) = Ok declared /\
    incl zs declared /\
    (exists lo hi, forall z, In z zs <-> lo <= z < hi) /\
    (forall z, kd_get Z.eqb (_params_at_zoom c) z <> None <-> In z zs).

(** The loop of [params_at_zoom] over the flattened input tree, the
    registry [reg] being what [self.input] returns. *)
Fixpoint dereference_in (reg : registry) (flat : list (string * pyval))
  (flat_inputs : dict) : result dict :=
  match flat with
  | [] => Ok flat_inputs
  | (k, v) :: flat' =>
      if is_none v then dereference_in reg flat' (dict_set flat_inputs k PNone)
      else
        h <- get_hash v ;;
        match kd_get identity_eqb reg h with
        | Some obj =>
            dereference_in reg flat'
              (dict_set flat_inputs k (PObj (obj_id obj)))
        | None => Raise key_error
        end
  end.

(** The value of [params_at_zoom], read off the stored properties. *)
Definition snapshot_value (per_zoom : list (Z * dict)) (zooms : list Z)
  (reg : registry) (zoom : Z) : result dict :=
  if negb (zoom_in zoom zooms) then Raise zoom_unavailable
  else
    match kd_get Z.eqb per_zoom zoom with
    | None => Raise key_error
    | Some params =>
        let out := dict_set params "input" (PDict []) in
        match dict_get params "input" with
        | Some input_at_zoom =>
            flat <- flatten_input input_at_zoom ;;
            flat_inputs <- dereference_in reg flat [] ;;
            tree <- _unflatten_tree flat_inputs ;;
            Ok (dict_set out "input" (PDict tree))
        | None => Ok (dict_set out "input" (PDict []))
        end
    end.

(** The parameters of the zoom levels are what the zoom filter makes of
    the elements of the raw document, but for what is bound to
    "output". *)
Definition params_sound (c : MapcheteConfig) : Prop :=
  forall (z : Z) (params : dict) (name : string),
    kd_get Z.eqb (_params_at_zoom c) z = Some params ->
    name <> "output" ->
    (forall v, dict_get params name = Some v ->
       str_in name _RESERVED_PARAMETERS = false /\ v <> PNone /\
       exists element,
         In (name, element) (_raw c) /\
         _element_at_zoom name element z = Ok v) /\
    (forall element v,
       In (name, element) (_raw c) ->
       str_in name _RESERVED_PARAMETERS = false ->
       _element_at_zoom name element z = Ok v -> v <> PNone ->
       dict_in name params = true).

(** The value the body of [baselevels] computes, [zooms] being what
    [self.zoom_levels] returns. *)
Definition baselevels_value (raw : dict) (zooms : list Z)
  (opyr ppyr : pyramid) : result (option Baselevels) :=
  match dict_get raw "baselevels" with
  | None => Ok None
  | Some (PDict bl) =>
      let minmax :=
        filter (fun kv => str_in (fst kv) ["min"; "max"]) bl in
      if is_empty minmax then
        Raise (MapcheteConfigError
                 "no min and max values given for baselevels")
      else if existsb (fun kv => bad_baselevel (snd kv)) minmax then
        Raise baselevels_error
      else
        lo_default <- zooms_min zooms ;;
        hi_default <- zooms_max zooms ;;
        match dict_get_default minmax "min" (PInt lo_default),
              dict_get_default minmax "max" (PInt hi_default) with
        | PInt lo, PInt hi =>
            tp <- BufferedTilePyramid (pyramid_type opyr)
                    (pyramid_metatiling ppyr) (pyramid_pixelbuffer opyr) ;;
            Ok (Some {| bl_zooms := py_range lo (hi + 1);
                        bl_lower :=
                          dict_get_default bl "lower" (PStr "nearest");
                        bl_higher :=
                          dict_get_default bl "higher" (PStr "nearest");
                        bl_tile_pyramid := tp |})
        | _, _ => Raise (TypeError "an integer is required")
        end
  | Some _ => Raise (AttributeError "object has no attribute 'items'")
  end.

(** What [baselevels] has stored is what its body computes. *)
Definition baselevels_sound (c : MapcheteConfig) : Prop :=
  forall v zooms,
    baselevels_slot c = Some v -> zoom_levels_slot c = Some zooms ->
    baselevels_value (_raw c) zooms (output_pyramid c) (process_pyramid c)
    = Ok v.

(** What a caller sees of the object: its core and the stored
    baselevels. *)
Definition surface (c : MapcheteConfig) :=
  (core c, baselevels_slot c).

(** [v] is an input the document declares at one of the zoom levels
    [zooms]: a leaf of the flattened input tree of that level, other
    than [None]. *)
Definition declared_input (c : MapcheteConfig) (zooms : list Z) (v : pyval)
  : Prop :=
  exists zoom params tree key,
    In zoom zooms /\
    kd_get Z.eqb (_params_at_zoom c) zoom = Some params /\
    dict_get params "input" = Some (PDict tree) /\
    In (key, v) (_flatten_tree tree None) /\ is_none v = false.

(** Every object of the registry is the reader of a declared input. *)
Definition registry_sound (c : MapcheteConfig) : Prop :=
  exists zooms ib pb reg,
    init_zoom_levels_slot c = Some zooms /\
    init_bounds_slot c = Some ib /\ bounds_slot c = Some pb /\
    input_slot c = Some reg /\
    forall h obj,
      In (h, obj) reg ->
      exists v,
        declared_input c zooms v /\ get_hash v = Ok h /\
        load_input c
          {| delim_zoom := zooms; delim_bounds := ib;
             delim_process_bounds := pb |} v
        = Ok (obj_reader obj).

(** Every zoom level holds under "output" the mapping the raw document
    holds there. *)
Definition output_shared (c : MapcheteConfig) : Prop :=
  forall (z : Z) (params : dict),
    kd_get Z.eqb (_params_at_zoom c) z = Some params ->
    dict_get params "output" = dict_get (_raw c) "output".

End FurtherVocabulary.

(** The mappings whose keys make plain path segments: at the mappings
    [_flatten_tree] walks through, no key is empty, holds a slash or occurs
    twice.  Nothing is asked of the depth, and a mapping may be empty. *)
Fixpoint keys_plain (v : pyval) {struct v} : bool :=
  match v with
  | PDict d =>
      if negb (dict_in "format" d) then
        nodup_keys (dict_keys d) &&
        (fix all (l : list (string * pyval)) {struct l} : bool :=
           match l with
           | [] => true
           | (k, v') :: l' => key_ok k && keys_plain v' && all l'
           end) d
      else true
  | _ => true
  end.

Definition plain_keys (tree : dict) : bool :=
  nodup_keys (dict_keys tree) &&
  forallb (fun kv => key_ok (fst kv) && keys_plain (snd kv)) tree.

(** Reading back what [json.dumps] writes.  [unescape_char] reads one
    character of a JSON string, escaped or not, and hands on what follows
    it. *)
Definition hex_value (c : ascii) : nat :=
  let n := nat_of_ascii c in
  if Nat.leb n 57 then (n - 48)%nat else (n - 87)%nat.

Definition unescape_char (s : string) : option (ascii * string) :=
  match s with
  | EmptyString => None
  | String c r =>
      if negb (Nat.eqb (nat_of_ascii c) 92) then Some (c, r)
      else
        match r with
        | EmptyString => None
        | String e r' =>
            if Ascii.eqb e "n" then Some (ascii_of_nat 10, r')
            else if Ascii.eqb e "r" then Some (ascii_of_nat 13, r')
            else if Ascii.eqb e "t" then Some (ascii_of_nat 9, r')
            else if Ascii.eqb e "b" then Some (ascii_of_nat 8, r')
            else if Ascii.eqb e "f" then Some (ascii_of_nat 12, r')
            else if Ascii.eqb e "u" then
              match r' with
              | String _ (String _ (String h (String l r''))) =>
                  Some (ascii_of_nat (16 * hex_value h + hex_value l), r'')
              | _ => None
              end
            else Some (e, r')
        end
  end.

Definition quote : ascii := ascii_of_nat 34.

(** The first character of [s] is there and is no quote. *)
Definition starts_unquoted (s : string) : bool :=
  match s with
  | EmptyString => false
  | String c _ => negb (Ascii.eqb c quote)
  end.

(** What may follow a JSON text: nothing, or a character that no number is
    written with. *)
Definition stops (r : string) : bool :=
  match r with
  | EmptyString => true
  | String c _ => negb (PyStr.mem c "-0123456789")
  end.

(** The kinds of values, and the kind the first character of a JSON text
    tells. *)
Definition kind (x : pyval) : nat :=
  match x with
  | PNone => 0
  | PInt _ => 1
  | PStr _ => 2
  | PList _ => 3
  | PDict _ => 4
  | PObj _ => 5
  end.

Definition kind_of_text (s : string) : nat :=
  match s with
  | EmptyString => 6
  | String c _ =>
      if Ascii.eqb c "n" then 0
      else if PyStr.mem c "-0123456789" then 1
      else if Ascii.eqb c quote then 2
      else if Ascii.eqb c "[" then 3
      else if Ascii.eqb c "{" then 4
      else 6
  end%nat.

(** The text of one pair of a mapping *)
Definition dumps_pair (kv : string * pyval) : result string :=
  s <- Json.dumps (snd kv) ;;
  Ok (Json.quoted (fst kv) ++ ": " ++ s)%string.

(** What follows the text of an element in the text of a sequence that ends
    with [close]: the separator and the elements left, or [close]. *)
Definition sequel (close : ascii) (parts : list string) (r : string)
  : string :=
  match parts with
  | [] => String close r
  | _ => (", " ++ PyStr.join ", " parts ++ String close r)%string
  end.

(** A second world.  It is the world of the demonstration but for
    [buffer(0)], which here cleans a geometry as the geometry library does:
    the parts that have no area are dropped. *)
Module Cleaning.

Definition has_area (b : Bounds) : bool :=
  match b with
  | (l, b0, r, t) => (l <? r) && (b0 <? t)
  end.

Definition world : Externals :=
  {| hash := @hash Demo.world;
     os_path_join := @os_path_join Demo.world;
     os_path_normpath := @os_path_normpath Demo.world;
     os_path_isfile := @os_path_isfile Demo.world;
     os_path_splitext_ext := @os_path_splitext_ext Demo.world;
     os_path_dirname_realpath := @os_path_dirname_realpath Demo.world;
     py_compile_compile := @py_compile_compile Demo.world;
     yaml_load_file := @yaml_load_file Demo.world;
     pyramid := @pyramid Demo.world;
     crs := @crs Demo.world;
     BufferedTilePyramid := @BufferedTilePyramid Demo.world;
     pyramid_type := @pyramid_type Demo.world;
     pyramid_metatiling := @pyramid_metatiling Demo.world;
     pyramid_pixelbuffer := @pyramid_pixelbuffer Demo.world;
     pyramid_bounds := @pyramid_bounds Demo.world;
     pyramid_crs := @pyramid_crs Demo.world;
     writer := @writer Demo.world;
     reader := @reader Demo.world;
     available_output_formats := @available_output_formats Demo.world;
     load_output_writer := @load_output_writer Demo.world;
     is_valid_with_config := @is_valid_with_config Demo.world;
     load_input_reader := @load_input_reader Demo.world;
     geom := Demo.boxes;
     bbox := @bbox Demo.world;
     box := @box Demo.world;
     cascaded_union := @cascaded_union Demo.world;
     intersection := @intersection Demo.world;
     buffer0 := filter has_area;
     geom_is_empty := @geom_is_empty Demo.world;
     geom_bounds := @geom_bounds Demo.world |}.

(** A document without inputs whose bounds are a line: left and right
    are the same. *)
Definition line_document : pyval :=
  PDict
    [("process_file", PStr "process.py");
     ("config_dir", PStr "/home/user");
     ("pyramid", PDict [("grid", PStr "geodetic"); ("metatiling", PInt 4)]);
     ("zoom_levels", PDict [("min", PInt 1); ("max", PInt 3)]);
     ("bounds", PList [PInt 0; PInt 0; PInt 0; PInt 10]);
     ("input", PNone);
     ("output", PDict [("format", PStr "GTiff"); ("path", PStr "out")])].

Definition built_of (doc : pyval) : @MapcheteConfig world :=
  match @__init__ world doc PNone PNone "continue" with
  | Ok self => self
  | Raise _ =>
      @Build_MapcheteConfig world [] [] None EmptyString PNone
        (PNone, PNone, PNone) (PNone, PNone, PNone) EmptyString [] None None
        None None None None None
  end.

End Cleaning.

(* ********************************************************************* *)
(** * Properties *)
(* ********************************************************************* *)

(* ===================================================================== *)
(** ** Properties of the string and dictionary primitives *)
(* ===================================================================== *)

Open Scope list_scope.

Lemma has_slash_app (a b : string) :
  PyStr.has_slash (a ++ b)%string = PyStr.has_slash a || PyStr.has_slash b.
Proof.
  induction a as [| c a IH]; cbn; [reflexivity |].
  now rewrite IH, orb_assoc.
Qed.

Lemma split_slash_app (a b : string) :
  PyStr.split_slash (a ++ "/" ++ b)%string
  = PyStr.split_slash a ++ PyStr.split_slash b.
Proof.
  induction a as [| c a IH]; [reflexivity |].
  cbn [append PyStr.split_slash]. 
  change (a ++ String "/" b)%string with (a ++ "/" ++ b)%string. rewrite IH.
  pose proof (split_slash_nonempty a) as Hne.
  destruct (Ascii.eqb c "/"); [reflexivity |].
  destruct (PyStr.split_slash a); [congruence | reflexivity].
Qed.

Lemma split_slash_free (k : string) :
  PyStr.has_slash k = false -> PyStr.split_slash k = [k].
Proof.
  induction k as [| c k IH]; [reflexivity |].
  cbn. destruct (Ascii.eqb c "/"); [discriminate |].
  cbn. intros H. now rewrite IH.
Qed.

Lemma key_ok_spec (k : string) :
  key_ok k = true -> k <> "" /\ PyStr.has_slash k = false.
Proof.
  unfold key_ok. rewrite andb_true_iff, !negb_true_iff.
  intros [H1 H2]. split; [now apply String.eqb_neq | assumption].
Qed.

Lemma new_path_some (p key : string) :
  p <> "" -> new_path (Some p) key = (p ++ "/" ++ key)%string.
Proof. destruct p; [congruence | reflexivity]. Qed.

Lemma append_nonempty (p q : string) : p <> "" -> (p ++ q)%string <> "".
Proof. destruct p; [congruence | discriminate]. Qed.

Section DictFacts.
Variable V : Type.
Implicit Types d e : list (string * V).

Lemma dict_get_notin d k : ~ In k (dict_keys d) -> dict_get d k = None.
Proof.
  induction d as [| [k' v] d IH]; [reflexivity |].
  cbn. intros H. destruct (String.eqb_spec k k') as [-> | _].
  - exfalso. apply H. now left.
  - apply IH. intros Hin. apply H. now right.
Qed.

Lemma dict_get_app_notin d e k :
  ~ In k (dict_keys d) -> dict_get (d ++ e) k = dict_get e k.
Proof.
  induction d as [| [k' v] d IH]; [reflexivity |].
  cbn. intros H. destruct (String.eqb_spec k k') as [-> | _].
  - exfalso. apply H. now left.
  - apply IH. intros Hin. apply H. now right.
Qed.

Lemma dict_set_fresh d k v :
  ~ In k (dict_keys d) -> dict_set d k v = (d ++ [(k, v)])%list.
Proof.
  induction d as [| [k' v'] d IH]; [reflexivity |].
  cbn. intros H. destruct (String.eqb_spec k k') as [-> | _].
  - exfalso. apply H. now left.
  - f_equal. apply IH. intros Hin. apply H. now right.
Qed.

Lemma dict_set_last d k v w :
  ~ In k (dict_keys d) ->
  dict_set (d ++ [(k, v)]) k w = (d ++ [(k, w)])%list.
Proof.
  induction d as [| [k' v'] d IH].
  - cbn. now rewrite String.eqb_refl.
  - cbn. intros H. destruct (String.eqb_spec k k') as [-> | _].
    + exfalso. apply H. now left.
    + f_equal. apply IH. intros Hin. apply H. now right.
Qed.

Lemma dict_get_last d k v :
  ~ In k (dict_keys d) -> dict_get (d ++ [(k, v)]) k = Some v.
Proof.
  intros H. rewrite dict_get_app_notin by assumption.
  cbn. now rewrite String.eqb_refl.
Qed.

Lemma dict_keys_app d e :
  dict_keys (d ++ e) = (dict_keys d ++ dict_keys e)%list.
Proof. apply map_app. Qed.

Lemma dict_update_fresh e d :
  NoDup (dict_keys d ++ dict_keys e) ->
  dict_update d e = (d ++ e)%list.
Proof.
  revert d. induction e as [| [k v] e IH]; intros d Hnd.
  - cbn. now rewrite app_nil_r.
  - cbn [dict_update fold_left fst snd].
    assert (Hk : ~ In k (dict_keys d)).
    { intros Hin. apply NoDup_remove_2 in Hnd. apply Hnd.
      apply in_or_app. now left. }
    rewrite dict_set_fresh by assumption.
    change (fold_left _ e ?a) with (dict_update a e).
    rewrite IH.
    + now rewrite <- app_assoc.
    + rewrite dict_keys_app. cbn. rewrite <- app_assoc. exact Hnd.
Qed.

Lemma dict_of_items_nodup (items : list (string * V)) :
  NoDup (dict_keys items) -> dict_of_items items = items.
Proof. intros H. unfold dict_of_items. now rewrite dict_update_fresh. Qed.
End DictFacts.

Lemma nodup_keys_spec (l : list string) :
  nodup_keys l = true <-> NoDup l.
Proof.
  induction l as [| k l IH]; cbn.
  - split; [constructor | reflexivity].
  - rewrite andb_true_iff, negb_true_iff, IH. split.
    + intros [Hk Hl]. constructor; [| assumption].
      intros Hin. 
      assert (existsb (String.eqb k) l = true) as E.
      { apply existsb_exists. exists k. split; [assumption |].
        apply String.eqb_refl. }
      congruence.
    + intros Hnd. inversion Hnd as [| ? ? Hk Hl]; subst. split; [| assumption].
      destruct (existsb (String.eqb k) l) eqn:E; [| reflexivity].
      apply existsb_exists in E. destruct E as [k' [Hin Heq]].
      apply String.eqb_eq in Heq. subst. contradiction.
Qed.

(* ===================================================================== *)
(** ** The tree codec *)
(* ===================================================================== *)

(** The loop of [_unflatten_tree] as the source writes it. *)
Lemma _unflatten_loop_cons (key : string) (value : pyval) (flat' tree : dict) :
  _unflatten_loop ((key, value) :: flat') tree =
  match PyStr.split_slash key with
  | p0 :: p1 :: rest =>
      match dict_get tree p0 with
      | None =>
          sub <- _unflatten_tree [(PyStr.join "/" (p1 :: rest), value)] ;;
          _unflatten_loop flat' (dict_set tree p0 (PDict sub))
      | Some t0 =>
          branch <- _unflatten_tree [(PyStr.join "/" (p1 :: rest), value)] ;;
          tree' <- merge_branch tree p0 p1 t0 branch ;;
          _unflatten_loop flat' tree'
      end
  | _ => _unflatten_loop flat' (dict_set tree key value)
  end.
Proof.
  rewrite _unflatten_loop_equation_2. unfold _unflatten_tree.
  generalize (Logic.inspect (PyStr.split_slash key)).
  intros [path e].
  transitivity
    (match path with
     | p0 :: p1 :: rest =>
         match dict_get tree p0 with
         | None =>
             sub <- _unflatten_loop [(PyStr.join "/" (p1 :: rest), value)] [] ;;
             _unflatten_loop flat' (dict_set tree p0 (PDict sub))
         | Some t0 =>
             branch <-
               _unflatten_loop [(PyStr.join "/" (p1 :: rest), value)] [] ;;
             tree' <- merge_branch tree p0 p1 t0 branch ;;
             _unflatten_loop flat' tree'
         end
     | _ => _unflatten_loop flat' (dict_set tree key value)
     end).
  - destruct path as [| p0 [| p1 rest]]; reflexivity.
  - now rewrite e.
Qed.

Lemma _unflatten_loop_nil (tree : dict) : _unflatten_loop [] tree = Ok tree.
Proof. now rewrite _unflatten_loop_equation_1. Qed.

Lemma unflatten_single1 (k : string) (v : pyval) :
  PyStr.has_slash k = false -> _unflatten_tree [(k, v)] = Ok [(k, v)].
Proof.
  intros Hk. unfold _unflatten_tree.
  rewrite _unflatten_loop_cons, split_slash_free by assumption.
  apply _unflatten_loop_nil.
Qed.

Lemma unflatten_single2 (k2 k3 : string) (v : pyval) :
  PyStr.has_slash k2 = false -> PyStr.has_slash k3 = false ->
  _unflatten_tree [((k2 ++ "/" ++ k3)%string, v)]
  = Ok [(k2, PDict [(k3, v)])].
Proof.
  intros H2 H3. unfold _unflatten_tree.
  rewrite _unflatten_loop_cons, split_slash_app, !split_slash_free
    by assumption.
  cbn [app dict_get PyStr.join]. rewrite unflatten_single1 by assumption.
  cbn [rbind dict_set]. apply _unflatten_loop_nil.
Qed.

Lemma dict_getitem_single (k : string) (v : pyval) :
  dict_getitem [(k, v)] k = Ok v.
Proof. unfold dict_getitem. cbn. now rewrite String.eqb_refl. Qed.

Lemma attach1_snoc (done : dict) (k : string) (d_done : dict)
  (kv : string * pyval) :
  attach1 done k (d_done ++ [kv])%list
  = (done ++ [(k, PDict (d_done ++ [kv]))])%list.
Proof. unfold attach1. now destruct d_done. Qed.

Lemma step1 (k : string) (v : pyval) (more done : dict) :
  PyStr.has_slash k = false -> ~ In k (dict_keys done) ->
  _unflatten_loop ((k, v) :: more) done
  = _unflatten_loop more (done ++ [(k, v)])%list.
Proof.
  intros Hk Hfresh.
  rewrite _unflatten_loop_cons, split_slash_free by assumption.
  now rewrite dict_set_fresh.
Qed.

Lemma step2 (key k k2 : string) (v : pyval) (more done d_done : dict) :
  PyStr.split_slash key = [k; k2] ->
  PyStr.has_slash k2 = false ->
  ~ In k (dict_keys done) -> ~ In k2 (dict_keys d_done) ->
  _unflatten_loop ((key, v) :: more) (attach1 done k d_done)
  = _unflatten_loop more (attach1 done k (d_done ++ [(k2, v)])%list).
Proof.
  intros Hsplit H2 Hk Hk2.
  rewrite _unflatten_loop_cons, Hsplit. cbn [PyStr.join].
  rewrite unflatten_single1 by assumption. cbn [rbind].
  rewrite attach1_snoc.
  destruct d_done as [| kv0 d0].
  - cbn [attach1 app]. rewrite dict_get_notin by assumption.
    now rewrite dict_set_fresh.
  - cbn [attach1]. rewrite dict_get_last by assumption.
    cbn [merge_branch]. rewrite dict_get_notin by assumption.
    rewrite dict_getitem_single. cbn [rbind].
    rewrite dict_set_last by assumption.
    now rewrite dict_set_fresh by assumption.
Qed.

Lemma step3 (key k k2 k3 : string) (v : pyval)
  (more done d_done e_done : dict) :
  PyStr.split_slash key = [k; k2; k3] ->
  PyStr.has_slash k2 = false -> PyStr.has_slash k3 = false ->
  ~ In k (dict_keys done) -> ~ In k2 (dict_keys d_done) ->
  ~ In k3 (dict_keys e_done) ->
  _unflatten_loop ((key, v) :: more) (attach2 done k d_done k2 e_done)
  = _unflatten_loop more (attach2 done k d_done k2 (e_done ++ [(k3, v)])%list).
Proof.
  intros Hsplit H2 H3 Hk Hk2 Hk3.
  rewrite _unflatten_loop_cons, Hsplit. rewrite join_cons_cons.
  cbn [PyStr.join].
  rewrite unflatten_single2 by assumption. cbn [rbind].
  unfold attach2.
  assert (Hsnoc : match (e_done ++ [(k3, v)])%list with
                  | [] => d_done
                  | _ => (d_done ++ [(k2, PDict (e_done ++ [(k3, v)]))])%list
                  end = (d_done ++ [(k2, PDict (e_done ++ [(k3, v)]))])%list)
    by now destruct e_done.
  rewrite Hsnoc, attach1_snoc.
  destruct e_done as [| kv1 e1].
  - destruct d_done as [| kv0 d0].
    + cbn [attach1 app]. rewrite dict_get_notin by assumption.
      now rewrite dict_set_fresh.
    + cbn [attach1]. rewrite dict_get_last by assumption.
      cbn [merge_branch]. rewrite dict_get_notin by assumption.
      rewrite dict_getitem_single. cbn [rbind].
      rewrite dict_set_last by assumption.
      now rewrite dict_set_fresh by assumption.
  - rewrite attach1_snoc. rewrite dict_get_last by assumption.
    cbn [merge_branch]. rewrite dict_get_last by assumption.
    rewrite dict_getitem_single. cbn [rbind py_update].
    rewrite dict_set_last by assumption.
    rewrite dict_set_last by assumption.
    cbn [dict_update fold_left fst snd].
    now rewrite dict_set_fresh by assumption.
Qed.

Lemma codec_tree_cons (depth : nat) (k : string) (v : pyval) (rest : dict) :
  codec_tree depth ((k, v) :: rest) = true ->
  key_ok k = true /\ ~ In k (dict_keys rest) /\ entry_ok depth v /\
  codec_tree depth rest = true.
Proof.
  destruct depth as [| n]; cbn [codec_tree dict_keys map fst snd forallb
                                 nodup_keys];
    rewrite !andb_true_iff, negb_true_iff; intros [[Hk Hnd] [[Hkey Hv] Hrest]].
  all: assert (Hnotin : ~ In k (map fst rest))
    by (intros Hin;
        assert (existsb (String.eqb k) (map fst rest) = true)
          by (apply existsb_exists; exists k; split;
              [assumption | apply String.eqb_refl]);
        congruence).
  all: repeat split; try assumption.
  - left. destruct (is_branch v) eqn:Hb; [discriminate Hv | reflexivity].
  - destruct (is_branch v) eqn:Hb; [| now left].
    right. destruct v as [| | | | d |]; try discriminate.
    apply andb_true_iff in Hv. destruct Hv as [Hne Hd].
    exists n, d. repeat split; try assumption.
    intros ->. discriminate.
Qed.

Lemma flatten_value_leaf (path : string) (v : pyval) :
  is_branch v = false -> flatten_value path v = [(path, v)].
Proof.
  destruct v as [| | | | d |]; try reflexivity.
  cbn. now intros ->.
Qed.

Lemma flatten_value_branch (path : string) (d : dict) :
  is_branch (PDict d) = true ->
  flatten_value path (PDict d) = _flatten_tree d (Some path).
Proof.
  cbn [is_branch flatten_value]. intros ->. unfold _flatten_tree.
  induction d as [| [k v] d IH]; [reflexivity |].
  cbn [flat_map fst snd]. now rewrite <- IH.
Qed.

(** [_flatten_tree] as the source writes its loop. *)
Lemma _flatten_tree_cons (key : string) (value : pyval) (rest : dict)
  (old_path : option string) :
  _flatten_tree ((key, value) :: rest) old_path =
  ((if is_branch value
    then match value with
         | PDict d => _flatten_tree d (Some (new_path old_path key))
         | _ => []
         end
    else [(new_path old_path key, value)])
   ++ _flatten_tree rest old_path)%list.
Proof.
  unfold _flatten_tree at 1. cbn [flat_map fst snd]. f_equal.
  destruct (is_branch value) eqn:Hb.
  - destruct value; try discriminate. now apply flatten_value_branch.
  - now apply flatten_value_leaf.
Qed.

Lemma map_leaves_leaf (f : pyval -> pyval) (v : pyval) :
  is_branch v = false -> map_leaves f v = f v.
Proof.
  destruct v as [| | | | d |]; try reflexivity.
  cbn. now intros ->.
Qed.

Lemma map_leaves_branch (f : pyval -> pyval) (d : dict) :
  is_branch (PDict d) = true ->
  map_leaves f (PDict d) = PDict (map_tree f d).
Proof. cbn [is_branch map_leaves]. now intros ->. Qed.

Lemma map_values_app (f : pyval -> pyval) (l m : list (string * pyval)) :
  map_values f (l ++ m) = (map_values f l ++ map_values f m)%list.
Proof. apply map_app. Qed.

Lemma dict_keys_map_values (f : pyval -> pyval) (l : list (string * pyval)) :
  dict_keys (map_values f l) = dict_keys l.
Proof.
  unfold dict_keys, map_values. rewrite map_map. reflexivity.
Qed.

Section Rebuild.
Variable f : pyval -> pyval.

Lemma rebuild3 (p k k2 : string) (done d_done more : dict) :
  PyStr.split_slash p = [k; k2] -> p <> "" ->
  PyStr.has_slash k2 = false ->
  ~ In k (dict_keys done) -> ~ In k2 (dict_keys d_done) ->
  forall e_rest e_done : dict,
    codec_tree 0 e_rest = true ->
    NoDup (dict_keys e_done ++ dict_keys e_rest) ->
    _unflatten_loop (map_values f (_flatten_tree e_rest (Some p)) ++ more)
      (attach2 done k d_done k2 e_done)
    = _unflatten_loop more
        (attach2 done k d_done k2 (e_done ++ map_tree f e_rest)).
Proof.
  intros Hp Hne H2 Hk Hk2.
  induction e_rest as [| [k3 v3] e_rest IH]; intros e_done Hok Hnd.
  - cbn. now rewrite app_nil_r.
  - apply codec_tree_cons in Hok.
    destruct Hok as [Hkey [Hfresh [Hentry Hrest]]].
    apply key_ok_spec in Hkey. destruct Hkey as [_ H3].
    assert (Hleaf : is_branch v3 = false).
    { destruct Hentry as [H | [n [d [Hn _]]]]; [assumption | discriminate]. }
    rewrite _flatten_tree_cons, Hleaf, new_path_some by assumption.
    cbn [app map_values map fst snd].
    rewrite step3 with (k := k) (k2 := k2) (k3 := k3); try assumption.
    + change (map (fun kv => (fst kv, f (snd kv))) ?l) with (map_values f l).
      rewrite IH; try assumption.
      * cbn [map_tree map fst snd]. rewrite map_leaves_leaf by assumption.
        now rewrite <- app_assoc.
      * rewrite dict_keys_app. cbn. rewrite <- app_assoc. exact Hnd.
    + rewrite split_slash_app, Hp, split_slash_free by assumption.
      reflexivity.
    + apply NoDup_remove_2 in Hnd. intros Hin. apply Hnd.
      apply in_or_app. now left.
Qed.

Lemma rebuild2 (k : string) (done more : dict) :
  key_ok k = true -> ~ In k (dict_keys done) ->
  forall d_rest d_done : dict,
    codec_tree 1 d_rest = true ->
    NoDup (dict_keys d_done ++ dict_keys d_rest) ->
    _unflatten_loop (map_values f (_flatten_tree d_rest (Some k)) ++ more)
      (attach1 done k d_done)
    = _unflatten_loop more (attach1 done k (d_done ++ map_tree f d_rest)).
Proof.
  intros Hkey Hk. apply key_ok_spec in Hkey. destruct Hkey as [Hne Hslash].
  induction d_rest as [| [k2 v2] d_rest IH]; intros d_done Hok Hnd.
  - cbn. now rewrite app_nil_r.
  - apply codec_tree_cons in Hok.
    destruct Hok as [Hkey2 [Hfresh [Hentry Hrest]]].
    apply key_ok_spec in Hkey2. destruct Hkey2 as [Hne2 H2].
    assert (Hk2 : ~ In k2 (dict_keys d_done)).
    { apply NoDup_remove_2 in Hnd. intros Hin. apply Hnd.
      apply in_or_app. now left. }
    assert (Hnd' : forall kv : string * pyval,
               fst kv = k2 ->
               NoDup (dict_keys (d_done ++ [kv]) ++ dict_keys d_rest)).
    { intros kv <-. rewrite dict_keys_app. cbn. rewrite <- app_assoc.
      exact Hnd. }
    rewrite _flatten_tree_cons, new_path_some by assumption.
    rewrite map_values_app, <- app_assoc.
    cbn [map_tree map fst snd].
    destruct Hentry as [Hleaf | [n [e [Hn [-> [Hb [Hene He]]]]]]].
    + rewrite Hleaf. cbn [app map_values map fst snd].
      rewrite step2 with (k := k) (k2 := k2); try assumption.
      * rewrite IH; try assumption; [| now apply Hnd'].
        rewrite map_leaves_leaf by assumption.
        now rewrite <- app_assoc.
      * rewrite split_slash_app, !split_slash_free by assumption.
        reflexivity.
    + rewrite Hb. injection Hn as <-.
      change (attach1 done k d_done) with (attach2 done k d_done k2 []).
      rewrite rebuild3 with (k := k) (k2 := k2); try assumption.
      * cbn [app].
        assert (Hatt : attach2 done k d_done k2 (map_tree f e)
                       = attach1 done k
                           (d_done ++ [(k2, PDict (map_tree f e))])).
        { unfold attach2. destruct e; [congruence | reflexivity]. }
        rewrite Hatt, IH; try assumption; [| now apply Hnd'].
        rewrite map_leaves_branch by assumption.
        now rewrite <- app_assoc.
      * rewrite split_slash_app, !split_slash_free by assumption.
        reflexivity.
      * now apply append_nonempty.
      * cbn. apply nodup_keys_spec.
        destruct e; [congruence |]. cbn [codec_tree] in He.
        apply andb_true_iff in He. apply He.
Qed.

Lemma rebuild1 (more : dict) :
  forall t_rest done : dict,
    codec_tree 2 t_rest = true ->
    NoDup (dict_keys done ++ dict_keys t_rest) ->
    _unflatten_loop (map_values f (_flatten_tree t_rest None) ++ more) done
    = _unflatten_loop more (done ++ map_tree f t_rest).
Proof.
  induction t_rest as [| [k v] t_rest IH]; intros done Hok Hnd.
  - cbn. now rewrite app_nil_r.
  - apply codec_tree_cons in Hok.
    destruct Hok as [Hkey [Hfresh [Hentry Hrest]]].
    pose proof (key_ok_spec _ Hkey) as [Hne Hslash].
    assert (Hk : ~ In k (dict_keys done)).
    { apply NoDup_remove_2 in Hnd. intros Hin. apply Hnd.
      apply in_or_app. now left. }
    assert (Hnd' : forall kv : string * pyval,
               fst kv = k ->
               NoDup (dict_keys (done ++ [kv]) ++ dict_keys t_rest)).
    { intros kv <-. rewrite dict_keys_app. cbn. rewrite <- app_assoc.
      exact Hnd. }
    rewrite _flatten_tree_cons. cbn [new_path].
    rewrite map_values_app, <- app_assoc.
    cbn [map_tree map fst snd].
    destruct Hentry as [Hleaf | [n [d [Hn [-> [Hb [Hdne Hd]]]]]]].
    + rewrite Hleaf. cbn [app map_values map fst snd].
      rewrite step1 by assumption.
      rewrite IH; try assumption; [| now apply Hnd'].
      rewrite map_leaves_leaf by assumption.
      now rewrite <- app_assoc.
    + rewrite Hb. injection Hn as <-.
      change done with (attach1 done k []) at 1.
      rewrite rebuild2; try assumption.
      * cbn [app].
        assert (Hatt : attach1 done k (map_tree f d)
                       = (done ++ [(k, PDict (map_tree f d))])%list).
        { unfold attach1. destruct d; [congruence | reflexivity]. }
        rewrite Hatt, IH; try assumption; [| now apply Hnd'].
        rewrite map_leaves_branch by assumption.
        now rewrite <- app_assoc.
      * cbn. apply nodup_keys_spec.
        destruct d; [congruence |]. cbn [codec_tree] in Hd.
        apply andb_true_iff in Hd. apply Hd.
Qed.

Lemma unflatten_map_flatten (t : dict) :
  codec_tree 2 t = true ->
  _unflatten_tree (map_values f (_flatten_tree t None))
  = Ok (map_tree f t).
Proof.
  intros Hok. unfold _unflatten_tree.
  rewrite <- (app_nil_r (map_values f _)), rebuild1.
  - apply _unflatten_loop_nil.
  - assumption.
  - cbn. apply nodup_keys_spec. destruct t; [constructor |].
    cbn [codec_tree] in Hok. apply andb_true_iff in Hok. apply Hok.
Qed.
End Rebuild.

Lemma split_new_path (old_path : option string) (k : string) :
  PyStr.has_slash k = false ->
  PyStr.split_slash (new_path old_path k) = prefix_segments old_path ++ [k].
Proof.
  intros Hk. destruct old_path as [[| c p] |]; cbn [new_path prefix_segments].
  - now apply split_slash_free.
  - rewrite join_cons_cons. cbn [PyStr.join].
    now rewrite split_slash_app, (split_slash_free k).
  - now apply split_slash_free.
Qed.

Lemma new_path_nonempty (old_path : option string) (k : string) :
  k <> "" -> new_path old_path k <> "".
Proof.
  intros Hk. destruct old_path as [[| c p] |]; cbn; try assumption.
  discriminate.
Qed.

Lemma prefix_segments_some (p : string) :
  p <> "" -> prefix_segments (Some p) = PyStr.split_slash p.
Proof. destruct p; [congruence | reflexivity]. Qed.

(** Every flattened path starts with the prefix and a key of the tree. *)
Lemma flatten_keys_split (depth : nat) :
  forall (d : dict) (old_path : option string) (key : string) (x : pyval),
    codec_tree depth d = true ->
    In (key, x) (_flatten_tree d old_path) ->
    exists k more,
      In k (dict_keys d) /\
      PyStr.split_slash key = prefix_segments old_path ++ k :: more.
Proof.
  induction depth as [| n IHn];
    induction d as [| [k v] d IHd]; intros old_path key x Hok Hin;
    try contradiction.
  all: apply codec_tree_cons in Hok;
    destruct Hok as [Hkey [Hfresh [Hentry Hrest]]];
    apply key_ok_spec in Hkey; destruct Hkey as [Hne Hslash];
    rewrite _flatten_tree_cons in Hin; apply in_app_or in Hin;
    destruct Hin as [Hin | Hin].
  all: try (destruct (IHd old_path key x Hrest Hin) as [k' [more [Hk' Hs]]];
            exists k', more; split; [now right | assumption]).
  - destruct Hentry as [Hleaf | [n [e [Hn _]]]]; [| discriminate].
    rewrite Hleaf in Hin. destruct Hin as [Heq | []].
    injection Heq as <- <-. exists k, []. split; [now left |].
    now apply split_new_path.
  - destruct Hentry as [Hleaf | [n' [e [Hn [-> [Hb [Hene He]]]]]]].
    + rewrite Hleaf in Hin. destruct Hin as [Heq | []].
      injection Heq as <- <-. exists k, []. split; [now left |].
      now apply split_new_path.
    + rewrite Hb in Hin. injection Hn as <-.
      destruct (IHn e _ key x He Hin) as [k' [more [Hk' Hs]]].
      exists k, (k' :: more). split; [now left |].
      rewrite Hs, prefix_segments_some by now apply new_path_nonempty.
      rewrite split_new_path by assumption. now rewrite <- app_assoc.
Qed.

Lemma flatten_entry_split (depth : nat) (old_path : option string)
  (k : string) (v : pyval) (key : string) (x : pyval) :
  key_ok k = true -> entry_ok depth v ->
  In (key, x) (flatten_entry old_path k v) ->
  exists more,
    PyStr.split_slash key = prefix_segments old_path ++ k :: more.
Proof.
  intros Hkey Hentry Hin. unfold flatten_entry in Hin.
  apply key_ok_spec in Hkey. destruct Hkey as [Hne Hslash].
  destruct Hentry as [Hleaf | [n [e [Hn [-> [Hb [Hene He]]]]]]].
  - rewrite Hleaf in Hin. destruct Hin as [Heq | []].
    injection Heq as <- <-. exists []. now apply split_new_path.
  - rewrite Hb in Hin.
    destruct (@flatten_keys_split n e _ key x He Hin) as [k' [more [_ Hs]]].
    exists (k' :: more).
    rewrite Hs, prefix_segments_some by now apply new_path_nonempty.
    rewrite split_new_path by assumption. now rewrite <- app_assoc.
Qed.

Lemma nodup_single (k : string) (v : pyval) : NoDup (dict_keys [(k, v)]).
Proof. cbn. apply NoDup_cons; [intros Hin; destruct Hin | apply NoDup_nil]. Qed.

Lemma flatten_nodup (depth : nat) :
  forall (d : dict) (old_path : option string),
    codec_tree depth d = true ->
    NoDup (dict_keys (_flatten_tree d old_path)).
Proof.
  induction depth as [| n IHn];
    induction d as [| [k v] d IHd]; intros old_path Hok;
    try constructor.
  all: apply codec_tree_cons in Hok;
    destruct Hok as [Hkey [Hfresh [Hentry Hrest]]];
    rewrite _flatten_tree_cons, dict_keys_app;
    change (if is_branch v then _ else _) with (flatten_entry old_path k v).
  all: apply NoDup_app; [ | now apply IHd | ].
  all: try (intros key Hin1 Hin2;
            apply in_map_iff in Hin1; destruct Hin1 as [[key1 x1] [<- Hin1]];
            apply in_map_iff in Hin2; destruct Hin2 as [[key2 x2] [E Hin2]];
            cbn [fst] in E |- *; subst key2;
            destruct (@flatten_entry_split _ _ _ _ _ _ Hkey Hentry Hin1)
              as [more1 Hs1];
            destruct (@flatten_keys_split _ _ _ _ _ Hrest Hin2)
              as [k' [more2 [Hk' Hs2]]];
            rewrite Hs1 in Hs2; apply app_inv_head in Hs2;
            injection Hs2 as -> _; contradiction).
  - unfold flatten_entry.
    destruct Hentry as [Hleaf | [n [e [Hn _]]]]; [| discriminate].
    rewrite Hleaf. apply nodup_single.
  - unfold flatten_entry.
    destruct Hentry as [Hleaf | [n' [e [Hn [-> [Hb [Hene He]]]]]]].
    + rewrite Hleaf. apply nodup_single.
    + rewrite Hb. injection Hn as <-. now apply IHn.
Qed.

Lemma codec_tree_weaken (depth : nat) :
  forall d : dict, codec_tree depth d = true -> codec_tree (S depth) d = true.
Proof.
  induction depth as [| n IHn]; induction d as [| [k v] d IHd];
    intros Hok; try reflexivity.
  all: pose proof (@codec_tree_cons _ _ _ _ Hok)
    as [Hkey [Hfresh [Hentry Hrest]]].
  all: specialize (IHd Hrest).
  all: cbn [codec_tree dict_keys map fst snd forallb nodup_keys] in Hok, IHd |- *.
  all: rewrite !andb_true_iff in *.
  all: destruct Hok as [[Hk Hnd] [[_ Hv] Hall]];
       destruct IHd as [_ Hall'].
  all: repeat split; try assumption.
  - destruct (is_branch v); [discriminate | reflexivity].
  - destruct Hentry as [Hleaf | [n' [e [Hn [-> [Hb [Hene He]]]]]]].
    + now rewrite Hleaf.
    + rewrite Hb. injection Hn as <-.
      apply andb_true_iff. split; [now destruct e | now apply IHn].
Qed.

Lemma map_tree_id (depth : nat) :
  forall d : dict,
    codec_tree depth d = true -> map_tree (fun v => v) d = d.
Proof.
  induction depth as [| n IHn]; induction d as [| [k v] d IHd];
    intros Hok; try reflexivity.
  all: apply codec_tree_cons in Hok;
    destruct Hok as [Hkey [Hfresh [Hentry Hrest]]];
    cbn [map_tree map fst snd]; f_equal; try (now apply IHd); f_equal.
  - destruct Hentry as [Hleaf | [n [e [Hn _]]]]; [| discriminate].
    now apply map_leaves_leaf.
  - destruct Hentry as [Hleaf | [n' [e [Hn [-> [Hb [Hene He]]]]]]].
    + now apply map_leaves_leaf.
    + rewrite map_leaves_branch by assumption. injection Hn as <-.
      f_equal. now apply IHn.
Qed.

Lemma map_values_id (l : list (string * pyval)) :
  map_values (fun v => v) l = l.
Proof.
  induction l as [| [k v] l IH]; [reflexivity |].
  cbn. f_equal. exact IH.
Qed.

(** The snapshot codec: flattening, replacing every leaf by [f] of it,
    building the dictionary of the pairs and unflattening yields the tree
    with its leaves replaced. *)
Lemma unflatten_dict_map_flatten (f : pyval -> pyval) (t : dict) :
  codec_tree 2 t = true ->
  _unflatten_tree (dict_of_items (map_values f (_flatten_tree t None)))
  = Ok (map_tree f t).
Proof.
  intros Hok. rewrite dict_of_items_nodup.
  - now apply unflatten_map_flatten.
  - rewrite dict_keys_map_values. now apply (flatten_nodup 2).
Qed.

(** C1 (amended). For every nested mapping whose mappings hold no key
    twice, whose keys are not empty and contain no slash, whose walked
    mappings are not empty and whose flattened paths have at most three
    segments, unflattening the dictionary of the flattened pairs returns
    the mapping itself: [_unflatten_tree(dict(_flatten_tree(t))) == t]. *)
Theorem flatten_unflatten_roundtrip (t : dict) :
  codec_tree 2 t = true ->
  _unflatten_tree (dict_of_items (_flatten_tree t None)) = Ok t.
Proof.
  intros Hok.
  rewrite <- (map_values_id (_flatten_tree t None)).
  rewrite unflatten_dict_map_flatten by assumption.
  now rewrite (map_tree_id 2).
Qed.

(* ===================================================================== *)
(** ** Zoom filtering *)
(* ===================================================================== *)

Lemma zoom_node_resolve (name : string) (zoom : Z) :
  name <> "input" ->
  _element_at_zoom name zoom_node zoom
  = Ok (if zoom <? 3 then PStr "A" else PStr "B").
Proof.
  intros Hname. apply String.eqb_neq in Hname.
  cbn. rewrite Hname.
  change (_strip_zoom "<3" "<") with (Ok 3).
  change (_strip_zoom ">=3" ">=") with (Ok 3).
  cbn. rewrite Z.geb_leb.
  destruct (Z.ltb_spec zoom 3) as [Hlt | Hge];
    destruct (Z.leb_spec 3 zoom); try lia; cbn.
  all: unfold collapse; cbn; rewrite ?Hname; reflexivity.
Qed.

(** C4. Under every key other than "input", the field
    [{"zoom<3": "A", "zoom>=3": "B"}] resolves to "A" at zoom 2, to "B" at
    zoom 3, and at every integer zoom level to exactly one of the two:
    to "A" and not to "B" below 3, to "B" and not to "A" from 3 on; it
    never resolves to both, to neither, or to an error. *)
Theorem zoom_filter_exactly_one (name : string) :
  name <> "input" ->
  _element_at_zoom name zoom_node 2 = Ok (PStr "A") /\
  _element_at_zoom name zoom_node 3 = Ok (PStr "B") /\
  forall zoom : Z,
    (zoom < 3 /\
     _element_at_zoom name zoom_node zoom = Ok (PStr "A") /\
     _element_at_zoom name zoom_node zoom <> Ok (PStr "B")) \/
    (3 <= zoom /\
     _element_at_zoom name zoom_node zoom = Ok (PStr "B") /\
     _element_at_zoom name zoom_node zoom <> Ok (PStr "A")).
Proof.
  intros Hname. repeat split.
  - now rewrite zoom_node_resolve.
  - now rewrite zoom_node_resolve.
  - intros zoom. rewrite zoom_node_resolve by assumption.
    destruct (Z.ltb_spec zoom 3); [left | right];
      repeat split; auto; discriminate.
Qed.

Lemma zoom_filter_exactly_one_witness :
  "elevation" <> "input" /\
  _element_at_zoom "elevation" zoom_node 2 = Ok (PStr "A").
Proof.
  split; [discriminate |].
  apply (@zoom_filter_exactly_one "elevation"). discriminate.
Defined.

Lemma element_at_zoom_statement (name : string) (element : pyval) (zoom : Z) :
  is_dict element = false ->
  _element_at_zoom name element zoom = zoom_statement name element zoom.
Proof. destruct element; try reflexivity. discriminate. Qed.

(** On a mapping the filter reads its key only to tell ["input"] from
    every other key. *)
Lemma element_at_zoom_mapping_key (name other : string) (d : dict)
  (zoom : Z) :
  String.eqb name "input" = String.eqb other "input" ->
  _element_at_zoom name (PDict d) zoom = _element_at_zoom other (PDict d) zoom.
Proof.
  intros Hkey. cbn [_element_at_zoom]. unfold collapse.
  rewrite Hkey. reflexivity.
Qed.

Lemma zoom_key_not_input (name : string) :
  PyStr.startswith "zoom" name = true -> String.eqb name "input" = false.
Proof.
  intros Hzoom. destruct (String.eqb_spec name "input") as [-> | _];
    [discriminate | reflexivity].
Qed.

(** C6 (amended). Take a key that starts with "zoom" and that, stripped of
    the characters z, o, m and of white space at both ends, begins with one
    of the relations, while what is left of it after the characters of the
    relation are stripped at both ends is no integer literal.  Bound to an
    element that is not a mapping, the key is a zoom statement and
    filtering raises the configuration error at every zoom level; the
    element is neither dropped nor kept.  Bound to a mapping, the key is
    not read as a zoom statement at all: the mapping is filtered as it is
    under any other key but "input", and a mapping that holds "format" is
    handed on unchanged. *)
Theorem malformed_zoom_operand_raises (name rel : string) (zoom : Z) :
  PyStr.startswith "zoom" name = true ->
  zoom_relation (PyStr.strip_ws (PyStr.strip "zoom" name)) = Some rel ->
  PyStr.int
    (PyStr.strip rel (PyStr.strip_ws (PyStr.strip "zoom" name))) = None ->
  (forall element : pyval,
     is_dict element = false ->
     _element_at_zoom name element zoom = Raise zoom_error) /\
  (forall (d : dict) (other : string),
     other <> "input" ->
     _element_at_zoom name (PDict d) zoom
     = _element_at_zoom other (PDict d) zoom) /\
  (forall d : dict,
     dict_in "format" d = true ->
     _element_at_zoom name (PDict d) zoom = Ok (PDict d)).
Proof.
  intros Hzoom Hrel Hint. split; [| split].
  - intros element Hel.
    rewrite element_at_zoom_statement by assumption.
    unfold zoom_statement. rewrite Hzoom.
    unfold zoom_relation in Hrel.
    set (cleaned := PyStr.strip_ws (PyStr.strip "zoom" name)) in *.
    destruct (PyStr.startswith "=" cleaned);
      [| destruct (PyStr.startswith "<=" cleaned);
         [| destruct (PyStr.startswith ">=" cleaned);
            [| destruct (PyStr.startswith "<" cleaned);
               [| destruct (PyStr.startswith ">" cleaned);
                  [| discriminate]]]]].
    all: injection Hrel as <-; unfold _strip_zoom; rewrite Hint; reflexivity.
  - intros d other Hother. apply element_at_zoom_mapping_key.
    rewrite (zoom_key_not_input _ Hzoom). symmetry.
    now apply String.eqb_neq.
  - intros d Hformat. cbn [_element_at_zoom]. now rewrite Hformat.
Qed.

Lemma malformed_zoom_operand_raises_witness :
  _element_at_zoom "zoom<=abc" (PStr "dem.tif") 7 = Raise zoom_error /\
  _element_at_zoom "zoom<=1__0" (PInt 4) 7 = Raise zoom_error /\
  _element_at_zoom "zoom<=abc" (PDict [("zoom<5", PStr "a.tif")]) 7
  = _element_at_zoom "elevation" (PDict [("zoom<5", PStr "a.tif")]) 7.
Proof.
  split; [| split].
  - apply (@malformed_zoom_operand_raises "zoom<=abc" "<=" 7);
      reflexivity.
  - apply (@malformed_zoom_operand_raises "zoom<=1__0" "<=" 7);
      reflexivity.
  - apply (@malformed_zoom_operand_raises "zoom<=abc" "<=" 7);
      [reflexivity .. | discriminate].
Defined.

(** The claim as stated fails where the element is a mapping: the key
    [zoom<=abc] starts with "zoom", a relation follows and its operand is
    no integer, yet the key is not read as a zoom statement, its operand
    is never parsed and the element is handed on, here at the zoom levels
    0 and 7. *)
Lemma malformed_zoom_operand_kept :
  PyStr.startswith "zoom" "zoom<=abc" = true /\
  zoom_relation (PyStr.strip_ws (PyStr.strip "zoom" "zoom<=abc"))
  = Some "<=" /\
  PyStr.int (PyStr.strip "<=" (PyStr.strip_ws (PyStr.strip "zoom" "zoom<=abc")))
  = None /\
  _element_at_zoom "zoom<=abc"
    (PDict [("format", PStr "GTiff"); ("path", PStr "dem.tif")]) 0
  = Ok (PDict [("format", PStr "GTiff"); ("path", PStr "dem.tif")]) /\
  _element_at_zoom "zoom<=abc"
    (PDict [("format", PStr "GTiff"); ("path", PStr "dem.tif")]) 7
  = Ok (PDict [("format", PStr "GTiff"); ("path", PStr "dem.tif")]).
Proof. repeat split; reflexivity. Qed.

Lemma flatten_unflatten_roundtrip_witness :
  codec_tree 2 Demo.tree = true /\
  _unflatten_tree (dict_of_items (_flatten_tree Demo.tree None))
  = Ok Demo.tree.
Proof.
  split; [reflexivity |].
  apply (@flatten_unflatten_roundtrip Demo.tree). reflexivity.
Defined.

(** The round trip as the specification states it fails on a tree with an
    empty mapping, which flattening drops, and on a tree with a slash in
    a key outside every leaf subtree, which unflattening splits; neither
    tree has a leaf subtree, so both meet the stated hypothesis. *)
Lemma roundtrip_not_for_every_tree :
  (leaf_keys_slash_free (PDict [("a", PDict [])]) = true /\
   exists r,
     _unflatten_tree (dict_of_items (_flatten_tree [("a", PDict [])] None))
     = Ok r /\
     py_eq (PDict r) (PDict [("a", PDict [])]) = false) /\
  (leaf_keys_slash_free (PDict [("a/b", PInt 1)]) = true /\
   exists r,
     _unflatten_tree (dict_of_items (_flatten_tree [("a/b", PInt 1)] None))
     = Ok r /\
     py_eq (PDict r) (PDict [("a/b", PInt 1)]) = false).
Proof.
  split; split; try reflexivity.
  - exists []. split; reflexivity.
  - exists [("a", PDict [("b", PInt 1)])]. split; reflexivity.
Qed.

(** Below three levels [_unflatten_tree] updates the mapping it has built
    with the new branch, key by key at one level only: of two paths that
    share their first three segments the second replaces the first. *)
Lemma unflatten_fourth_level :
  _unflatten_tree
    (dict_of_items
       (_flatten_tree
          [("a", PDict [("b", PDict [("c", PDict [("d", PInt 1);
                                                  ("e", PInt 2)])])])]
          None))
  = Ok [("a", PDict [("b", PDict [("c", PDict [("e", PInt 2)])])])].
Proof. reflexivity. Qed.

(** An empty key at the top is lost as a prefix: the test [if old_path]
    takes the empty string for no path at all. *)
Lemma flatten_empty_key :
  _flatten_tree [(EmptyString, PDict [("b", PInt 1)])] None = [("b", PInt 1)].
Proof. reflexivity. Qed.

(* ===================================================================== *)
(** ** Content identity *)
(* ===================================================================== *)

Section PyvalInduction.
Variable P : pyval -> Prop.
Hypothesis HNone : P PNone.
Hypothesis HInt : forall z, P (PInt z).
Hypothesis HStr : forall s, P (PStr s).
Hypothesis HList : forall l, Forall P l -> P (PList l).
Hypothesis HDict : forall d, Forall (fun kv => P (snd kv)) d -> P (PDict d).
Hypothesis HObj : forall i, P (PObj i).

Fixpoint pyval_induction (v : pyval) : P v :=
  match v with
  | PNone => HNone
  | PInt z => HInt z
  | PStr s => HStr s
  | PList l =>
      HList
        ((fix all (l : list pyval) : Forall P l :=
            match l with
            | [] => Forall_nil P
            | x :: l' => Forall_cons x (pyval_induction x) (all l')
            end) l)
  | PDict d =>
      HDict
        ((fix all (d : list (string * pyval))
            : Forall (fun kv => P (snd kv)) d :=
            match d with
            | [] => Forall_nil _
            | kv :: d' =>
                Forall_cons kv (pyval_induction (snd kv)) (all d')
            end) d)
  | PObj i => HObj i
  end.
End PyvalInduction.

Lemma py_identical_eq (a : pyval) :
  forall b, py_identical a b = true -> a = b.
Proof.
  induction a as [| z | s | l IH | d IH | i] using pyval_induction;
    intros b H; destruct b as [| z' | s' | l' | d' | i']; try discriminate;
    cbn in H.
  - reflexivity.
  - apply Z.eqb_eq in H. now subst.
  - apply String.eqb_eq in H. now subst.
  - f_equal. revert l' H.
    induction IH as [| x l Hx _ IHl]; intros [| y l'] H;
      try discriminate; [reflexivity |].
    apply andb_true_iff in H. destruct H as [Hxy Hrest].
    f_equal; [now apply Hx | now apply IHl].
  - f_equal. revert d' H.
    induction IH as [| [k x] d Hx _ IHd]; intros [| [k' y] d'] H;
      try discriminate; [reflexivity |].
    apply andb_true_iff in H. destruct H as [Hhead Hrest].
    apply andb_true_iff in Hhead. destruct Hhead as [Hk Hxy].
    apply String.eqb_eq in Hk. subst k'.
    f_equal; [f_equal; now apply Hx | now apply IHd].
  - apply Nat.eqb_eq in H. now subst.
Qed.

(* ===================================================================== *)
(** ** Construction: zoom levels, pyramids *)
(* ===================================================================== *)

Section DictGetSet.
Variable V : Type.
Implicit Types d : list (string * V).

Lemma dict_get_set_same d k v : dict_get (dict_set d k v) k = Some v.
Proof.
  induction d as [| [k' v'] d IH]; cbn.
  - now rewrite String.eqb_refl.
  - destruct (String.eqb_spec k k') as [-> | Hne]; cbn.
    + now rewrite String.eqb_refl.
    + apply String.eqb_neq in Hne. now rewrite Hne.
Qed.

Lemma dict_get_set_other d k k' v :
  k' <> k -> dict_get (dict_set d k v) k' = dict_get d k'.
Proof.
  intros Hne. induction d as [| [k0 v0] d IH]; cbn.
  - apply String.eqb_neq in Hne. now rewrite Hne.
  - destruct (String.eqb_spec k k0) as [-> | Hk]; cbn.
    + apply String.eqb_neq in Hne. now rewrite Hne.
    + destruct (String.eqb k' k0); [reflexivity | exact IH].
Qed.
End DictGetSet.

Lemma zoom_in_spec (z : Z) (zooms : list Z) :
  zoom_in z zooms = true <-> In z zooms.
Proof.
  unfold zoom_in. rewrite existsb_exists. split.
  - intros [x [Hin Heq]]. apply Z.eqb_eq in Heq. now subst.
  - intros Hin. exists z. split; [assumption | apply Z.eqb_refl].
Qed.

Lemma in_py_range (z lo hi : Z) : In z (py_range lo hi) <-> lo <= z < hi.
Proof.
  unfold py_range. rewrite in_map_iff. split.
  - intros [i [<- Hin]]. apply in_seq in Hin. lia.
  - intros H. exists (Z.to_nat (z - lo)). split; [lia |].
    apply in_seq. lia.
Qed.

Lemma py_range_empty (lo hi : Z) : hi <= lo -> py_range lo hi = [].
Proof.
  intros H. unfold py_range.
  replace (Z.to_nat (hi - lo)) with 0%nat by lia. reflexivity.
Qed.

Section ConstructionFacts.
Context {E : Externals}.

(** The declared zoom levels are one level or a range without gaps. *)
Lemma declared_zoom_levels_interval (raw : dict) (zooms : list Z) :
  declared_zoom_levels raw = Ok zooms ->
  exists lo hi, forall z, In z zooms <-> lo <= z < hi.
Proof.
  unfold declared_zoom_levels, dict_getitem.
  destruct (dict_get raw "zoom_levels") as [[| z | | | d |] |];
    cbn; try discriminate.
  - intros H. injection H as <-. exists z, (z + 1). intros x. cbn. lia.
  - unfold zoom_levels_minmax.
    destruct (validate_values _ _); cbn; try discriminate.
    destruct (dict_get d "min") as [[| lo | | | |] |]; try discriminate.
    destruct (dict_get d "max") as [[| hi | | | |] |]; try discriminate.
    destruct (Z.eqb_spec lo hi) as [-> | Hne]; intros H; injection H as <-.
    + exists hi, (hi + 1). intros x. cbn. lia.
    + exists lo, (hi + 1). intros x. apply in_py_range.
Qed.

Lemma zoom_levels_run (s : MapcheteConfig) :
  zoom_levels_slot s = None ->
  zoom_levels s =
  match declared_zoom_levels (_raw s) with
  | Ok zooms => (Ok zooms, set_zoom_levels_slot zooms s)
  | Raise e => (Raise e, s)
  end.
Proof.
  intros H. unfold zoom_levels, cached_property. rewrite H.
  unfold bind, attr, lift. now destruct (declared_zoom_levels (_raw s)).
Qed.

(** What [preamble] leaves behind. *)
Lemma preamble_inv (input_config zoom bounds : pyval) (mode : string)
  (self : MapcheteConfig) :
  preamble input_config zoom bounds mode = Ok self ->
  raw_document input_config zoom bounds = Ok (_raw self) /\
  (exists file, validate_document (_raw self) = Ok file) /\
  is_ok (set_pyramids (_raw self)) = true /\
  _params_at_zoom self = [] /\
  _cache_area_at_zoom self = [] /\
  _cache_full_process_area self = None /\
  zoom_levels_slot self = None /\ init_zoom_levels_slot self = None /\
  bounds_slot self = None /\ init_bounds_slot self = None /\
  output_slot self = None /\ input_slot self = None /\
  baselevels_slot self = None.
Proof.
  unfold preamble.
  destruct (raw_document input_config zoom bounds) as [raw |];
    cbn [rbind]; [| discriminate].
  destruct (validate_document raw) as [file |] eqn:Hv; cbn [rbind];
    [| discriminate].
  destruct (dict_getitem raw "config_dir"); cbn [rbind]; [| discriminate].
  destruct (set_pyramids raw) as [pyramids |] eqn:Hp;
    cbn [rbind reraise_config]; [| discriminate].
  destruct (negb (str_in mode modes)); [discriminate |].
  intros H. injection H as <-. cbn. rewrite Hp, Hv.
  repeat split; try reflexivity. now exists file.
Qed.

Lemma raw_document_init (input_config zoom bounds : pyval) (raw : dict) :
  raw_document input_config zoom bounds = Ok raw ->
  dict_get raw "init_zoom_levels" = Some zoom /\
  dict_get raw "init_bounds" = Some bounds.
Proof.
  unfold raw_document.
  destruct (_config_to_dict input_config) as [raw0 |]; cbn [rbind];
    [| discriminate].
  destruct (_map_to_new_config raw0) as [raw1 |]; cbn [rbind];
    [| discriminate].
  intros H. injection H as <-. split.
  - rewrite dict_get_set_other by discriminate. apply dict_get_set_same.
  - apply dict_get_set_same.
Qed.

(** The zoom check of [init_zoom_levels]. *)
Lemma py_min_pair (a b : Z) :
  py_min [PInt a; PInt b] = Ok (PInt (Z.min a b)).
Proof.
  cbn. destruct (Z.ltb_spec b a); do 2 f_equal; lia.
Qed.

Lemma py_max_pair (a b : Z) :
  py_max [PInt a; PInt b] = Ok (PInt (Z.max a b)).
Proof.
  cbn. destruct (Z.ltb_spec a b); do 2 f_equal; lia.
Qed.

Lemma init_zoom_levels_rejects (s : MapcheteConfig) (zoom : pyval)
  (declared requested : list Z) :
  init_zoom_levels_slot s = None -> zoom_levels_slot s = None ->
  dict_get (_raw s) "init_zoom_levels" = Some zoom ->
  declared_zoom_levels (_raw s) = Ok declared ->
  requested_zooms zoom = Some requested ->
  ~ incl requested declared ->
  fst (init_zoom_levels s) = Raise zoom_subset_error.
Proof.
  intros Hslot Hzslot Hiz Hdecl Hreq Hnot.
  unfold init_zoom_levels, cached_property. rewrite Hslot.
  unfold bind at 1, attr. unfold bind at 1, lift, dict_getitem.
  rewrite Hiz.
  destruct (declared_zoom_levels_interval _ Hdecl) as [lo [hi Hint]].
  assert (Hout : forall z, ~ In z declared -> zoom_in z declared = false).
  { intros z Hz. destruct (zoom_in z declared) eqn:Hin; [| reflexivity].
    apply zoom_in_spec in Hin. contradiction. }
  destruct zoom as [| z | | l | |]; try discriminate.
  - injection Hreq as <-.
    unfold bind. rewrite zoom_levels_run, Hdecl by assumption.
    rewrite Hout; [reflexivity |].
    intros Hin. apply Hnot. intros x [<- | []]. assumption.
  - destruct l as [| [| a | | | |] [| [| b | | | |] [| c l]]];
      try discriminate; injection Hreq as <-; cbn [length Nat.leb].
    + unfold bind, lift. cbn [py_min py_min_from py_max py_max_from].
      rewrite zoom_levels_run, Hdecl by assumption.
      rewrite Hout; [reflexivity |].
      intros Hin. apply Hnot. intros x [<- | []]. assumption.
    + unfold bind, lift. rewrite py_min_pair, py_max_pair.
      rewrite zoom_levels_run, Hdecl by assumption.
      destruct (zoom_in (Z.min a b) declared) eqn:Hmin;
        [| reflexivity].
      destruct (zoom_in (Z.max a b) declared) eqn:Hmax;
        [| reflexivity].
      exfalso. apply Hnot. intros x Hx.
      apply zoom_in_spec, Hint in Hmin. apply zoom_in_spec, Hint in Hmax.
      apply in_py_range in Hx. apply Hint. lia.
Qed.

(** C8. Whenever the zoom levels the object is initialized with, one
    level or the range spanned by a list of one or two levels, are not
    all among the declared zoom levels of the document, construction
    returns no configuration object, and once the document has passed
    the steps before the zoom check the error is the configuration
    error on zoom levels that are no subset of the process zoom levels;
    so it is for declared levels 1 to 5 and initialization zoom 7. *)
Theorem init_zooms_not_subset_fails (input_config zoom bounds : pyval)
  (mode : string) (raw : dict) (declared requested : list Z) :
  raw_document input_config zoom bounds = Ok raw ->
  declared_zoom_levels raw = Ok declared ->
  requested_zooms zoom = Some requested ->
  ~ incl requested declared ->
  (forall cfg, __init__ input_config zoom bounds mode <> Ok cfg) /\
  (forall self, preamble input_config zoom bounds mode = Ok self ->
                __init__ input_config zoom bounds mode
                = Raise zoom_subset_error).
Proof.
  intros Hraw Hdecl Hreq Hnot.
  assert (Hfail : forall self,
             preamble input_config zoom bounds mode = Ok self ->
             __init__ input_config zoom bounds mode
             = Raise zoom_subset_error).
  { intros self Hpre. unfold __init__. rewrite Hpre. cbn [rbind].
    destruct (preamble_inv _ _ _ _ Hpre)
      as [Hr [_ [_ [_ [_ [_ [Hz [Hiz _]]]]]]]].
    rewrite Hraw in Hr. injection Hr as Hr.
    destruct (raw_document_init _ _ _ Hraw) as [Hinit _].
    pose proof (@init_zoom_levels_rejects self zoom declared requested
                  Hiz Hz) as Hrej.
    rewrite <- Hr in Hrej. specialize (Hrej Hinit Hdecl Hreq Hnot).
    unfold initialize, bind.
    destruct (init_zoom_levels self) as [[zs | e] s']; cbn in Hrej;
      [discriminate |].
    now injection Hrej as ->. }
  split; [| exact Hfail].
  intros cfg Hok.
  destruct (preamble input_config zoom bounds mode) as [self |] eqn:Hpre.
  - rewrite (Hfail self eq_refl) in Hok. discriminate.
  - unfold __init__ in Hok. rewrite Hpre in Hok. discriminate.
Qed.
End ConstructionFacts.

Lemma init_zooms_not_subset_fails_witness :
  @__init__ Demo.world Demo.document (PInt 7) PNone "continue"
  = Raise zoom_subset_error.
Proof.
  refine (proj2 (@init_zooms_not_subset_fails Demo.world Demo.document
                   (PInt 7) PNone "continue" _ [1; 2; 3; 4; 5] [7]
                   eq_refl eq_refl eq_refl _) _ eq_refl).
  intros Hincl. specialize (Hincl 7 (or_introl eq_refl)).
  cbn in Hincl. intuition discriminate.
Defined.

(* ===================================================================== *)
(** ** What a method leaves unchanged *)
(* ===================================================================== *)

Section Frames.
Context {E : Externals}.
Variable R : MapcheteConfig -> MapcheteConfig -> Prop.
Hypothesis R_refl : forall s, R s s.
Hypothesis R_trans : forall s t u, R s t -> R t u -> R s u.

Lemma respects_ret {A} (a : A) : respects R (ret a).
Proof. intros s. apply R_refl. Qed.

Lemma respects_raise {A} (e : exn) : respects R (@raise E A e).
Proof. intros s. apply R_refl. Qed.

Lemma respects_lift {A} (r : result A) : respects R (lift r).
Proof. intros s. apply R_refl. Qed.

Lemma respects_attr {A} (f : MapcheteConfig -> A) : respects R (attr f).
Proof. intros s. apply R_refl. Qed.

Lemma respects_read {A} (f : MapcheteConfig -> result A) :
  respects R (fun self => (f self, self)).
Proof. intros s. apply R_refl. Qed.

Lemma respects_assign (f : MapcheteConfig -> MapcheteConfig) :
  (forall s, R s (f s)) -> respects R (assign f).
Proof. intros H s. apply H. Qed.

Lemma respects_bind {A B} (m : M A) (k : A -> M B) :
  respects R m -> (forall a, respects R (k a)) -> respects R (bind m k).
Proof.
  intros Hm Hk s. unfold bind. specialize (Hm s).
  destruct (m s) as [[a | e] s1]; cbn in Hm |- *; [| assumption].
  eapply R_trans; [exact Hm | apply Hk].
Qed.

Lemma respects_cached {A} (slot : MapcheteConfig -> option A)
  (store : A -> MapcheteConfig -> MapcheteConfig) (body : M A) :
  (forall s, slot s = None -> R s (snd (body s))) ->
  (forall v s, R s (store v s)) ->
  respects R (cached_property slot store body).
Proof.
  intros Hbody Hstore s. unfold cached_property.
  destruct (slot s) eqn:Hs; [apply R_refl |].
  specialize (Hbody s Hs).
  destruct (body s) as [[v | e] s1]; cbn in Hbody |- *; [| assumption].
  eapply R_trans; [exact Hbody | apply Hstore].
Qed.
End Frames.

(** Splits a goal [respects R m] along the structure of [m]. *)
Ltac frame_step :=
  first
    [ apply respects_ret; assumption
    | apply respects_raise; assumption
    | apply respects_lift; assumption
    | apply respects_attr; assumption
    | apply respects_read; assumption
    | apply respects_bind; [assumption | | intros ?]
    | match goal with
      | |- respects _ (match ?x with _ => _ end) => destruct x
      | |- respects _ (if ?b then _ else _) => destruct b
      end ].

Ltac frame := repeat frame_step.

Section Stability.
Context {E : Externals}.
Variable V : Type.
Variable view : MapcheteConfig -> V.
Hypothesis view_ready : forall s s', view s' = view s -> ready s' = ready s.

Lemma stable_refl (s : MapcheteConfig) : stable view s s.
Proof. intros _. reflexivity. Qed.

Lemma stable_trans (s t u : MapcheteConfig) :
  stable view s t -> stable view t u -> stable view s u.
Proof.
  intros Hst Htu Hr. specialize (Hst Hr).
  rewrite <- Hst. apply Htu. now rewrite (view_ready Hst).
Qed.

(** A stored property is not computed again. *)
Lemma stable_stored {A} (slot : MapcheteConfig -> option A)
  (store : A -> MapcheteConfig -> MapcheteConfig) (body : M A) :
  (forall s, ready s = true -> slot s <> None) ->
  respects (stable view) (cached_property slot store body).
Proof.
  intros Hslot s. unfold cached_property.
  destruct (slot s) eqn:Hs; [apply stable_refl |].
  intros Hr. exfalso. now apply (Hslot s Hr).
Qed.

Ltac slot_of_ready :=
  let s := fresh "s" in
  let Hr := fresh "Hr" in
  intros s Hr; unfold ready in Hr;
  repeat (apply andb_true_iff in Hr; destruct Hr as [Hr ?]);
  match goal with
  | |- ?slot s <> None => destruct (slot s); [discriminate | discriminate]
  end.

Lemma stable_zoom_levels : respects (stable view) zoom_levels.
Proof. apply stable_stored. slot_of_ready. Qed.

Lemma stable_init_zoom_levels : respects (stable view) init_zoom_levels.
Proof. apply stable_stored. slot_of_ready. Qed.

Lemma stable_bounds : respects (stable view) bounds.
Proof. apply stable_stored. slot_of_ready. Qed.

Lemma stable_init_bounds : respects (stable view) init_bounds.
Proof. apply stable_stored. slot_of_ready. Qed.

Lemma stable_output : respects (stable view) output.
Proof. apply stable_stored. slot_of_ready. Qed.

Lemma stable_input : respects (stable view) input.
Proof. apply stable_stored. slot_of_ready. Qed.

Ltac stable_frame_with tac :=
  repeat first
    [ tac
    | apply stable_zoom_levels | apply stable_init_zoom_levels
    | apply stable_bounds | apply stable_init_bounds
    | apply stable_output | apply stable_input
    | assumption
    | apply respects_ret; exact stable_refl
    | apply respects_raise; exact stable_refl
    | apply respects_lift; exact stable_refl
    | apply respects_attr; exact stable_refl
    | apply respects_read; exact stable_refl
    | apply respects_bind; [exact stable_trans | | intros ?]
    | match goal with
      | |- respects _ (match ?x with _ => _ end) => destruct x
      | |- respects _ (if ?b then _ else _) => destruct b
      end ].

Ltac stable_frame := stable_frame_with fail.

Hypothesis view_baselevels :
  forall v s, view (set_baselevels_slot v s) = view s.

Lemma stable_baselevels : respects (stable view) baselevels.
Proof.
  apply respects_cached;
    [exact stable_refl | exact stable_trans
    | | intros v s _; apply view_baselevels].
  intros s _. revert s.
  match goal with
  | |- forall s, stable view s (snd (?m s)) => change (respects (stable view) m)
  end.
  cbv zeta. stable_frame.
Qed.

Lemma stable_dereference (flat : list (string * pyval)) :
  forall flat_inputs, respects (stable view) (dereference flat flat_inputs).
Proof.
  induction flat as [| [k v] flat IH]; intros flat_inputs;
    cbn [dereference]; stable_frame; apply IH.
Qed.

Lemma stable_params_at_zoom (zoom : Z) :
  respects (stable view) (params_at_zoom zoom).
Proof.
  unfold params_at_zoom.
  stable_frame_with ltac:(apply stable_dereference).
Qed.

Lemma stable_input_bboxes (items : list (string * pyval)) :
  respects (stable view) (input_bboxes items).
Proof.
  induction items as [| [k v] items IH]; cbn [input_bboxes];
    stable_frame_with ltac:(apply IH).
Qed.

Hypothesis view_cache_area :
  forall v s, view (set_cache_area_at_zoom v s) = view s.
Hypothesis view_cache_full :
  forall v s, view (set_cache_full_process_area v s) = view s.

Lemma stable_cache_area (zoom : Z) (g : geom) :
  respects (stable view) (cache_area zoom g).
Proof. intros s _. apply view_cache_area. Qed.

Lemma stable__area_at_zoom (zoom : Z) : respects (stable view) (_area_at_zoom zoom).
Proof.
  unfold _area_at_zoom.
  stable_frame_with
    ltac:(first [apply stable_input_bboxes | apply stable_cache_area]).
Qed.

Lemma stable_areas_at_zooms (zooms : list Z) :
  respects (stable view) (areas_at_zooms zooms).
Proof.
  induction zooms as [| z zooms IH]; cbn [areas_at_zooms];
    stable_frame_with ltac:(first [apply stable__area_at_zoom | apply IH]).
Qed.

Lemma stable_area_at_zoom (zoom : pyval) :
  respects (stable view) (area_at_zoom zoom).
Proof.
  unfold area_at_zoom.
  stable_frame_with
    ltac:(first [ apply stable__area_at_zoom | apply stable_areas_at_zooms
                | apply respects_assign; intros ? _;
                  apply view_cache_full ]).
Qed.

Lemma stable_bounds_at_zoom (zoom : pyval) :
  respects (stable view) (bounds_at_zoom zoom).
Proof.
  unfold bounds_at_zoom.
  stable_frame_with ltac:(apply stable_area_at_zoom).
Qed.
End Stability.

Section Keeping.
Context {E : Externals}.
Variable F : Type.
Variable f : MapcheteConfig -> F.

Lemma keeps_refl (s : MapcheteConfig) : keeps f s s.
Proof. reflexivity. Qed.

Lemma keeps_trans (s t u : MapcheteConfig) :
  keeps f s t -> keeps f t u -> keeps f s u.
Proof. unfold keeps. congruence. Qed.

Ltac keeps_frame :=
  repeat first
    [ assumption
    | apply respects_ret; exact keeps_refl
    | apply respects_raise; exact keeps_refl
    | apply respects_lift; exact keeps_refl
    | apply respects_attr; exact keeps_refl
    | apply respects_read; exact keeps_refl
    | apply respects_bind; [exact keeps_trans | | intros ?]
    | apply respects_cached;
        [exact keeps_refl | exact keeps_trans | intros ? _ | ];
        [ match goal with
          | |- keeps f ?s (snd (?m ?s)) => revert s; change (respects (keeps f) m)
          end
        | intros ? ?; unfold keeps; auto ]
    | apply respects_assign; intros ?; unfold keeps; cbn;
        repeat match goal with H : forall _ _, f _ = f _ |- _ =>
                 rewrite H end; reflexivity
    | match goal with
      | |- respects _ (match ?x with _ => _ end) => destruct x
      | |- respects _ (if ?b then _ else _) => destruct b
      end ].

Hypothesis Hzoom : forall v s, f (set_zoom_levels_slot v s) = f s.

Lemma keeps_zoom_levels : respects (keeps f) zoom_levels.
Proof. unfold zoom_levels. keeps_frame. Qed.

Hypothesis Hinit : forall v s, f (set_init_zoom_levels_slot v s) = f s.

Lemma keeps_init_zoom_levels : respects (keeps f) init_zoom_levels.
Proof.
  pose proof keeps_zoom_levels.
  unfold init_zoom_levels. keeps_frame.
Qed.

Hypothesis Hbounds : forall v s, f (set_bounds_slot v s) = f s.

Lemma keeps_bounds : respects (keeps f) bounds.
Proof. unfold bounds. keeps_frame. Qed.

Hypothesis Hinit_bounds : forall v s, f (set_init_bounds_slot v s) = f s.

Lemma keeps_init_bounds : respects (keeps f) init_bounds.
Proof.
  pose proof keeps_bounds.
  unfold init_bounds. keeps_frame.
Qed.

Hypothesis Hinput : forall v s, f (set_input_slot v s) = f s.

Lemma keeps_input : respects (keeps f) input.
Proof.
  pose proof keeps_init_zoom_levels. pose proof keeps_init_bounds.
  pose proof keeps_bounds.
  unfold input. keeps_frame.
Qed.
End Keeping.

Section StableMethods.
Context {E : Externals}.

Lemma ready_core (s s' : MapcheteConfig) :
  core s' = core s -> ready s' = ready s.
Proof.
  unfold core, ready. intros H.
  injection H as _ _ _ _ _ _ _ H1 H2 H3 H4 H5 H6.
  now rewrite H1, H2, H3, H4, H5, H6.
Qed.

(** Every method leaves the core of a ready object as it is. *)
Lemma stable_after (m : method) (s : MapcheteConfig) :
  ready s = true -> core (after m s) = core s.
Proof.
  intros Hr. destruct m; cbn [after].
  - now apply (@stable_zoom_levels E _ core).
  - now apply (@stable_init_zoom_levels E _ core).
  - now apply (@stable_bounds E _ core).
  - now apply (@stable_init_bounds E _ core).
  - now apply (@stable_output E _ core).
  - now apply (@stable_input E _ core).
  - apply (@stable_baselevels E _ core ready_core); [reflexivity | assumption].
  - now apply (@stable_params_at_zoom E _ core ready_core).
  - apply (@stable_area_at_zoom E _ core ready_core); [reflexivity .. | assumption].
  - apply (@stable_bounds_at_zoom E _ core ready_core);
    [reflexivity .. | assumption].
  - reflexivity.
Qed.

Lemma ready_whole (s s' : MapcheteConfig) :
  whole s' = whole s -> ready s' = ready s.
Proof.
  unfold whole. intros H. apply (f_equal fst) in H. now apply ready_core.
Qed.

(** The methods that do not compute an area leave the caches of a ready
    object as they are, too. *)
Lemma quiet_after (m : method) (s : MapcheteConfig) :
  ready s = true ->
  match m with
  | call_area_at_zoom _ | call_bounds_at_zoom _ => True
  | _ => whole (after m s) = whole s
  end.
Proof.
  intros Hr. destruct m; cbn [after]; try exact I.
  - now apply (@stable_zoom_levels E _ whole).
  - now apply (@stable_init_zoom_levels E _ whole).
  - now apply (@stable_bounds E _ whole).
  - now apply (@stable_init_bounds E _ whole).
  - now apply (@stable_output E _ whole).
  - now apply (@stable_input E _ whole).
  - apply (@stable_baselevels E _ whole ready_whole); [reflexivity | assumption].
  - now apply (@stable_params_at_zoom E _ whole ready_whole).
  - reflexivity.
Qed.
End StableMethods.

(* ===================================================================== *)
(** ** The object the constructor returns *)
(* ===================================================================== *)

Section Running.
Context {E : Externals}.

Lemma bind_ok {A B} (m : M A) (k : A -> M B) (s s' : MapcheteConfig)
  (b : B) :
  bind m k s = (Ok b, s') ->
  exists a s1, m s = (Ok a, s1) /\ k a s1 = (Ok b, s').
Proof.
  unfold bind. destruct (m s) as [[a | e] s1]; [| discriminate].
  intros H. now exists a, s1.
Qed.

Lemma cached_ok {A} (slot : MapcheteConfig -> option A)
  (store : A -> MapcheteConfig -> MapcheteConfig) (body : M A)
  (s s' : MapcheteConfig) (v : A) :
  (forall v s, slot (store v s) = Some v) ->
  cached_property slot store body s = (Ok v, s') ->
  slot s' = Some v.
Proof.
  intros Hstore. unfold cached_property.
  destruct (slot s) eqn:Hs.
  - intros H. injection H as <- <-. assumption.
  - destruct (body s) as [[w | e] s1]; [| discriminate].
    intros H. injection H as <- <-. apply Hstore.
Qed.

Lemma cached_stored {A} (slot : MapcheteConfig -> option A)
  (store : A -> MapcheteConfig -> MapcheteConfig) (body : M A)
  (s : MapcheteConfig) (v : A) :
  slot s = Some v -> cached_property slot store body s = (Ok v, s).
Proof. intros H. unfold cached_property. now rewrite H. Qed.

Lemma cached_fresh {A} (slot : MapcheteConfig -> option A)
  (store : A -> MapcheteConfig -> MapcheteConfig) (body : M A)
  (s s' : MapcheteConfig) (v : A) :
  slot s = None ->
  cached_property slot store body s = (Ok v, s') ->
  exists s1, body s = (Ok v, s1) /\ s' = store v s1.
Proof.
  intros Hs. unfold cached_property. rewrite Hs.
  destruct (body s) as [[w | e] s1]; [| discriminate].
  intros H. injection H as <- <-. now exists s1.
Qed.

Lemma zoom_levels_ok (s s' : MapcheteConfig) (zooms : list Z) :
  zoom_levels s = (Ok zooms, s') -> zoom_levels_slot s' = Some zooms.
Proof. apply cached_ok. reflexivity. Qed.

Lemma init_zoom_levels_ok (s s' : MapcheteConfig) (zooms : list Z) :
  init_zoom_levels s = (Ok zooms, s') ->
  init_zoom_levels_slot s' = Some zooms.
Proof. apply cached_ok. reflexivity. Qed.

Lemma bounds_ok (s s' : MapcheteConfig) (b : Bounds) :
  bounds s = (Ok b, s') -> bounds_slot s' = Some b.
Proof. apply cached_ok. reflexivity. Qed.

Lemma init_bounds_ok (s s' : MapcheteConfig) (b : Bounds) :
  init_bounds s = (Ok b, s') -> init_bounds_slot s' = Some b.
Proof. apply cached_ok. reflexivity. Qed.

Lemma output_ok (s s' : MapcheteConfig) (w : writer) :
  output s = (Ok w, s') -> output_slot s' = Some w.
Proof. apply cached_ok. reflexivity. Qed.

Lemma input_ok (s s' : MapcheteConfig) (reg : registry) :
  input s = (Ok reg, s') -> input_slot s' = Some reg.
Proof. apply cached_ok. reflexivity. Qed.

(** Reading the initialized zoom levels reads the declared ones. *)
Lemma init_zoom_levels_reads_zoom_levels (s s' : MapcheteConfig)
  (zooms : list Z) :
  init_zoom_levels_slot s = None ->
  init_zoom_levels s = (Ok zooms, s') ->
  is_some (zoom_levels_slot s') = true.
Proof.
  intros Hs H. apply cached_fresh in H; [| assumption].
  destruct H as [s1 [H ->]]. cbn.
  apply bind_ok in H. destruct H as [raw [s2 [_ H]]].
  apply bind_ok in H. destruct H as [iz [s3 [_ H]]].
  destruct iz as [| z | | l | |]; try discriminate.
  - apply zoom_levels_ok in H. now rewrite H.
  - apply bind_ok in H. destruct H as [zs [s4 [Hz H]]].
    apply zoom_levels_ok in Hz.
    destruct (negb (zoom_in z zs)); [discriminate |].
    injection H as _ <-. now rewrite Hz.
  - destruct (Nat.leb (length l) 2); [| discriminate].
    apply bind_ok in H. destruct H as [lo [s4 [_ H]]].
    apply bind_ok in H. destruct H as [zs [s5 [Hz H]]].
    apply zoom_levels_ok in Hz.
    apply bind_ok in H. destruct H as [hi [s6 [Hhi H]]].
    assert (Hs6 : s6 = s5)
      by (unfold lift in Hhi; destruct (py_max l); now injection Hhi).
    subst s6.
    destruct lo as [| a | | | |]; try discriminate.
    destruct hi as [| b | | | |]; try discriminate.
    destruct (_ || _); [discriminate |].
    injection H as _ <-. now rewrite Hz.
Qed.
End Running.

Section KeepingOutput.
Context {E : Externals}.
Variable F : Type.
Variable f : MapcheteConfig -> F.
Hypothesis Hraw : forall v s, f (set_raw v s) = f s.
Hypothesis Hparams : forall v s, f (set_params_at_zoom v s) = f s.
Hypothesis Houtput : forall v s, f (set_output_slot v s) = f s.

Lemma keeps_update_output_params (output_params : dict) (k : string)
  (v : pyval) :
  respects (keeps f) (update_output_params output_params k v).
Proof.
  intros s. unfold update_output_params, bind, assign, ret, keeps. cbn.
  now rewrite Hparams, Hraw.
Qed.

Lemma keeps_output : respects (keeps f) output.
Proof.
  unfold output.
  apply respects_cached;
    [apply keeps_refl | apply keeps_trans | | intros v s; apply Houtput].
  intros s _. revert s.
  match goal with
  | |- forall s, keeps f s (snd (?m s)) => change (respects (keeps f) m)
  end.
  repeat first
    [ apply keeps_update_output_params
    | apply respects_ret; apply keeps_refl
    | apply respects_raise; apply keeps_refl
    | apply respects_lift; apply keeps_refl
    | apply respects_attr; apply keeps_refl
    | apply respects_bind; [apply keeps_trans | | intros ?]
    | match goal with
      | |- respects _ (match ?x with _ => _ end) => destruct x
      | |- respects _ (if ?b then _ else _) => destruct b
      end ].
Qed.
End KeepingOutput.

Section Built.
Context {E : Externals}.

Ltac kept := intros; reflexivity.

Lemma initialize_built (s0 c : MapcheteConfig) :
  init_zoom_levels_slot s0 = None -> input_slot s0 = None ->
  _cache_area_at_zoom s0 = [] -> _cache_full_process_area s0 = None ->
  initialize s0 = (Ok tt, c) ->
  built c /\ _cache_area_at_zoom c = [] /\
  _cache_full_process_area c = None.
Proof.
  intros Hiz0 Hin0 Hca0 Hcf0 H. unfold initialize in H.
  apply bind_ok in H. destruct H as [zs [s1 [Hzs H]]].
  apply bind_ok in H. destruct H as [raw [s1' [Hraw H]]].
  injection Hraw as _ <-.
  apply bind_ok in H. destruct H as [pz [s1' [Hpz H]]].
  unfold lift in Hpz. injection Hpz as _ <-.
  apply bind_ok in H. destruct H as [u [s2 [Hs2 H]]].
  unfold assign in Hs2. injection Hs2 as _ <-.
  apply bind_ok in H. destruct H as [w [s3 [Hw H]]].
  apply bind_ok in H. destruct H as [reg [s4 [Hreg H]]].
  injection H as <-.
  (* after init_zoom_levels *)
  pose proof (init_zoom_levels_reads_zoom_levels _ Hiz0 Hzs) as Hz1.
  pose proof (init_zoom_levels_ok _ Hzs) as Hiz1.
  assert (Hin1 : input_slot s1 = None).
  { pose proof (@keeps_init_zoom_levels E _ input_slot
                  ltac:(kept) ltac:(kept) s0) as K.
    rewrite Hzs in K. cbn in K. unfold keeps in K. congruence. }
  assert (Hca1 : _cache_area_at_zoom s1 = []).
  { pose proof (@keeps_init_zoom_levels E _ _cache_area_at_zoom
                  ltac:(kept) ltac:(kept) s0) as K.
    rewrite Hzs in K. cbn in K. unfold keeps in K. congruence. }
  assert (Hcf1 : _cache_full_process_area s1 = None).
  { pose proof (@keeps_init_zoom_levels E _ _cache_full_process_area
                  ltac:(kept) ltac:(kept) s0) as K.
    rewrite Hzs in K. cbn in K. unfold keeps in K. congruence. }
  (* after output *)
  set (s2 := set_params_at_zoom pz s1) in *.
  pose proof (output_ok _ Hw) as Hw3.
  assert (K3 : forall F (f : MapcheteConfig -> F),
             (forall v s, f (set_raw v s) = f s) ->
             (forall v s, f (set_params_at_zoom v s) = f s) ->
             (forall v s, f (set_output_slot v s) = f s) ->
             f s3 = f s1).
  { intros F f H1 H2 H3.
    pose proof (@keeps_output E F f H1 H2 H3 s2) as K.
    rewrite Hw in K. cbn in K. unfold keeps in K. rewrite K.
    apply H2. }
  pose proof (K3 _ zoom_levels_slot ltac:(kept) ltac:(kept) ltac:(kept))
    as Hz3.
  pose proof (K3 _ init_zoom_levels_slot ltac:(kept) ltac:(kept)
                ltac:(kept)) as Hiz3.
  pose proof (K3 _ input_slot ltac:(kept) ltac:(kept) ltac:(kept)) as Hin3.
  pose proof (K3 _ _cache_area_at_zoom ltac:(kept) ltac:(kept) ltac:(kept))
    as Hca3.
  pose proof (K3 _ _cache_full_process_area ltac:(kept) ltac:(kept)
                ltac:(kept)) as Hcf3.
  rewrite Hiz1 in Hiz3. rewrite Hin1 in Hin3.
  rewrite Hca1 in Hca3. rewrite Hcf1 in Hcf3.
  (* input *)
  apply cached_fresh in Hreg; [| assumption].
  destruct Hreg as [s5 [Hbody ->]].
  apply bind_ok in Hbody. destruct Hbody as [zs' [s3a [Hzs' Hbody]]].
  assert (Hst : init_zoom_levels s3 = (Ok zs, s3))
    by (apply cached_stored; exact Hiz3).
  rewrite Hst in Hzs'. injection Hzs' as <- <-.
  apply bind_ok in Hbody. destruct Hbody as [ib [s3b [Hib Hbody]]].
  apply bind_ok in Hbody. destruct Hbody as [pb [s3c [Hpb Hbody]]].
  apply bind_ok in Hbody. destruct Hbody as [params [s3d [Hparams Hbody]]].
  injection Hparams as <- <-.
  apply bind_ok in Hbody. destruct Hbody as [raws [s3d [Hraws Hbody]]].
  unfold lift in Hraws.
  assert (Hraws' : raw_inputs_of (_params_at_zoom s3c) zs [] = Ok raws)
    by congruence.
  assert (s3d = s3c) by congruence. subst s3d.
  assert (Hinit : initialize_inputs s3c
                    {| delim_zoom := zs; delim_bounds := ib;
                       delim_process_bounds := pb |} raws [] = Ok reg)
    by congruence.
  assert (s5 = s3c) by congruence. subst s5.
  pose proof (init_bounds_ok _ Hib) as Hib3.
  pose proof (bounds_ok _ Hpb) as Hpb3.
  assert (Kb : forall F (f : MapcheteConfig -> F),
             (forall v s, f (set_bounds_slot v s) = f s) ->
             (forall v s, f (set_init_bounds_slot v s) = f s) ->
             f s3c = f s3).
  { intros F f H1 H2.
    pose proof (@keeps_init_bounds E F f H1 H2 s3) as K1.
    pose proof (@keeps_bounds E F f H1 s3b) as K2.
    rewrite Hib in K1. rewrite Hpb in K2. cbn in K1, K2.
    unfold keeps in K1, K2. congruence. }
  pose proof (Kb _ zoom_levels_slot ltac:(kept) ltac:(kept)) as Hz5.
  pose proof (Kb _ init_zoom_levels_slot ltac:(kept) ltac:(kept)) as Hiz5.
  pose proof (Kb _ output_slot ltac:(kept) ltac:(kept)) as Hw5.
  pose proof (Kb _ _cache_area_at_zoom ltac:(kept) ltac:(kept)) as Hca5.
  pose proof (Kb _ _cache_full_process_area ltac:(kept) ltac:(kept))
    as Hcf5.
  assert (Hib5 : init_bounds_slot s3c = Some ib).
  { pose proof (@keeps_bounds E _ init_bounds_slot ltac:(kept) s3b) as K2.
    rewrite Hpb in K2. cbn in K2. unfold keeps in K2. congruence. }
  repeat split.
  - unfold ready. cbn.
    rewrite Hz5, Hz3, Hiz5, Hiz3, Hpb3, Hib5, Hw5, Hw3.
    destruct (zoom_levels_slot s1); [reflexivity | discriminate].
  - exists zs, reg. cbn. repeat split.
    + congruence.
    + exists raws, {| delim_zoom := zs; delim_bounds := ib;
                      delim_process_bounds := pb |}, s3c.
      repeat split; assumption.
  - cbn. congruence.
  - cbn. congruence.
Qed.

Lemma init_built (input_config zoom bounds : pyval) (mode : string)
  (c : MapcheteConfig) :
  __init__ input_config zoom bounds mode = Ok c ->
  built c /\ _cache_area_at_zoom c = [] /\
  _cache_full_process_area c = None.
Proof.
  unfold __init__.
  destruct (preamble input_config zoom bounds mode) as [s0 |] eqn:Hpre;
    cbn [rbind]; [| discriminate].
  destruct (initialize s0) as [[[] | e] s'] eqn:Hinit; [| discriminate].
  intros H. injection H as <-.
  apply preamble_inv in Hpre.
  destruct Hpre as [_ [_ [_ [_ [Hca [Hcf [_ [Hiz [_ [_ [_ [Hin _]]]]]]]]]]]].
  apply initialize_built with (s0 := s0); assumption.
Qed.

Lemma core_fields (s s' : MapcheteConfig) :
  core s' = core s ->
  _raw s' = _raw s /\ _params_at_zoom s' = _params_at_zoom s /\
  process_pyramid s' = process_pyramid s /\
  init_zoom_levels_slot s' = init_zoom_levels_slot s /\
  init_bounds_slot s' = init_bounds_slot s /\
  input_slot s' = input_slot s.
Proof.
  unfold core. intros H. injection H as H1 _ _ H4 _ _ H7 _ H9 _ H11 _ H13.
  repeat split; assumption.
Qed.

Lemma built_core (s s' : MapcheteConfig) :
  core s' = core s -> built s -> built s'.
Proof.
  intros Hc [Hr [zs [reg [Hz [Hi [raws [delim [self [H1 [H2 H3]]]]]]]]]].
  destruct (core_fields Hc) as [_ [Hp [Hpp [Hiz [_ Hin]]]]].
  split; [now rewrite (ready_core Hc) |].
  exists zs, reg. repeat split; try congruence.
  exists raws, delim, self. repeat split; congruence.
Qed.

(** Every state of a constructed object is built. *)
Lemma reachable_built (c : MapcheteConfig) : reachable c -> built c.
Proof.
  induction 1 as [ic zoom bounds mode c H | m c _ IH].
  - now apply init_built in H.
  - apply (built_core (s := c)); [| assumption].
    apply stable_after. apply IH.
Qed.

(** C7. For every successfully constructed configuration object, in
    every state it reaches, every operation (reading zoom_levels,
    init_zoom_levels, bounds, init_bounds, output, input or baselevels,
    calling params_at_zoom, area_at_zoom, bounds_at_zoom or update,
    whether it returns or raises) leaves the raw document as it is. *)
Theorem raw_document_never_mutated (c : MapcheteConfig) (m : method) :
  reachable c -> _raw (after m c) = _raw c.
Proof.
  intros Hreach. apply reachable_built in Hreach.
  destruct Hreach as [Hready _].
  apply core_fields. now apply stable_after.
Qed.
End Built.

(* ===================================================================== *)
(** ** Construction: the metatiling check, an empty zoom range *)
(* ===================================================================== *)

Section Metatiling.
Context {E : Externals}.

Lemma validate_document_config_dir (raw : dict) (file : string) :
  validate_document raw = Ok file ->
  exists dir, dict_getitem raw "config_dir" = Ok dir.
Proof.
  unfold validate_document.
  destruct (reraise_config _); cbn [rbind]; [| discriminate].
  unfold _validate_process_file.
  destruct (dict_getitem raw "config_dir") as [dir |]; cbn [rbind];
    [| discriminate].
  intros _. now exists dir.
Qed.

(** C9. With integer metatiling factors, the process factor defaulting
    to 1: when the output factor exceeds the process factor the check of
    step (3) raises, construction returns no object for any document,
    zoom, bounds or mode, and the error raised is the configuration
    error of that check once the document has passed the steps before
    it; when the output factor is at most the process factor the check
    passes; when the output factor is not given it is the process
    factor and the check passes. *)
Theorem metatiling_constraint (raw pyr out : dict) (p : Z) :
  dict_get raw "pyramid" = Some (PDict pyr) ->
  dict_get raw "output" = Some (PDict out) ->
  dict_get_default pyr "metatiling" (PInt 1) = PInt p ->
  (forall o,
      dict_get out "metatiling" = Some (PInt o) -> p < o ->
      check_metatiling raw = Raise metatiling_error /\
      forall input_config zoom bounds mode,
        raw_document input_config zoom bounds = Ok raw ->
        (forall cfg, __init__ input_config zoom bounds mode <> Ok cfg) /\
        (is_ok (validate_document raw) = true ->
         __init__ input_config zoom bounds mode
         = Raise (MapcheteConfigError (exn_msg metatiling_error)))) /\
  (forall o,
      dict_get out "metatiling" = Some (PInt o) -> o <= p ->
      check_metatiling raw = Ok (PInt p, PInt o)) /\
  (dict_get out "metatiling" = None ->
   check_metatiling raw = Ok (PInt p, PInt p)).
Proof.
  intros Hpyr Hout Hp.
  assert (Hcheck : forall o,
             dict_get_default out "metatiling" (PInt p) = PInt o ->
             check_metatiling raw
             = if o >? p then Raise metatiling_error
               else Ok (PInt p, PInt o)).
  { intros o Ho. unfold check_metatiling, dict_getitem.
    rewrite Hpyr, Hout. cbn [rbind]. rewrite Hp, Ho. cbn [py_gt rbind].
    now destruct (o >? p). }
  repeat split.
  - rewrite (Hcheck o) by (unfold dict_get_default; now rewrite H).
    destruct (Z.gtb_spec o p); [reflexivity | lia].
  - intros cfg. unfold __init__, preamble. rewrite H1. cbn [rbind].
    destruct (validate_document raw); cbn [rbind]; [| discriminate].
    destruct (dict_getitem raw "config_dir"); cbn [rbind];
      [| discriminate].
    unfold set_pyramids, dict_getitem. rewrite Hpyr, Hout. cbn [rbind].
    rewrite (Hcheck o) by (unfold dict_get_default; now rewrite H).
    destruct (Z.gtb_spec o p); [discriminate | lia].
  - intros Hvalid. unfold __init__, preamble. rewrite H1. cbn [rbind].
    destruct (validate_document raw) as [file |] eqn:Hv; [| discriminate].
    cbn [rbind].
    destruct (validate_document_config_dir _ Hv) as [dir ->].
    cbn [rbind].
    unfold set_pyramids, dict_getitem. rewrite Hpyr, Hout. cbn [rbind].
    rewrite (Hcheck o) by (unfold dict_get_default; now rewrite H).
    destruct (Z.gtb_spec o p); [reflexivity | lia].
  - intros o Ho Hle.
    rewrite (Hcheck o) by (unfold dict_get_default; now rewrite Ho).
    destruct (Z.gtb_spec o p); [lia | reflexivity].
  - intros Hnone.
    rewrite (Hcheck p) by (unfold dict_get_default; now rewrite Hnone).
    destruct (Z.gtb_spec p p); [lia | reflexivity].
Qed.
End Metatiling.

Lemma metatiling_constraint_witness :
  check_metatiling
    [("pyramid", PDict [("grid", PStr "geodetic"); ("metatiling", PInt 2)]);
     ("output", PDict [("format", PStr "GTiff"); ("metatiling", PInt 4)])]
  = Raise metatiling_error /\
  check_metatiling
    [("pyramid", PDict [("grid", PStr "geodetic"); ("metatiling", PInt 4)]);
     ("output", PDict [("format", PStr "GTiff"); ("metatiling", PInt 2)])]
  = Ok (PInt 4, PInt 2).
Proof.
  split.
  - refine (proj1 (proj1 (@metatiling_constraint Demo.world
              [("pyramid",
                PDict [("grid", PStr "geodetic"); ("metatiling", PInt 2)]);
               ("output",
                PDict [("format", PStr "GTiff"); ("metatiling", PInt 4)])]
              [("grid", PStr "geodetic"); ("metatiling", PInt 2)]
              [("format", PStr "GTiff"); ("metatiling", PInt 4)]
              2 eq_refl eq_refl eq_refl) 4 eq_refl _)).
    lia.
  - refine (proj1 (proj2 (@metatiling_constraint Demo.world
              [("pyramid",
                PDict [("grid", PStr "geodetic"); ("metatiling", PInt 4)]);
               ("output",
                PDict [("format", PStr "GTiff"); ("metatiling", PInt 2)])]
              [("grid", PStr "geodetic"); ("metatiling", PInt 4)]
              [("format", PStr "GTiff"); ("metatiling", PInt 2)]
              4 eq_refl eq_refl eq_refl)) 2 eq_refl _).
    lia.
Defined.

Section EmptyZoomRange.
Context {E : Externals}.

Lemma declared_zoom_levels_empty (raw zl : dict) (lo hi : Z) :
  dict_get raw "zoom_levels" = Some (PDict zl) ->
  dict_get zl "min" = Some (PInt lo) ->
  dict_get zl "max" = Some (PInt hi) ->
  hi < lo ->
  declared_zoom_levels raw = Ok [].
Proof.
  intros Hzl Hmin Hmax Hlt.
  unfold declared_zoom_levels, dict_getitem. rewrite Hzl. cbn [rbind].
  unfold zoom_levels_minmax, validate_values. rewrite Hmin, Hmax.
  cbn [isinstance existsb type_of pytype_eqb orb rbind].
  destruct (Z.eqb_spec lo hi); [lia |].
  now rewrite py_range_empty by lia.
Qed.

Lemma no_params_refl (s : MapcheteConfig) : no_params s s.
Proof. intros H. exact H. Qed.

Lemma no_params_trans (s t u : MapcheteConfig) :
  no_params s t -> no_params t u -> no_params s u.
Proof. unfold no_params. auto. Qed.

Lemma no_params_output : respects no_params output.
Proof.
  unfold output.
  apply respects_cached;
    [apply no_params_refl | apply no_params_trans |
    | intros v s H; exact H].
  intros s _. revert s.
  match goal with
  | |- forall s, no_params s (snd (?m s)) => change (respects no_params m)
  end.
  assert (Hupd : forall op k v,
             respects no_params (update_output_params op k v)).
  { intros op k v s H. cbn. now rewrite H. }
  repeat first
    [ apply Hupd
    | apply respects_ret; apply no_params_refl
    | apply respects_raise; apply no_params_refl
    | apply respects_lift; apply no_params_refl
    | apply respects_attr; apply no_params_refl
    | apply respects_bind; [apply no_params_trans | | intros ?]
    | match goal with
      | |- respects _ (match ?x with _ => _ end) => destruct x
      | |- respects _ (if ?b then _ else _) => destruct b
      end ].
Qed.

Ltac kept := intros; reflexivity.

Lemma initialize_without_zooms (s0 : MapcheteConfig) :
  zoom_levels_slot s0 = None -> init_zoom_levels_slot s0 = None ->
  input_slot s0 = None -> _params_at_zoom s0 = [] ->
  dict_get (_raw s0) "init_zoom_levels" = Some PNone ->
  declared_zoom_levels (_raw s0) = Ok [] ->
  initialize s0 =
  match remaining_steps
          (set_params_at_zoom []
             (set_init_zoom_levels_slot [] (set_zoom_levels_slot [] s0)))
  with
  | (Ok _, s') => (Ok tt, set_input_slot [] s')
  | (Raise e, s') => (Raise e, s')
  end.
Proof.
  intros Hz Hiz Hin Hpz Hraw Hdecl.
  assert (Hrun : init_zoom_levels s0 =
                 (Ok [], set_init_zoom_levels_slot []
                           (set_zoom_levels_slot [] s0))).
  { unfold init_zoom_levels, cached_property. rewrite Hiz.
    unfold bind at 1, attr. unfold bind at 1, lift, dict_getitem.
    rewrite Hraw. rewrite zoom_levels_run, Hdecl by assumption.
    reflexivity. }
  unfold initialize, remaining_steps, bind, attr, lift, assign, ret.
  rewrite Hrun. cbn [_raw_at_zoom raw_at_zooms].
  set (s2 := set_params_at_zoom [] _).
  destruct (output s2) as [[w | e] s3] eqn:Hw; [| reflexivity].
  assert (Hin3 : input_slot s3 = None).
  { pose proof (@keeps_output E _ input_slot ltac:(kept) ltac:(kept)
                  ltac:(kept) s2) as K.
    rewrite Hw in K. unfold keeps in K. cbn in K. rewrite K.
    exact Hin. }
  assert (Hiz3 : init_zoom_levels_slot s3 = Some []).
  { pose proof (@keeps_output E _ init_zoom_levels_slot ltac:(kept)
                  ltac:(kept) ltac:(kept) s2) as K.
    rewrite Hw in K. unfold keeps in K. cbn in K. rewrite K.
    reflexivity. }
  unfold input, cached_property. rewrite Hin3.
  unfold bind, attr, lift.
  assert (Hst : init_zoom_levels s3 = (Ok [], s3))
    by (apply cached_stored; exact Hiz3).
  rewrite Hst.
  destruct (init_bounds s3) as [[ib | e] s4] eqn:Hib; [| reflexivity].
  destruct (bounds s4) as [[pb | e] s5] eqn:Hpb; [| reflexivity].
  reflexivity.
Qed.

(** C10. For every document whose zoom levels are given as a mapping
    with integers min > max, built without an initialization zoom: the
    declared zoom levels are the empty range, the initialized zoom
    levels are empty too, and construction goes on to the output and
    the bounds, the only steps left that can raise; the object it
    returns has no zoom level, no parameters and no input. *)
Theorem empty_zoom_range_is_built (input_config bounds : pyval)
  (mode : string) (self : MapcheteConfig) (zl : dict) (lo hi : Z) :
  preamble input_config PNone bounds mode = Ok self ->
  dict_get (_raw self) "zoom_levels" = Some (PDict zl) ->
  dict_get zl "min" = Some (PInt lo) ->
  dict_get zl "max" = Some (PInt hi) ->
  hi < lo ->
  fst (zoom_levels self) = Ok [] /\
  fst (init_zoom_levels self) = Ok [] /\
  __init__ input_config PNone bounds mode =
  match remaining_steps
          (set_params_at_zoom []
             (set_init_zoom_levels_slot [] (set_zoom_levels_slot [] self)))
  with
  | (Ok _, s') => Ok (set_input_slot [] s')
  | (Raise e, _) => Raise e
  end /\
  forall cfg,
    __init__ input_config PNone bounds mode = Ok cfg ->
    zoom_levels_slot cfg = Some [] /\
    init_zoom_levels_slot cfg = Some [] /\
    _params_at_zoom cfg = [] /\
    input_slot cfg = Some [].
Proof.
  intros Hpre Hzl Hmin Hmax Hlt.
  pose proof (declared_zoom_levels_empty _ Hzl Hmin Hmax Hlt) as Hdecl.
  destruct (preamble_inv _ _ _ _ Hpre)
    as [Hr [_ [_ [Hpz [_ [_ [Hz [Hiz [_ [_ [_ [Hin _]]]]]]]]]]]].
  destruct (raw_document_init _ _ _ Hr) as [Hinit _].
  pose proof (@initialize_without_zooms self Hz Hiz Hin Hpz Hinit Hdecl)
    as Hrun.
  assert (Heq : __init__ input_config PNone bounds mode =
                match remaining_steps
                        (set_params_at_zoom []
                           (set_init_zoom_levels_slot []
                              (set_zoom_levels_slot [] self)))
                with
                | (Ok _, s') => Ok (set_input_slot [] s')
                | (Raise e, _) => Raise e
                end).
  { unfold __init__. rewrite Hpre. cbn [rbind]. rewrite Hrun.
    now destruct (remaining_steps _) as [[[] | e] s']. }
  split; [| split; [| split; [exact Heq |]]].
  - rewrite zoom_levels_run, Hdecl by assumption. reflexivity.
  - unfold init_zoom_levels, cached_property. rewrite Hiz.
    unfold bind at 1, attr. unfold bind at 1, lift, dict_getitem.
    rewrite Hinit. rewrite zoom_levels_run, Hdecl by assumption.
    reflexivity.
  - intros cfg Hcfg. rewrite Heq in Hcfg.
    set (s2 := set_params_at_zoom [] _) in *.
    destruct (remaining_steps s2) as [[[] | e] s'] eqn:Hrest;
      [| discriminate].
    injection Hcfg as <-. unfold remaining_steps in Hrest.
    apply bind_ok in Hrest. destruct Hrest as [w [s3 [Hw Hrest]]].
    apply bind_ok in Hrest. destruct Hrest as [ib [s4 [Hib Hrest]]].
    apply bind_ok in Hrest. destruct Hrest as [pb [s5 [Hpb Hrest]]].
    injection Hrest as <-.
    assert (K : forall F (f : MapcheteConfig -> F),
               (forall v s, f (set_raw v s) = f s) ->
               (forall v s, f (set_params_at_zoom v s) = f s) ->
               (forall v s, f (set_output_slot v s) = f s) ->
               (forall v s, f (set_bounds_slot v s) = f s) ->
               (forall v s, f (set_init_bounds_slot v s) = f s) ->
               f s5 = f s2).
    { intros F f H1 H2 H3 H4 H5.
      pose proof (@keeps_output E F f H1 H2 H3 s2) as K0.
      pose proof (@keeps_init_bounds E F f H4 H5 s3) as K1.
      pose proof (@keeps_bounds E F f H4 s4) as K2.
      rewrite Hw in K0. rewrite Hib in K1. rewrite Hpb in K2.
      unfold keeps in K0, K1, K2. cbn in K0, K1, K2. congruence. }
    cbn. repeat split.
    + now rewrite (K _ zoom_levels_slot) by kept.
    + now rewrite (K _ init_zoom_levels_slot) by kept.
    + pose proof (no_params_output s2) as K0. rewrite Hw in K0.
      pose proof (@keeps_init_bounds E _ _params_at_zoom ltac:(kept)
                    ltac:(kept) s3) as K1.
      pose proof (@keeps_bounds E _ _params_at_zoom ltac:(kept) s4) as K2.
      rewrite Hib in K1. rewrite Hpb in K2. unfold keeps in K1, K2.
      cbn in K0, K1, K2. rewrite K2, K1. now apply K0.
Qed.
End EmptyZoomRange.

(* ===================================================================== *)
(** ** Areas *)
(* ===================================================================== *)

Section KeyedDictFacts.
Variable V : Type.

Lemma kd_get_set (d : list (Z * V)) (k k' : Z) (v : V) :
  kd_get Z.eqb (kd_set Z.eqb d k v) k'
  = if Z.eqb k' k then Some v else kd_get Z.eqb d k'.
Proof.
  induction d as [| [k0 v0] d IH]; cbn.
  - reflexivity.
  - destruct (Z.eqb_spec k k0) as [-> | Hne]; cbn.
    + now destruct (Z.eqb k' k0).
    + destruct (Z.eqb_spec k' k0) as [-> | Hne'].
      * destruct (Z.eqb_spec k0 k); [congruence | reflexivity].
      * exact IH.
Qed.
End KeyedDictFacts.

Lemma rmap_ext_in {A B} (f g : A -> result B) (l : list A) :
  (forall x, In x l -> f x = g x) -> rmap f l = rmap g l.
Proof.
  induction l as [| x l IH]; intros H; [reflexivity |].
  cbn. rewrite (H x (or_introl eq_refl)), IH; [reflexivity |].
  intros y Hy. apply H. now right.
Qed.

Section Areas.
Context {E : Externals}.

Lemma input_bboxes_run (s : MapcheteConfig) (reg : registry)
  (items : list (string * pyval)) :
  input_slot s = Some reg ->
  input_bboxes items s
  = (bboxes_of reg (pyramid_crs (process_pyramid s)) items, s).
Proof.
  intros Hreg.
  assert (Hin : input s = (Ok reg, s)) by (apply cached_stored; exact Hreg).
  induction items as [| [k v] items IH]; [reflexivity |].
  cbn [input_bboxes bboxes_of].
  destruct (negb (is_none v)); [| exact IH].
  unfold bind. rewrite Hin. unfold lift.
  destruct (get_hash v) as [h |]; cbn [rbind]; [| reflexivity].
  destruct (kd_get identity_eqb reg h) as [obj |]; [| reflexivity].
  unfold attr.
  destruct (bbox (obj_reader obj) _) as [g |]; cbn [rbind]; [| reflexivity].
  rewrite IH.
  now destruct (bboxes_of reg _ items).
Qed.

Lemma _area_at_zoom_run (s : MapcheteConfig) (reg : registry) (ib : Bounds)
  (zoom : Z) :
  input_slot s = Some reg -> init_bounds_slot s = Some ib ->
  _area_at_zoom zoom s =
  match kd_get Z.eqb (_cache_area_at_zoom s) zoom with
  | Some g => (Ok g, s)
  | None =>
      match area_now s reg ib zoom with
      | Ok g =>
          (Ok g,
           set_cache_area_at_zoom
             (kd_set Z.eqb (_cache_area_at_zoom s) zoom g) s)
      | Raise e => (Raise e, s)
      end
  end.
Proof.
  intros Hreg Hib.
  assert (Hbounds : init_bounds s = (Ok ib, s))
    by (apply cached_stored; exact Hib).
  unfold _area_at_zoom, area_now, area_of. unfold bind at 1, attr.
  destruct (kd_get Z.eqb (_cache_area_at_zoom s) zoom) as [g |];
    [reflexivity |].
  unfold bind at 1.
  destruct (kd_get Z.eqb (_params_at_zoom s) zoom) as [params |];
    [| reflexivity].
  destruct (dict_get params "input") as [[| | | | d |] |];
    try reflexivity.
  - unfold bind at 1, ret. unfold bind at 1.
    rewrite (@input_bboxes_run s reg d Hreg).
    destruct (bboxes_of reg _ d) as [boxes |]; cbn [rbind];
      [| reflexivity].
    unfold bind, cache_area, assign, ret. rewrite ?Hbounds. cbn.
    rewrite ?Hbounds. reflexivity.
  - unfold bind, cache_area, assign, ret. rewrite ?Hbounds. cbn.
    rewrite ?Hbounds. reflexivity.
Qed.

Lemma _area_at_zoom_sound (s : MapcheteConfig) (zoom : Z) (zooms : list Z)
  (reg : registry) (ib : Bounds) :
  init_zoom_levels_slot s = Some zooms -> input_slot s = Some reg ->
  init_bounds_slot s = Some ib ->
  (forall z g, kd_get Z.eqb (_cache_area_at_zoom s) z = Some g ->
               area_now s reg ib z = Ok g) ->
  fst (_area_at_zoom zoom s) = area_now s reg ib zoom /\
  core (snd (_area_at_zoom zoom s)) = core s /\
  _cache_full_process_area (snd (_area_at_zoom zoom s))
  = _cache_full_process_area s /\
  (forall z g,
      kd_get Z.eqb (_cache_area_at_zoom (snd (_area_at_zoom zoom s))) z
      = Some g ->
      area_now s reg ib z = Ok g).
Proof.
  intros Hz Hreg Hib Hcache.
  rewrite (@_area_at_zoom_run s reg ib zoom Hreg Hib).
  destruct (kd_get Z.eqb (_cache_area_at_zoom s) zoom) as [g |] eqn:Hg.
  - cbn. repeat split; try assumption. symmetry. now apply Hcache.
  - destruct (area_now s reg ib zoom) as [g |] eqn:Ha; cbn.
    + repeat split. intros z g'. rewrite kd_get_set.
      destruct (Z.eqb_spec z zoom) as [-> | _].
      * intros H. injection H as <-. assumption.
      * apply Hcache.
    + repeat split; assumption.
Qed.

Lemma core_area_now (s s' : MapcheteConfig) (reg : registry) (ib : Bounds) :
  core s' = core s -> area_now s' reg ib = area_now s reg ib.
Proof.
  intros H. destruct (core_fields H) as [_ [Hp [Hpp _]]].
  unfold area_now. now rewrite Hp, Hpp.
Qed.

Lemma areas_at_zooms_sound (zs : list Z) :
  forall (s : MapcheteConfig) (zooms : list Z) (reg : registry)
         (ib : Bounds),
    init_zoom_levels_slot s = Some zooms -> input_slot s = Some reg ->
    init_bounds_slot s = Some ib ->
    (forall z g, kd_get Z.eqb (_cache_area_at_zoom s) z = Some g ->
                 area_now s reg ib z = Ok g) ->
    fst (areas_at_zooms zs s) = rmap (area_now s reg ib) zs /\
    core (snd (areas_at_zooms zs s)) = core s /\
    _cache_full_process_area (snd (areas_at_zooms zs s))
    = _cache_full_process_area s /\
    (forall z g,
        kd_get Z.eqb (_cache_area_at_zoom (snd (areas_at_zooms zs s))) z
        = Some g ->
        area_now s reg ib z = Ok g).
Proof.
  induction zs as [| z zs IH]; intros s zooms reg ib Hz Hreg Hib Hcache.
  - cbn. repeat split. assumption.
  - assert (Hunfold :
             areas_at_zooms (z :: zs) s =
             match _area_at_zoom z s with
             | (Ok g, s1) =>
                 match areas_at_zooms zs s1 with
                 | (Ok gs, s2) => (Ok (g :: gs), s2)
                 | (Raise e, s2) => (Raise e, s2)
                 end
             | (Raise e, s1) => (Raise e, s1)
             end) by reflexivity.
    rewrite Hunfold. clear Hunfold. cbn [rmap].
    destruct (@_area_at_zoom_sound s z zooms reg ib Hz Hreg Hib Hcache)
      as [Hv [Hc [Hf Hcache1]]].
    destruct (_area_at_zoom z s) as [[g | e] s1]; cbn in Hv, Hc, Hf, Hcache1.
    + rewrite <- Hv. cbn [rbind].
      destruct (core_fields Hc) as [_ [_ [_ [Hz1 [Hib1 Hreg1]]]]].
      rewrite Hz in Hz1. rewrite Hib in Hib1. rewrite Hreg in Hreg1.
      pose proof (@core_area_now s s1 reg ib Hc) as Hnow.
      assert (Hcache1' : forall z g,
                 kd_get Z.eqb (_cache_area_at_zoom s1) z = Some g ->
                 area_now s1 reg ib z = Ok g)
        by (intros z' g'; rewrite Hnow; apply Hcache1).
      destruct (IH s1 zooms reg ib Hz1 Hreg1 Hib1 Hcache1')
        as [Hv2 [Hc2 [Hf2 Hcache2]]].
      rewrite Hnow in Hv2, Hcache2.
      destruct (areas_at_zooms zs s1) as [[gs | e] s2];
        cbn in Hv2, Hc2, Hf2, Hcache2 |- *;
        rewrite <- Hv2; cbn [rbind]; repeat split; congruence || assumption.
    + rewrite <- Hv. cbn. repeat split; assumption.
Qed.

Lemma area_at_zoom_sound (s : MapcheteConfig) (zoom : pyval)
  (zooms : list Z) (reg : registry) (ib : Bounds) :
  init_zoom_levels_slot s = Some zooms -> input_slot s = Some reg ->
  init_bounds_slot s = Some ib ->
  (forall z g, kd_get Z.eqb (_cache_area_at_zoom s) z = Some g ->
               area_now s reg ib z = Ok g) ->
  (forall g, _cache_full_process_area s = Some g ->
             exists gs, rmap (area_now s reg ib) zooms = Ok gs /\
                        g = buffer0 (cascaded_union gs)) ->
  fst (area_at_zoom zoom s) = area_value s zooms reg ib zoom /\
  caches_sound (snd (area_at_zoom zoom s)) /\
  core (snd (area_at_zoom zoom s)) = core s.
Proof.
  intros Hz Hreg Hib Hcache Hfull.
  assert (Hzs : init_zoom_levels s = (Ok zooms, s))
    by (apply cached_stored; exact Hz).
  assert (Hsame : caches_sound s)
    by (exists zooms, reg, ib; repeat split; assumption).
  assert (Hstep : forall s1,
             core s1 = core s ->
             (forall z g, kd_get Z.eqb (_cache_area_at_zoom s1) z = Some g ->
                          area_now s reg ib z = Ok g) ->
             (forall g, _cache_full_process_area s1 = Some g ->
                        exists gs, rmap (area_now s reg ib) zooms = Ok gs /\
                                   g = buffer0 (cascaded_union gs)) ->
             caches_sound s1).
  { intros s1 Hc Hc1 Hf1.
    destruct (core_fields Hc) as [_ [_ [_ [Hz1 [Hib1 Hreg1]]]]].
    exists zooms, reg, ib. rewrite (@core_area_now s s1 reg ib Hc).
    repeat split; congruence || assumption. }
  destruct (area_at_zoom zoom s) as [r s'] eqn:Hrun. cbn [fst snd].
  destruct zoom as [| z | | | |]; cbn [area_at_zoom area_value] in Hrun |- *;
    try (injection Hrun as <- <-; repeat split; assumption).
  - (* None *)
    unfold bind, attr, assign, ret in Hrun.
    destruct (@areas_at_zooms_sound zooms s zooms reg ib Hz Hreg Hib Hcache)
      as [Hv [Hc [Hf Hcache1]]].
    destruct (_cache_full_process_area s) as [g |] eqn:Hg;
      cbn [full_area_missing] in Hrun.
    + destruct (Hfull g eq_refl) as [gs [Hgs ->]].
      rewrite Hgs. cbn [rbind].
      destruct (geom_is_empty (buffer0 (cascaded_union gs)));
        [| injection Hrun as <- <-; repeat split; assumption].
      rewrite Hzs in Hrun.
      destruct (areas_at_zooms zooms s) as [[gs' | e] s1];
        cbn in Hv, Hc, Hf, Hcache1; rewrite Hgs in Hv; [| discriminate].
      injection Hv as ->. injection Hrun as <- <-.
      repeat split; try assumption.
      apply Hstep; try assumption.
      all: intros g' Hg'; cbn in Hg'; injection Hg' as <-; now exists gs.
    + rewrite Hzs in Hrun.
      destruct (areas_at_zooms zooms s) as [[gs | e] s1];
        cbn in Hv, Hc, Hf, Hcache1; rewrite <- Hv; injection Hrun as <- <-;
        cbn [rbind].
      * repeat split; try assumption.
        apply Hstep; try assumption.
        all: intros g' Hg'; cbn in Hg'; injection Hg' as <-;
          exists gs; split; [now symmetry | reflexivity].
      * repeat split; try assumption.
        apply Hstep; try assumption.
        all: rewrite Hf; intros g' Hg'; discriminate.
  - (* an integer *)
    unfold bind in Hrun. rewrite Hzs in Hrun.
    destruct (negb (zoom_in z zooms));
      [injection Hrun as <- <-; repeat split; assumption |].
    destruct (@_area_at_zoom_sound s z zooms reg ib Hz Hreg Hib Hcache)
      as [Hv [Hc [Hf Hcache1]]].
    rewrite Hrun in Hv, Hc, Hf, Hcache1. cbn [fst snd] in Hv, Hc, Hf, Hcache1.
    repeat split; try assumption.
    apply Hstep; try assumption. all: now rewrite Hf.
Qed.
End Areas.

Section FullArea.
Context {E : Externals}.

Lemma whole_fields (s s' : MapcheteConfig) :
  whole s' = whole s ->
  core s' = core s /\
  _cache_area_at_zoom s' = _cache_area_at_zoom s /\
  _cache_full_process_area s' = _cache_full_process_area s.
Proof.
  unfold whole, area_caches. intros H.
  pose proof (f_equal fst H) as H1. pose proof (f_equal snd H) as H2.
  cbn in H1, H2. injection H2 as H2 H3. repeat split; assumption.
Qed.

Lemma caches_sound_whole (s s' : MapcheteConfig) :
  whole s' = whole s -> caches_sound s -> caches_sound s'.
Proof.
  intros Hw [zs [reg [ib [Hz [Hreg [Hib [Hc Hf]]]]]]].
  destruct (whole_fields Hw) as [Hcore [Hca Hcf]].
  destruct (core_fields Hcore) as [_ [_ [_ [Hz1 [Hib1 Hreg1]]]]].
  exists zs, reg, ib. rewrite (core_area_now reg ib Hcore), Hca, Hcf.
  repeat split; congruence || assumption.
Qed.

Lemma caches_sound_area_at_zoom (s : MapcheteConfig) (zoom : pyval) :
  caches_sound s ->
  caches_sound (snd (area_at_zoom zoom s)) /\
  core (snd (area_at_zoom zoom s)) = core s.
Proof.
  intros [zs [reg [ib [Hz [Hreg [Hib [Hc Hf]]]]]]].
  now destruct (@area_at_zoom_sound _ s zoom zs reg ib Hz Hreg Hib Hc Hf)
    as [_ [H1 H2]].
Qed.

Lemma caches_sound_bounds_at_zoom (s : MapcheteConfig) (zoom : pyval) :
  caches_sound s -> caches_sound (snd (bounds_at_zoom zoom s)).
Proof.
  intros Hs. unfold bounds_at_zoom, bind.
  destruct (caches_sound_area_at_zoom zoom Hs) as [Hs1 _].
  destruct (area_at_zoom zoom s) as [[a | e] s1]; cbn in Hs1;
    [| assumption].
  destruct (geom_is_empty a); [assumption |].
  destruct (caches_sound_area_at_zoom zoom Hs1) as [Hs2 _].
  destruct (area_at_zoom zoom s1) as [[a' | e] s2]; assumption.
Qed.

Lemma built_caches_sound (c : MapcheteConfig) :
  built c -> _cache_area_at_zoom c = [] ->
  _cache_full_process_area c = None -> caches_sound c.
Proof.
  intros [Hr [zs [reg [Hz [Hreg _]]]]] Hca Hcf.
  unfold ready in Hr. repeat (apply andb_true_iff in Hr; destruct Hr as [Hr ?]).
  destruct (init_bounds_slot c) as [ib |] eqn:Hib; [| discriminate].
  exists zs, reg, ib. rewrite Hca, Hcf.
  repeat split; try assumption; discriminate.
Qed.

Lemma reachable_caches_sound (c : MapcheteConfig) :
  reachable c -> caches_sound c.
Proof.
  induction 1 as [ic zoom bounds mode c H | m c Hreach IH].
  - apply init_built in H. destruct H as [Hb [Hca Hcf]].
    now apply built_caches_sound.
  - pose proof (reachable_built Hreach) as [Hready _].
    pose proof (@quiet_after _ m c Hready) as Hq.
    destruct m; cbn [after] in Hq |- *;
      try (now apply (caches_sound_whole Hq)).
    + now apply caches_sound_area_at_zoom.
    + now apply caches_sound_bounds_at_zoom.
Qed.

(** C5 (amended). For every configuration, in every state it reaches:
    [area_at_zoom(None)] is [cascaded_union] of the areas
    [area_at_zoom(z)] of the initialized zoom levels [z], taken in their
    order, passed through [buffer(0)]; it raises only where one of them
    raises, and raises what the first of these raises.  Where all of them
    are computed the result is returned, empty or not, and it is the union
    itself exactly where [buffer(0)] leaves the union as it is.  With no
    zoom level initialized it is [buffer(0)] of the union of nothing. *)
Theorem full_area_is_buffered_union (c : MapcheteConfig) (zooms : list Z) :
  reachable c ->
  fst (init_zoom_levels c) = Ok zooms ->
  fst (area_at_zoom PNone c) =
  (areas <- rmap (fun z => fst (area_at_zoom (PInt z) c)) zooms ;;
   Ok (buffer0 (cascaded_union areas))) /\
  (forall areas,
      rmap (fun z => fst (area_at_zoom (PInt z) c)) zooms = Ok areas ->
      fst (area_at_zoom PNone c) = Ok (buffer0 (cascaded_union areas)) /\
      (fst (area_at_zoom PNone c) = Ok (cascaded_union areas) <->
       buffer0 (cascaded_union areas) = cascaded_union areas)) /\
  (zooms = [] ->
   fst (area_at_zoom PNone c) = Ok (buffer0 (cascaded_union []))).
Proof.
  intros Hreach Hzooms.
  assert (Heq : fst (area_at_zoom PNone c) =
                (areas <- rmap (fun z => fst (area_at_zoom (PInt z) c)) zooms ;;
                 Ok (buffer0 (cascaded_union areas)))).
  { destruct (reachable_caches_sound Hreach)
      as [zs [reg [ib [Hz [Hreg [Hib [Hc Hf]]]]]]].
    assert (Hzs : init_zoom_levels c = (Ok zs, c))
      by (apply cached_stored; exact Hz).
    rewrite Hzs in Hzooms. injection Hzooms as <-.
    destruct (@area_at_zoom_sound _ c PNone zs reg ib Hz Hreg Hib Hc Hf)
      as [-> _].
    cbn [area_value].
    rewrite (@rmap_ext_in _ _ (fun z => fst (area_at_zoom (PInt z) c))
               (area_now c reg ib) zs); [reflexivity |].
    intros z Hin.
    destruct (@area_at_zoom_sound _ c (PInt z) zs reg ib Hz Hreg Hib Hc Hf)
      as [-> _].
    cbn [area_value]. apply zoom_in_spec in Hin. now rewrite Hin. }
  split; [exact Heq |]. split.
  - intros areas Hareas. rewrite Heq, Hareas. cbn [rbind].
    split; [reflexivity |]. split.
    + intros H. now injection H.
    + intros ->. reflexivity.
  - intros ->. exact Heq.
Qed.
End FullArea.

(* ===================================================================== *)
(** ** Paths of the flattened tree, looked up in the tree *)
(* ===================================================================== *)

Lemma tree_lookup_cons (k : string) (more : list string) (v : pyval)
  (rest : dict) :
  tree_lookup (k :: more) (PDict ((k, v) :: rest)) = tree_lookup more v.
Proof. cbn. now rewrite String.eqb_refl. Qed.

Lemma tree_lookup_skip (k k' : string) (more : list string) (v : pyval)
  (rest : dict) :
  k <> k' ->
  tree_lookup (k :: more) (PDict ((k', v) :: rest))
  = tree_lookup (k :: more) (PDict rest).
Proof. intros H. apply String.eqb_neq in H. cbn. now rewrite H. Qed.

(** A leaf that [_flatten_tree] yields under a path is found, with [f]
    applied, along the segments of the path in the tree with [f] applied to
    its leaves. *)
Lemma tree_lookup_flatten (f : pyval -> pyval) (depth : nat) :
  forall (d : dict) (old_path : option string) (key : string) (x : pyval),
    codec_tree depth d = true ->
    In (key, x) (_flatten_tree d old_path) ->
    exists k more,
      In k (dict_keys d) /\
      PyStr.split_slash key = prefix_segments old_path ++ k :: more /\
      tree_lookup (k :: more) (PDict (map_tree f d)) = Some (f x).
Proof.
  induction depth as [| n IHn];
    induction d as [| [k v] d IHd]; intros old_path key x Hok Hin;
    try contradiction.
  all: apply codec_tree_cons in Hok;
    destruct Hok as [Hkey [Hfresh [Hentry Hrest]]];
    pose proof (key_ok_spec _ Hkey) as [Hne Hslash];
    rewrite _flatten_tree_cons in Hin; apply in_app_or in Hin;
    change (if is_branch v then _ else _) with (flatten_entry old_path k v)
      in Hin;
    cbn [map_tree map fst snd];
    change (map (fun kv => (fst kv, map_leaves f (snd kv))) d)
      with (map_tree f d).
  all: destruct Hin as [Hin | Hin];
    [| destruct (IHd old_path key x Hrest Hin) as [k' [more [Hk' [Hs Hl]]]];
       exists k', more; split; [now right |]; split; [assumption |];
       rewrite tree_lookup_skip; [assumption | congruence] ].
  all: unfold flatten_entry in Hin.
  all: destruct Hentry as [Hleaf | [n' [e [Hn [-> [Hb [Hene He]]]]]]];
    try discriminate.
  all: try (rewrite Hleaf in Hin; destruct Hin as [Heq | []];
            injection Heq as <- <-; exists k, []; split; [now left |];
            split; [now apply split_new_path |];
            rewrite tree_lookup_cons, map_leaves_leaf by assumption;
            reflexivity).
  injection Hn as <-. rewrite Hb in Hin.
  destruct (IHn e (Some (new_path old_path k)) key x He Hin)
    as [k' [more [Hk' [Hs Hl]]]].
  exists k, (k' :: more). split; [now left |]. split.
  - rewrite Hs, prefix_segments_some by (now apply new_path_nonempty).
    rewrite split_new_path by assumption. now rewrite <- app_assoc.
  - rewrite tree_lookup_cons, map_leaves_branch by assumption. exact Hl.
Qed.

(** The same for the tree that is flattened from its root. *)
Lemma tree_lookup_flattened (f : pyval -> pyval) (depth : nat) (d : dict)
  (key : string) (x : pyval) :
  codec_tree depth d = true ->
  In (key, x) (_flatten_tree d None) ->
  tree_lookup (PyStr.split_slash key) (PDict (map_tree f d)) = Some (f x).
Proof.
  intros Hok Hin.
  destruct (tree_lookup_flatten f depth d None key x Hok Hin)
    as [k [more [_ [-> Hl]]]].
  exact Hl.
Qed.

(* ===================================================================== *)
(** ** The input registry *)
(* ===================================================================== *)

Lemma identity_eqb_spec (a b : identity) : identity_eqb a b = true <-> a = b.
Proof.
  destruct a as [x |], b as [y |]; cbn; split; intros H;
    try discriminate; try reflexivity.
  - apply Z.eqb_eq in H. now subst.
  - injection H as ->. apply Z.eqb_refl.
Qed.

Lemma identity_eqb_refl (a : identity) : identity_eqb a a = true.
Proof. now apply identity_eqb_spec. Qed.

Section RegistryFacts.
Variable V : Type.
Implicit Types d : list (identity * V).

Lemma id_get_in d (k : identity) (v : V) :
  kd_get identity_eqb d k = Some v -> In (k, v) d.
Proof.
  induction d as [| [k0 v0] d IH]; cbn; [discriminate |].
  destruct (identity_eqb k k0) eqn:Hk.
  - apply identity_eqb_spec in Hk. intros H. injection H as <-. subst.
    now left.
  - intros H. right. now apply IH.
Qed.

Lemma id_get_none d (k : identity) :
  kd_get identity_eqb d k = None <-> ~ In k (map fst d).
Proof.
  induction d as [| [k0 v0] d IH]; cbn; [tauto |].
  destruct (identity_eqb k k0) eqn:Hk.
  - apply identity_eqb_spec in Hk. subst. split; [discriminate | tauto].
  - rewrite IH. split; [| tauto]. intros Hn [Heq | Hin]; [| tauto].
    subst. now rewrite identity_eqb_refl in Hk.
Qed.

Lemma id_in_get d (k : identity) (v : V) :
  NoDup (map fst d) -> In (k, v) d -> kd_get identity_eqb d k = Some v.
Proof.
  induction d as [| [k0 v0] d IH]; cbn; [contradiction |].
  intros Hnd [Heq | Hin].
  - injection Heq as -> ->. now rewrite identity_eqb_refl.
  - inversion Hnd as [| ? ? Hfresh Hnd']. subst.
    destruct (identity_eqb k k0) eqn:Hk; [| now apply IH].
    apply identity_eqb_spec in Hk. subst. exfalso. apply Hfresh.
    apply in_map_iff. now exists (k0, v).
Qed.

Lemma id_get_set d (k k' : identity) (v : V) :
  kd_get identity_eqb (kd_set identity_eqb d k v) k'
  = if identity_eqb k' k then Some v else kd_get identity_eqb d k'.
Proof.
  induction d as [| [k0 v0] d IH]; cbn; [reflexivity |].
  destruct (identity_eqb k k0) eqn:Hk; cbn.
  - apply identity_eqb_spec in Hk. subst.
    now destruct (identity_eqb k' k0).
  - destruct (identity_eqb k' k0) eqn:Hk'; [| exact IH].
    apply identity_eqb_spec in Hk'. subst.
    destruct (identity_eqb k0 k) eqn:Hk0; [| reflexivity].
    apply identity_eqb_spec in Hk0. subst.
    now rewrite identity_eqb_refl in Hk.
Qed.

Lemma id_set_fresh d (k : identity) (v : V) :
  ~ In k (map fst d) -> kd_set identity_eqb d k v = d ++ [(k, v)].
Proof.
  induction d as [| [k0 v0] d IH]; cbn; intros Hfresh; [reflexivity |].
  destruct (identity_eqb k k0) eqn:Hk.
  - apply identity_eqb_spec in Hk. subst. tauto.
  - rewrite IH; [reflexivity | tauto].
Qed.

Lemma id_set_keys d (k : identity) (v : V) :
  In k (map fst d) -> map fst (kd_set identity_eqb d k v) = map fst d.
Proof.
  induction d as [| [k0 v0] d IH]; cbn; [contradiction |].
  intros Hin. destruct (identity_eqb k k0) eqn:Hk; cbn; [reflexivity |].
  f_equal. apply IH. destruct Hin as [Heq | Hin]; [| assumption].
  subst. now rewrite identity_eqb_refl in Hk.
Qed.

Lemma id_set_nodup d (k : identity) (v : V) :
  NoDup (map fst d) -> NoDup (map fst (kd_set identity_eqb d k v)).
Proof.
  intros Hnd.
  destruct (kd_get identity_eqb d k) as [v0 |] eqn:Hget.
  - rewrite id_set_keys; [assumption |].
    apply id_get_in in Hget. apply in_map_iff. now exists (k, v0).
  - apply id_get_none in Hget. rewrite id_set_fresh by assumption.
    rewrite map_app. cbn. apply NoDup_app; [assumption | | ].
    + constructor; [intros [] | constructor].
    + intros x Hin [<- | []]. contradiction.
Qed.


(** The one entry of a key *)
Lemma id_filter_one d (k : identity) (v : V) :
  NoDup (map fst d) -> In (k, v) d ->
  filter (fun e => identity_eqb (fst e) k) d = [(k, v)].
Proof.
  induction d as [| [k0 v0] d IH]; cbn; [contradiction |].
  intros Hnd Hin. inversion Hnd as [| ? ? Hfresh Hnd']. subst.
  assert (Hnone : forall l : list (identity * V),
             ~ In k (map fst l) ->
             filter (fun e => identity_eqb (fst e) k) l = []).
  { induction l as [| [k1 v1] l IHl]; cbn; [reflexivity |].
    intros Hn. destruct (identity_eqb k1 k) eqn:Hk.
    - apply identity_eqb_spec in Hk. subst. tauto.
    - apply IHl. tauto. }
  destruct Hin as [Heq | Hin].
  - injection Heq as -> ->. rewrite identity_eqb_refl.
    now rewrite Hnone.
  - destruct (identity_eqb k0 k) eqn:Hk; [| now apply IH].
    apply identity_eqb_spec in Hk. subst. exfalso. apply Hfresh.
    apply in_map_iff. now exists (k, v).
Qed.
End RegistryFacts.

Lemma nodup_snoc {A} (l : list A) (a : A) :
  ~ In a l -> NoDup l -> NoDup (l ++ [a]).
Proof.
  intros Hfresh Hnd. apply NoDup_app; [assumption | | ].
  - constructor; [intros [] | constructor].
  - intros x Hin [<- | []]. contradiction.
Qed.

Lemma nodup_map_eq {A B} (g : A -> B) (l : list A) (a b : A) :
  NoDup (map g l) -> In a l -> In b l -> g a = g b -> a = b.
Proof.
  induction l as [| x l IH]; cbn; [contradiction |].
  intros Hnd Ha Hb Heq. inversion Hnd as [| ? ? Hfresh Hnd']. subst.
  destruct Ha as [-> | Ha], Hb as [-> | Hb].
  - reflexivity.
  - exfalso. apply Hfresh. rewrite Heq. now apply in_map.
  - exfalso. apply Hfresh. rewrite <- Heq. now apply in_map.
  - now apply IH.
Qed.

Section Registry.
Context {E : Externals}.

Lemma collect_inputs_spec (flat : list (string * pyval)) :
  forall acc raws,
    collect_inputs flat acc = Ok raws ->
    (NoDup (map fst acc) -> NoDup (map fst raws)) /\
    (forall h, is_some (kd_get identity_eqb acc h) = true ->
               is_some (kd_get identity_eqb raws h) = true) /\
    declared flat raws.
Proof.
  induction flat as [| [k v] flat IH]; intros acc raws H; cbn in H.
  - injection H as <-. repeat split; try tauto. intros k v [].
  - destruct (is_none v) eqn:Hv; cbn [negb] in H.
    + destruct (IH _ _ H) as [H1 [H2 H3]]. repeat split; try assumption.
      intros k' v' [Heq | Hin] Hn; [| now apply H3 with k'].
      injection Heq as <- <-. congruence.
    + destruct (get_hash v) as [h | e] eqn:Hh; cbn [rbind] in H;
        [| discriminate].
      destruct (IH _ _ H) as [H1 [H2 H3]]. repeat split.
      * intros Hnd. apply H1. now apply id_set_nodup.
      * intros h' Hs. apply H2. rewrite id_get_set.
        now destruct (identity_eqb h' h).
      * intros k' v' [Heq | Hin] Hn; [| now apply H3 with k'].
        injection Heq as <- <-.
        assert (Hs : is_some (kd_get identity_eqb raws h) = true).
        { apply H2. now rewrite id_get_set, identity_eqb_refl. }
        destruct (kd_get identity_eqb raws h) as [x |] eqn:Hx;
          [| discriminate].
        now exists h, x.
Qed.

Lemma declared_mono {V W} (flat : list (string * pyval))
  (d : list (identity * V)) (d' : list (identity * W)) :
  (forall h, is_some (kd_get identity_eqb d h) = true ->
             is_some (kd_get identity_eqb d' h) = true) ->
  declared flat d -> declared flat d'.
Proof.
  intros Hmono Hd k v Hin Hn.
  destruct (Hd k v Hin Hn) as [h [x [Hh Hx]]].
  specialize (Hmono h). rewrite Hx in Hmono. specialize (Hmono eq_refl).
  destruct (kd_get identity_eqb d' h) as [y |] eqn:Hy; [| discriminate].
  now exists h, y.
Qed.

Lemma raw_inputs_of_spec (params_at_zoom : list (Z * dict))
  (zooms : list Z) :
  forall acc raws,
    raw_inputs_of params_at_zoom zooms acc = Ok raws ->
    (NoDup (map fst acc) -> NoDup (map fst raws)) /\
    (forall h, is_some (kd_get identity_eqb acc h) = true ->
               is_some (kd_get identity_eqb raws h) = true) /\
    declared_at params_at_zoom zooms raws.
Proof.
  induction zooms as [| z zooms IH]; intros acc raws H; cbn in H.
  - injection H as <-. repeat split; try tauto. intros ? ? ? [].
  - destruct (kd_get Z.eqb params_at_zoom z) as [params |] eqn:Hz;
      [| discriminate].
    destruct (dict_get params "input") as [input_at_zoom |] eqn:Hin.
    2: { destruct (IH _ _ H) as [H1 [H2 H3]]. repeat split; try assumption.
         intros z' p' t' [<- | Hz'] Hp' Ht';
           [congruence | now apply (H3 z' p' t')]. }
    destruct (is_none input_at_zoom) eqn:Hnone.
    { destruct (IH _ _ H) as [H1 [H2 H3]]. repeat split; try assumption.
      intros z' p' t' [<- | Hz'] Hp' Ht'; [| now apply (H3 z' p' t')].
      rewrite Hz in Hp'. injection Hp' as <-. rewrite Hin in Ht'.
      injection Ht' as ->. discriminate. }
    destruct (flatten_input input_at_zoom) as [flat | e] eqn:Hflat;
      cbn [rbind] in H; [| discriminate].
    destruct (collect_inputs flat acc) as [raws1 | e] eqn:Hcol;
      cbn [rbind] in H; [| discriminate].
    destruct (collect_inputs_spec _ _ Hcol) as [C1 [C2 C3]].
    destruct (IH _ _ H) as [H1 [H2 H3]]. repeat split.
    + intros Hnd. auto.
    + intros h Hs. auto.
    + intros z' p' t' [<- | Hz'] Hp' Ht'; [| now apply (H3 z' p' t')].
      rewrite Hz in Hp'. injection Hp' as <-. rewrite Hin in Ht'.
      injection Ht' as ->. cbn in Hflat. injection Hflat as <-.
      apply declared_mono with (d := raws1); assumption.
Qed.

Lemma initialize_inputs_spec (self : MapcheteConfig)
  (delimiters : Delimiters) (raw_inputs : list (identity * pyval)) :
  forall acc reg,
    initialize_inputs self delimiters raw_inputs acc = Ok reg ->
    NoDup (map fst raw_inputs ++ map fst acc) ->
    ids acc = seq 0 (length acc) ->
    NoDup (map fst reg) /\ ids reg = seq 0 (length reg) /\
    (forall h, is_some (kd_get identity_eqb raw_inputs h) = true ->
               is_some (kd_get identity_eqb reg h) = true) /\
    (forall h, is_some (kd_get identity_eqb acc h) = true ->
               is_some (kd_get identity_eqb reg h) = true).
Proof.
  induction raw_inputs as [| [k v] raw_inputs IH]; intros acc reg H Hnd Hids;
    cbn in H.
  - injection H as <-. cbn in Hnd. repeat split; try assumption.
    + intros h Hs. discriminate.
    + tauto.
  - destruct (load_input self delimiters v) as [rd | e]; cbn [rbind] in H;
      [| discriminate].
    cbn [map fst app] in Hnd. inversion Hnd as [| ? ? Hfresh Hnd']. subst.
    assert (Hacc : ~ In k (map fst acc))
      by (intros Hin; apply Hfresh, in_or_app; now right).
    assert (Hraw : ~ In k (map fst raw_inputs))
      by (intros Hin; apply Hfresh, in_or_app; now left).
    rewrite id_set_fresh in H by assumption.
    destruct (IH _ _ H) as [H1 [H2 [H3 H4]]].
    + rewrite map_app. cbn [map fst]. rewrite app_assoc.
      now apply nodup_snoc.
    + unfold ids in *. rewrite map_app, length_app, Hids. cbn.
      rewrite Nat.add_1_r, seq_S. reflexivity.
    + repeat split; try assumption.
      * intros h Hs. cbn in Hs.
        destruct (identity_eqb h k) eqn:Hk; [| now apply H3].
        apply identity_eqb_spec in Hk. subst. apply H4.
        assert (Hget : kd_get identity_eqb
                         (acc ++ [(k, {| obj_id := length acc;
                                         obj_reader := rd |})]) k
                       = Some {| obj_id := length acc; obj_reader := rd |}).
        { rewrite <- id_set_fresh by assumption.
          now rewrite id_get_set, identity_eqb_refl. }
        now rewrite Hget.
      * intros h Hs. apply H4.
        rewrite <- id_set_fresh by assumption. rewrite id_get_set.
        now destruct (identity_eqb h k).
Qed.

(** What the registry of a built object is: its keys are the identities
    of the declarations of the initialized zoom levels, no key and no
    object occurs twice. *)
Lemma registry_complete (c : MapcheteConfig) (zooms : list Z)
  (reg : registry) :
  registry_built c zooms reg ->
  NoDup (map fst reg) /\ NoDup (ids reg) /\
  declared_at (_params_at_zoom c) zooms reg.
Proof.
  intros [raws [delimiters [self [Hraws [Hinit _]]]]].
  destruct (raw_inputs_of_spec _ _ _ Hraws) as [R1 [_ R3]].
  destruct (initialize_inputs_spec _ _ _ _ Hinit) as [I1 [I2 [I3 _]]].
  - rewrite app_nil_r. apply R1. constructor.
  - reflexivity.
  - repeat split.
    + assumption.
    + rewrite I2. apply seq_NoDup.
    + intros z p t Hz Hp Ht. apply declared_mono with (d := raws);
        [assumption | now apply (R3 z p t)].
Qed.
End Registry.

Section Snapshot.
Context {E : Externals}.

Lemma input_stored (s : MapcheteConfig) (reg : registry) :
  input_slot s = Some reg -> input s = (Ok reg, s).
Proof. intros H. now apply cached_stored. Qed.

Lemma init_zoom_levels_stored (s : MapcheteConfig) (zooms : list Z) :
  init_zoom_levels_slot s = Some zooms ->
  init_zoom_levels s = (Ok zooms, s).
Proof. intros H. now apply cached_stored. Qed.

Lemma dereference_run (reg : registry) (s : MapcheteConfig)
  (flat : list (string * pyval)) :
  input_slot s = Some reg ->
  forall flat_inputs,
    declared flat reg ->
    dereference flat flat_inputs s
    = (Ok (dict_update flat_inputs (map_values (handle_of reg) flat)), s).
Proof.
  intros Hreg. induction flat as [| [k v] flat IH]; intros acc Hd.
  - reflexivity.
  - assert (Hd' : declared flat reg)
      by (intros k' v' Hin; apply (Hd k' v'); now right).
    change (dict_update acc (map_values (handle_of reg) ((k, v) :: flat)))
      with (dict_update (dict_set acc k (handle_of reg v))
              (map_values (handle_of reg) flat)).
    cbn [dereference]. destruct (is_none v) eqn:Hv.
    + assert (Hh : handle_of reg v = PNone)
        by (unfold handle_of; now rewrite Hv).
      rewrite Hh. now apply IH.
    + destruct (Hd k v (or_introl eq_refl) Hv) as [h [obj [Hh Hobj]]].
      assert (Hhandle : handle_of reg v = PObj (obj_id obj))
        by (unfold handle_of; now rewrite Hv, Hh, Hobj).
      unfold bind, lift. rewrite (input_stored _ Hreg).
      rewrite Hh, Hobj, Hhandle. now apply IH.
Qed.

Lemma params_at_zoom_run (c : MapcheteConfig) (zooms : list Z)
  (reg : registry) (zoom : Z) (params tree : dict) :
  init_zoom_levels_slot c = Some zooms -> input_slot c = Some reg ->
  registry_built c zooms reg ->
  In zoom zooms ->
  kd_get Z.eqb (_params_at_zoom c) zoom = Some params ->
  dict_get params "input" = Some (PDict tree) ->
  codec_tree 2 tree = true ->
  params_at_zoom zoom c
  = (Ok (dict_set (dict_set params "input" (PDict [])) "input"
           (PDict (map_tree (handle_of reg) tree))), c).
Proof.
  intros Hz Hreg Hbuilt Hin Hp Ht Hok.
  destruct (registry_complete Hbuilt) as [_ [_ Hdecl]].
  unfold params_at_zoom, bind. rewrite (init_zoom_levels_stored _ Hz).
  apply zoom_in_spec in Hin. rewrite Hin. cbn [negb].
  unfold attr. rewrite Hp, Ht. unfold lift. cbn [flatten_input].
  rewrite (dereference_run _ Hreg); [| now apply (Hdecl zoom params tree);
                                        [apply zoom_in_spec | |]].
  change (dict_update [] ?l) with (dict_of_items l).
  now rewrite unflatten_dict_map_flatten.
Qed.

End Snapshot.

(* ===================================================================== *)
(** ** The statements on a configuration that runs *)
(* ===================================================================== *)

Lemma flat_document_built :
  @__init__ Demo.world Demo.flat_document PNone PNone "continue"
  = Ok (Demo.built_of Demo.flat_document).
Proof. vm_compute. reflexivity. Qed.

Lemma flat_document_reachable :
  @reachable Demo.world (Demo.built_of Demo.flat_document).
Proof. exact (reach_init _ _ _ _ flat_document_built). Qed.

Lemma key_order_document_reachable :
  @reachable Demo.world (Demo.built_of Demo.key_order_document).
Proof.
  apply (@reach_init Demo.world Demo.key_order_document PNone PNone
           "continue").
  vm_compute. reflexivity.
Qed.



(** The union of the areas of the zoom levels 1, 2 and 3. *)
Lemma full_area_is_buffered_union_witness :
  fst (@area_at_zoom Demo.world PNone (Demo.built_of Demo.flat_document)) =
  (areas <- rmap (fun z => fst (@area_at_zoom Demo.world (PInt z)
                                  (Demo.built_of Demo.flat_document)))
              [1; 2; 3] ;;
   Ok (@buffer0 Demo.world (@cascaded_union Demo.world areas))).
Proof.
  refine (proj1 (@full_area_is_buffered_union Demo.world
                   (Demo.built_of Demo.flat_document) [1; 2; 3] _ _)).
  - exact flat_document_reachable.
  - vm_compute. reflexivity.
Defined.

(** The claim as stated fails where [buffer(0)] changes the union.  In the
    world where it drops the parts without area, the configuration whose
    bounds are the line from (0, 0) to (0, 10) has this line for its area
    at each of its zoom levels 1, 2 and 3; the union of the three areas is
    not empty, and [area_at_zoom(None)] is empty. *)
Lemma full_area_is_not_the_union :
  @reachable Cleaning.world (Cleaning.built_of Cleaning.line_document) /\
  fst (@init_zoom_levels Cleaning.world
         (Cleaning.built_of Cleaning.line_document)) = Ok [1; 2; 3] /\
  rmap (fun z => fst (@area_at_zoom Cleaning.world (PInt z)
                        (Cleaning.built_of Cleaning.line_document)))
    [1; 2; 3]
  = Ok [[(0, 0, 0, 10)]; [(0, 0, 0, 10)]; [(0, 0, 0, 10)]] /\
  @geom_is_empty Cleaning.world
    (@cascaded_union Cleaning.world
       [[(0, 0, 0, 10)]; [(0, 0, 0, 10)]; [(0, 0, 0, 10)]]) = false /\
  fst (@area_at_zoom Cleaning.world PNone
         (Cleaning.built_of Cleaning.line_document)) = Ok [] /\
  fst (@area_at_zoom Cleaning.world PNone
         (Cleaning.built_of Cleaning.line_document))
  <> Ok (@cascaded_union Cleaning.world
           [[(0, 0, 0, 10)]; [(0, 0, 0, 10)]; [(0, 0, 0, 10)]]).
Proof.
  assert (Hfull : fst (@area_at_zoom Cleaning.world PNone
                         (Cleaning.built_of Cleaning.line_document))
                  = Ok [])
    by (vm_compute; reflexivity).
  split.
  - apply (@reach_init Cleaning.world Cleaning.line_document PNone PNone
             "continue").
    vm_compute. reflexivity.
  - split; [vm_compute; reflexivity |].
    split; [vm_compute; reflexivity |].
    split; [reflexivity |].
    split; [exact Hfull |].
    rewrite Hfull. discriminate.
Qed.

(** Reading the snapshot of zoom 3 leaves the raw document as it is. *)
Lemma raw_document_never_mutated_witness :
  _raw (@after Demo.world (call_params_at_zoom 3)
          (Demo.built_of Demo.flat_document))
  = _raw (Demo.built_of Demo.flat_document).
Proof.
  apply (@raw_document_never_mutated Demo.world).
  exact flat_document_reachable.
Defined.

(** Zoom levels from 5 down to 1: no zoom level, and an object. *)
Lemma empty_zoom_range_is_built_witness :
  fst (@zoom_levels Demo.world (Demo.prepared Demo.empty_range_document))
  = Ok [] /\
  fst (@init_zoom_levels Demo.world
         (Demo.prepared Demo.empty_range_document)) = Ok [] /\
  is_ok (@__init__ Demo.world Demo.empty_range_document PNone PNone
           "continue") = true.
Proof.
  destruct (@empty_zoom_range_is_built Demo.world Demo.empty_range_document
              PNone "continue" (Demo.prepared Demo.empty_range_document)
              [("min", PInt 5); ("max", PInt 1)] 5 1)
    as [H1 [H2 _]].
  - vm_compute. reflexivity.
  - reflexivity.
  - reflexivity.
  - reflexivity.
  - reflexivity.
  - split; [exact H1 |]. split; [exact H2 |]. vm_compute. reflexivity.
Defined.

(* ===================================================================== *)
(** ** Integer literals and [strip] *)
(* ===================================================================== *)

Lemma digits_string_of_uint (u : Decimal.uint) :
  forall acc, PyStr.digits acc true (NilEmpty.string_of_uint u)
              = Some (uint_value acc u).
Proof.
  induction u; intros acc; cbn [NilEmpty.string_of_uint PyStr.digits uint_value];
    try reflexivity.
  all: match goal with
       | |- context [PyStr.digit_of ?c] =>
           let d := eval vm_compute in (PyStr.digit_of c) in
           change (PyStr.digit_of c) with d
       end; rewrite <- IHu; f_equal; lia.
Qed.

Lemma uint_value_pos (u : Decimal.uint) :
  forall p, uint_value (Z.pos p) u = Z.pos (Pos.of_uint_acc u p).
Proof.
  induction u; intros p; cbn [uint_value Pos.of_uint_acc]; try reflexivity.
  all: rewrite <- IHu; f_equal; lia.
Qed.

Lemma uint_value_0 (u : Decimal.uint) :
  uint_value 0 u = Z.of_N (Pos.of_uint u).
Proof.
  induction u; cbn [uint_value Pos.of_uint]; try reflexivity.
  all: try exact IHu.
  all: apply (uint_value_pos u).
Qed.

Lemma unsigned_string_of_uint (u : Decimal.uint) :
  u <> Decimal.Nil ->
  PyStr.unsigned (NilZero.string_of_uint u) = Some (uint_value 0 u).
Proof.
  intros Hnil. destruct u; [congruence | ..].
  all: unfold PyStr.unsigned;
       cbn [NilZero.string_of_uint NilEmpty.string_of_uint PyStr.digits
            uint_value];
       match goal with
       | |- context [PyStr.digit_of ?c] =>
           let d := eval vm_compute in (PyStr.digit_of c) in
           change (PyStr.digit_of c) with d
       end; cbv iota;
       match goal with
       | |- _ = Some (uint_value ?a ?v) =>
           rewrite <- (digits_string_of_uint v a); f_equal; lia
       end.
Qed.

Lemma unsigned_to_uint (p : positive) :
  PyStr.unsigned (NilZero.string_of_uint (Pos.to_uint p)) = Some (Z.pos p).
Proof.
  rewrite unsigned_string_of_uint
    by apply DecimalPos.Unsigned.to_uint_nonnil.
  now rewrite uint_value_0, DecimalPos.Unsigned.of_to.
Qed.

Lemma rev_rev (s : string) : PyStr.rev (PyStr.rev s) = s.
Proof.
  unfold PyStr.rev.
  now rewrite list_ascii_of_string_of_list_ascii, rev_involutive,
    string_of_list_ascii_of_string.
Qed.

Lemma plain_rev (chars s : string) :
  plain chars (PyStr.rev s) = plain chars s.
Proof.
  unfold plain, PyStr.rev. rewrite list_ascii_of_string_of_list_ascii.
  apply eq_true_iff_eq. rewrite !forallb_forall.
  split; intros H c Hc; apply H.
  - now apply in_rev in Hc.
  - now apply in_rev.
Qed.

Lemma lstrip_plain (chars s : string) :
  plain chars s = true -> PyStr.lstrip chars s = s.
Proof.
  destruct s as [| c s]; [reflexivity |]. unfold plain. cbn.
  now destruct (PyStr.mem c chars).
Qed.

Lemma strip_plain (chars s : string) :
  plain chars s = true -> PyStr.strip chars s = s.
Proof.
  intros H. unfold PyStr.strip, PyStr.rstrip.
  rewrite (lstrip_plain _ _ H), lstrip_plain by now rewrite plain_rev.
  apply rev_rev.
Qed.

Lemma lstrip_made_of (chars p s : string) :
  made_of chars p = true ->
  PyStr.lstrip chars (p ++ s)%string = PyStr.lstrip chars s.
Proof.
  induction p as [| c p IH]; [reflexivity |]. unfold made_of. cbn.
  destruct (PyStr.mem c chars); [| discriminate]. exact IH.
Qed.

(** [(p + s).strip(chars)] is [s] when [p] is made of [chars] and [s]
    holds none of them. *)
Lemma strip_prefix (chars p s : string) :
  made_of chars p = true -> plain chars s = true ->
  PyStr.strip chars (p ++ s)%string = s.
Proof.
  intros Hp Hs. unfold PyStr.strip. rewrite lstrip_made_of by assumption.
  now apply strip_plain.
Qed.

Lemma list_ascii_app (a b : string) :
  list_ascii_of_string (a ++ b)%string
  = list_ascii_of_string a ++ list_ascii_of_string b.
Proof. induction a as [| c a IH]; cbn; [reflexivity | now rewrite IH]. Qed.

Lemma plain_app (chars a b : string) :
  plain chars (a ++ b)%string = plain chars a && plain chars b.
Proof. unfold plain. now rewrite list_ascii_app, forallb_app. Qed.

Lemma plain_of_made (chars alphabet s : string) :
  plain chars alphabet = true -> made_of alphabet s = true ->
  plain chars s = true.
Proof.
  unfold plain, made_of, PyStr.mem.
  rewrite !forallb_forall. intros Ha Hs c Hc.
  specialize (Hs c Hc). apply existsb_exists in Hs.
  destruct Hs as [a [Hin Heq]]. apply Ascii.eqb_eq in Heq. subst a.
  now apply Ha.
Qed.

Lemma made_of_string_of_uint (u : Decimal.uint) :
  made_of "0123456789" (NilEmpty.string_of_uint u) = true.
Proof. induction u; cbn; [reflexivity | exact IHu ..]. Qed.

Lemma made_of_decimal (n : Z) : made_of "-0123456789" (decimal n) = true.
Proof.
  assert (H : forall u, made_of "-0123456789" (NilZero.string_of_uint u) = true).
  { intros u.
    assert (He : made_of "-0123456789" (NilEmpty.string_of_uint u) = true)
      by (induction u; cbn; [reflexivity | exact IHu ..]).
    destruct u; [reflexivity | exact He ..]. }
  unfold decimal. destruct n as [| p | p]; cbn [Z.to_int NilZero.string_of_int].
  - reflexivity.
  - apply H.
  - unfold made_of. cbn. apply H.
Qed.

(** [int(str(n)) == n] *)
Lemma int_decimal (n : Z) : PyStr.int (decimal n) = Some n.
Proof.
  unfold PyStr.int.
  rewrite strip_plain
    by (apply (plain_of_made _ "-0123456789");
        [reflexivity | apply made_of_decimal]).
  unfold decimal. destruct n as [| p | p]; cbn [Z.to_int NilZero.string_of_int].
  - reflexivity.
  - rewrite <- unsigned_to_uint.
    pose proof (DecimalPos.Unsigned.to_uint_nonnil p) as Hnil.
    destruct (Pos.to_uint p); [congruence | reflexivity ..].
  - now rewrite unsigned_to_uint.
Qed.

(* ===================================================================== *)
(** ** The text of a value tells the value *)
(* ===================================================================== *)

Lemma append_assoc (a b c : string) :
  ((a ++ b) ++ c)%string = (a ++ b ++ c)%string.
Proof. induction a as [| x a IH]; cbn; [reflexivity | now rewrite IH]. Qed.

Lemma append_inv_head (a b c : string) :
  (a ++ b)%string = (a ++ c)%string -> b = c.
Proof.
  induction a as [| x a IH]; cbn; [trivial |].
  intros H. injection H as H. now apply IH.
Qed.

Lemma unescape_escape_char (c : ascii) (rest : string) :
  unescape_char (Json.escape_char c ++ rest) = Some (c, rest).
Proof.
  destruct c as [[] [] [] [] [] [] [] []]; reflexivity.
Qed.

Lemma escape_char_unquoted (c : ascii) (rest : string) :
  starts_unquoted (Json.escape_char c ++ rest) = true.
Proof.
  destruct c as [[] [] [] [] [] [] [] []]; reflexivity.
Qed.

(** An escaped string ends where its closing quote stands. *)
Lemma escape_prefix (s : string) :
  forall t r r',
    (Json.escape s ++ String quote r)%string
    = (Json.escape t ++ String quote r')%string ->
    s = t /\ r = r'.
Proof.
  induction s as [| c s IH]; intros [| c' t] r r' H; cbn [Json.escape] in H.
  - cbn in H. injection H as ->. now split.
  - exfalso. rewrite append_assoc in H.
    pose proof (escape_char_unquoted c'
                  (Json.escape t ++ String quote r')) as Hq.
    rewrite <- H in Hq. discriminate.
  - exfalso. rewrite append_assoc in H.
    pose proof (escape_char_unquoted c
                  (Json.escape s ++ String quote r)) as Hq.
    rewrite H in Hq. discriminate.
  - rewrite !append_assoc in H.
    pose proof (f_equal unescape_char H) as Hu.
    rewrite !unescape_escape_char in Hu. injection Hu as -> Hrest.
    destruct (IH _ _ _ Hrest) as [-> ->]. now split.
Qed.

Lemma quoted_prefix (s t r r' : string) :
  (Json.quoted s ++ r)%string = (Json.quoted t ++ r')%string ->
  s = t /\ r = r'.
Proof.
  unfold Json.quoted. cbn [append]. rewrite !append_assoc. cbn [append].
  intros H. injection H as H. now apply escape_prefix.
Qed.

(** A text made of the characters of numbers ends where another character
    follows. *)
Lemma number_span (u : string) :
  forall u' r r',
    made_of "-0123456789" u = true -> made_of "-0123456789" u' = true ->
    stops r = true -> stops r' = true ->
    (u ++ r)%string = (u' ++ r')%string -> u = u' /\ r = r'.
Proof.
  unfold made_of.
  induction u as [| c u IH]; intros [| c' u'] r r' Hu Hu' Hr Hr' H;
    cbn [append] in H.
  - now split.
  - exfalso. subst r. cbn [list_ascii_of_string forallb] in Hu'.
    apply andb_true_iff in Hu'. destruct Hu' as [Hc _].
    cbn [stops] in Hr. rewrite Hc in Hr. discriminate.
  - exfalso. subst r'. cbn [list_ascii_of_string forallb] in Hu.
    apply andb_true_iff in Hu. destruct Hu as [Hc _].
    cbn [stops] in Hr'. rewrite Hc in Hr'. discriminate.
  - injection H as -> H.
    cbn [list_ascii_of_string forallb] in Hu, Hu'.
    apply andb_true_iff in Hu, Hu'.
    destruct (IH u' r r') as [-> ->]; tauto.
Qed.

Lemma number_inj (z z' : Z) : Json.number z = Json.number z' -> z = z'.
Proof.
  intros H. pose proof (int_decimal z) as Hz.
  pose proof (int_decimal z') as Hz'. unfold decimal in Hz, Hz'.
  unfold Json.number in H. rewrite H in Hz. congruence.
Qed.

Lemma number_prefix (z z' : Z) (r r' : string) :
  stops r = true -> stops r' = true ->
  (Json.number z ++ r)%string = (Json.number z' ++ r')%string ->
  z = z' /\ r = r'.
Proof.
  intros Hr Hr' H.
  destruct (@number_span (Json.number z) (Json.number z') r r') as [Hn ->];
    try assumption; try apply made_of_decimal.
  split; [now apply number_inj | reflexivity].
Qed.

Lemma kind_of_number (z : Z) : kind_of_text (Json.number z) = 1%nat.
Proof.
  pose proof (made_of_decimal z) as Hm. pose proof (int_decimal z) as Hi.
  unfold decimal in Hm, Hi. unfold Json.number.
  destruct (NilZero.string_of_int (Z.to_int z)) as [| c u];
    [discriminate |].
  unfold made_of in Hm. cbn [list_ascii_of_string forallb] in Hm.
  apply andb_true_iff in Hm. destruct Hm as [Hc _].
  cbn [kind_of_text]. rewrite Hc.
  destruct (Ascii.eqb_spec c "n") as [-> | _]; [discriminate | reflexivity].
Qed.

(** [json.dumps] of a sequence and of a mapping, the loops named. *)
Lemma dumps_list (l : list pyval) :
  Json.dumps (PList l) =
  (parts <- rmap Json.dumps l ;;
   Ok ("[" ++ PyStr.join ", " parts ++ "]")%string).
Proof.
  cbn [Json.dumps]. f_equal.
  induction l as [| v l IH]; [reflexivity |].
  cbn [rmap]. now rewrite IH.
Qed.

Lemma dumps_dict (d : dict) :
  Json.dumps (PDict d) =
  (parts <- rmap dumps_pair d ;;
   Ok ("{" ++ PyStr.join ", " parts ++ "}")%string).
Proof.
  cbn [Json.dumps]. f_equal.
  induction d as [| [k v] d IH]; [reflexivity |].
  cbn [rmap]. rewrite IH. unfold dumps_pair. cbn [fst snd].
  now destruct (Json.dumps v).
Qed.

(** The first character of a text tells the kind of the value. *)
Lemma kind_of_dumps (x : pyval) (s : string) :
  Json.dumps x = Ok s -> kind_of_text s = kind x.
Proof.
  destruct x as [| z | t | l | d |]; intros H.
  - injection H as <-. reflexivity.
  - injection H as <-. apply kind_of_number.
  - injection H as <-. reflexivity.
  - rewrite dumps_list in H.
    destruct (rmap Json.dumps l); [| discriminate].
    injection H as <-. reflexivity.
  - rewrite dumps_dict in H.
    destruct (rmap dumps_pair d); [| discriminate].
    injection H as <-. reflexivity.
  - discriminate.
Qed.

Lemma join_sequel (close : ascii) (p : string) (parts : list string)
  (r : string) :
  (PyStr.join ", " (p :: parts) ++ String close r)%string
  = (p ++ sequel close parts r)%string.
Proof.
  destruct parts as [| q parts]; [reflexivity |].
  rewrite join_cons_cons, append_assoc. reflexivity.
Qed.

Lemma rmap_nil_inv {A B} (f : A -> result B) (l : list A) :
  rmap f l = Ok [] -> l = [].
Proof.
  destruct l as [| x l]; [reflexivity |]. cbn [rmap].
  destruct (f x); [| discriminate]. cbn [rbind].
  destruct (rmap f l); discriminate.
Qed.

Section Sequences.
Variable A : Type.
Variable text : A -> result string.
Variable close : ascii.

(** The text of [a], followed by something no number goes on with, tells
    [a] and what follows. *)
Definition told (a : A) : Prop :=
  forall (b : A) (s t r r' : string),
    text a = Ok s -> text b = Ok t ->
    stops r = true -> stops r' = true ->
    (s ++ r)%string = (t ++ r')%string -> a = b /\ r = r'.

Hypothesis close_stops : stops (String close EmptyString) = true.
Hypothesis close_not_comma : close <> ","%char.
Hypothesis text_not_close :
  forall (a : A) (s r : string),
    text a = Ok s ->
    exists c rest, (s ++ r)%string = String c rest /\ c <> close.

Lemma sequel_stops (parts : list string) (r : string) :
  stops (sequel close parts r) = true.
Proof.
  destruct parts; [exact close_stops | reflexivity].
Qed.

Lemma sequence_told (l : list A) :
  Forall told l ->
  forall (m : list A) (ps qs : list string) (r r' : string),
    rmap text l = Ok ps -> rmap text m = Ok qs ->
    (PyStr.join ", " ps ++ String close r)%string
    = (PyStr.join ", " qs ++ String close r')%string ->
    l = m /\ r = r'.
Proof.
  induction 1 as [| a l Ha _ IH]; intros [| b m] ps qs r r' Hl Hm H.
  - cbn in Hl, Hm. injection Hl as <-. injection Hm as <-.
    cbn in H. injection H as ->. now split.
  - exfalso. cbn [rmap] in Hl, Hm. injection Hl as <-.
    destruct (text b) as [t |] eqn:Hb; [| discriminate]. cbn [rbind] in Hm.
    destruct (rmap text m) as [qs' |]; [| discriminate].
    injection Hm as <-. rewrite join_sequel in H.
    destruct (text_not_close (sequel close qs' r') Hb)
      as [c [rest [Heq Hc]]].
    rewrite Heq in H. cbn in H. congruence.
  - exfalso. cbn [rmap] in Hl, Hm. injection Hm as <-.
    destruct (text a) as [s |] eqn:Hsa; [| discriminate]. cbn [rbind] in Hl.
    destruct (rmap text l) as [ps' |]; [| discriminate].
    injection Hl as <-. rewrite join_sequel in H.
    destruct (text_not_close (sequel close ps' r) Hsa)
      as [c [rest [Heq Hc]]].
    rewrite Heq in H. cbn in H. congruence.
  - cbn [rmap] in Hl, Hm.
    destruct (text a) as [s |] eqn:Hsa; [| discriminate]. cbn [rbind] in Hl.
    destruct (rmap text l) as [ps' |] eqn:Hps; [| discriminate].
    injection Hl as <-.
    destruct (text b) as [t |] eqn:Hb; [| discriminate]. cbn [rbind] in Hm.
    destruct (rmap text m) as [qs' |] eqn:Hqs; [| discriminate].
    injection Hm as <-. rewrite !join_sequel in H.
    destruct (Ha b s t _ _ Hsa Hb (sequel_stops ps' r) (sequel_stops qs' r')
                H) as [<- Hrest].
    destruct ps' as [| p ps']; destruct qs' as [| q qs'];
      cbn [sequel] in Hrest.
    + injection Hrest as ->.
      apply rmap_nil_inv in Hps, Hqs. subst l m. now split.
    + exfalso. cbn in Hrest. congruence.
    + exfalso. cbn in Hrest. congruence.
    + cbn [append] in Hrest. injection Hrest as Hrest.
      destruct (IH m (p :: ps') (q :: qs') r r' eq_refl Hqs Hrest)
        as [<- ->].
      now split.
Qed.
End Sequences.

Lemma kind_of_text_app (s r : string) :
  s <> "" -> kind_of_text (s ++ r) = kind_of_text s.
Proof. destruct s; [congruence | reflexivity]. Qed.

Lemma dumps_nonempty (x : pyval) (s : string) :
  Json.dumps x = Ok s -> s <> "".
Proof.
  intros H ->. apply kind_of_dumps in H. now destruct x.
Qed.

Lemma dumps_starts (close : ascii) (x : pyval) (s r : string) :
  kind_of_text (String close "") = 6%nat ->
  Json.dumps x = Ok s ->
  exists c rest, (s ++ r)%string = String c rest /\ c <> close.
Proof.
  intros Hclose H. pose proof (@kind_of_dumps _ _ H) as Hk.
  destruct s as [| c s]; [now destruct x |].
  exists c, (s ++ r)%string. split; [reflexivity |].
  intros ->. cbn [kind_of_text] in Hk, Hclose. rewrite Hclose in Hk.
  now destruct x.
Qed.

Lemma pair_starts (kv : string * pyval) (s r : string) :
  dumps_pair kv = Ok s ->
  exists c rest, (s ++ r)%string = String c rest /\ c <> "}"%char.
Proof.
  unfold dumps_pair. destruct (Json.dumps (snd kv)); [| discriminate].
  cbn [rbind]. intros H. injection H as <-. eexists. eexists.
  split; [reflexivity | discriminate].
Qed.

Lemma pair_told (kv : string * pyval) :
  told Json.dumps (snd kv) -> told dumps_pair kv.
Proof.
  destruct kv as [k v]. cbn [snd]. intros Hv [k' v'] s t r r' Hs Ht Hr Hr' H.
  unfold dumps_pair in Hs, Ht. cbn [fst snd] in Hs, Ht.
  destruct (Json.dumps v) as [sv |] eqn:Hsv; [| discriminate].
  destruct (Json.dumps v') as [sv' |] eqn:Hsv'; [| discriminate].
  cbn [rbind] in Hs, Ht.
  assert (Es : s = (Json.quoted k ++ ": " ++ sv)%string) by congruence.
  assert (Et : t = (Json.quoted k' ++ ": " ++ sv')%string) by congruence.
  subst s t. clear Hs Ht.
  rewrite (append_assoc (Json.quoted k)), (append_assoc (Json.quoted k'))
    in H.
  apply quoted_prefix in H.
  destruct H as [-> H]. cbn [append] in H. injection H as H.
  destruct (Hv v' sv sv' r r' Hsv Hsv' Hr Hr' H) as [-> ->].
  now split.
Qed.

(** The text [json.dumps] writes for a value, followed by something no
    number goes on with, tells the value and what follows. *)
Lemma dumps_told (x : pyval) : told Json.dumps x.
Proof.
  induction x as [| z | u | l IH | d IH | i] using pyval_induction;
    intros y s t r r' Hs Ht Hr Hr' H.
  all: assert (Hkind : kind y = kind_of_text (s ++ r))
    by (rewrite H, kind_of_text_app by (now apply (dumps_nonempty y));
        symmetry; now apply kind_of_dumps).
  all: rewrite kind_of_text_app in Hkind by (now apply dumps_nonempty in Hs).
  all: rewrite (@kind_of_dumps _ _ Hs) in Hkind.
  all: destruct y as [| z' | u' | l' | d' | i']; try discriminate Hkind;
    clear Hkind.
  - injection Hs as <-. injection Ht as <-.
    split; [reflexivity |]. now apply append_inv_head in H.
  - injection Hs as <-. injection Ht as <-.
    destruct (@number_prefix _ _ _ _ Hr Hr' H) as [-> ->]. now split.
  - injection Hs as <-. injection Ht as <-.
    destruct (@quoted_prefix _ _ _ _ H) as [-> ->]. now split.
  - rewrite dumps_list in Hs, Ht.
    destruct (rmap Json.dumps l) as [ps |] eqn:Hps; [| discriminate].
    destruct (rmap Json.dumps l') as [qs |] eqn:Hqs; [| discriminate].
    cbn [rbind] in Hs, Ht. injection Hs as <-. injection Ht as <-.
    cbn [append] in H. injection H as H. rewrite !append_assoc in H.
    destruct (@sequence_told _ Json.dumps "]" eq_refl
                ltac:(discriminate)
                (fun a s r => @dumps_starts "]" a s r eq_refl)
                l IH l' ps qs r r' Hps Hqs H) as [-> ->].
    now split.
  - rewrite dumps_dict in Hs, Ht.
    destruct (rmap dumps_pair d) as [ps |] eqn:Hps; [| discriminate].
    destruct (rmap dumps_pair d') as [qs |] eqn:Hqs; [| discriminate].
    cbn [rbind] in Hs, Ht. injection Hs as <-. injection Ht as <-.
    cbn [append] in H. injection H as H. rewrite !append_assoc in H.
    assert (Hd : Forall (told dumps_pair) d).
    { apply Forall_forall. intros kv Hin. apply pair_told.
      rewrite Forall_forall in IH. now apply IH. }
    destruct (@sequence_told _ dumps_pair "}" eq_refl
                ltac:(discriminate) pair_starts
                d Hd d' ps qs r r' Hps Hqs H) as [-> ->].
    now split.
  - discriminate.
Qed.

(** [json.dumps] writes different texts for different values. *)
Lemma dumps_inj (x y : pyval) (s : string) :
  Json.dumps x = Ok s -> Json.dumps y = Ok s -> x = y.
Proof.
  intros Hx Hy.
  now destruct (@dumps_told x y s s "" "" Hx Hy eq_refl eq_refl eq_refl).
Qed.




(* ===================================================================== *)
(** ** Further properties of the zoom filter *)
(* ===================================================================== *)

(** A zoom statement whose operand is an integer literal keeps the
    element where the relation holds. *)
Lemma zoom_statement_value (name rel : string) (element : pyval)
  (zoom level : Z) :
  PyStr.startswith "zoom" name = true ->
  zoom_relation (PyStr.strip_ws (PyStr.strip "zoom" name)) = Some rel ->
  PyStr.int
    (PyStr.strip rel (PyStr.strip_ws (PyStr.strip "zoom" name)))
  = Some level ->
  zoom_statement name element zoom
  = Ok (if zoom_holds rel zoom level then element else PNone).
Proof.
  intros Hzoom Hrel Hint.
  unfold zoom_statement. rewrite Hzoom.
  unfold zoom_relation in Hrel.
  set (cleaned := PyStr.strip_ws (PyStr.strip "zoom" name)) in *.
  destruct (PyStr.startswith "=" cleaned);
    [| destruct (PyStr.startswith "<=" cleaned);
       [| destruct (PyStr.startswith ">=" cleaned);
          [| destruct (PyStr.startswith "<" cleaned);
             [| destruct (PyStr.startswith ">" cleaned);
                [| discriminate]]]]].
  all: injection Hrel as <-; unfold _strip_zoom; rewrite Hint; reflexivity.
Qed.

Lemma plain_not_prefix (c : ascii) (s : string) :
  plain (String c EmptyString) s = true ->
  PyStr.startswith (String c EmptyString) s = false.
Proof.
  destruct s as [| c' s]; [reflexivity |].
  unfold plain, PyStr.startswith, PyStr.mem. cbn.
  rewrite orb_false_r. destruct (Ascii.eqb_spec c' c) as [-> | Hne];
    [discriminate |].
  intros _. destruct (ascii_dec c c'); [congruence | reflexivity].
Qed.

Lemma prefix_empty (s : string) : String.prefix EmptyString s = true.
Proof. now destruct s. Qed.

Lemma zoom_relation_decimal (rel : string) (n : Z) :
  In rel zoom_relations ->
  zoom_relation (rel ++ decimal n) = Some rel.
Proof.
  assert (Heq : PyStr.startswith "=" (decimal n) = false).
  { apply plain_not_prefix. apply (plain_of_made _ "-0123456789");
      [reflexivity | apply made_of_decimal]. }
  unfold PyStr.startswith in Heq.
  intros [<- | [<- | [<- | [<- | [<- | []]]]]]; unfold zoom_relation;
    cbn; rewrite ?prefix_empty, ?Heq; reflexivity.
Qed.

(** X1. Under a key "zoom", a relation ([=], [<=], [>=], [<] or [>]) and
    the decimal literal of an integer, an element that is not a mapping is
    kept at the zoom levels that stand in the relation to the integer and
    is [None] at every other zoom level; nothing is raised. *)
Theorem zoom_statement_filters (rel : string) (level : Z) (element : pyval)
  (zoom : Z) :
  In rel zoom_relations ->
  is_dict element = false ->
  _element_at_zoom ("zoom" ++ rel ++ decimal level) element zoom
  = Ok (if zoom_holds rel zoom level then element else PNone).
Proof.
  intros Hrel Hel.
  assert (Hd : forall chars, plain chars "-0123456789" = true ->
                             plain chars (decimal level) = true)
    by (intros chars H; apply (plain_of_made _ _ _ H), made_of_decimal).
  assert (Hr : forall chars, plain chars "<=>-0123456789" = true ->
                             plain chars (rel ++ decimal level) = true).
  { intros chars H. apply (plain_of_made _ _ _ H).
    unfold made_of. rewrite list_ascii_app, forallb_app.
    apply andb_true_iff. split.
    - destruct Hrel as [<- | [<- | [<- | [<- | [<- | []]]]]]; reflexivity.
    - apply forallb_forall. intros c Hc.
      pose proof (made_of_decimal level) as Hm. unfold made_of in Hm.
      rewrite forallb_forall in Hm. specialize (Hm c Hc).
      unfold PyStr.mem in *. cbn in Hm |- *. rewrite Hm.
      now rewrite !orb_true_r. }
  assert (Hclean : PyStr.strip_ws
                     (PyStr.strip "zoom" ("zoom" ++ rel ++ decimal level))
                   = (rel ++ decimal level)%string).
  { rewrite (strip_prefix "zoom" "zoom") by (reflexivity || now apply Hr).
    apply strip_plain. now apply Hr. }
  rewrite element_at_zoom_statement by assumption.
  apply zoom_statement_value.
  - unfold PyStr.startswith. cbn. apply prefix_empty.
  - rewrite Hclean. now apply zoom_relation_decimal.
  - rewrite Hclean, strip_prefix.
    + apply int_decimal.
    + destruct Hrel as [<- | [<- | [<- | [<- | [<- | []]]]]]; reflexivity.
    + apply Hd.
      destruct Hrel as [<- | [<- | [<- | [<- | [<- | []]]]]]; reflexivity.
Qed.

Lemma zoom_statement_filters_witness :
  _element_at_zoom "zoom>=10" (PStr "dem.tif") 12 = Ok (PStr "dem.tif") /\
  _element_at_zoom "zoom>=10" (PStr "dem.tif") 9 = Ok PNone.
Proof.
  split.
  - refine (@zoom_statement_filters ">=" 10 (PStr "dem.tif") 12 _ eq_refl).
    cbn. tauto.
  - refine (@zoom_statement_filters ">=" 10 (PStr "dem.tif") 9 _ eq_refl).
    cbn. tauto.
Defined.

(** X2. A key that starts with "zoom" and, stripped of the characters z,
    o, m and of white space, does not begin with a relation is no zoom
    statement the filter knows: its element, when it is no mapping, is
    [None] at every zoom level, so a parameter named [zoom_factor] never
    reaches the process. *)
Theorem zoom_key_without_relation_is_dropped (name : string)
  (element : pyval) (zoom : Z) :
  is_dict element = false ->
  PyStr.startswith "zoom" name = true ->
  zoom_relation (PyStr.strip_ws (PyStr.strip "zoom" name)) = None ->
  _element_at_zoom name element zoom = Ok PNone.
Proof.
  intros Hel Hzoom Hrel.
  rewrite element_at_zoom_statement by assumption.
  unfold zoom_statement. rewrite Hzoom.
  unfold zoom_relation in Hrel.
  set (cleaned := PyStr.strip_ws (PyStr.strip "zoom" name)) in *.
  repeat match type of Hrel with
         | (if ?b then _ else _) = None =>
             destruct b; [discriminate |]
         end.
  reflexivity.
Qed.

Lemma zoom_key_without_relation_is_dropped_witness :
  _element_at_zoom "zoom_factor" (PInt 2) 5 = Ok PNone.
Proof.
  apply (@zoom_key_without_relation_is_dropped "zoom_factor" (PInt 2) 5);
    reflexivity.
Defined.

(** The filter on a mapping, as the source writes it. *)
Lemma _element_at_zoom_dict (name : string) (d : dict) (zoom : Z) :
  _element_at_zoom name (PDict d) zoom =
  if dict_in "format" d then Ok (PDict d)
  else out_elements <- filter_items name zoom d [] ;;
       Ok (collapse name out_elements).
Proof.
  cbn [_element_at_zoom]. destruct (dict_in "format" d); [reflexivity |].
  f_equal. generalize (@nil (string * pyval)).
  induction d as [| [k v] d IH]; intros out; [reflexivity |].
  cbn [filter_items].
  destruct (_element_at_zoom k v zoom) as [r | e]; [| reflexivity].
  cbn [rbind]. destruct (String.eqb name "input"); [apply IH |].
  destruct (negb (is_none r)); apply IH.
Qed.

Lemma dict_set_keys_fresh (out : dict) (k : string) (v : pyval) :
  ~ In k (dict_keys out) -> dict_set out k v = out ++ [(k, v)].
Proof.
  induction out as [| [k0 v0] out IH]; cbn; intros Hfresh; [reflexivity |].
  destruct (String.eqb_spec k k0) as [-> | Hne]; [tauto |].
  rewrite IH; [reflexivity | tauto].
Qed.

Lemma filter_items_input (zoom : Z) (items : list (string * pyval)) :
  forall out r,
    NoDup (dict_keys out ++ dict_keys items) ->
    filter_items "input" zoom items out = Ok r ->
    exists kept,
      r = out ++ kept /\ dict_keys kept = dict_keys items /\
      Forall2 (fun kv kv' =>
                 _element_at_zoom (fst kv) (snd kv) zoom = Ok (snd kv'))
              items kept.
Proof.
  induction items as [| [k v] items IH]; intros out r Hnd H.
  - cbn in H. injection H as <-. exists []. rewrite app_nil_r.
    repeat split. constructor.
  - cbn [filter_items] in H.
    destruct (_element_at_zoom k v zoom) as [x | e] eqn:Hx; [| discriminate].
    cbn [rbind String.eqb] in H. change (String.eqb "input" "input") with true in H.
    cbn iota in H.
    assert (Hfresh : ~ In k (dict_keys out)).
    { intros Hin. cbn [dict_keys map fst] in Hnd.
      apply NoDup_remove_2 in Hnd. apply Hnd, in_or_app. now left. }
    rewrite dict_set_keys_fresh in H by assumption.
    destruct (IH (out ++ [(k, x)]) r) as [kept [-> [Hk Hall]]].
    + unfold dict_keys in *. rewrite map_app, <- app_assoc. exact Hnd.
    + assumption.
    + exists ((k, x) :: kept). rewrite <- app_assoc. repeat split.
      * unfold dict_keys in *. cbn [map fst]. now f_equal.
      * constructor; assumption.
Qed.

(** X3. Under the key "input" the zoom filter removes no key: a mapping
    that carries no "format" and is not empty comes back as a mapping
    with the same keys in the same order, each bound to what the filter
    makes of its element at the zoom level, [None] included. *)
Theorem input_keys_are_kept (d : dict) (zoom : Z) (r : pyval) :
  dict_in "format" d = false -> d <> [] ->
  NoDup (dict_keys d) ->
  _element_at_zoom "input" (PDict d) zoom = Ok r ->
  exists d',
    r = PDict d' /\ dict_keys d' = dict_keys d /\
    Forall2 (fun kv kv' =>
               _element_at_zoom (fst kv) (snd kv) zoom = Ok (snd kv'))
            d d'.
Proof.
  intros Hfmt Hne Hnd H. rewrite _element_at_zoom_dict, Hfmt in H.
  destruct (filter_items "input" zoom d []) as [out | e] eqn:Hout;
    [| discriminate].
  cbn [rbind] in H. injection H as <-.
  destruct (filter_items_input zoom d [] Hnd Hout) as [kept [-> [Hk Hall]]].
  cbn [app] in *. exists kept. repeat split; try assumption.
  unfold collapse. cbn [String.eqb negb andb].
  change (String.eqb "input" "input") with true. cbn [negb].
  rewrite andb_false_r.
  destruct kept as [| kv kept]; [| reflexivity].
  destruct d; [congruence | discriminate].
Qed.

Lemma input_keys_are_kept_witness :
  exists d',
    PDict [("dem", PStr "dem.tif"); ("land", PNone)] = PDict d' /\
    dict_keys d' = ["dem"; "land"].
Proof.
  destruct (@input_keys_are_kept
              [("dem", PStr "dem.tif");
               ("land", PDict [("zoom<3", PStr "coarse.tif")])]
              5 (PDict [("dem", PStr "dem.tif"); ("land", PNone)]))
    as [d' [H1 [H2 _]]].
  - reflexivity.
  - discriminate.
  - repeat constructor; cbn; intuition discriminate.
  - reflexivity.
  - exists d'. split; assumption.
Defined.

(* ===================================================================== *)
(** ** Further properties of the tree codec *)
(* ===================================================================== *)

Lemma flatten_value_leaves (v : pyval) :
  forall path kx,
    In kx (flatten_value path v) -> is_branch (snd kx) = false.
Proof.
  induction v as [| z | s | l IH | d IH | i] using pyval_induction;
    intros path kx Hin;
    try (destruct Hin as [<- | []]; reflexivity).
  cbn [flatten_value] in Hin.
  destruct (dict_in "format" d) eqn:Hfmt; cbn [negb] in Hin.
  - destruct Hin as [<- | []]. cbn. now rewrite Hfmt.
  - clear Hfmt. induction IH as [| [k v] d Hv _ IHd]; [contradiction |].
    apply in_app_or in Hin. destruct Hin as [Hin | Hin].
    + exact (Hv _ _ Hin).
    + now apply IHd.
Qed.

Lemma flatten_tree_leaves (tree : dict) (old_path : option string)
  (key : string) (x : pyval) :
  In (key, x) (_flatten_tree tree old_path) -> is_branch x = false.
Proof.
  unfold _flatten_tree. intros Hin. apply in_flat_map in Hin.
  destruct Hin as [[k v] [_ Hin]].
  exact (flatten_value_leaves _ _ _ Hin).
Qed.

Lemma dict_get_nodup (d : dict) (k : string) (v : pyval) :
  NoDup (dict_keys d) -> In (k, v) d -> dict_get d k = Some v.
Proof.
  induction d as [| [k' v'] d IH]; intros Hnd Hin; [contradiction |].
  cbn [dict_keys map fst] in Hnd. apply NoDup_cons_iff in Hnd.
  destruct Hnd as [Hfresh Hnd]. cbn [dict_get].
  destruct Hin as [Heq | Hin].
  - injection Heq as -> ->. now rewrite String.eqb_refl.
  - destruct (String.eqb_spec k k') as [-> | _]; [| now apply IH].
    exfalso. apply Hfresh. change k' with (fst (k', v)).
    now apply in_map.
Qed.

Lemma keys_plain_branch (d : dict) :
  is_branch (PDict d) = true -> keys_plain (PDict d) = true ->
  plain_keys d = true.
Proof.
  cbn [is_branch keys_plain]. intros ->. unfold plain_keys.
  rewrite !andb_true_iff. intros [Hnd Hall]. split; [exact Hnd |].
  clear Hnd. induction d as [| [k v] d IH]; [reflexivity |].
  rewrite !andb_true_iff in Hall. destruct Hall as [[Hk Hv] Hall].
  cbn [forallb fst snd]. rewrite Hk, Hv. cbn [andb]. now apply IH.
Qed.

Lemma plain_keys_in (tree : dict) (k : string) (v : pyval) :
  plain_keys tree = true -> In (k, v) tree ->
  dict_get tree k = Some v /\ k <> "" /\ PyStr.has_slash k = false /\
  keys_plain v = true.
Proof.
  unfold plain_keys. rewrite andb_true_iff, forallb_forall.
  intros [Hnd Hall] Hin. specialize (Hall _ Hin). cbn [fst snd] in Hall.
  apply andb_true_iff in Hall. destruct Hall as [Hk Hv].
  apply key_ok_spec in Hk. destruct Hk as [Hne Hslash].
  apply nodup_keys_spec in Hnd.
  split; [now apply dict_get_nodup |]. now repeat split.
Qed.

(** A pair that [_flatten_tree] yields at a value lies in the value, along
    the segments its path adds to the path of the value. *)
Lemma tree_lookup_flatten_value (v : pyval) :
  forall (path key : string) (x : pyval),
    path <> "" -> keys_plain v = true ->
    In (key, x) (flatten_value path v) ->
    exists more,
      PyStr.split_slash key = PyStr.split_slash path ++ more /\
      tree_lookup more v = Some x.
Proof.
  assert (Hleaf : forall (w : pyval) (path key : string) (x : pyval),
             is_branch w = false -> In (key, x) (flatten_value path w) ->
             exists more,
               PyStr.split_slash key = PyStr.split_slash path ++ more /\
               tree_lookup more w = Some x).
  { intros w path key x Hw Hin. rewrite flatten_value_leaf in Hin by assumption.
    destruct Hin as [Heq | []]. injection Heq as <- <-.
    exists []. now rewrite app_nil_r. }
  induction v as [| z | s | l IH | d IH | i] using pyval_induction;
    intros path key x Hpath Hok Hin;
    try (apply (fun Hw => Hleaf _ _ _ _ Hw Hin); reflexivity).
  destruct (is_branch (PDict d)) eqn:Hb; [| now apply (Hleaf _ _ _ _ Hb Hin)].
  rewrite flatten_value_branch in Hin by assumption.
  apply keys_plain_branch in Hok; [| assumption].
  unfold _flatten_tree in Hin. apply in_flat_map in Hin.
  destruct Hin as [[k v] [Hkv Hin]]. cbn [fst snd] in Hin.
  destruct (plain_keys_in _ _ _ Hok Hkv) as [Hget [Hne [Hslash Hv]]].
  rewrite Forall_forall in IH. specialize (IH _ Hkv). cbn [snd] in IH.
  destruct (IH (new_path (Some path) k) key x) as [more [Hs Hl]];
    [now apply new_path_nonempty | assumption | assumption |].
  exists (k :: more). split.
  - rewrite Hs, split_new_path, prefix_segments_some by assumption.
    now rewrite <- app_assoc.
  - cbn [tree_lookup]. now rewrite Hget.
Qed.

(** X4. [_flatten_tree] yields leaves only: no value it yields, from
    whatever tree, is a mapping without "format".  And each leaf comes
    under the path that leads to it: in a tree where, at every mapping
    that is walked through, no key is empty, holds a slash or occurs
    twice, looking up the segments of a yielded path finds the yielded
    value; the tree may be of any depth and may hold empty mappings. *)
Theorem flattened_paths_lead_to_leaves (tree : dict) (key : string)
  (x : pyval) :
  In (key, x) (_flatten_tree tree None) ->
  is_branch x = false /\
  (plain_keys tree = true ->
   tree_lookup (PyStr.split_slash key) (PDict tree) = Some x).
Proof.
  intros Hin. split.
  - exact (flatten_tree_leaves _ _ _ _ Hin).
  - intros Hok. unfold _flatten_tree in Hin. apply in_flat_map in Hin.
    destruct Hin as [[k v] [Hkv Hin]]. cbn [fst snd new_path] in Hin.
    destruct (plain_keys_in _ _ _ Hok Hkv) as [Hget [Hne [Hslash Hv]]].
    destruct (@tree_lookup_flatten_value v k key x Hne Hv Hin)
      as [more [-> Hl]].
    rewrite split_slash_free by assumption.
    cbn [app tree_lookup]. now rewrite Hget.
Qed.

Lemma flattened_paths_lead_to_leaves_witness :
  is_branch (PInt 2) = false /\
  tree_lookup (PyStr.split_slash "a/b/d") (PDict Demo.tree) = Some (PInt 2) /\
  tree_lookup (PyStr.split_slash "b")
    (PDict [("a", PDict []); ("b", PInt 1)]) = Some (PInt 1).
Proof.
  pose proof (@flattened_paths_lead_to_leaves Demo.tree "a/b/d" (PInt 2))
    as [Hleaf Hpath]; [cbn; tauto |].
  pose proof (@flattened_paths_lead_to_leaves
                [("a", PDict []); ("b", PInt 1)] "b" (PInt 1))
    as [_ Hempty]; [cbn; tauto |].
  split; [exact Hleaf |]. split; [now apply Hpath | now apply Hempty].
Defined.

Lemma unflatten_single3 (k2 k3 k4 : string) (v : pyval) :
  PyStr.has_slash k2 = false -> PyStr.has_slash k3 = false ->
  PyStr.has_slash k4 = false ->
  _unflatten_tree [((k2 ++ "/" ++ k3 ++ "/" ++ k4)%string, v)]
  = Ok [(k2, PDict [(k3, PDict [(k4, v)])])].
Proof.
  intros H2 H3 H4. unfold _unflatten_tree.
  rewrite _unflatten_loop_cons, !split_slash_app, !split_slash_free
    by assumption.
  cbn [app dict_get]. rewrite join_cons_cons. cbn [PyStr.join].
  rewrite unflatten_single2 by assumption.
  cbn [rbind dict_set]. apply _unflatten_loop_nil.
Qed.

(** X5. Of two flattened paths of four segments that share the first
    three, [_unflatten_tree] keeps the second only: the branch under the
    second segment is updated with the new branch one level deep, and
    the mapping under the third segment is replaced, not merged. *)
Theorem unflatten_replaces_at_fourth_level (a b c d e : string)
  (x y : pyval) :
  PyStr.has_slash a = false -> PyStr.has_slash b = false ->
  PyStr.has_slash c = false -> PyStr.has_slash d = false ->
  PyStr.has_slash e = false ->
  _unflatten_tree
    [((a ++ "/" ++ b ++ "/" ++ c ++ "/" ++ d)%string, x);
     ((a ++ "/" ++ b ++ "/" ++ c ++ "/" ++ e)%string, y)]
  = Ok [(a, PDict [(b, PDict [(c, PDict [(e, y)])])])].
Proof.
  intros Ha Hb Hc Hd He. unfold _unflatten_tree.
  rewrite _unflatten_loop_cons, !split_slash_app, !split_slash_free
    by assumption.
  cbn [app dict_get]. rewrite !join_cons_cons. cbn [PyStr.join].
  rewrite unflatten_single3 by assumption. cbn [rbind dict_set].
  rewrite _unflatten_loop_cons, !split_slash_app, !split_slash_free
    by assumption.
  cbn [app dict_get]. rewrite String.eqb_refl.
  rewrite !join_cons_cons. cbn [PyStr.join].
  rewrite unflatten_single3 by assumption. cbn [rbind].
  unfold merge_branch, dict_getitem. cbn [dict_get].
  rewrite !String.eqb_refl.
  cbn [rbind py_update dict_update fold_left dict_set fst snd].
  rewrite !String.eqb_refl. apply _unflatten_loop_nil.
Qed.

Lemma unflatten_replaces_at_fourth_level_witness :
  _unflatten_tree [("a/b/c/d", PInt 1); ("a/b/c/e", PInt 2)]
  = Ok [("a", PDict [("b", PDict [("c", PDict [("e", PInt 2)])])])].
Proof.
  apply (@unflatten_replaces_at_fourth_level "a" "b" "c" "d" "e"
           (PInt 1) (PInt 2)); reflexivity.
Defined.

(* ===================================================================== *)
(** ** Validation and normalisation of the document *)
(* ===================================================================== *)

Lemma extends_refl (d : dict) : extends d d.
Proof. intros k v H. exact H. Qed.

Lemma extends_trans (d1 d2 d3 : dict) :
  extends d1 d2 -> extends d2 d3 -> extends d1 d3.
Proof. intros H1 H2 k v H. apply H2, H1, H. Qed.

Lemma extends_set_fresh (d : dict) (k : string) (x : pyval) :
  dict_in k d = false -> extends d (dict_set d k x).
Proof.
  intros Hk k' v H. destruct (String.eqb_spec k' k) as [-> | Hne].
  - unfold dict_in in Hk. now rewrite H in Hk.
  - now rewrite dict_get_set_other.
Qed.

Lemma extends_in (d d' : dict) (k : string) :
  extends d d' -> dict_in k d = true -> dict_in k d' = true.
Proof.
  unfold dict_in. intros H Hk.
  destruct (dict_get d k) as [v |] eqn:Hv; [| discriminate].
  now rewrite (H k v Hv).
Qed.

Lemma dict_in_set (d : dict) (k : string) (x : pyval) :
  dict_in k (dict_set d k x) = true.
Proof. unfold dict_in. now rewrite dict_get_set_same. Qed.

Lemma negb_dict_in_false (d : dict) (k : string) :
  negb (dict_in k d) = false -> dict_in k d = true.
Proof. now destruct (dict_in k d). Qed.

Lemma negb_dict_in_true (d : dict) (k : string) :
  negb (dict_in k d) = true -> dict_in k d = false.
Proof. now destruct (dict_in k d). Qed.

Lemma dict_in_set_other (d : dict) (k k' : string) (x : pyval) :
  k' <> k -> dict_in k' (dict_set d k x) = dict_in k' d.
Proof. intros H. unfold dict_in. now rewrite dict_get_set_other. Qed.

Ltac set_facts :=
  repeat split;
  first [ apply dict_in_set | now apply extends_set_fresh
        | now apply dict_in_set_other | assumption | apply extends_refl
        | reflexivity ].

(** The four steps of [_map_to_new_config]: the first three add what is
    missing of "pyramid", "zoom_levels" and "bounds" and touch no other
    key; the last one reads "input_files" where there is no "input". *)
Lemma map_to_new_config_stages (config raw : dict) :
  _map_to_new_config config = Ok raw ->
  exists c3,
    extends config c3 /\
    dict_in "pyramid" c3 = true /\ dict_in "zoom_levels" c3 = true /\
    dict_in "bounds" c3 = true /\
    dict_in "input" c3 = dict_in "input" config /\
    dict_in "input_files" c3 = dict_in "input_files" config /\
    ((dict_in "input" c3 = false /\
      exists i, dict_get c3 "input_files" = Some i /\
                raw = dict_set c3 "input" i) \/
     (dict_in "input" c3 = true /\ dict_in "input_files" c3 = false /\
      raw = c3)).
Proof.
  unfold _map_to_new_config. intros H.
  (* the pyramid *)
  match type of H with
  | (config <- ?stage ;; _) = _ =>
      assert (H1 : forall c, stage = Ok c ->
                             dict_in "pyramid" c = true /\ extends config c /\
                             dict_in "input" c = dict_in "input" config /\
                             dict_in "input_files" c
                             = dict_in "input_files" config)
  end.
  { intros c. destruct (negb (dict_in "pyramid" config)) eqn:Hp.
    - apply negb_dict_in_true in Hp.
      destruct (negb (dict_in "output" config)); [discriminate |].
      destruct (dict_getitem config "output") as [o |]; [| discriminate].
      cbn [rbind].
      destruct (match o with
                | PDict o0 => dict_getitem o0 "type"
                | _ => Raise (TypeError "output is not subscriptable")
                end) as [grid |]; [| discriminate].
      cbn [rbind]. intros Hc. injection Hc as <-.
      set_facts.
    - apply negb_dict_in_false in Hp. intros Hc. injection Hc as <-.
      set_facts. }
  match type of H with
  | (config <- ?stage ;; _) = _ =>
      destruct stage as [c1 |]; [| discriminate]
  end.
  destruct (H1 c1 eq_refl) as [P1 [E1 [I1 F1]]]. clear H1. cbn [rbind] in H.
  (* the zoom levels *)
  match type of H with
  | (config <- ?stage ;; _) = _ =>
      assert (H2 : forall c, stage = Ok c ->
                             dict_in "zoom_levels" c = true /\ extends c1 c /\
                             dict_in "input" c = dict_in "input" c1 /\
                             dict_in "input_files" c
                             = dict_in "input_files" c1)
  end.
  { intros c. destruct (negb (dict_in "zoom_levels" c1)) eqn:Hz.
    - apply negb_dict_in_true in Hz.
      destruct (dict_get c1 "process_zoom").
      + intros Hc. injection Hc as <-.
        set_facts.
      + destruct (dict_get c1 "process_minzoom");
          [| discriminate].
        destruct (dict_get c1 "process_maxzoom");
          [| discriminate].
        intros Hc. injection Hc as <-.
        set_facts.
    - apply negb_dict_in_false in Hz. intros Hc. injection Hc as <-.
      set_facts. }
  match type of H with
  | (config <- ?stage ;; _) = _ =>
      destruct stage as [c2 |]; [| discriminate]
  end.
  destruct (H2 c2 eq_refl) as [P2 [E2 [I2 F2]]]. clear H2. cbn [rbind] in H.
  (* the bounds *)
  cbv zeta in H.
  match type of H with
  | context [negb (dict_in "input" ?c)] =>
      assert (H3 : dict_in "bounds" c = true /\ extends c2 c /\
                   dict_in "input" c = dict_in "input" c2 /\
                   dict_in "input_files" c = dict_in "input_files" c2);
      [| set (c3 := c) in * ]
  end.
  { destruct (negb (dict_in "bounds" c2)) eqn:Hb.
    - apply negb_dict_in_true in Hb.
      destruct (dict_get c2 "process_bounds"); set_facts.
    - apply negb_dict_in_false in Hb.
      set_facts. }
  destruct H3 as [P3 [E3 [I3 F3]]].
  exists c3. repeat split.
  - eauto using extends_trans.
  - apply extends_in with (d := c1); [| assumption].
    eauto using extends_trans.
  - now apply extends_in with (d := c2).
  - assumption.
  - congruence.
  - congruence.
  - destruct (negb (dict_in "input" c3)) eqn:Hi.
    + apply negb_dict_in_true in Hi. left. split; [assumption |].
      destruct (dict_get c3 "input_files") as [i |]; [| discriminate].
      injection H as <-. now exists i.
    + apply negb_dict_in_false in Hi. right.
      destruct (dict_in "input_files" c3); [discriminate |].
      injection H as <-. repeat split; assumption.
Qed.

(** X6. When [_map_to_new_config] returns, the document it returns
    holds the four keys of the new structure, "pyramid", "zoom_levels",
    "bounds" and "input", and every key the document came with still
    has the value it came with: the deprecated keys are read, never
    removed, and no given key is overwritten. *)
Theorem map_to_new_config_completes (config raw : dict) :
  _map_to_new_config config = Ok raw ->
  dict_in "pyramid" raw = true /\ dict_in "zoom_levels" raw = true /\
  dict_in "bounds" raw = true /\ dict_in "input" raw = true /\
  extends config raw.
Proof.
  intros H.
  destruct (map_to_new_config_stages _ H)
    as [c3 [E [P1 [P2 [P3 [_ [_ Hin]]]]]]].
  destruct Hin as [[Hi [i [Hf ->]]] | [Hi [_ ->]]].
  - rewrite !dict_in_set_other by discriminate.
    repeat split; try assumption; [apply dict_in_set |].
    apply (extends_trans E). now apply extends_set_fresh.
  - repeat split; assumption.
Qed.

Lemma map_to_new_config_completes_witness :
  exists raw,
    dict_in "pyramid" raw = true /\ dict_in "zoom_levels" raw = true /\
    dict_in "bounds" raw = true /\ dict_in "input" raw = true /\
    dict_get raw "process_minzoom" = Some (PInt 1).
Proof.
  destruct (@map_to_new_config_completes
              [("output", PDict [("type", PStr "geodetic")]);
               ("process_minzoom", PInt 1); ("process_maxzoom", PInt 5);
               ("input_files", PDict [("dem", PStr "dem.tif")])]
              _ eq_refl)
    as [H1 [H2 [H3 [H4 H5]]]].
  eexists. repeat split; try eassumption. now apply H5.
Defined.

(** X7. A document that names its inputs under the deprecated key
    "input_files" is normalised once only: the document
    [_map_to_new_config] returns for it holds both "input" and
    "input_files", and normalising that document again raises the
    configuration error on the two keys. *)
Theorem map_to_new_config_once (config raw : dict) :
  dict_in "input" config = false ->
  _map_to_new_config config = Ok raw ->
  dict_in "input_files" raw = true /\
  _map_to_new_config raw
  = Raise (MapcheteConfigError
             "'input' and 'input_files' are not allowed at the same time").
Proof.
  intros Hno H.
  destruct (map_to_new_config_stages _ H)
    as [c3 [E [P1 [P2 [P3 [I3 [F3 Hin]]]]]]].
  destruct Hin as [[Hi [i [Hf ->]]] | [Hi _]]; [| congruence].
  assert (Hfiles : dict_in "input_files" (dict_set c3 "input" i) = true).
  { rewrite dict_in_set_other by discriminate. unfold dict_in.
    now rewrite Hf. }
  split; [assumption |].
  unfold _map_to_new_config.
  rewrite !dict_in_set_other by discriminate. rewrite P1. cbn [negb rbind].
  rewrite !dict_in_set_other by discriminate. rewrite P2. cbn [negb rbind].
  rewrite !dict_in_set_other by discriminate. rewrite P3. cbn [negb].
  now rewrite dict_in_set, Hfiles.
Qed.

Lemma map_to_new_config_once_witness :
  exists raw,
    _map_to_new_config
      [("pyramid", PDict [("grid", PStr "geodetic")]);
       ("zoom_levels", PInt 5);
       ("input_files", PDict [("dem", PStr "dem.tif")])] = Ok raw /\
    _map_to_new_config raw
    = Raise (MapcheteConfigError
               "'input' and 'input_files' are not allowed at the same time").
Proof.
  eexists. split; [reflexivity |].
  refine (proj2 (@map_to_new_config_once
                   [("pyramid", PDict [("grid", PStr "geodetic")]);
                    ("zoom_levels", PInt 5);
                    ("input_files", PDict [("dem", PStr "dem.tif")])]
                   _ eq_refl eq_refl)).
Defined.

(** X8. [validate_values] returns, and then returns [True], exactly when
    the configuration is a mapping that holds every listed key with a
    value of one of the key's types; it never returns [False]. *)
Theorem validate_values_accepts (config : pyval)
  (values : list (string * list pytype)) :
  (validate_values config values = Ok true <->
   exists d,
     config = PDict d /\
     Forall (fun kt => exists x, dict_get d (fst kt) = Some x /\
                                 isinstance x (snd kt) = true) values) /\
  validate_values config values <> Ok false.
Proof.
  destruct config as [| z | s | l | d | i];
    try (split; [split; [discriminate | intros [d [H _]]; discriminate]
                | discriminate]).
  cbn [validate_values].
  induction values as [| [k ts] values [IH1 IH2]].
  - split; [| discriminate]. split; [| reflexivity].
    intros _. exists d. split; [reflexivity | constructor].
  - destruct (dict_get d k) as [x |] eqn:Hx.
    + destruct (isinstance x ts) eqn:Hty.
      * split; [| exact IH2]. split.
        -- intros H. apply IH1 in H. destruct H as [d' [Hd Hall]].
           injection Hd as <-. exists d. split; [reflexivity |].
           constructor; [| assumption]. now exists x.
        -- intros [d' [Hd Hall]]. injection Hd as <-.
           apply IH1. exists d. split; [reflexivity |].
           now inversion Hall.
      * split; [| discriminate]. split; [discriminate |].
        intros [d' [Hd Hall]]. injection Hd as <-.
        inversion Hall as [| ? ? [x' [Hx' Hty']] _]. subst.
        cbn [fst snd] in *. congruence.
    + split; [| discriminate]. split; [discriminate |].
      intros [d' [Hd Hall]]. injection Hd as <-.
      inversion Hall as [| ? ? [x' [Hx' _]] _]. subst.
      cbn [fst] in *. congruence.
Qed.

(* ===================================================================== *)
(** ** The parameters of the zoom levels *)
(* ===================================================================== *)

Lemma params_at_spec (zoom : Z) (config0 config : dict) :
  forall params out,
    incl config config0 ->
    (forall name v, dict_get params name = Some v ->
       str_in name _RESERVED_PARAMETERS = false /\ v <> PNone /\
       exists el, In (name, el) config0 /\
                  _element_at_zoom name el zoom = Ok v) ->
    params_at config zoom params = Ok out ->
    forall name v, dict_get out name = Some v ->
      str_in name _RESERVED_PARAMETERS = false /\ v <> PNone /\
      exists el, In (name, el) config0 /\
                 _element_at_zoom name el zoom = Ok v.
Proof.
  induction config as [| [k el] config IH]; intros params out Hincl Hp H.
  - cbn in H. injection H as <-. exact Hp.
  - assert (Hincl' : incl config config0)
      by (intros x Hx; apply Hincl; now right).
    cbn [params_at] in H.
    destruct (str_in k _RESERVED_PARAMETERS) eqn:Hres; cbn [negb] in H;
      [now apply (IH params out) |].
    destruct (_element_at_zoom k el zoom) as [r | e] eqn:Hr; [| discriminate].
    cbn [rbind] in H.
    destruct (is_none r) eqn:Hnone; cbn [negb] in H;
      [now apply (IH params out) |].
    apply (IH (dict_set params k r) out); try assumption.
    intros name v Hv. destruct (String.eqb_spec name k) as [-> | Hne].
    + rewrite dict_get_set_same in Hv. injection Hv as <-.
      repeat split; [assumption | now destruct r |].
      exists el. split; [apply Hincl; now left | assumption].
    + rewrite dict_get_set_other in Hv by assumption. now apply Hp.
Qed.

Lemma raw_at_zooms_spec (config : dict) (zooms : list Z) :
  forall acc per_zoom,
    raw_at_zooms config zooms acc = Ok per_zoom ->
    forall z,
      (kd_get Z.eqb per_zoom z <> None <->
       In z zooms \/ kd_get Z.eqb acc z <> None) /\
      (forall params, kd_get Z.eqb per_zoom z = Some params ->
         params_at config z [] = Ok params \/
         (~ In z zooms /\ kd_get Z.eqb acc z = Some params)).
Proof.
  induction zooms as [| z0 zooms IH]; intros acc per_zoom H z.
  - cbn in H. injection H as <-. split; [tauto |].
    intros params Hp. right. split; [intros [] | assumption].
  - cbn [raw_at_zooms] in H.
    destruct (params_at config z0 []) as [p0 |] eqn:Hp0; [| discriminate].
    cbn [rbind] in H. specialize (IH _ _ H z).
    rewrite kd_get_set in IH. destruct IH as [IH1 IH2].
    destruct (Z.eqb z z0) eqn:Hz;
      [apply Z.eqb_eq in Hz; subst z0 | apply Z.eqb_neq in Hz].
    + split.
      * rewrite IH1. split; [intros _; left; now left |].
        intros _. right. discriminate.
      * intros params Hp. destruct (IH2 params Hp) as [Hl | [_ Hr]];
          [now left |].
        injection Hr as <-. now left.
    + split.
      * rewrite IH1. cbn [In]. intuition congruence.
      * intros params Hp. destruct (IH2 params Hp) as [Hl | [Hn Hr]];
          [now left |].
        right. split; [| assumption]. intros [Heq | Hin]; congruence || tauto.
Qed.

(** X9. [_raw_at_zoom] returns parameters for the zoom levels it is
    given and for no other; the parameters of a zoom level hold keys of
    the document only, none of them a reserved parameter, each bound to
    what the zoom filter makes of an element the document has under that
    key, and never to [None]. *)
Theorem raw_at_zoom_parameters (config : dict) (zooms : list Z)
  (per_zoom : list (Z * dict)) :
  _raw_at_zoom config zooms = Ok per_zoom ->
  forall zoom,
    (kd_get Z.eqb per_zoom zoom <> None <-> In zoom zooms) /\
    forall params name v,
      kd_get Z.eqb per_zoom zoom = Some params ->
      dict_get params name = Some v ->
      str_in name _RESERVED_PARAMETERS = false /\ v <> PNone /\
      exists element,
        In (name, element) config /\
        _element_at_zoom name element zoom = Ok v.
Proof.
  unfold _raw_at_zoom. intros H zoom.
  destruct (raw_at_zooms_spec _ _ _ H zoom) as [H1 H2]. split.
  - rewrite H1. cbn. tauto.
  - intros params name v Hp Hv.
    destruct (H2 params Hp) as [Hrun | [_ Hacc]]; [| discriminate].
    eapply (@params_at_spec zoom config config [] params);
      [apply incl_refl | discriminate | exact Hrun | exact Hv].
Qed.

Lemma raw_at_zoom_parameters_witness :
  str_in "land" _RESERVED_PARAMETERS = false /\ PStr "coarse.tif" <> PNone.
Proof.
  destruct (@raw_at_zoom_parameters
              [("zoom_levels", PInt 2); ("pixelbuffer", PInt 1);
               ("land", PDict [("zoom<3", PStr "coarse.tif");
                               ("zoom>=3", PStr "dem.tif")])]
              [2] _ eq_refl 2) as [_ H].
  destruct (H [("land", PStr "coarse.tif")] "land" (PStr "coarse.tif")
              eq_refl eq_refl) as [H1 [H2 _]].
  split; assumption.
Defined.

(* ===================================================================== *)
(** ** The constructed object *)
(* ===================================================================== *)

Ltac kept := intros; reflexivity.

Section Constructed.
Context {E : Externals}.

(** The steps of [initialize], one after the other. *)
Lemma initialize_trace (s0 c : MapcheteConfig) :
  initialize s0 = (Ok tt, c) ->
  exists zs s1 pz w s3 reg,
    init_zoom_levels s0 = (Ok zs, s1) /\
    _raw_at_zoom (_raw s1) zs = Ok pz /\
    output (set_params_at_zoom pz s1) = (Ok w, s3) /\
    input s3 = (Ok reg, c).
Proof.
  intros H. unfold initialize in H.
  apply bind_ok in H. destruct H as [zs [s1 [Hzs H]]].
  apply bind_ok in H. destruct H as [raw [s1' [Hraw H]]].
  injection Hraw as <- <-.
  apply bind_ok in H. destruct H as [pz [s1' [Hpz H]]].
  unfold lift in Hpz. injection Hpz as Hpz <-.
  apply bind_ok in H. destruct H as [u [s2 [Hs2 H]]].
  unfold assign in Hs2. injection Hs2 as _ <-.
  apply bind_ok in H. destruct H as [w [s3 [Hw H]]].
  apply bind_ok in H. destruct H as [reg [s4 [Hreg H]]].
  injection H as <-.
  now exists zs, s1, pz, w, s3, reg.
Qed.

Lemma zoom_in_false (z : Z) (zooms : list Z) :
  zoom_in z zooms = false <-> ~ In z zooms.
Proof.
  rewrite <- zoom_in_spec. now destruct (zoom_in z zooms).
Qed.

(** The first read of [init_zoom_levels] on an object that has stored
    nothing: what it returns and what it stores. *)
Lemma init_zoom_levels_fresh (s s1 : MapcheteConfig) (zs : list Z) :
  zoom_levels_slot s = None -> init_zoom_levels_slot s = None ->
  init_zoom_levels s = (Ok zs, s1) ->
  exists declared iz,
    declared_zoom_levels (_raw s) = Ok declared /\
    dict_get (_raw s) "init_zoom_levels" = Some iz /\
    s1 = set_init_zoom_levels_slot zs (set_zoom_levels_slot declared s) /\
    match iz with
    | PNone => zs = declared
    | PInt z => zs = [z] /\ In z declared
    | PList l =>
        (length l <= 2)%nat /\
        exists lo hi, py_min l = Ok (PInt lo) /\ py_max l = Ok (PInt hi) /\
                      zs = py_range lo (hi + 1) /\
                      In lo declared /\ In hi declared
    | _ => False
    end.
Proof.
  intros Hz Hiz H.
  apply cached_fresh in H; [| assumption]. destruct H as [s2 [H ->]].
  unfold bind at 1, attr in H. unfold bind at 1, lift, dict_getitem in H.
  destruct (dict_get (_raw s) "init_zoom_levels") as [iz |] eqn:Hraw;
    [| discriminate].
  assert (Hrun := zoom_levels_run s Hz).
  destruct (declared_zoom_levels (_raw s)) as [declared | e] eqn:Hdecl.
  2: { destruct iz as [| z | | l | |]; try discriminate.
       - rewrite Hrun in H. discriminate.
       - unfold bind in H. rewrite Hrun in H. discriminate.
       - destruct (Nat.leb (length l) 2); [| discriminate].
         unfold bind, lift in H.
         destruct (py_min l); [| discriminate].
         rewrite Hrun in H. discriminate. }
  exists declared, iz. split; [reflexivity |]. split; [reflexivity |].
  destruct iz as [| z | | l | |]; try discriminate.
  - rewrite Hrun in H. injection H as <- <-. now split.
  - unfold bind in H. rewrite Hrun in H.
    destruct (zoom_in z declared) eqn:Hin; cbn [negb] in H; [| discriminate].
    injection H as <- <-. split; [reflexivity |].
    split; [reflexivity | now apply zoom_in_spec].
  - destruct (Nat.leb (length l) 2) eqn:Hlen; [| discriminate].
    unfold bind, lift in H.
    destruct (py_min l) as [lo |] eqn:Hmin; [| discriminate].
    rewrite Hrun in H.
    destruct (py_max l) as [hi |] eqn:Hmax; [| discriminate].
    destruct lo as [| lo | | | |]; try discriminate.
    destruct hi as [| hi | | | |]; try discriminate.
    destruct (zoom_in lo declared) eqn:Hlo; cbn [negb orb] in H;
      [| discriminate].
    destruct (zoom_in hi declared) eqn:Hhi; cbn [negb] in H;
      [| discriminate].
    injection H as <- <-. split; [reflexivity |].
    split; [now apply Nat.leb_le |].
    exists lo, hi. repeat split; now apply zoom_in_spec.
Qed.

Lemma update_output_params_run (output_params : dict) (k : string)
  (v : pyval) (s : MapcheteConfig) :
  update_output_params output_params k v s
  = (Ok (dict_set output_params k v),
     set_params_at_zoom
       (share_output (dict_in "format" output_params)
          (dict_set output_params k v) (_params_at_zoom s))
       (set_raw (dict_set (_raw s) "output"
                   (PDict (dict_set output_params k v))) s)).
Proof. reflexivity. Qed.

(** The first read of [output]: the mapping under "output" of the raw
    document after it, the format and the writer. *)
Lemma output_fresh (s s3 : MapcheteConfig) (w : writer) :
  output_slot s = None ->
  output s = (Ok w, s3) ->
  exists o out fmt,
    dict_get (_raw s) "output" = Some (PDict o) /\
    dict_get (_raw s3) "output" = Some (PDict out) /\
    (forall k, k <> "output" -> dict_get (_raw s3) k = dict_get (_raw s) k) /\
    match dict_get o "path" with
    | Some p => exists abs, abs_path (config_dir s) p = Ok abs /\
                            dict_get out "path" = Some (PStr abs)
    | None => dict_get out "path" = Some PNone
    end /\
    dict_get out "type" = Some (pyramid_type (output_pyramid s)) /\
    dict_get out "pixelbuffer"
    = Some (pyramid_pixelbuffer (output_pyramid s)) /\
    dict_get out "metatiling"
    = Some (pyramid_metatiling (output_pyramid s)) /\
    (forall k, ~ In k ["path"; "type"; "pixelbuffer"; "metatiling"] ->
               dict_get out k = dict_get o k) /\
    dict_get out "format" = Some (PStr fmt) /\
    str_in fmt available_output_formats = true /\
    load_output_writer out = Ok w.
Proof.
  intros Hslot H.
  apply cached_fresh in H; [| assumption]. destruct H as [s2 [H ->]].
  unfold bind at 1, attr in H. unfold bind at 1, lift, dict_getitem in H.
  destruct (dict_get (_raw s) "output") as [[| | | | o |] |] eqn:Ho;
    try discriminate.
  apply bind_ok in H. destruct H as [o1 [t1 [H1 H]]].
  assert (Hstep1 :
            exists pv, o1 = dict_set o "path" pv /\
                       t1 = set_params_at_zoom
                              (share_output (dict_in "format" o) o1
                                 (_params_at_zoom s))
                              (set_raw (dict_set (_raw s) "output" (PDict o1))
                                 s) /\
                       match dict_get o "path" with
                       | Some p => exists abs,
                           abs_path (config_dir s) p = Ok abs /\
                           pv = PStr abs
                       | None => pv = PNone
                       end).
  { destruct (dict_get o "path") as [p |].
    - apply bind_ok in H1. destruct H1 as [dir [t0 [Hd H1]]].
      injection Hd as <- <-.
      apply bind_ok in H1. destruct H1 as [path [t0 [Hp H1]]].
      unfold lift in Hp. injection Hp as Hp <-.
      rewrite update_output_params_run in H1. injection H1 as <- <-.
      exists (PStr path). repeat split. now exists path.
    - rewrite update_output_params_run in H1. injection H1 as <- <-.
      exists PNone. repeat split. }
  destruct Hstep1 as [pv [-> [-> Hpath]]]. clear H1.
  apply bind_ok in H. destruct H as [pyr [t2 [Hpyr H]]].
  unfold attr in Hpyr. injection Hpyr as <- <-.
  cbn [output_pyramid set_params_at_zoom set_raw] in H.
  apply bind_ok in H. destruct H as [o2 [t2 [H2 H]]].
  rewrite update_output_params_run in H2. injection H2 as <- <-.
  apply bind_ok in H. destruct H as [o3 [t3 [H3 H]]].
  rewrite update_output_params_run in H3. injection H3 as <- <-.
  apply bind_ok in H. destruct H as [o4 [t4 [H4 H]]].
  rewrite update_output_params_run in H4. injection H4 as <- <-.
  set (out := dict_set (dict_set (dict_set (dict_set o "path" pv) "type" _)
                          "pixelbuffer" _) "metatiling" _) in *.
  destruct (dict_get out "format") as [fmt |] eqn:Hfmt; [| discriminate].
  destruct fmt as [| | f | | |]; try discriminate.
  destruct (str_in f available_output_formats) eqn:Hav; [| discriminate].
  unfold bind, lift in H.
  destruct (load_output_writer out) as [w' |] eqn:Hw; [| discriminate].
  destruct (is_valid_with_config w' out); [| discriminate].
  injection H as <- <-.
  exists o, out, f. cbn [_raw set_raw set_params_at_zoom set_output_slot].
  split; [reflexivity |]. split; [apply dict_get_set_same |].
  split; [intros k Hk; now rewrite !dict_get_set_other by assumption |].
  subst out. repeat split; try assumption.
  - destruct (dict_get o "path") as [p |].
    + destruct Hpath as [abs [Ha ->]]. exists abs. split; [assumption |].
      rewrite !dict_get_set_other by discriminate. apply dict_get_set_same.
    + subst pv. rewrite !dict_get_set_other by discriminate.
      apply dict_get_set_same.
  - rewrite !dict_get_set_other by discriminate. apply dict_get_set_same.
  - rewrite !dict_get_set_other by discriminate. apply dict_get_set_same.
  - apply dict_get_set_same.
  - intros k Hk. cbn [In] in Hk.
    rewrite !dict_get_set_other; [reflexivity | ..]; intuition congruence.
Qed.

(** What holds of the object after each update of the output mapping
    holds after [output]. *)
Lemma respects_output (R : MapcheteConfig -> MapcheteConfig -> Prop) :
  (forall s, R s s) -> (forall s t u, R s t -> R t u -> R s u) ->
  (forall op k v, respects R (update_output_params op k v)) ->
  (forall v s, R s (set_output_slot v s)) ->
  respects R output.
Proof.
  intros Hrefl Htrans Hupd Hstore. unfold output.
  apply respects_cached; [exact Hrefl | exact Htrans | | exact Hstore].
  intros s _. revert s.
  match goal with
  | |- forall s, R s (snd (?m s)) => change (respects R m)
  end.
  repeat first
    [ apply Hupd
    | apply respects_ret; exact Hrefl
    | apply respects_raise; exact Hrefl
    | apply respects_lift; exact Hrefl
    | apply respects_attr; exact Hrefl
    | apply respects_bind; [exact Htrans | | intros ?]
    | match goal with
      | |- respects _ (match ?x with _ => _ end) => destruct x
      | |- respects _ (if ?b then _ else _) => destruct b
      end ].
Qed.

Lemma kd_get_share_output (shared : bool) (updated : dict)
  (per_zoom : list (Z * dict)) (z : Z) :
  kd_get Z.eqb (share_output shared updated per_zoom) z =
  match kd_get Z.eqb per_zoom z with
  | Some p =>
      Some (if shared && dict_in "output" p
            then dict_set p "output" (PDict updated) else p)
  | None => None
  end.
Proof.
  unfold share_output. induction per_zoom as [| [z0 p0] l IH];
    [reflexivity |].
  cbn [map kd_get fst snd]. now destruct (Z.eqb z z0).
Qed.

Lemma params_kept_refl (s : MapcheteConfig) : params_kept s s.
Proof.
  intros z. destruct (kd_get Z.eqb (_params_at_zoom s) z) as [p |] eqn:Hp;
    [| reflexivity].
  now exists p.
Qed.

Lemma params_kept_trans (s t u : MapcheteConfig) :
  params_kept s t -> params_kept t u -> params_kept s u.
Proof.
  intros Hst Htu z. specialize (Hst z). specialize (Htu z).
  destruct (kd_get Z.eqb (_params_at_zoom s) z) as [p |].
  - destruct Hst as [p' [Hp' Hk]]. rewrite Hp' in Htu.
    destruct Htu as [p'' [Hp'' Hk']]. exists p''. split; [assumption |].
    intros k Hne. now rewrite Hk', Hk.
  - now rewrite Hst in Htu.
Qed.

Lemma params_kept_output : respects params_kept output.
Proof.
  apply respects_output.
  - exact params_kept_refl.
  - exact params_kept_trans.
  - intros op k v s z. rewrite update_output_params_run.
    cbn [snd _params_at_zoom set_params_at_zoom set_raw].
    rewrite kd_get_share_output.
    destruct (kd_get Z.eqb (_params_at_zoom s) z) as [p |]; [| reflexivity].
    eexists. split; [reflexivity |]. intros k' Hne.
    destruct (_ && _); [| reflexivity].
    now rewrite dict_get_set_other.
  - intros v s. exact (params_kept_refl s).
Qed.

(** The first read of [input] on an object that has stored its
    initialized zoom levels: the bounds are read, then the registry is
    stored; nothing else changes. *)
Lemma input_fresh (s c : MapcheteConfig) (zs : list Z) (reg : registry) :
  input_slot s = None -> init_zoom_levels_slot s = Some zs ->
  input s = (Ok reg, c) ->
  exists s',
    c = set_input_slot reg s' /\
    (forall F (f : MapcheteConfig -> F),
        (forall v s, f (set_bounds_slot v s) = f s) ->
        (forall v s, f (set_init_bounds_slot v s) = f s) ->
        f s' = f s) /\
    is_some (bounds_slot s') = true /\
    is_some (init_bounds_slot s') = true.
Proof.
  intros Hin Hiz H.
  apply cached_fresh in H; [| assumption]. destruct H as [s5 [Hbody ->]].
  apply bind_ok in Hbody. destruct Hbody as [zs' [s3a [Hzs' Hbody]]].
  assert (Hst : init_zoom_levels s = (Ok zs, s))
    by (apply cached_stored; exact Hiz).
  rewrite Hst in Hzs'. injection Hzs' as <- <-.
  apply bind_ok in Hbody. destruct Hbody as [ib [s3b [Hib Hbody]]].
  apply bind_ok in Hbody. destruct Hbody as [pb [s3c [Hpb Hbody]]].
  apply bind_ok in Hbody. destruct Hbody as [params [s3d [Hparams Hbody]]].
  injection Hparams as <- <-.
  apply bind_ok in Hbody. destruct Hbody as [raws [s3d [Hraws Hbody]]].
  unfold lift in Hraws. injection Hraws as _ <-.
  injection Hbody as _ <-.
  exists s3c. split; [reflexivity |]. split; [| split].
  - intros F f H1 H2.
    pose proof (@keeps_init_bounds E F f H1 H2 s) as K1.
    pose proof (@keeps_bounds E F f H1 s3b) as K2.
    rewrite Hib in K1. rewrite Hpb in K2. cbn in K1, K2.
    unfold keeps in K1, K2. congruence.
  - apply bounds_ok in Hpb. now rewrite Hpb.
  - pose proof (@keeps_bounds E _ init_bounds_slot ltac:(kept) s3b) as K2.
    rewrite Hpb in K2. cbn in K2. unfold keeps in K2.
    apply init_bounds_ok in Hib. now rewrite K2, Hib.
Qed.

(** The states [__init__] goes through. *)
Lemma init_states (input_config zoom bounds : pyval) (mode : string)
  (c : MapcheteConfig) :
  __init__ input_config zoom bounds mode = Ok c ->
  exists s0 declared zs pz w s3 reg s',
    preamble input_config zoom bounds mode = Ok s0 /\
    declared_zoom_levels (_raw s0) = Ok declared /\
    init_zoom_levels s0
    = (Ok zs, set_init_zoom_levels_slot zs
                (set_zoom_levels_slot declared s0)) /\
    _raw_at_zoom (_raw s0) zs = Ok pz /\
    output (set_params_at_zoom pz
              (set_init_zoom_levels_slot zs
                 (set_zoom_levels_slot declared s0))) = (Ok w, s3) /\
    input s3 = (Ok reg, c) /\
    c = set_input_slot reg s' /\
    (forall F (f : MapcheteConfig -> F),
        (forall v s, f (set_bounds_slot v s) = f s) ->
        (forall v s, f (set_init_bounds_slot v s) = f s) ->
        f s' = f s3).
Proof.
  unfold __init__. intros H.
  destruct (preamble input_config zoom bounds mode) as [s0 |] eqn:Hpre;
    cbn [rbind] in H; [| discriminate].
  destruct (initialize s0) as [[[] | e] c'] eqn:Hinit; [| discriminate].
  injection H as ->.
  destruct (preamble_inv _ _ _ _ Hpre)
    as [_ [_ [_ [_ [_ [_ [Hz [Hiz [_ [_ [Hout [Hin _]]]]]]]]]]]].
  destruct (initialize_trace _ Hinit)
    as [zs [s1 [pz [w [s3 [reg [Hzs [Hpz [Hw Hreg]]]]]]]]].
  destruct (init_zoom_levels_fresh _ Hz Hiz Hzs)
    as [declared [iz [Hdecl [_ [-> _]]]]].
  cbn [_raw set_init_zoom_levels_slot set_zoom_levels_slot] in Hpz.
  set (s2 := set_params_at_zoom pz _) in *.
  assert (Hin3 : input_slot s3 = None).
  { pose proof (@keeps_output E _ input_slot ltac:(kept) ltac:(kept)
                  ltac:(kept) s2) as K.
    rewrite Hw in K. unfold keeps in K. cbn in K. now rewrite K. }
  assert (Hiz3 : init_zoom_levels_slot s3 = Some zs).
  { pose proof (@keeps_output E _ init_zoom_levels_slot ltac:(kept)
                  ltac:(kept) ltac:(kept) s2) as K.
    rewrite Hw in K. unfold keeps in K. cbn in K. now rewrite K. }
  destruct (input_fresh _ Hin3 Hiz3 Hreg) as [s' [Hc [Hframe _]]].
  exists s0, declared, zs, pz, w, s3, reg, s'.
  repeat split; assumption.
Qed.

(** A property of the core of the object that holds after construction
    holds in every state the object reaches. *)
Lemma reachable_core_invariant (P : MapcheteConfig -> Prop) :
  (forall c c', core c' = core c -> P c -> P c') ->
  (forall input_config zoom bounds mode c,
      __init__ input_config zoom bounds mode = Ok c -> P c) ->
  forall c, reachable c -> P c.
Proof.
  intros Hcore Hinit c Hreach.
  induction Hreach as [ic zoom bounds mode c H | m c Hreach IH].
  - exact (Hinit _ _ _ _ _ H).
  - apply (Hcore c); [| assumption].
    apply stable_after. apply reachable_built in Hreach. apply Hreach.
Qed.

Lemma core_all_fields (s s' : MapcheteConfig) :
  core s' = core s ->
  _raw s' = _raw s /\ process_file s' = process_file s /\
  config_dir s' = config_dir s /\
  process_pyramid s' = process_pyramid s /\
  output_pyramid s' = output_pyramid s /\ mode s' = mode s /\
  _params_at_zoom s' = _params_at_zoom s /\
  zoom_levels_slot s' = zoom_levels_slot s /\
  init_zoom_levels_slot s' = init_zoom_levels_slot s /\
  bounds_slot s' = bounds_slot s /\
  init_bounds_slot s' = init_bounds_slot s /\
  output_slot s' = output_slot s /\ input_slot s' = input_slot s.
Proof.
  unfold core. intros H.
  injection H as H1 H2 H3 H4 H5 H6 H7 H8 H9 H10 H11 H12 H13.
  repeat split; assumption.
Qed.

Lemma kd_get_some_none {V} (l : list (Z * V)) (z : Z) :
  kd_get Z.eqb l z <> None <-> exists v, kd_get Z.eqb l z = Some v.
Proof.
  destruct (kd_get Z.eqb l z) as [v |]; split.
  - intros _. now exists v.
  - discriminate.
  - congruence.
  - intros [v H]. discriminate.
Qed.

Lemma init_zooms_sound (input_config zoom bounds : pyval) (mode : string)
  (c : MapcheteConfig) :
  __init__ input_config zoom bounds mode = Ok c -> zooms_sound c.
Proof.
  intros H.
  destruct (init_states _ _ _ _ H)
    as [s0 [declared [zs [pz [w [s3 [reg [s' [Hpre [Hdecl [Hzs [Hpz
         [Hw [Hreg [-> Hframe]]]]]]]]]]]]]]].
  destruct (preamble_inv _ _ _ _ Hpre)
    as [_ [_ [_ [_ [_ [_ [Hz [Hiz [_ [_ [Hout _]]]]]]]]]]].
  destruct (init_zoom_levels_fresh _ Hz Hiz Hzs)
    as [declared' [iz [Hdecl' [Hizraw [_ Hshape]]]]].
  rewrite Hdecl in Hdecl'. injection Hdecl' as <-.
  set (s2 := set_params_at_zoom pz _) in *.
  assert (Hout2 : output_slot s2 = None) by exact Hout.
  destruct (output_fresh _ Hout2 Hw)
    as [o [out [fmt [_ [_ [Hraw3 _]]]]]].
  pose proof (params_kept_output s2) as Hkept. rewrite Hw in Hkept.
  cbn [snd] in Hkept.
  assert (K3 : forall F (f : MapcheteConfig -> F),
             (forall v s, f (set_raw v s) = f s) ->
             (forall v s, f (set_params_at_zoom v s) = f s) ->
             (forall v s, f (set_output_slot v s) = f s) ->
             f s3 = f s2).
  { intros F f H1 H2 H3.
    pose proof (@keeps_output E F f H1 H2 H3 s2) as K.
    now rewrite Hw in K. }
  destruct (declared_zoom_levels_interval _ Hdecl) as [dlo [dhi Hint]].
  exists declared, zs. cbn [zoom_levels_slot init_zoom_levels_slot _raw
                            _params_at_zoom set_input_slot].
  rewrite (Hframe _ zoom_levels_slot ltac:(kept) ltac:(kept)).
  rewrite (Hframe _ init_zoom_levels_slot ltac:(kept) ltac:(kept)).
  rewrite (Hframe _ _raw ltac:(kept) ltac:(kept)).
  rewrite (Hframe _ _params_at_zoom ltac:(kept) ltac:(kept)).
  rewrite (K3 _ zoom_levels_slot ltac:(kept) ltac:(kept) ltac:(kept)).
  rewrite (K3 _ init_zoom_levels_slot ltac:(kept) ltac:(kept) ltac:(kept)).
  split; [reflexivity |]. split; [reflexivity |]. split; [| split; [| split]].
  - unfold declared_zoom_levels, dict_getitem in *.
    now rewrite Hraw3 by discriminate.
  - destruct iz as [| z | | l | |]; try contradiction.
    + subst zs. apply incl_refl.
    + destruct Hshape as [-> Hin]. intros x [<- | []]. assumption.
    + destruct Hshape as [_ [lo [hi [_ [_ [-> [Hlo Hhi]]]]]]].
      intros x Hx. apply in_py_range in Hx. apply Hint.
      apply Hint in Hlo. apply Hint in Hhi. lia.
  - destruct iz as [| z | | l | |]; try contradiction.
    + subst zs. now exists dlo, dhi.
    + destruct Hshape as [-> _]. exists z, (z + 1). intros x. cbn. lia.
    + destruct Hshape as [_ [lo [hi [_ [_ [-> _]]]]]].
      exists lo, (hi + 1). intros x. apply in_py_range.
  - intros z. specialize (Hkept z).
    cbn [_params_at_zoom s2 set_params_at_zoom] in Hkept.
    destruct (raw_at_zooms_spec _ _ _ Hpz z) as [Hkeys _].
    cbn [kd_get] in Hkeys.
    destruct (kd_get Z.eqb pz z) as [p |] eqn:Hp.
    + destruct Hkept as [p' [Hp' _]]. rewrite Hp'.
      split; [intros _ | discriminate].
      destruct (proj1 Hkeys) as [Hin | Habs];
        [discriminate | assumption | congruence].
    + rewrite Hkept. split; [congruence |]. intros Hin.
      exfalso. apply (proj2 Hkeys); [now left | reflexivity].
Qed.

Lemma reachable_zooms_sound (c : MapcheteConfig) :
  reachable c -> zooms_sound c.
Proof.
  apply reachable_core_invariant.
  - intros s s' Hcore [declared [zs H]].
    destruct (core_all_fields Hcore)
      as [Hraw [_ [_ [_ [_ [_ [Hp [Hz [Hiz _]]]]]]]]].
    exists declared, zs. now rewrite Hraw, Hp, Hz, Hiz.
  - exact init_zooms_sound.
Qed.
End Constructed.

(* ===================================================================== *)
(** ** The zoom levels of a configuration *)
(* ===================================================================== *)

Section Levels.
Context {E : Externals}.

Lemma zoom_levels_stored (s : MapcheteConfig) (zooms : list Z) :
  zoom_levels_slot s = Some zooms -> zoom_levels s = (Ok zooms, s).
Proof. intros H. now apply cached_stored. Qed.

(** X10. For every configuration, in every state it reaches: reading
    [zoom_levels] and [init_zoom_levels] returns and leaves the object
    as it is; the process zoom levels are those the raw document
    declares under "zoom_levels"; every initialized zoom level is a
    process zoom level; and the initialized zoom levels are the integers
    of one interval, none left out. *)
Theorem initialized_zooms_within_declared (c : MapcheteConfig) :
  reachable c ->
  exists declared zs,
    zoom_levels c = (Ok declared, c) /\
    init_zoom_levels c = (Ok zs, c) /\
    declared_zoom_levels (_raw c) = Ok declared /\
    incl zs declared /\
    exists lo hi, forall z, In z zs <-> lo <= z < hi.
Proof.
  intros Hreach.
  destruct (reachable_zooms_sound Hreach)
    as [declared [zs [Hz [Hiz [Hdecl [Hincl [Hrun _]]]]]]].
  exists declared, zs. repeat split.
  - now apply zoom_levels_stored.
  - now apply init_zoom_levels_stored.
  - assumption.
  - assumption.
  - assumption.
Qed.

(** X11. For every configuration, in every state it reaches, and every
    integer [z] that is not one of the initialized zoom levels:
    [params_at_zoom(z)], [area_at_zoom(z)] and [bounds_at_zoom(z)] raise
    the [ValueError] "zoom level not available with current
    configuration", and leave the object as it is. *)
Theorem zoom_outside_initialized_is_refused (c : MapcheteConfig)
  (zs : list Z) (z : Z) :
  reachable c -> fst (init_zoom_levels c) = Ok zs -> ~ In z zs ->
  params_at_zoom z c = (Raise zoom_unavailable, c) /\
  area_at_zoom (PInt z) c = (Raise zoom_unavailable, c) /\
  bounds_at_zoom (PInt z) c = (Raise zoom_unavailable, c).
Proof.
  intros Hreach Hzs Hout.
  destruct (reachable_zooms_sound Hreach)
    as [declared [zs' [_ [Hiz _]]]].
  pose proof (init_zoom_levels_stored _ Hiz) as Hrun.
  rewrite Hrun in Hzs. cbn [fst] in Hzs. injection Hzs as ->.
  assert (Hno : zoom_in z zs = false).
  { destruct (zoom_in z zs) eqn:Hin; [| reflexivity].
    apply zoom_in_spec in Hin. contradiction. }
  assert (Harea : area_at_zoom (PInt z) c = (Raise zoom_unavailable, c)).
  { unfold area_at_zoom, bind. now rewrite Hrun, Hno. }
  repeat split.
  - unfold params_at_zoom, bind. now rewrite Hrun, Hno.
  - exact Harea.
  - unfold bounds_at_zoom, bind. now rewrite Harea.
Qed.

Lemma area_at_zoom_value (c : MapcheteConfig) :
  caches_sound c ->
  exists zooms reg ib,
    init_zoom_levels_slot c = Some zooms /\ input_slot c = Some reg /\
    init_bounds_slot c = Some ib /\
    forall zoom,
      fst (area_at_zoom zoom c) = area_value c zooms reg ib zoom /\
      caches_sound (snd (area_at_zoom zoom c)) /\
      core (snd (area_at_zoom zoom c)) = core c.
Proof.
  intros [zooms [reg [ib [Hz [Hreg [Hib [Hc Hf]]]]]]].
  exists zooms, reg, ib. repeat split; try assumption;
    now destruct (@area_at_zoom_sound _ c zoom zooms reg ib Hz Hreg Hib Hc Hf)
      as [H1 [H2 H3]].
Qed.

Lemma core_area_value (s s' : MapcheteConfig) (zooms : list Z)
  (reg : registry) (ib : Bounds) (zoom : pyval) :
  core s' = core s ->
  area_value s' zooms reg ib zoom = area_value s zooms reg ib zoom.
Proof.
  intros H. unfold area_value. now rewrite (core_area_now reg ib H).
Qed.

(** The value of [area_at_zoom] is the same in two states of one core. *)
Lemma area_at_zoom_core (s s' : MapcheteConfig) (zoom : pyval) :
  caches_sound s -> caches_sound s' -> core s' = core s ->
  fst (area_at_zoom zoom s') = fst (area_at_zoom zoom s).
Proof.
  intros Hs Hs' Hcore.
  destruct (area_at_zoom_value Hs) as [zs [reg [ib [Hz [Hreg [Hib H]]]]]].
  destruct (area_at_zoom_value Hs')
    as [zs' [reg' [ib' [Hz' [Hreg' [Hib' H']]]]]].
  destruct (core_fields Hcore) as [_ [_ [_ [Ez [Eib Ereg]]]]].
  assert (zs' = zs) by congruence. assert (reg' = reg) by congruence.
  assert (ib' = ib) by congruence. subst.
  destruct (H zoom) as [-> _]. destruct (H' zoom) as [-> _].
  now apply core_area_value.
Qed.

Lemma bounds_at_zoom_value (c : MapcheteConfig) (zoom : pyval) :
  caches_sound c ->
  fst (bounds_at_zoom zoom c)
  = (a <- fst (area_at_zoom zoom c) ;;
     Ok (if geom_is_empty a then None else Some (geom_bounds a))).
Proof.
  intros Hs.
  destruct (caches_sound_area_at_zoom zoom Hs) as [Hs1 Hcore].
  pose proof (area_at_zoom_core zoom Hs Hs1 Hcore) as Hsame.
  unfold bounds_at_zoom, bind.
  destruct (area_at_zoom zoom c) as [[a | e] s1] eqn:Hfirst;
    cbn [fst snd rbind] in *; [| reflexivity].
  destruct (geom_is_empty a); [reflexivity |].
  destruct (area_at_zoom zoom s1) as [[a' | e] s2];
    cbn [fst] in Hsame; [| discriminate].
  injection Hsame as ->. reflexivity.
Qed.

(** X12. For every configuration, in every state it reaches, and every
    argument [zoom]: [bounds_at_zoom(zoom)] raises what
    [area_at_zoom(zoom)] raises; where the area is empty it returns the
    empty tuple, and otherwise the bounds of that very area: the second
    call of [area_at_zoom] it makes returns what the first returned. *)
Theorem bounds_at_zoom_of_area (c : MapcheteConfig) (zoom : pyval) :
  reachable c ->
  fst (bounds_at_zoom zoom c)
  = (a <- fst (area_at_zoom zoom c) ;;
     Ok (if geom_is_empty a then None else Some (geom_bounds a))).
Proof.
  intros Hreach. apply bounds_at_zoom_value.
  now apply reachable_caches_sound.
Qed.

Lemma min_max_requested (l : list pyval) (lo hi : Z) :
  (length l <= 2)%nat ->
  py_min l = Ok (PInt lo) -> py_max l = Ok (PInt hi) ->
  requested_zooms (PList l) = Some (py_range lo (hi + 1)).
Proof.
  intros Hlen Hmin Hmax.
  destruct l as [| x [| y [| z l]]]; [discriminate | | | cbn in Hlen; lia].
  - cbn in Hmin, Hmax. injection Hmin as ->. injection Hmax as <-.
    cbn [requested_zooms]. f_equal. unfold py_range.
    replace (Z.to_nat (lo + 1 - lo)) with 1%nat by lia. cbn. f_equal. lia.
  - destruct x as [| a | s | l | d | i]; destruct y as [| b | t | m | e | j];
      try discriminate Hmin.
    + rewrite py_min_pair in Hmin. rewrite py_max_pair in Hmax.
      injection Hmin as <-. injection Hmax as <-. reflexivity.
    + cbn [py_min py_min_from py_lt rbind] in Hmin.
      destruct (String.ltb t s); discriminate.
    + unfold py_min, py_min_from in Hmin.
      destruct (py_lt (PList m) (PList l)) as [[] |];
        cbn [rbind] in Hmin; discriminate.
Qed.

(** X13. Whenever construction succeeds, the object is initialized
    either with the process zoom levels, where the [zoom] argument is
    [None], or with the levels the argument asks for: the one level of
    an integer, or every level between the smallest and the largest
    member of a list of one or two integers, whatever their order; and
    these levels are all process zoom levels.  No other argument
    constructs an object. *)
Theorem zoom_argument_selects_levels (input_config zoom bounds : pyval)
  (mode : string) (c : MapcheteConfig) :
  __init__ input_config zoom bounds mode = Ok c ->
  exists declared zs,
    fst (zoom_levels c) = Ok declared /\
    fst (init_zoom_levels c) = Ok zs /\
    if is_none zoom then zs = declared
    else requested_zooms zoom = Some zs /\ incl zs declared.
Proof.
  intros H.
  destruct (init_zooms_sound _ _ _ _ H)
    as [declared [zs [Hz [Hiz [_ [Hincl _]]]]]].
  exists declared, zs.
  rewrite (zoom_levels_stored _ Hz), (init_zoom_levels_stored _ Hiz).
  split; [reflexivity |]. split; [reflexivity |].
  destruct (init_states _ _ _ _ H)
    as [s0 [declared' [zs' [pz [w [s3 [reg [s' [Hpre [Hdecl [Hzs [_
         [Hw [_ [-> Hframe]]]]]]]]]]]]]]].
  destruct (preamble_inv _ _ _ _ Hpre)
    as [Hraw [_ [_ [_ [_ [_ [Hz0 [Hiz0 _]]]]]]]].
  destruct (raw_document_init _ _ _ Hraw) as [Hzoom _].
  destruct (init_zoom_levels_fresh _ Hz0 Hiz0 Hzs)
    as [declared'' [iz [Hdecl' [Hizraw [_ Hshape]]]]].
  rewrite Hzoom in Hizraw. injection Hizraw as <-.
  rewrite Hdecl in Hdecl'. injection Hdecl' as <-.
  set (s2 := set_params_at_zoom pz _) in *.
  assert (K3 : forall F (f : MapcheteConfig -> F),
             (forall v s, f (set_raw v s) = f s) ->
             (forall v s, f (set_params_at_zoom v s) = f s) ->
             (forall v s, f (set_output_slot v s) = f s) ->
             f s3 = f s2).
  { intros F f H1 H2 H3.
    pose proof (@keeps_output E F f H1 H2 H3 s2) as K.
    now rewrite Hw in K. }
  cbn [zoom_levels_slot init_zoom_levels_slot set_input_slot] in Hz, Hiz.
  rewrite (Hframe _ zoom_levels_slot ltac:(kept) ltac:(kept)) in Hz.
  rewrite (Hframe _ init_zoom_levels_slot ltac:(kept) ltac:(kept)) in Hiz.
  rewrite (K3 _ zoom_levels_slot ltac:(kept) ltac:(kept) ltac:(kept)) in Hz.
  rewrite (K3 _ init_zoom_levels_slot ltac:(kept) ltac:(kept) ltac:(kept))
    in Hiz.
  cbn in Hz, Hiz. injection Hz as <-. injection Hiz as <-.
  destruct zoom as [| z | | l | |]; cbn [is_none]; try contradiction.
  - assumption.
  - destruct Hshape as [-> _]. now split.
  - destruct Hshape as [Hlen [lo [hi [Hmin [Hmax [-> _]]]]]].
    split; [| assumption]. now apply min_max_requested.
Qed.

(** X14. Once the document has passed the steps before the zoom levels
    are read, a malformed [zoom] argument fails construction: the empty
    list with the [ValueError] of [min] of an empty sequence, which is
    not turned into a configuration error; a list of more than two
    members, a string, a mapping or any other object with the
    configuration error on init zooms that are not properly
    formatted. *)
Theorem malformed_zoom_argument (input_config zoom bounds : pyval)
  (mode : string) (s0 : MapcheteConfig) :
  preamble input_config zoom bounds mode = Ok s0 ->
  (zoom = PList [] ->
   __init__ input_config zoom bounds mode
   = Raise (ValueError "min() arg is an empty sequence")) /\
  (is_none zoom = false -> (forall z, zoom <> PInt z) ->
   (forall l, zoom = PList l -> (2 < length l)%nat) ->
   __init__ input_config zoom bounds mode = Raise zoom_format_error).
Proof.
  intros Hpre.
  destruct (preamble_inv _ _ _ _ Hpre)
    as [Hraw [_ [_ [_ [_ [_ [Hz0 [Hiz0 _]]]]]]]].
  destruct (raw_document_init _ _ _ Hraw) as [Hzoom _].
  assert (Hrun : forall e,
             ((raw <~ attr _raw ;;
                         iz <~ lift (dict_getitem raw "init_zoom_levels") ;;
                         match iz with
                         | PNone => zoom_levels
                         | PInt z =>
                             zooms <~ zoom_levels ;;
                             if negb (zoom_in z zooms)
                             then raise zoom_subset_error
                             else ret [z]
                         | PList l =>
                             if Nat.leb (length l) 2 then
                               lo <~ lift (py_min l) ;;
                               zooms <~ zoom_levels ;;
                               hi <~ lift (py_max l) ;;
                               match lo, hi with
                               | PInt a, PInt b =>
                                   if negb (zoom_in a zooms)
                                      || negb (zoom_in b zooms)
                                   then raise zoom_subset_error
                                   else ret (py_range a (b + 1))
                               | _, _ => raise zoom_subset_error
                               end
                             else raise zoom_format_error
                         | _ => raise zoom_format_error
                         end) s0 = (Raise e, s0)) ->
             __init__ input_config zoom bounds mode = Raise e).
  { intros e Hbody. unfold __init__. rewrite Hpre. cbn [rbind].
    unfold initialize. unfold bind at 1.
    unfold init_zoom_levels, cached_property. rewrite Hiz0.
    now rewrite Hbody. }
  split.
  - intros ->. apply Hrun.
    unfold bind, attr, lift, dict_getitem. rewrite Hzoom. cbn.
    reflexivity.
  - intros Hnone Hint Hlist. apply Hrun.
    unfold bind at 1, attr. unfold bind at 1, lift, dict_getitem.
    rewrite Hzoom.
    destruct zoom as [| z | | l | |]; try reflexivity.
    + discriminate.
    + now destruct (Hint z).
    + specialize (Hlist l eq_refl).
      destruct (Nat.leb_spec (length l) 2); [lia | reflexivity].
Qed.

(** The first read of [bounds]. *)
Lemma bounds_fresh (s s1 : MapcheteConfig) (pb : Bounds) :
  bounds_slot s = None -> bounds s = (Ok pb, s1) ->
  exists rb,
    dict_get (_raw s) "bounds" = Some rb /\
    s1 = set_bounds_slot pb s /\
    if is_none rb then pb = pyramid_bounds (process_pyramid s)
    else _validate_bounds rb = Ok pb.
Proof.
  intros Hslot H.
  apply cached_fresh in H; [| assumption]. destruct H as [s2 [H ->]].
  unfold bind at 1, attr in H. unfold bind at 1, lift, dict_getitem in H.
  destruct (dict_get (_raw s) "bounds") as [rb |]; [| discriminate].
  exists rb. split; [reflexivity |].
  destruct (is_none rb).
  - cbn in H. injection H as <- <-. now split.
  - unfold lift in H. injection H as H <-. now split.
Qed.

(** The first read of [init_bounds], [bounds] not read before. *)
Lemma init_bounds_fresh (s s1 : MapcheteConfig) (ib : Bounds) :
  bounds_slot s = None -> init_bounds_slot s = None ->
  init_bounds s = (Ok ib, s1) ->
  exists b,
    dict_get (_raw s) "init_bounds" = Some b /\
    if is_none b
    then bounds s = (Ok ib, set_bounds_slot ib s) /\
         s1 = set_init_bounds_slot ib (set_bounds_slot ib s)
    else _validate_bounds b = Ok ib /\ s1 = set_init_bounds_slot ib s.
Proof.
  intros Hb Hslot H.
  apply cached_fresh in H; [| assumption]. destruct H as [s2 [H ->]].
  unfold bind at 1, attr in H. unfold bind at 1, lift, dict_getitem in H.
  destruct (dict_get (_raw s) "init_bounds") as [b |]; [| discriminate].
  exists b. split; [reflexivity |].
  destruct (is_none b).
  - destruct (bounds_fresh _ Hb H) as [rb [_ [-> _]]]. now split.
  - unfold lift in H. injection H as H <-. now split.
Qed.

(** The reads of the body of [input], and its two loops. *)
Lemma input_trace (s c : MapcheteConfig) (zs : list Z) (reg : registry) :
  input_slot s = None -> init_zoom_levels_slot s = Some zs ->
  input s = (Ok reg, c) ->
  exists ib pb s1 s2 raws,
    init_bounds s = (Ok ib, s1) /\ bounds s1 = (Ok pb, s2) /\
    c = set_input_slot reg s2 /\
    raw_inputs_of (_params_at_zoom s2) zs [] = Ok raws /\
    initialize_inputs s2
      {| delim_zoom := zs; delim_bounds := ib; delim_process_bounds := pb |}
      raws [] = Ok reg.
Proof.
  intros Hin Hiz H.
  apply cached_fresh in H; [| assumption]. destruct H as [s5 [Hbody ->]].
  apply bind_ok in Hbody. destruct Hbody as [zs' [s3a [Hzs' Hbody]]].
  rewrite (init_zoom_levels_stored _ Hiz) in Hzs'. injection Hzs' as <- <-.
  apply bind_ok in Hbody. destruct Hbody as [ib [s3b [Hib Hbody]]].
  apply bind_ok in Hbody. destruct Hbody as [pb [s3c [Hpb Hbody]]].
  apply bind_ok in Hbody. destruct Hbody as [params [s3d [Hparams Hbody]]].
  injection Hparams as <- <-.
  apply bind_ok in Hbody. destruct Hbody as [raws [s3d [Hraws Hbody]]].
  unfold lift in Hraws. injection Hraws as Hraws <-.
  injection Hbody as Hinit <-.
  now exists ib, pb, s3b, s3c, raws.
Qed.

(** X15. Whenever construction succeeds, the process bounds are those
    under "bounds" of the document, validated, or the bounds of the
    process pyramid where the document has [None] there; and the object
    is initialized with the [bounds] argument, validated, or with the
    process bounds where the argument is [None].  The argument is not
    compared with the process bounds. *)
Theorem bounds_argument_selects_bounds (input_config zoom bounds_arg : pyval)
  (mode : string) (c : MapcheteConfig) :
  __init__ input_config zoom bounds_arg mode = Ok c ->
  exists rb pb ib,
    dict_get (_raw c) "bounds" = Some rb /\
    bounds c = (Ok pb, c) /\ init_bounds c = (Ok ib, c) /\
    (if is_none rb then pb = pyramid_bounds (process_pyramid c)
     else _validate_bounds rb = Ok pb) /\
    (if is_none bounds_arg then ib = pb
     else _validate_bounds bounds_arg = Ok ib).
Proof.
  intros H.
  destruct (init_states _ _ _ _ H)
    as [s0 [declared [zs [pz [w [s3 [reg [s' [Hpre [Hdecl [Hzs [_
         [Hw [Hreg [Hc _]]]]]]]]]]]]]]].
  destruct (preamble_inv _ _ _ _ Hpre)
    as [Hraw [_ [_ [_ [_ [_ [_ [_ [Hb0 [Hib0 [Hout0 [Hin0 _]]]]]]]]]]]].
  destruct (raw_document_init _ _ _ Hraw) as [_ Hbounds].
  set (s2 := set_params_at_zoom pz _) in *.
  assert (Hout2 : output_slot s2 = None) by exact Hout0.
  destruct (output_fresh _ Hout2 Hw) as [o [out [fmt [_ [_ [Hraw3 _]]]]]].
  assert (K3 : forall F (f : MapcheteConfig -> F),
             (forall v s, f (set_raw v s) = f s) ->
             (forall v s, f (set_params_at_zoom v s) = f s) ->
             (forall v s, f (set_output_slot v s) = f s) ->
             f s3 = f s2).
  { intros F f H1 H2 H3.
    pose proof (@keeps_output E F f H1 H2 H3 s2) as K.
    now rewrite Hw in K. }
  assert (Hb3 : bounds_slot s3 = None)
    by (rewrite (K3 _ bounds_slot ltac:(kept) ltac:(kept) ltac:(kept));
        exact Hb0).
  assert (Hib3 : init_bounds_slot s3 = None)
    by (rewrite (K3 _ init_bounds_slot ltac:(kept) ltac:(kept) ltac:(kept));
        exact Hib0).
  assert (Hin3 : input_slot s3 = None)
    by (rewrite (K3 _ input_slot ltac:(kept) ltac:(kept) ltac:(kept));
        exact Hin0).
  assert (Hiz3 : init_zoom_levels_slot s3 = Some zs)
    by (rewrite (K3 _ init_zoom_levels_slot ltac:(kept) ltac:(kept)
                   ltac:(kept)); reflexivity).
  assert (Hinit3 : dict_get (_raw s3) "init_bounds" = Some bounds_arg)
    by (rewrite Hraw3 by discriminate; exact Hbounds).
  destruct (input_trace _ Hin3 Hiz3 Hreg)
    as [ib [pb [s4 [s5 [raws [Hib [Hpb [Hc' _]]]]]]]].
  destruct (init_bounds_fresh _ Hb3 Hib3 Hib) as [b [Hb Hcase]].
  rewrite Hinit3 in Hb. injection Hb as <-.
  assert (Hfinal : exists rb,
             dict_get (_raw s3) "bounds" = Some rb /\
             bounds_slot s5 = Some pb /\ init_bounds_slot s5 = Some ib /\
             _raw s5 = _raw s3 /\ process_pyramid s5 = process_pyramid s3 /\
             (if is_none rb then pb = pyramid_bounds (process_pyramid s3)
              else _validate_bounds rb = Ok pb) /\
             (if is_none bounds_arg then ib = pb
              else _validate_bounds bounds_arg = Ok ib)).
  { destruct (is_none bounds_arg).
    - destruct Hcase as [Hrun ->].
      destruct (bounds_fresh _ Hb3 Hrun) as [rb [Hrb [_ Hval]]].
      assert (Hst : bounds (set_init_bounds_slot ib (set_bounds_slot ib s3))
                    = (Ok ib, set_init_bounds_slot ib (set_bounds_slot ib s3)))
        by (apply cached_stored; reflexivity).
      rewrite Hst in Hpb. injection Hpb as <- <-.
      exists rb. repeat split; assumption.
    - destruct Hcase as [Hval ->].
      assert (Hb4 : bounds_slot (set_init_bounds_slot ib s3) = None)
        by exact Hb3.
      destruct (bounds_fresh _ Hb4 Hpb) as [rb [Hrb [-> Hvalb]]].
      exists rb. repeat split; assumption. }
  destruct Hfinal as [rb [Hrb [Hpbs [Hibs [Hraw5 [Hpyr5 [Hv1 Hv2]]]]]]].
  clear Hc. subst c. exists rb, pb, ib.
  cbn [_raw process_pyramid set_input_slot].
  rewrite Hraw5, Hpyr5. repeat split; try assumption.
  - apply cached_stored. exact Hpbs.
  - apply cached_stored. exact Hibs.
Qed.

(* ===================================================================== *)
(** ** The output mapping of the document *)
(* ===================================================================== *)

Lemma str_in_spec (s : string) (l : list string) :
  str_in s l = true <-> In s l.
Proof.
  unfold str_in. rewrite existsb_exists. split.
  - intros [x [Hin Heq]]. apply String.eqb_eq in Heq. now subst.
  - intros Hin. exists s. split; [assumption | apply String.eqb_refl].
Qed.

Lemma output_document_built (input_config zoom bounds_arg : pyval)
  (mode : string) (c : MapcheteConfig) :
  __init__ input_config zoom bounds_arg mode = Ok c ->
  exists out fmt path w,
    dict_get (_raw c) "output" = Some (PDict out) /\
    dict_get out "format" = Some (PStr fmt) /\
    In fmt available_output_formats /\
    dict_get out "type" = Some (pyramid_type (output_pyramid c)) /\
    dict_get out "pixelbuffer"
    = Some (pyramid_pixelbuffer (output_pyramid c)) /\
    dict_get out "metatiling"
    = Some (pyramid_metatiling (output_pyramid c)) /\
    dict_get out "path" = Some path /\
    (path = PNone \/ exists abs, path = PStr abs) /\
    output_slot c = Some w /\ load_output_writer out = Ok w.
Proof.
  intros H.
  destruct (init_states _ _ _ _ H)
    as [s0 [declared [zs [pz [w [s3 [reg [s' [Hpre [Hdecl [Hzs [_
         [Hw [Hreg [-> Hframe]]]]]]]]]]]]]]].
  destruct (preamble_inv _ _ _ _ Hpre)
    as [_ [_ [_ [_ [_ [_ [_ [_ [_ [_ [Hout0 _]]]]]]]]]]].
  set (s2 := set_params_at_zoom pz _) in *.
  assert (Hout2 : output_slot s2 = None) by exact Hout0.
  destruct (output_fresh _ Hout2 Hw)
    as [o [out [fmt [_ [Hout [_ [Hpath [Htype [Hpb [Hmt [_ [Hfmt
         [Hav Hload]]]]]]]]]]]]].
  assert (Hpyr : output_pyramid s3 = output_pyramid s2).
  { pose proof (@keeps_output E _ output_pyramid ltac:(kept) ltac:(kept)
                  ltac:(kept) s2) as K.
    now rewrite Hw in K. }
  assert (Hpath' : exists path,
             dict_get out "path" = Some path /\
             (path = PNone \/ exists abs, path = PStr abs)).
  { destruct (dict_get o "path") as [p |].
    - destruct Hpath as [abs [_ Hp]]. exists (PStr abs).
      split; [assumption | right; now exists abs].
    - exists PNone. split; [assumption | now left]. }
  destruct Hpath' as [path [Hp Hshape]].
  exists out, fmt, path, w.
  cbn [_raw output_pyramid output_slot set_input_slot].
  rewrite (Hframe _ _raw ltac:(kept) ltac:(kept)).
  rewrite (Hframe _ output_pyramid ltac:(kept) ltac:(kept)).
  rewrite (Hframe _ output_slot ltac:(kept) ltac:(kept)).
  rewrite Hpyr. repeat split; try assumption.
  - now apply str_in_spec.
  - now apply output_ok in Hw.
Qed.

Lemma output_document_reached (c : MapcheteConfig) :
  reachable c ->
  exists out fmt path w,
    dict_get (_raw c) "output" = Some (PDict out) /\
    dict_get out "format" = Some (PStr fmt) /\
    In fmt available_output_formats /\
    dict_get out "type" = Some (pyramid_type (output_pyramid c)) /\
    dict_get out "pixelbuffer"
    = Some (pyramid_pixelbuffer (output_pyramid c)) /\
    dict_get out "metatiling"
    = Some (pyramid_metatiling (output_pyramid c)) /\
    dict_get out "path" = Some path /\
    (path = PNone \/ exists abs, path = PStr abs) /\
    output_slot c = Some w /\ load_output_writer out = Ok w.
Proof.
  revert c. apply reachable_core_invariant.
  - intros s s' Hcore Hs.
    destruct (core_all_fields Hcore)
      as [Hraw [_ [_ [_ [Hop [_ [_ [_ [_ [_ [_ [Hout _]]]]]]]]]]]].
    now rewrite Hraw, Hop, Hout.
  - exact output_document_built.
Qed.

(** X16. For every configuration, in every state it reaches, the
    mapping under "output" of the document the object holds has been
    completed by the constructor: its "type", "pixelbuffer" and
    "metatiling" are those of the output pyramid, its "path" is [None]
    or a string, its "format" names one of the available output
    formats, and reading [output] returns the writer that was loaded
    from this mapping, and leaves the object as it is. *)
Theorem constructed_output_document (c : MapcheteConfig) :
  reachable c ->
  exists out fmt path w,
    dict_get (_raw c) "output" = Some (PDict out) /\
    dict_get out "format" = Some (PStr fmt) /\
    In fmt available_output_formats /\
    dict_get out "type" = Some (pyramid_type (output_pyramid c)) /\
    dict_get out "pixelbuffer"
    = Some (pyramid_pixelbuffer (output_pyramid c)) /\
    dict_get out "metatiling"
    = Some (pyramid_metatiling (output_pyramid c)) /\
    dict_get out "path" = Some path /\
    (path = PNone \/ exists abs, path = PStr abs) /\
    output c = (Ok w, c) /\ load_output_writer out = Ok w.
Proof.
  intros Hreach.
  destruct (output_document_reached Hreach)
    as [out [fmt [path [w [H1 [H2 [H3 [H4 [H5 [H6 [H7 [H8 [H9 H10]]]]]]]]]]]]].
  exists out, fmt, path, w. repeat split; try assumption.
  now apply cached_stored.
Qed.

(* ===================================================================== *)
(** ** The snapshot of a zoom level *)
(* ===================================================================== *)

Lemma dereference_stored (reg : registry) (s : MapcheteConfig)
  (flat : list (string * pyval)) :
  input_slot s = Some reg ->
  forall flat_inputs,
    dereference flat flat_inputs s
    = (dereference_in reg flat flat_inputs, s).
Proof.
  intros Hreg. induction flat as [| [k v] flat IH]; intros acc.
  - reflexivity.
  - cbn [dereference dereference_in]. destruct (is_none v); [apply IH |].
    unfold bind, lift. rewrite (input_stored _ Hreg).
    destruct (get_hash v) as [h | e]; cbn [rbind]; [| reflexivity].
    destruct (kd_get identity_eqb reg h) as [obj |]; [apply IH | reflexivity].
Qed.

(** [params_at_zoom] on an object that has stored its initialized zoom
    levels and its inputs: the value, and the object as it was. *)
Lemma params_at_zoom_value (c : MapcheteConfig) (zooms : list Z)
  (reg : registry) (zoom : Z) :
  init_zoom_levels_slot c = Some zooms -> input_slot c = Some reg ->
  params_at_zoom zoom c
  = (snapshot_value (_params_at_zoom c) zooms reg zoom, c).
Proof.
  intros Hz Hreg. unfold params_at_zoom, snapshot_value, bind.
  rewrite (init_zoom_levels_stored _ Hz).
  destruct (negb (zoom_in zoom zooms)); [reflexivity |].
  unfold attr.
  destruct (kd_get Z.eqb (_params_at_zoom c) zoom) as [params |];
    [| reflexivity].
  destruct (dict_get params "input") as [input_at_zoom |]; [| reflexivity].
  unfold lift.
  destruct (flatten_input input_at_zoom) as [flat | e]; cbn [rbind];
    [| reflexivity].
  rewrite (@dereference_stored reg c flat Hreg).
  destruct (dereference_in reg flat []) as [flat_inputs | e]; cbn [rbind];
    [| reflexivity].
  now destruct (_unflatten_tree flat_inputs).
Qed.

Lemma in_dict_set_other {V} (d : list (string * V)) (k k' : string)
  (v v' : V) :
  k' <> k -> In (k', v') d -> In (k', v') (dict_set d k v).
Proof.
  intros Hne. induction d as [| [k0 v0] d IH]; [intros [] |].
  cbn [dict_set]. destruct (String.eqb_spec k k0) as [-> | Hk].
  - intros [Heq | Hin]; [congruence | now right].
  - intros [Heq | Hin]; [now left | right; now apply IH].
Qed.

Lemma in_dict_set_back {V} (d : list (string * V)) (k k' : string)
  (v v' : V) :
  k' <> k -> In (k', v') (dict_set d k v) -> In (k', v') d.
Proof.
  intros Hne. induction d as [| [k0 v0] d IH].
  - cbn. intros [Heq | []]. congruence.
  - cbn [dict_set]. destruct (String.eqb_spec k k0) as [-> | Hk].
    + intros [Heq | Hin]; [congruence | now right].
    + intros [Heq | Hin]; [now left | right; now apply IH].
Qed.

(** Reading [output] keeps every entry of the raw document that is not
    the one of "output", and adds none. *)
Lemma raw_entries_output :
  respects (fun s s' => forall name el,
                name <> "output" ->
                (In (name, el) (_raw s) <-> In (name, el) (_raw s')))
    output.
Proof.
  apply respects_output.
  - intros s name el _. reflexivity.
  - intros s t u Hst Htu name el Hne.
    now rewrite (Hst name el Hne), (Htu name el Hne).
  - intros op k v s name el Hne. rewrite update_output_params_run.
    cbn [snd _raw set_params_at_zoom set_raw]. split.
    + now apply in_dict_set_other.
    + now apply in_dict_set_back.
  - intros v s name el _. reflexivity.
Qed.

(** Every element of the document the zoom filter does not drop has its
    key in the parameters. *)
Lemma params_at_complete (zoom : Z) (config : dict) :
  forall params out,
    params_at config zoom params = Ok out ->
    (forall name, dict_in name params = true -> dict_in name out = true) /\
    (forall name element v,
        In (name, element) config ->
        str_in name _RESERVED_PARAMETERS = false ->
        _element_at_zoom name element zoom = Ok v -> v <> PNone ->
        dict_in name out = true).
Proof.
  induction config as [| [k el] config IH]; intros params out H.
  - cbn in H. injection H as <-. split; [tauto | intros ? ? ? []].
  - cbn [params_at] in H.
    destruct (str_in k _RESERVED_PARAMETERS) eqn:Hres; cbn [negb] in H.
    { destruct (IH _ _ H) as [H1 H2]. split; [assumption |].
      intros name element v [Heq | Hin] Hr Hel Hv;
        [injection Heq as <- <-; congruence | now apply (H2 name element v)]. }
    destruct (_element_at_zoom k el zoom) as [r | e] eqn:Hr; [| discriminate].
    cbn [rbind] in H.
    destruct (is_none r) eqn:Hnone; cbn [negb] in H.
    { destruct (IH _ _ H) as [H1 H2]. split; [assumption |].
      intros name element v [Heq | Hin] Hres' Hel Hv;
        [| now apply (H2 name element v)].
      injection Heq as <- <-. rewrite Hr in Hel. injection Hel as <-.
      destruct r; try discriminate. congruence. }
    destruct (IH _ _ H) as [H1 H2]. split.
    + intros name Hin. apply H1.
      destruct (String.eqb_spec name k) as [-> | Hne];
        [apply dict_in_set | now rewrite dict_in_set_other].
    + intros name element v [Heq | Hin] Hres' Hel Hv;
        [| now apply (H2 name element v)].
      injection Heq as <- <-. apply H1, dict_in_set.
Qed.

Lemma init_params_sound (input_config zoom bounds_arg : pyval)
  (mode : string) (c : MapcheteConfig) :
  __init__ input_config zoom bounds_arg mode = Ok c -> params_sound c.
Proof.
  intros H.
  destruct (init_states _ _ _ _ H)
    as [s0 [declared [zs [pz [w [s3 [reg [s' [Hpre [Hdecl [Hzs [Hpz
         [Hw [Hreg [-> Hframe]]]]]]]]]]]]]]].
  set (s2 := set_params_at_zoom pz _) in *.
  pose proof (params_kept_output s2) as Hkept. rewrite Hw in Hkept.
  cbn [snd] in Hkept.
  pose proof (raw_entries_output s2) as Hraw. rewrite Hw in Hraw.
  cbn [snd] in Hraw.
  intros z params name Hp Hne.
  cbn [_params_at_zoom _raw set_input_slot] in Hp |- *.
  rewrite (Hframe _ _params_at_zoom ltac:(kept) ltac:(kept)) in Hp.
  rewrite (Hframe _ _raw ltac:(kept) ltac:(kept)).
  specialize (Hkept z). cbn [_params_at_zoom s2 set_params_at_zoom] in Hkept.
  destruct (kd_get Z.eqb pz z) as [p |] eqn:Hpz'; [| congruence].
  destruct Hkept as [p' [Hp' Hsame]].
  rewrite Hp' in Hp. injection Hp as <-.
  destruct (raw_at_zooms_spec _ _ _ Hpz z) as [_ Hspec].
  destruct (Hspec p Hpz') as [Hrun | [_ Hacc]]; [| discriminate].
  split.
  - intros v Hv. rewrite (Hsame name Hne) in Hv.
    destruct (@params_at_spec z (_raw s0) (_raw s0) [] p (incl_refl _)
                ltac:(discriminate) Hrun name v Hv)
      as [Hres [Hnone [el [Hin Hel]]]].
    repeat split; try assumption.
    exists el. split; [| assumption].
    apply (Hraw name el Hne). exact Hin.
  - intros element v Hin Hres Hel Hv.
    apply (Hraw name element Hne) in Hin.
    destruct (params_at_complete _ _ _ Hrun) as [_ Hall].
    specialize (Hall name element v Hin Hres Hel Hv).
    unfold dict_in in *. now rewrite (Hsame name Hne).
Qed.

Lemma reachable_params_sound (c : MapcheteConfig) :
  reachable c -> params_sound c.
Proof.
  apply reachable_core_invariant.
  - intros s s' Hcore Hs.
    destruct (core_all_fields Hcore) as [Hraw [_ [_ [_ [_ [_ [Hp _]]]]]]].
    unfold params_sound. rewrite Hraw, Hp. exact Hs.
  - exact init_params_sound.
Qed.

Lemma element_at_zoom_input (d : dict) (zoom : Z) (r : pyval) :
  _element_at_zoom "input" (PDict d) zoom = Ok r ->
  r = PNone \/ exists tree, r = PDict tree.
Proof.
  cbn [_element_at_zoom]. destruct (dict_in "format" d).
  - intros H. injection H as <-. right. now exists d.
  - match goal with
    | |- (out_elements <- ?m ;; _) = _ -> _ => destruct m as [out |]
    end; cbn [rbind]; [| discriminate].
    intros H. injection H as <-. unfold collapse.
    rewrite String.eqb_refl, andb_false_r.
    destruct (Nat.eqb (length out) 0); [now left | right; now exists out].
Qed.

Lemma built_slots (c : MapcheteConfig) :
  reachable c ->
  exists zooms reg,
    init_zoom_levels_slot c = Some zooms /\ input_slot c = Some reg /\
    registry_built c zooms reg.
Proof.
  intros Hreach. apply reachable_built in Hreach.
  destruct Hreach as [_ H]. exact H.
Qed.

(** X17. For every configuration, in every state it reaches, and every
    zoom level [z] for which [params_at_zoom(z)] returns: the object is
    left as it is; the snapshot has a mapping under "input"; and its
    keys other than "input" and "output" are the keys of the document
    that are no reserved parameter and whose element the zoom filter
    does not turn into [None] at [z], each bound to what the zoom filter
    returns for an element the document has under that key. *)
Theorem snapshot_is_filtered_document (c : MapcheteConfig) (z : Z)
  (snapshot : dict) :
  reachable c -> fst (params_at_zoom z c) = Ok snapshot ->
  snd (params_at_zoom z c) = c /\
  (exists tree, dict_get snapshot "input" = Some (PDict tree)) /\
  (forall name v,
      name <> "input" -> name <> "output" ->
      dict_get snapshot name = Some v ->
      str_in name _RESERVED_PARAMETERS = false /\ v <> PNone /\
      exists element,
        In (name, element) (_raw c) /\
        _element_at_zoom name element z = Ok v) /\
  (forall name element v,
      name <> "output" -> In (name, element) (_raw c) ->
      str_in name _RESERVED_PARAMETERS = false ->
      _element_at_zoom name element z = Ok v -> v <> PNone ->
      dict_in name snapshot = true).
Proof.
  intros Hreach Hsnap.
  destruct (built_slots Hreach) as [zooms [reg [Hz [Hreg _]]]].
  pose proof (reachable_params_sound Hreach) as Hsound.
  rewrite (@params_at_zoom_value c zooms reg z Hz Hreg) in Hsnap |- *.
  cbn [fst snd] in Hsnap |- *. split; [reflexivity |].
  unfold snapshot_value in Hsnap.
  destruct (negb (zoom_in z zooms)); [discriminate |].
  destruct (kd_get Z.eqb (_params_at_zoom c) z) as [params |] eqn:Hp;
    [| discriminate].
  assert (Hshape : exists tree,
             snapshot = dict_set (dict_set params "input" (PDict []))
                          "input" (PDict tree)).
  { destruct (dict_get params "input") as [input_at_zoom |].
    - destruct (flatten_input input_at_zoom) as [flat |]; cbn [rbind] in Hsnap;
        [| discriminate].
      destruct (dereference_in reg flat []) as [fi |]; cbn [rbind] in Hsnap;
        [| discriminate].
      destruct (_unflatten_tree fi) as [tree |]; cbn [rbind] in Hsnap;
        [| discriminate].
      injection Hsnap as <-. now exists tree.
    - injection Hsnap as <-. now exists []. }
  destruct Hshape as [tree ->]. split; [| split].
  - exists tree. apply dict_get_set_same.
  - intros name v Hin Hout Hv.
    rewrite !dict_get_set_other in Hv by assumption.
    destruct (Hsound z params name Hp Hout) as [H1 _]. now apply H1.
  - intros name element v Hout Hin Hres Hel Hv.
    destruct (String.eqb_spec name "input") as [-> | Hne];
      [apply dict_in_set |].
    rewrite !dict_in_set_other by assumption.
    destruct (Hsound z params name Hp Hout) as [_ H2].
    now apply (H2 element v).
Qed.

(* ===================================================================== *)
(** ** The baselevels *)
(* ===================================================================== *)

(** [baselevels] on an object that has stored its zoom levels. *)
Lemma baselevels_run (c : MapcheteConfig) (zooms : list Z) :
  zoom_levels_slot c = Some zooms ->
  baselevels c
  = match baselevels_slot c with
    | Some v => (Ok v, c)
    | None =>
        match baselevels_value (_raw c) zooms (output_pyramid c)
                (process_pyramid c) with
        | Ok v => (Ok v, set_baselevels_slot v c)
        | Raise e => (Raise e, c)
        end
    end.
Proof.
  intros Hz. unfold baselevels, cached_property.
  destruct (baselevels_slot c); [reflexivity |].
  unfold baselevels_value, bind at 1, attr.
  destruct (dict_get (_raw c) "baselevels") as [[| | | | bl |] |];
    try reflexivity.
  destruct (is_empty _); [reflexivity |].
  destruct (existsb _ _); [reflexivity |].
  unfold bind, lift. rewrite (zoom_levels_stored _ Hz).
  destruct (zooms_min zooms) as [lo |]; cbn [rbind]; [| reflexivity].
  rewrite (zoom_levels_stored _ Hz).
  destruct (zooms_max zooms) as [hi |]; cbn [rbind]; [| reflexivity].
  destruct (dict_get_default _ "min" _); try reflexivity.
  destruct (dict_get_default _ "max" _); try reflexivity.
  unfold attr.
  now destruct (BufferedTilePyramid _ _ _).
Qed.

(* ===================================================================== *)
(** ** What a caller sees of the object *)
(* ===================================================================== *)

Lemma ready_surface (s s' : MapcheteConfig) :
  surface s' = surface s -> ready s' = ready s.
Proof.
  intros H. apply ready_core. exact (f_equal fst H).
Qed.

(** Every method but the read of [baselevels] leaves the core of a ready
    object and its stored baselevels as they are. *)
Lemma surface_after (m : method) (s : MapcheteConfig) :
  ready s = true -> m <> get_baselevels ->
  surface (after m s) = surface s.
Proof.
  intros Hr Hm. destruct m; cbn [after]; try congruence.
  - now apply (@stable_zoom_levels E _ surface).
  - now apply (@stable_init_zoom_levels E _ surface).
  - now apply (@stable_bounds E _ surface).
  - now apply (@stable_init_bounds E _ surface).
  - now apply (@stable_output E _ surface).
  - now apply (@stable_input E _ surface).
  - now apply (@stable_params_at_zoom E _ surface ready_surface).
  - apply (@stable_area_at_zoom E _ surface ready_surface);
      [reflexivity .. | assumption].
  - apply (@stable_bounds_at_zoom E _ surface ready_surface);
      [reflexivity .. | assumption].
  - reflexivity.
Qed.

Lemma ready_slots (s : MapcheteConfig) :
  ready s = true ->
  exists zooms zs pb ib w reg,
    zoom_levels_slot s = Some zooms /\ init_zoom_levels_slot s = Some zs /\
    bounds_slot s = Some pb /\ init_bounds_slot s = Some ib /\
    output_slot s = Some w /\ input_slot s = Some reg.
Proof.
  unfold ready. intros Hr.
  repeat (apply andb_true_iff in Hr; destruct Hr as [Hr ?]).
  destruct (zoom_levels_slot s) as [zooms |]; [| discriminate].
  destruct (init_zoom_levels_slot s) as [zs |]; [| discriminate].
  destruct (bounds_slot s) as [pb |]; [| discriminate].
  destruct (init_bounds_slot s) as [ib |]; [| discriminate].
  destruct (output_slot s) as [w |]; [| discriminate].
  destruct (input_slot s) as [reg |]; [| discriminate].
  now exists zooms, zs, pb, ib, w, reg.
Qed.

(** The value of [baselevels] is the same in two states of one core
    that have stored the same baselevels. *)
Lemma baselevels_surface (s s' : MapcheteConfig) :
  ready s = true -> surface s' = surface s ->
  fst (baselevels s') = fst (baselevels s).
Proof.
  intros Hr Hsurf. pose proof (f_equal fst Hsurf) as Hcore.
  pose proof (f_equal snd Hsurf) as Hbl. cbn [fst snd surface] in Hcore, Hbl.
  destruct (ready_slots _ Hr) as [zooms [_ [_ [_ [_ [_ [Hz _]]]]]]].
  destruct (core_all_fields Hcore)
    as [Hraw [_ [_ [Hpp [Hop [_ [_ [Hz' _]]]]]]]].
  rewrite Hz in Hz'.
  rewrite (baselevels_run _ Hz), (baselevels_run _ Hz').
  rewrite Hbl, Hraw, Hpp, Hop.
  destruct (baselevels_slot s); [reflexivity |].
  now destruct (baselevels_value _ _ _ _).
Qed.

(** Reading [baselevels] a second time returns what the first read
    returned. *)
Lemma baselevels_again (s : MapcheteConfig) :
  ready s = true ->
  fst (baselevels (snd (baselevels s))) = fst (baselevels s).
Proof.
  intros Hr.
  destruct (ready_slots _ Hr) as [zooms [_ [_ [_ [_ [_ [Hz _]]]]]]].
  rewrite (baselevels_run _ Hz).
  destruct (baselevels_slot s) as [v |] eqn:Hslot.
  - cbn [fst snd]. rewrite (baselevels_run _ Hz). now rewrite Hslot.
  - destruct (baselevels_value _ _ _ _) as [v | e] eqn:Hv; cbn [fst snd].
    + assert (Hz' : zoom_levels_slot (set_baselevels_slot v s) = Some zooms)
        by exact Hz.
      now rewrite (baselevels_run _ Hz').
    + rewrite (baselevels_run _ Hz). now rewrite Hslot, Hv.
Qed.

(** The six properties of the constructor return what is stored, which
    is part of the core. *)
Lemma stored_reads (s s' : MapcheteConfig) :
  ready s = true -> core s' = core s ->
  fst (zoom_levels s') = fst (zoom_levels s) /\
  fst (init_zoom_levels s') = fst (init_zoom_levels s) /\
  fst (bounds s') = fst (bounds s) /\
  fst (init_bounds s') = fst (init_bounds s) /\
  fst (output s') = fst (output s) /\
  fst (input s') = fst (input s).
Proof.
  intros Hr Hcore.
  destruct (ready_slots _ Hr)
    as [zooms [zs [pb [ib [w [reg [H1 [H2 [H3 [H4 [H5 H6]]]]]]]]]]].
  destruct (core_all_fields Hcore)
    as [_ [_ [_ [_ [_ [_ [_ [E1 [E2 [E3 [E4 [E5 E6]]]]]]]]]]]].
  rewrite H1 in E1. rewrite H2 in E2. rewrite H3 in E3.
  rewrite H4 in E4. rewrite H5 in E5. rewrite H6 in E6.
  unfold zoom_levels, init_zoom_levels, bounds, init_bounds, output, input.
  rewrite (cached_stored _ _ _ _ H1), (cached_stored _ _ _ _ E1).
  rewrite (cached_stored _ _ _ _ H2), (cached_stored _ _ _ _ E2).
  rewrite (cached_stored _ _ _ _ H3), (cached_stored _ _ _ _ E3).
  rewrite (cached_stored _ _ _ _ H4), (cached_stored _ _ _ _ E4).
  rewrite (cached_stored _ _ _ _ H5), (cached_stored _ _ _ _ E5).
  rewrite (cached_stored _ _ _ _ H6), (cached_stored _ _ _ _ E6).
  repeat split.
Qed.

(** X18. For every configuration, in every state it reaches, and every
    operation on it, whether it returns or raises: after the operation
    each of the reads [zoom_levels], [init_zoom_levels], [bounds],
    [init_bounds], [output], [input], [baselevels], [params_at_zoom],
    [area_at_zoom] and [bounds_at_zoom] returns, or raises, what it
    would have before the operation.  What the object stores on the way
    is never seen in a result. *)
Theorem reads_are_repeatable (c : MapcheteConfig) (m : method) :
  reachable c ->
  fst (zoom_levels (after m c)) = fst (zoom_levels c) /\
  fst (init_zoom_levels (after m c)) = fst (init_zoom_levels c) /\
  fst (bounds (after m c)) = fst (bounds c) /\
  fst (init_bounds (after m c)) = fst (init_bounds c) /\
  fst (output (after m c)) = fst (output c) /\
  fst (input (after m c)) = fst (input c) /\
  fst (baselevels (after m c)) = fst (baselevels c) /\
  (forall zoom, fst (params_at_zoom zoom (after m c))
                = fst (params_at_zoom zoom c)) /\
  (forall zoom, fst (area_at_zoom zoom (after m c))
                = fst (area_at_zoom zoom c)) /\
  (forall zoom, fst (bounds_at_zoom zoom (after m c))
                = fst (bounds_at_zoom zoom c)).
Proof.
  intros Hreach.
  pose proof (reachable_built Hreach) as [Hr _].
  pose proof (@stable_after E m c Hr) as Hcore.
  pose proof (reachable_caches_sound Hreach) as Hs.
  pose proof (reachable_caches_sound (@reach_call E m c Hreach)) as Hs'.
  destruct (@stored_reads c (after m c) Hr Hcore) as [R1 [R2 [R3 [R4 [R5 R6]]]]].
  assert (Harea : forall zoom, fst (area_at_zoom zoom (after m c))
                               = fst (area_at_zoom zoom c))
    by (intros zoom; now apply area_at_zoom_core).
  repeat split; try assumption.
  - destruct m; try (apply baselevels_surface;
                     [assumption | apply surface_after;
                                   [assumption | discriminate]]).
    cbn [after]. now apply baselevels_again.
  - intros zoom.
    destruct (ready_slots _ Hr) as [_ [zs [_ [_ [_ [reg [_ [Hz [_ [_ [_
                                     Hreg]]]]]]]]]]].
    destruct (core_all_fields Hcore)
      as [_ [_ [_ [_ [_ [_ [Hp [_ [Hz' [_ [_ [_ Hreg']]]]]]]]]]]].
    rewrite Hz in Hz'. rewrite Hreg in Hreg'.
    rewrite (@params_at_zoom_value _ zs reg zoom Hz' Hreg').
    rewrite (@params_at_zoom_value _ zs reg zoom Hz Hreg).
    cbn [fst]. now rewrite Hp.
  - intros zoom. rewrite !bounds_at_zoom_value by assumption.
    now rewrite Harea.
Qed.

Lemma init_baselevels_unread (input_config zoom bounds_arg : pyval)
  (mode : string) (c : MapcheteConfig) :
  __init__ input_config zoom bounds_arg mode = Ok c ->
  baselevels_slot c = None.
Proof.
  intros H.
  destruct (init_states _ _ _ _ H)
    as [s0 [declared [zs [pz [w [s3 [reg [s' [Hpre [_ [_ [_
         [Hw [_ [-> Hframe]]]]]]]]]]]]]]].
  destruct (preamble_inv _ _ _ _ Hpre)
    as [_ [_ [_ [_ [_ [_ [_ [_ [_ [_ [_ [_ Hbl]]]]]]]]]]]].
  set (s2 := set_params_at_zoom pz _) in *.
  cbn [baselevels_slot set_input_slot].
  rewrite (Hframe _ baselevels_slot ltac:(kept) ltac:(kept)).
  pose proof (@keeps_output E _ baselevels_slot ltac:(kept) ltac:(kept)
                ltac:(kept) s2) as K.
  rewrite Hw in K. unfold keeps in K. cbn [snd] in K. rewrite K.
  exact Hbl.
Qed.

Lemma reachable_baselevels_sound (c : MapcheteConfig) :
  reachable c -> baselevels_sound c.
Proof.
  induction 1 as [ic zoom bounds_arg mode c H | m c Hreach IH].
  - intros v zooms Hv. rewrite (init_baselevels_unread _ _ _ _ H) in Hv.
    discriminate.
  - pose proof (reachable_built Hreach) as [Hr _].
    destruct (ready_slots _ Hr) as [zooms [_ [_ [_ [_ [_ [Hz _]]]]]]].
    assert (Hsame : forall s',
               surface s' = surface c -> baselevels_sound s').
    { intros s' Hsurf v zs Hv Hzs.
      pose proof (f_equal fst Hsurf) as Hcore.
      pose proof (f_equal snd Hsurf) as Hbl.
      cbn [fst snd surface] in Hcore, Hbl.
      destruct (core_all_fields Hcore)
        as [Hraw [_ [_ [Hpp [Hop [_ [_ [Hz' _]]]]]]]].
      rewrite Hraw, Hpp, Hop. apply IH; congruence. }
    destruct m;
      try (apply Hsame, surface_after; [assumption | discriminate]).
    cbn [after]. rewrite (baselevels_run _ Hz).
    destruct (baselevels_slot c) as [v |] eqn:Hslot; [exact IH |].
    destruct (baselevels_value _ _ _ _) as [v | e] eqn:Hv; [| exact IH].
    cbn [snd]. intros v' zs' Hv' Hzs'.
    cbn [baselevels_slot set_baselevels_slot] in Hv'. injection Hv' as <-.
    cbn [zoom_levels_slot set_baselevels_slot] in Hzs'.
    rewrite Hz in Hzs'. injection Hzs' as <-. exact Hv.
Qed.

(** The value of [baselevels] in a state the object reaches. *)
Lemma baselevels_reached (c : MapcheteConfig) (declared : list Z) :
  reachable c -> fst (zoom_levels c) = Ok declared ->
  fst (baselevels c)
  = baselevels_value (_raw c) declared (output_pyramid c)
      (process_pyramid c).
Proof.
  intros Hreach Hdecl.
  pose proof (reachable_built Hreach) as [Hr _].
  destruct (ready_slots _ Hr) as [zooms [_ [_ [_ [_ [_ [Hz _]]]]]]].
  rewrite (zoom_levels_stored _ Hz) in Hdecl. injection Hdecl as ->.
  rewrite (baselevels_run _ Hz).
  destruct (baselevels_slot c) as [v |] eqn:Hslot.
  - symmetry. now apply (reachable_baselevels_sound Hreach).
  - now destruct (baselevels_value _ _ _ _).
Qed.

Lemma dict_get_filter_keys (bl : dict) (keys : list string) (k : string) :
  dict_get (filter (fun kv => str_in (fst kv) keys) bl) k
  = if str_in k keys then dict_get bl k else None.
Proof.
  induction bl as [| [k0 v0] bl IH]; cbn [filter dict_get fst].
  - now destruct (str_in k keys).
  - destruct (str_in k0 keys) eqn:Hk0; cbn [dict_get].
    + destruct (String.eqb_spec k k0) as [-> | Hne].
      * now rewrite Hk0.
      * exact IH.
    + rewrite IH. destruct (String.eqb_spec k k0) as [-> | Hne];
        [now rewrite Hk0 | reflexivity].
Qed.

Lemma dict_get_in {V} (d : list (string * V)) (k : string) (v : V) :
  dict_get d k = Some v -> In (k, v) d.
Proof.
  induction d as [| [k0 v0] d IH]; cbn [dict_get]; [discriminate |].
  destruct (String.eqb_spec k k0) as [-> | Hne].
  - intros H. injection H as <-. now left.
  - intros H. right. now apply IH.
Qed.

(** X19. For every configuration, in every state it reaches:
    [baselevels] returns the empty value exactly where the document has
    no "baselevels"; and where it returns baselevels, the document has a
    mapping there with a "min" or a "max", each of them a non-negative
    integer, the zoom levels returned run from "min", or the lowest
    process zoom level where "min" is not given, through "max", or the
    highest process zoom level, and the process has a zoom level: with
    no process zoom level the defaults cannot be computed, even where
    both "min" and "max" are given. *)
Theorem baselevels_of_document (c : MapcheteConfig) (declared : list Z) :
  reachable c -> fst (zoom_levels c) = Ok declared ->
  (fst (baselevels c) = Ok None <-> dict_get (_raw c) "baselevels" = None) /\
  forall b, fst (baselevels c) = Ok (Some b) ->
    exists bl lo hi,
      dict_get (_raw c) "baselevels" = Some (PDict bl) /\
      bl_zooms b = py_range lo (hi + 1) /\
      declared <> [] /\
      dict_in "min" bl || dict_in "max" bl = true /\
      match dict_get bl "min" with
      | Some v => v = PInt lo /\ 0 <= lo
      | None => zooms_min declared = Ok lo
      end /\
      match dict_get bl "max" with
      | Some v => v = PInt hi /\ 0 <= hi
      | None => zooms_max declared = Ok hi
      end.
Proof.
  intros Hreach Hdecl.
  rewrite (baselevels_reached Hreach Hdecl).
  unfold baselevels_value.
  destruct (dict_get (_raw c) "baselevels") as [[| | | | bl |] |];
    try (split; [split; discriminate | discriminate]).
  2: { split; [tauto | discriminate]. }
  set (minmax := filter _ bl).
  assert (Hmin : dict_get minmax "min" = dict_get bl "min")
    by (unfold minmax; now rewrite dict_get_filter_keys).
  assert (Hmax : dict_get minmax "max" = dict_get bl "max")
    by (unfold minmax; now rewrite dict_get_filter_keys).
  assert (Hany : is_empty minmax = false ->
                 dict_in "min" bl || dict_in "max" bl = true).
  { unfold dict_in. rewrite <- Hmin, <- Hmax.
    destruct minmax as [| [k v] rest] eqn:Hmm; [discriminate |].
    intros _.
    assert (Hk : str_in k ["min"; "max"] = true).
    { assert (Hin : In (k, v) minmax) by (rewrite Hmm; now left).
      unfold minmax in Hin. apply filter_In in Hin. apply Hin. }
    cbn [str_in existsb] in Hk. cbn [dict_get].
    destruct (String.eqb_spec k "min") as [-> | Hk1]; [reflexivity |].
    destruct (String.eqb_spec k "max") as [-> | Hk2]; [| discriminate].
    cbn. apply orb_true_r. }
  destruct (is_empty minmax) eqn:Hempty;
    [split; [split; discriminate | discriminate] |].
  destruct (existsb _ minmax) eqn:Hbad;
    [split; [split; discriminate | discriminate] |].
  assert (Hgood : forall k v, dict_get minmax k = Some v ->
                              exists z, v = PInt z /\ 0 <= z).
  { intros k v Hv. apply dict_get_in in Hv.
    assert (Hb : bad_baselevel v = false).
    { destruct (bad_baselevel v) eqn:Hb; [| reflexivity].
      assert (existsb (fun kv => bad_baselevel (snd kv)) minmax = true)
        by (apply existsb_exists; now exists (k, v)).
      congruence. }
    destruct v as [| z | | | |]; try discriminate.
    exists z. split; [reflexivity |]. cbn in Hb. lia. }
  destruct (zooms_min declared) as [lo0 |] eqn:Hlo0; cbn [rbind];
    [| split; [split; discriminate | discriminate]].
  destruct (zooms_max declared) as [hi0 |] eqn:Hhi0; cbn [rbind];
    [| split; [split; discriminate | discriminate]].
  unfold dict_get_default. rewrite Hmin, Hmax.
  split.
  - split; [| discriminate].
    destruct (match dict_get bl "min" with Some v => v | None => PInt lo0 end);
      try discriminate.
    destruct (match dict_get bl "max" with Some v => v | None => PInt hi0 end);
      try discriminate.
    destruct (BufferedTilePyramid _ _ _); discriminate.
  - intros b Hb.
    assert (Hne : declared <> []) by (intros ->; discriminate).
    destruct (dict_get bl "min") as [vmin |] eqn:Hvmin.
    + destruct (Hgood "min" vmin) as [lo [-> Hlo]]; [congruence |].
      destruct (dict_get bl "max") as [vmax |] eqn:Hvmax.
      * destruct (Hgood "max" vmax) as [hi [-> Hhi]]; [congruence |].
        destruct (BufferedTilePyramid _ _ _) as [tp |]; cbn [rbind] in Hb;
          [| discriminate].
        injection Hb as <-. exists bl, lo, hi. cbn [bl_zooms].
        repeat split; try assumption; try reflexivity;
          try (now apply Hany);
          try (rewrite Hvmin; now split); try (rewrite Hvmax; now split).
      * destruct (BufferedTilePyramid _ _ _) as [tp |]; cbn [rbind] in Hb;
          [| discriminate].
        injection Hb as <-. exists bl, lo, hi0. cbn [bl_zooms].
        repeat split; try assumption; try reflexivity;
          try (now apply Hany);
          try (rewrite Hvmin; now split); try (rewrite Hvmax; now split).
    + destruct (dict_get bl "max") as [vmax |] eqn:Hvmax.
      * destruct (Hgood "max" vmax) as [hi [-> Hhi]]; [congruence |].
        destruct (BufferedTilePyramid _ _ _) as [tp |]; cbn [rbind] in Hb;
          [| discriminate].
        injection Hb as <-. exists bl, lo0, hi. cbn [bl_zooms].
        repeat split; try assumption; try reflexivity;
          try (now apply Hany);
          try (rewrite Hvmin; now split); try (rewrite Hvmax; now split).
      * destruct (BufferedTilePyramid _ _ _) as [tp |]; cbn [rbind] in Hb;
          [| discriminate].
        injection Hb as <-. exists bl, lo0, hi0. cbn [bl_zooms].
        repeat split; try assumption; try reflexivity;
          try (now apply Hany);
          try (rewrite Hvmin; now split); try (rewrite Hvmax; now split).
Qed.

(* ===================================================================== *)
(** ** The registry of the inputs *)
(* ===================================================================== *)

Lemma kd_set_in {V} (d : list (identity * V)) (k h : identity) (x v : V) :
  In (h, v) (kd_set identity_eqb d k x) -> (h = k /\ v = x) \/ In (h, v) d.
Proof.
  induction d as [| [k0 v0] d IH]; cbn [kd_set].
  - intros [Heq | []]. injection Heq as <- <-. now left.
  - destruct (identity_eqb k k0) eqn:Hk.
    + apply identity_eqb_spec in Hk. subst k0.
      intros [Heq | Hin]; [injection Heq as <- <-; now left |].
      right. now right.
    + intros [Heq | Hin]; [right; now left |].
      destruct (IH Hin) as [Hl | Hr]; [now left | right; now right].
Qed.

(** Where the entries of [raw_inputs] come from. *)
Lemma collect_inputs_origin (flat : list (string * pyval)) :
  forall acc raws,
    collect_inputs flat acc = Ok raws ->
    forall h v, In (h, v) raws ->
      In (h, v) acc \/
      exists key, In (key, v) flat /\ is_none v = false /\ get_hash v = Ok h.
Proof.
  induction flat as [| [k x] flat IH]; intros acc raws H h v Hin;
    cbn [collect_inputs] in H.
  - injection H as <-. now left.
  - destruct (is_none x) eqn:Hx; cbn [negb] in H.
    + destruct (IH _ _ H h v Hin) as [Hacc | [key [Hk Hv]]]; [now left |].
      right. exists key. split; [now right | assumption].
    + destruct (get_hash x) as [hx |] eqn:Hhx; cbn [rbind] in H;
        [| discriminate].
      destruct (IH _ _ H h v Hin) as [Hacc | [key [Hk Hv]]].
      * destruct (kd_set_in _ _ _ _ _ Hacc) as [[-> ->] | Hold];
          [| now left].
        right. exists k. split; [now left | now split].
      * right. exists key. split; [now right | assumption].
Qed.

Lemma raw_inputs_of_origin (per_zoom : list (Z * dict)) (zooms : list Z) :
  forall acc raws,
    raw_inputs_of per_zoom zooms acc = Ok raws ->
    forall h v, In (h, v) raws ->
      In (h, v) acc \/
      (get_hash v = Ok h /\
       exists zoom params tree key,
         In zoom zooms /\ kd_get Z.eqb per_zoom zoom = Some params /\
         dict_get params "input" = Some (PDict tree) /\
         In (key, v) (_flatten_tree tree None) /\ is_none v = false).
Proof.
  induction zooms as [| z zooms IH]; intros acc raws H h v Hin;
    cbn [raw_inputs_of] in H.
  - injection H as <-. now left.
  - destruct (kd_get Z.eqb per_zoom z) as [params |] eqn:Hz; [| discriminate].
    assert (Hlater : forall acc',
               raw_inputs_of per_zoom zooms acc' = Ok raws ->
               In (h, v) acc' \/
               (get_hash v = Ok h /\
                exists zoom params tree key,
                  In zoom (z :: zooms) /\
                  kd_get Z.eqb per_zoom zoom = Some params /\
                  dict_get params "input" = Some (PDict tree) /\
                  In (key, v) (_flatten_tree tree None) /\
                  is_none v = false)).
    { intros acc' H'.
      destruct (IH _ _ H' h v Hin)
        as [Hacc | [Hh [zoom [p [t [key [Hzoom Hrest]]]]]]]; [now left |].
      right. split; [assumption |].
      exists zoom, p, t, key. split; [now right | assumption]. }
    destruct (dict_get params "input") as [input_at_zoom |] eqn:Hinput;
      [| now apply Hlater].
    destruct (is_none input_at_zoom) eqn:Hnone; [now apply Hlater |].
    destruct (flatten_input input_at_zoom) as [flat |] eqn:Hflat;
      cbn [rbind] in H; [| discriminate].
    destruct (collect_inputs flat acc) as [acc1 |] eqn:Hcoll;
      cbn [rbind] in H; [| discriminate].
    destruct (Hlater _ H) as [Hacc1 | Hdone]; [| now right].
    destruct (collect_inputs_origin _ _ Hcoll h v Hacc1)
      as [Hacc | [key [Hk [Hv Hh]]]]; [now left |].
    right. split; [assumption |].
    destruct input_at_zoom as [| | | | tree |]; try discriminate.
    cbn [flatten_input] in Hflat. injection Hflat as <-.
    exists z, params, tree, key. repeat split; try assumption. now left.
Qed.

(** Where the objects of the registry come from. *)
Lemma initialize_inputs_origin (self : MapcheteConfig)
  (delimiters : Delimiters) (raw_inputs : list (identity * pyval)) :
  forall acc reg,
    initialize_inputs self delimiters raw_inputs acc = Ok reg ->
    forall h obj, In (h, obj) reg ->
      In (h, obj) acc \/
      exists v, In (h, v) raw_inputs /\
                load_input self delimiters v = Ok (obj_reader obj).
Proof.
  induction raw_inputs as [| [k x] raw_inputs IH]; intros acc reg H h obj Hin;
    cbn [initialize_inputs] in H.
  - injection H as <-. now left.
  - destruct (load_input self delimiters x) as [rd |] eqn:Hrd;
      cbn [rbind] in H; [| discriminate].
    destruct (IH _ _ H h obj Hin) as [Hacc | [v [Hv Hload]]].
    + destruct (kd_set_in _ _ _ _ _ Hacc) as [[-> ->] | Hold]; [| now left].
      right. exists x. split; [now left | exact Hrd].
    + right. exists v. split; [now right | assumption].
Qed.

(** [load_input] reads the pyramid, the directory and the mode of the
    object only. *)
Lemma load_input_fields (s s' : MapcheteConfig) (delimiters : Delimiters)
  (v : pyval) :
  process_pyramid s' = process_pyramid s -> config_dir s' = config_dir s ->
  mode s' = mode s ->
  load_input s' delimiters v = load_input s delimiters v.
Proof.
  intros Hp Hd Hm. unfold load_input. now rewrite Hp, Hd, Hm.
Qed.

Lemma init_registry_sound (input_config zoom bounds_arg : pyval)
  (mode : string) (c : MapcheteConfig) :
  __init__ input_config zoom bounds_arg mode = Ok c -> registry_sound c.
Proof.
  intros H.
  destruct (init_states _ _ _ _ H)
    as [s0 [declared [zs [pz [w [s3 [reg [s' [Hpre [Hdecl [Hzs [_
         [Hw [Hreg [_ _]]]]]]]]]]]]]]].
  destruct (preamble_inv _ _ _ _ Hpre)
    as [_ [_ [_ [_ [_ [_ [_ [_ [_ [_ [_ [Hin0 _]]]]]]]]]]]].
  set (s2 := set_params_at_zoom pz _) in *.
  assert (K3 : forall F (f : MapcheteConfig -> F),
             (forall v s, f (set_raw v s) = f s) ->
             (forall v s, f (set_params_at_zoom v s) = f s) ->
             (forall v s, f (set_output_slot v s) = f s) ->
             f s3 = f s2).
  { intros F f H1 H2 H3.
    pose proof (@keeps_output E F f H1 H2 H3 s2) as K.
    now rewrite Hw in K. }
  assert (Hin3 : input_slot s3 = None)
    by (rewrite (K3 _ input_slot ltac:(kept) ltac:(kept) ltac:(kept));
        exact Hin0).
  assert (Hiz3 : init_zoom_levels_slot s3 = Some zs)
    by (rewrite (K3 _ init_zoom_levels_slot ltac:(kept) ltac:(kept)
                   ltac:(kept)); reflexivity).
  destruct (input_trace _ Hin3 Hiz3 Hreg)
    as [ib [pb [s4 [s5 [raws [Hib [Hpb [-> [Hraws Hinit]]]]]]]]].
  assert (Hiz5 : init_zoom_levels_slot s5 = Some zs).
  { pose proof (@keeps_init_bounds E _ init_zoom_levels_slot ltac:(kept)
                  ltac:(kept) s3) as K1.
    pose proof (@keeps_bounds E _ init_zoom_levels_slot ltac:(kept) s4)
      as K2.
    rewrite Hib in K1. rewrite Hpb in K2. unfold keeps in K1, K2.
    cbn [snd] in K1, K2. congruence. }
  assert (Hib5 : init_bounds_slot s5 = Some ib).
  { pose proof (@keeps_bounds E _ init_bounds_slot ltac:(kept) s4) as K2.
    rewrite Hpb in K2. unfold keeps in K2. cbn [snd] in K2.
    apply init_bounds_ok in Hib. congruence. }
  assert (Hpb5 : bounds_slot s5 = Some pb) by (now apply bounds_ok in Hpb).
  exists zs, ib, pb, reg.
  split; [exact Hiz5 |]. split; [exact Hib5 |]. split; [exact Hpb5 |].
  split; [reflexivity |].
  intros h obj Hin.
  - destruct (initialize_inputs_origin _ _ _ _ Hinit h obj Hin)
      as [[] | [v [Hv Hload]]].
    destruct (raw_inputs_of_origin _ _ _ Hraws h v Hv)
      as [[] | [Hh Hdeclared]].
    exists v. repeat split; assumption.
Qed.

Lemma reachable_registry_sound (c : MapcheteConfig) :
  reachable c -> registry_sound c.
Proof.
  apply reachable_core_invariant.
  - intros s s' Hcore [zs [ib [pb [reg [Hz [Hib [Hpb [Hreg Hall]]]]]]]].
    destruct (core_all_fields Hcore)
      as [_ [_ [Hdir [Hpp [_ [Hmode [Hp [_ [Ez [Epb [Eib [_ Ereg]]]]]]]]]]]].
    exists zs, ib, pb, reg.
    split; [congruence |]. split; [congruence |]. split; [congruence |].
    split; [congruence |].
    intros h obj Hin. destruct (Hall h obj Hin) as [v [Hd [Hh Hload]]].
    exists v. repeat split; try assumption.
    + unfold declared_input in *. now rewrite Hp.
    + rewrite <- Hload. now apply load_input_fields.
  - exact init_registry_sound.
Qed.

Lemma load_input_type (s : MapcheteConfig) (delimiters : Delimiters)
  (v : pyval) (rd : reader) :
  load_input s delimiters v = Ok rd ->
  (exists path, v = PStr path) \/ (exists abstract, v = PDict abstract).
Proof.
  unfold load_input. destruct v; try discriminate.
  - intros _. left. now eexists.
  - intros _. right. now eexists.
Qed.

(** X20. For every configuration, in every state it reaches: every
    input the document declares at an initialized zoom level is a string
    or a mapping and has its input object in the registry [input]
    returns, under its identity; and every object of the registry is the
    reader that was loaded for a declared input of that identity, with
    the process pyramid, the directory and the mode of the object and
    the initialized zoom levels and bounds as delimiters.  The registry
    holds nothing else. *)
Theorem registry_holds_declared_inputs (c : MapcheteConfig)
  (zooms : list Z) (ib pb : Bounds) (reg : registry) :
  reachable c ->
  fst (init_zoom_levels c) = Ok zooms -> fst (init_bounds c) = Ok ib ->
  fst (bounds c) = Ok pb -> fst (input c) = Ok reg ->
  (forall v, declared_input c zooms v ->
     ((exists path, v = PStr path) \/ (exists abstract, v = PDict abstract)) /\
     exists h obj,
       get_hash v = Ok h /\ kd_get identity_eqb reg h = Some obj) /\
  (forall h obj, In (h, obj) reg ->
     exists v,
       declared_input c zooms v /\ get_hash v = Ok h /\
       load_input c
         {| delim_zoom := zooms; delim_bounds := ib;
            delim_process_bounds := pb |} v
       = Ok (obj_reader obj)).
Proof.
  intros Hreach Hz Hib Hpb Hreg.
  destruct (reachable_registry_sound Hreach)
    as [zs [ib' [pb' [reg' [Sz [Sib [Spb [Sreg Hall]]]]]]]].
  rewrite (init_zoom_levels_stored _ Sz) in Hz. injection Hz as <-.
  rewrite (input_stored _ Sreg) in Hreg. injection Hreg as <-.
  unfold init_bounds in Hib. rewrite (cached_stored _ _ _ _ Sib) in Hib.
  injection Hib as <-.
  unfold bounds in Hpb. rewrite (cached_stored _ _ _ _ Spb) in Hpb.
  injection Hpb as <-.
  split; [| exact Hall].
  intros v [z [params [tree [key [Hin [Hp [Ht [Hleaf Hnone]]]]]]]].
  destruct (built_slots Hreach) as [zs' [reg'' [Bz [Breg Hbuilt]]]].
  rewrite Sz in Bz. injection Bz as <-.
  rewrite Sreg in Breg. injection Breg as <-.
  destruct (registry_complete Hbuilt) as [_ [_ Hdecl]].
  destruct (Hdecl z params tree Hin Hp Ht key v Hleaf Hnone)
    as [h [obj [Hh Hobj]]].
  split; [| now exists h, obj].
  apply id_get_in in Hobj.
  destruct (Hall h obj Hobj) as [v' [_ [Hh' Hload]]].
  apply load_input_type in Hload.
  destruct v as [| n | s | l | d | o]; try discriminate.
  - cbn in Hh. injection Hh as <-.
    destruct Hload as [[p ->] | [a ->]]; unfold get_hash in Hh';
      [discriminate |].
    destruct (Json.dumps (PDict a)); cbn [rbind] in Hh'; discriminate.
  - left. now eexists.
  - cbn in Hh. injection Hh as <-.
    destruct Hload as [[p ->] | [a ->]]; unfold get_hash in Hh';
      [discriminate |].
    destruct (Json.dumps (PDict a)); cbn [rbind] in Hh'; discriminate.
  - right. now eexists.
  - cbn in Hh. injection Hh as <-.
    destruct Hload as [[p ->] | [a ->]]; unfold get_hash in Hh';
      [discriminate |].
    destruct (Json.dumps (PDict a)); cbn [rbind] in Hh'; discriminate.
Qed.

(* ===================================================================== *)
(** ** The area of a zoom level with an input group *)
(* ===================================================================== *)

Lemma bboxes_of_branch (reg : registry) (crs0 : crs)
  (items : list (string * pyval)) (key : string) (group : dict) :
  In (key, PDict group) items ->
  (forall h, get_hash (PDict group) = Ok h ->
             kd_get identity_eqb reg h = None) ->
  forall boxes, bboxes_of reg crs0 items <> Ok boxes.
Proof.
  intros Hin Hmiss. induction items as [| [k v] items IH]; [destruct Hin |].
  intros boxes. cbn [bboxes_of]. destruct Hin as [Heq | Hin].
  - injection Heq as -> ->. cbn [is_none negb].
    destruct (get_hash (PDict group)) as [h |] eqn:Hh; cbn [rbind];
      [| discriminate].
    rewrite (Hmiss h eq_refl). discriminate.
  - destruct (negb (is_none v)); [| now apply IH].
    destruct (get_hash v) as [h |]; cbn [rbind]; [| discriminate].
    destruct (kd_get identity_eqb reg h) as [obj |]; [| discriminate].
    destruct (bbox (obj_reader obj) crs0); cbn [rbind]; [| discriminate].
    destruct (bboxes_of reg crs0 items) as [gs |] eqn:Hgs; cbn [rbind];
      [| discriminate].
    exfalso. now apply (IH Hin gs).
Qed.

Lemma rmap_fails {A B} (f : A -> result B) (l : list A) (x : A) :
  In x l -> (forall y, f x <> Ok y) -> forall ys, rmap f l <> Ok ys.
Proof.
  intros Hin Hx. induction l as [| a l IH]; [destruct Hin |].
  intros ys. cbn [rmap]. destruct Hin as [-> | Hin].
  - destruct (f x) as [y |] eqn:Hy; cbn [rbind]; [| discriminate].
    exfalso. now apply (Hx y).
  - destruct (f a); cbn [rbind]; [| discriminate].
    destruct (rmap f l) as [zs |] eqn:Hzs; cbn [rbind]; [| discriminate].
    exfalso. now apply (IH Hin zs).
Qed.

(** X21. For every configuration, in every state it reaches, and every
    initialized zoom level whose input mapping has a mapping, such as a
    group of inputs, directly under one of its keys: unless the registry
    holds an object under the identity of that mapping itself, no area
    is computed.  [area_at_zoom] for that level, the full area
    [area_at_zoom(None)] and [bounds_at_zoom] for both raise: the
    registry is built from the leaves of the input tree, the area looks
    up the values under its top-level keys. *)
Theorem area_of_input_group_fails (c : MapcheteConfig) (zooms : list Z)
  (reg : registry) (z : Z) (params items group : dict) (key : string) :
  reachable c ->
  fst (init_zoom_levels c) = Ok zooms -> fst (input c) = Ok reg ->
  In z zooms ->
  kd_get Z.eqb (_params_at_zoom c) z = Some params ->
  dict_get params "input" = Some (PDict items) ->
  In (key, PDict group) items ->
  (forall h, get_hash (PDict group) = Ok h ->
             kd_get identity_eqb reg h = None) ->
  (forall a, fst (area_at_zoom (PInt z) c) <> Ok a) /\
  (forall a, fst (area_at_zoom PNone c) <> Ok a) /\
  (forall b, fst (bounds_at_zoom (PInt z) c) <> Ok b) /\
  (forall b, fst (bounds_at_zoom PNone c) <> Ok b).
Proof.
  intros Hreach Hzooms Hinput Hz Hp Hitems Hgroup Hmiss.
  pose proof (reachable_caches_sound Hreach) as Hs.
  destruct (area_at_zoom_value Hs)
    as [zs [reg' [ib [Sz [Sreg [Sib Hval]]]]]].
  rewrite (init_zoom_levels_stored _ Sz) in Hzooms. injection Hzooms as <-.
  rewrite (input_stored _ Sreg) in Hinput. injection Hinput as ->.
  assert (Hnow : forall a, area_now c reg ib z <> Ok a).
  { intros a. unfold area_now, area_of. rewrite Hp, Hitems.
    destruct (bboxes_of reg _ items) as [boxes |] eqn:Hb; cbn [rbind];
      [| discriminate].
    exfalso. revert Hb. apply bboxes_of_branch with (key := key) (group := group);
      assumption. }
  assert (Hone : forall a, fst (area_at_zoom (PInt z) c) <> Ok a).
  { intros a. destruct (Hval (PInt z)) as [-> _]. cbn [area_value].
    apply zoom_in_spec in Hz. rewrite Hz. cbn [negb]. apply Hnow. }
  assert (Hfull : forall a, fst (area_at_zoom PNone c) <> Ok a).
  { intros a. destruct (Hval PNone) as [-> _]. cbn [area_value].
    destruct (rmap (area_now c reg ib) zs) as [gs |] eqn:Hgs; cbn [rbind];
      [| discriminate].
    exfalso. revert Hgs. apply rmap_fails with (x := z); assumption. }
  repeat split; try assumption.
  - intros b. rewrite (@bounds_at_zoom_value c (PInt z) Hs).
    destruct (fst (area_at_zoom (PInt z) c)) as [a |] eqn:Ha; cbn [rbind];
      [| discriminate].
    exfalso. now apply (Hone a).
  - intros b. rewrite (@bounds_at_zoom_value c PNone Hs).
    destruct (fst (area_at_zoom PNone c)) as [a |] eqn:Ha; cbn [rbind];
      [| discriminate].
    exfalso. now apply (Hfull a).
Qed.

(* ===================================================================== *)
(** ** The output mapping, shared by the document and the zoom levels *)
(* ===================================================================== *)

Lemma dict_set_twice {V} (d : list (string * V)) (k : string) (a b : V) :
  dict_set (dict_set d k a) k b = dict_set d k b.
Proof.
  induction d as [| [k0 v0] d IH]; cbn [dict_set].
  - now rewrite String.eqb_refl.
  - destruct (String.eqb k k0) eqn:Hk; cbn [dict_set]; rewrite Hk;
      [reflexivity | now rewrite IH].
Qed.

(** The parameters of the zoom levels after the first read of
    [output]: where the output mapping of the document has a format, a
    zoom level that has an output holds the completed mapping. *)
Lemma output_fresh_params (s s3 : MapcheteConfig) (w : writer) :
  output_slot s = None ->
  output s = (Ok w, s3) ->
  exists o out,
    dict_get (_raw s) "output" = Some (PDict o) /\
    dict_get (_raw s3) "output" = Some (PDict out) /\
    dict_in "format" o = true /\
    forall z,
      kd_get Z.eqb (_params_at_zoom s3) z =
      match kd_get Z.eqb (_params_at_zoom s) z with
      | Some p =>
          Some (if dict_in "output" p
                then dict_set p "output" (PDict out) else p)
      | None => None
      end.
Proof.
  intros Hslot H.
  apply cached_fresh in H; [| assumption]. destruct H as [s2 [H ->]].
  unfold bind at 1, attr in H. unfold bind at 1, lift, dict_getitem in H.
  destruct (dict_get (_raw s) "output") as [[| | | | o |] |] eqn:Ho;
    try discriminate.
  apply bind_ok in H. destruct H as [o1 [t1 [H1 H]]].
  assert (Hstep1 :
            exists pv, o1 = dict_set o "path" pv /\
                       t1 = set_params_at_zoom
                              (share_output (dict_in "format" o) o1
                                 (_params_at_zoom s))
                              (set_raw (dict_set (_raw s) "output" (PDict o1))
                                 s)).
  { destruct (dict_get o "path") as [p |].
    - apply bind_ok in H1. destruct H1 as [dir [t0 [Hd H1]]].
      injection Hd as <- <-.
      apply bind_ok in H1. destruct H1 as [path [t0 [Hp H1]]].
      unfold lift in Hp. injection Hp as Hp <-.
      rewrite update_output_params_run in H1. injection H1 as <- <-.
      exists (PStr path). now split.
    - rewrite update_output_params_run in H1. injection H1 as <- <-.
      exists PNone. now split. }
  destruct Hstep1 as [pv [-> ->]]. clear H1.
  apply bind_ok in H. destruct H as [pyr [t2 [Hpyr H]]].
  unfold attr in Hpyr. injection Hpyr as <- <-.
  cbn [output_pyramid set_params_at_zoom set_raw] in H.
  apply bind_ok in H. destruct H as [o2 [t2 [H2 H]]].
  rewrite update_output_params_run in H2. injection H2 as <- <-.
  apply bind_ok in H. destruct H as [o3 [t3 [H3 H]]].
  rewrite update_output_params_run in H3. injection H3 as <- <-.
  apply bind_ok in H. destruct H as [o4 [t4 [H4 H]]].
  rewrite update_output_params_run in H4. injection H4 as <- <-.
  set (out := dict_set (dict_set (dict_set (dict_set o "path" pv) "type" _)
                          "pixelbuffer" _) "metatiling" _) in *.
  destruct (dict_get out "format") as [fmt |] eqn:Hfmt; [| discriminate].
  destruct fmt as [| | f | | |]; try discriminate.
  destruct (str_in f available_output_formats) eqn:Hav; [| discriminate].
  unfold bind, lift in H.
  destruct (load_output_writer out) as [w' |] eqn:Hw; [| discriminate].
  destruct (is_valid_with_config w' out); [| discriminate].
  injection H as <- <-.
  assert (Hformat : dict_in "format" o = true).
  { unfold out in Hfmt. rewrite !dict_get_set_other in Hfmt by discriminate.
    unfold dict_in. now rewrite Hfmt. }
  exists o, out. cbn [_raw _params_at_zoom set_raw set_params_at_zoom
                        set_output_slot].
  split; [reflexivity |]. split; [apply dict_get_set_same |].
  split; [assumption |].
  intros z. rewrite !kd_get_share_output.
  rewrite !dict_in_set_other by discriminate. rewrite Hformat.
  destruct (kd_get Z.eqb (_params_at_zoom s) z) as [p |]; [| reflexivity].
  cbn [andb]. destruct (dict_in "output" p) eqn:Hp.
  - rewrite !dict_in_set, !dict_set_twice. reflexivity.
  - rewrite !Hp. reflexivity.
Qed.

Lemma init_output_shared (input_config zoom bounds_arg : pyval)
  (mode : string) (c : MapcheteConfig) :
  __init__ input_config zoom bounds_arg mode = Ok c -> output_shared c.
Proof.
  intros H.
  destruct (init_states _ _ _ _ H)
    as [s0 [declared [zs [pz [w [s3 [reg [s' [Hpre [Hdecl [Hzs [Hpz
         [Hw [Hreg [-> Hframe]]]]]]]]]]]]]]].
  destruct (preamble_inv _ _ _ _ Hpre)
    as [_ [_ [_ [_ [_ [_ [_ [_ [_ [_ [Hout0 _]]]]]]]]]]].
  set (s2 := set_params_at_zoom pz _) in *.
  assert (Hout2 : output_slot s2 = None) by exact Hout0.
  destruct (output_fresh_params _ Hout2 Hw)
    as [o [out [Ho [Hout [Hformat Hparams]]]]].
  intros z params Hp.
  cbn [_params_at_zoom _raw set_input_slot] in Hp |- *.
  rewrite (Hframe _ _params_at_zoom ltac:(kept) ltac:(kept)) in Hp.
  rewrite (Hframe _ _raw ltac:(kept) ltac:(kept)).
  rewrite Hparams in Hp. cbn [_params_at_zoom s2 set_params_at_zoom] in Hp.
  destruct (kd_get Z.eqb pz z) as [p |] eqn:Hpz'; [| discriminate].
  injection Hp as <-.
  assert (Hin : dict_in "output" p = true).
  { destruct (raw_at_zooms_spec _ _ _ Hpz z) as [_ Hspec].
    destruct (Hspec p Hpz') as [Hrun | [_ Hacc]]; [| discriminate].
    destruct (params_at_complete _ _ _ Hrun) as [_ Hall].
    apply (Hall "output" (PDict o) (PDict o)).
    - apply dict_get_in. exact Ho.
    - reflexivity.
    - cbn [_element_at_zoom]. now rewrite Hformat.
    - discriminate. }
  rewrite Hin, Hout. apply dict_get_set_same.
Qed.

Lemma reachable_output_shared (c : MapcheteConfig) :
  reachable c -> output_shared c.
Proof.
  apply reachable_core_invariant.
  - intros s s' Hcore Hs.
    destruct (core_all_fields Hcore) as [Hraw [_ [_ [_ [_ [_ [Hp _]]]]]]].
    unfold output_shared. rewrite Hraw, Hp. exact Hs.
  - exact init_output_shared.
Qed.

(** X22. For every configuration, in every state it reaches: the
    snapshot [params_at_zoom] returns for a zoom level has under
    "output" the very mapping the document of the object holds there,
    as the constructor completed it.  The zoom levels share the output
    mapping of the document, so the updates the constructor made to it
    after the parameters of the zoom levels were prepared show in every
    snapshot. *)
Theorem snapshot_shares_output (c : MapcheteConfig) (z : Z)
  (snapshot : dict) :
  reachable c -> fst (params_at_zoom z c) = Ok snapshot ->
  exists out,
    dict_get (_raw c) "output" = Some (PDict out) /\
    dict_get snapshot "output" = Some (PDict out).
Proof.
  intros Hreach Hsnap.
  destruct (built_slots Hreach) as [zooms [reg [Hz [Hreg _]]]].
  pose proof (reachable_output_shared Hreach) as Hshared.
  rewrite (@params_at_zoom_value c zooms reg z Hz Hreg) in Hsnap.
  cbn [fst] in Hsnap. unfold snapshot_value in Hsnap.
  destruct (negb (zoom_in z zooms)); [discriminate |].
  destruct (kd_get Z.eqb (_params_at_zoom c) z) as [params |] eqn:Hp;
    [| discriminate].
  assert (Hshape : exists tree,
             snapshot = dict_set (dict_set params "input" (PDict []))
                          "input" (PDict tree)).
  { destruct (dict_get params "input") as [input_at_zoom |].
    - destruct (flatten_input input_at_zoom) as [flat |]; cbn [rbind] in Hsnap;
        [| discriminate].
      destruct (dereference_in reg flat []) as [fi |]; cbn [rbind] in Hsnap;
        [| discriminate].
      destruct (_unflatten_tree fi) as [tree |]; cbn [rbind] in Hsnap;
        [| discriminate].
      injection Hsnap as <-. now exists tree.
    - injection Hsnap as <-. now exists []. }
  destruct Hshape as [tree ->].
  rewrite !dict_get_set_other by discriminate.
  rewrite (Hshared z params Hp).
  destruct (output_document_reached Hreach) as [out [_ [_ [_ [Hout _]]]]].
  now exists out.
Qed.

(* ===================================================================== *)
(** ** The attributes the constructor sets *)
(* ===================================================================== *)

Lemma preamble_attributes (input_config zoom bounds_arg : pyval)
  (mode0 : string) (s0 : MapcheteConfig) :
  preamble input_config zoom bounds_arg mode0 = Ok s0 ->
  mode s0 = mode0 /\ In mode0 modes /\
  (exists dir file,
      dict_get (_raw s0) "config_dir" = Some (PStr dir) /\
      dict_get (_raw s0) "process_file" = Some (PStr file) /\
      config_dir s0 = PStr dir /\
      process_file s0 = os_path_join dir file /\
      os_path_isfile (process_file s0) = true /\
      py_compile_compile (process_file s0) = true) /\
  (exists pyr grid output_metatiling output_pixelbuffer,
      dict_get (_raw s0) "pyramid" = Some (PDict pyr) /\
      dict_get pyr "grid" = Some grid /\
      BufferedTilePyramid grid (dict_get_default pyr "metatiling" (PInt 1))
        (dict_get_default pyr "pixelbuffer" (PInt 0))
      = Ok (process_pyramid s0) /\
      BufferedTilePyramid grid output_metatiling output_pixelbuffer
      = Ok (output_pyramid s0) /\
      py_gt output_metatiling (dict_get_default pyr "metatiling" (PInt 1))
      = Ok false).
Proof.
  unfold preamble.
  destruct (raw_document input_config zoom bounds_arg) as [raw |];
    cbn [rbind]; [| discriminate].
  destruct (validate_document raw) as [file |] eqn:Hv; cbn [rbind];
    [| discriminate].
  destruct (dict_getitem raw "config_dir") as [dir |] eqn:Hdir; cbn [rbind];
    [| discriminate].
  destruct (set_pyramids raw) as [pyramids |] eqn:Hp;
    cbn [rbind reraise_config]; [| discriminate].
  destruct (negb (str_in mode0 modes)) eqn:Hmode; [discriminate |].
  intros H. injection H as <-.
  cbn [mode _raw config_dir process_file process_pyramid output_pyramid].
  split; [reflexivity |]. split.
  { apply str_in_spec. now destruct (str_in mode0 modes). }
  split.
  - unfold validate_document in Hv.
    destruct (reraise_config _); cbn [rbind] in Hv; [| discriminate].
    unfold _validate_process_file in Hv. rewrite Hdir in Hv.
    cbn [rbind] in Hv.
    destruct (dict_getitem raw "process_file") as [pf |] eqn:Hpf;
      cbn [rbind] in Hv; [| discriminate].
    destruct dir as [| | d | | |]; try discriminate.
    destruct pf as [| | f | | |]; try discriminate.
    destruct (os_path_isfile (os_path_join d f)) eqn:Hfile; cbn [negb] in Hv;
      [| discriminate].
    destruct (py_compile_compile (os_path_join d f)) eqn:Hcomp;
      [| discriminate].
    injection Hv as <-. exists d, f.
    unfold dict_getitem in Hdir, Hpf.
    destruct (dict_get raw "config_dir"); [| discriminate].
    destruct (dict_get raw "process_file"); [| discriminate].
    injection Hdir as ->. injection Hpf as ->. repeat split; assumption.
  - unfold set_pyramids in Hp. unfold dict_getitem at 1 2 in Hp.
    destruct (dict_get raw "pyramid") as [pyr |] eqn:Hpyr; cbn [rbind] in Hp;
      [| discriminate].
    destruct (dict_get raw "output") as [out |] eqn:Hout; cbn [rbind] in Hp;
      [| discriminate].
    destruct (check_metatiling raw) as [mt |] eqn:Hmt; cbn [rbind] in Hp;
      [| discriminate].
    destruct pyr as [| | | | pyr |]; try discriminate.
    destruct out as [| | | | out |]; try discriminate.
    unfold dict_getitem in Hp.
    destruct (dict_get pyr "grid") as [grid |] eqn:Hgrid; cbn [rbind] in Hp;
      [| discriminate].
    destruct (BufferedTilePyramid grid (fst mt) _) as [pp |] eqn:Hpp;
      cbn [rbind] in Hp; [| discriminate].
    destruct (BufferedTilePyramid grid (snd mt) _) as [op |] eqn:Hop;
      cbn [rbind] in Hp; [| discriminate].
    injection Hp as <-. cbn [fst snd].
    unfold check_metatiling, dict_getitem in Hmt. rewrite Hpyr, Hout in Hmt.
    cbn [rbind] in Hmt.
    destruct (py_gt _ _) as [bigger |] eqn:Hgt; cbn [rbind] in Hmt;
      [| discriminate].
    destruct bigger; [discriminate |]. injection Hmt as <-.
    cbn [fst snd] in Hpp, Hop.
    exists pyr, grid, (dict_get_default out "metatiling"
                         (dict_get_default pyr "metatiling" (PInt 1))),
      (dict_get_default out "pixelbuffer" (PInt 0)).
    repeat split; assumption.
Qed.

(** X23. For every configuration, in every state it reaches: the mode
    is one of "memory", "continue", "readonly" and "overwrite"; the
    process file is the "process_file" of the document joined to its
    "config_dir", it is a file and it compiles; the process pyramid was
    built from the "grid", the "metatiling", 1 if not given, and the
    "pixelbuffer", 0 if not given, of the "pyramid" of the document; and
    the output pyramid from the same grid with a metatiling that is not
    greater than that of the process pyramid. *)
Theorem constructed_attributes (c : MapcheteConfig) :
  reachable c ->
  In (mode c) modes /\
  (exists dir file,
      dict_get (_raw c) "config_dir" = Some (PStr dir) /\
      dict_get (_raw c) "process_file" = Some (PStr file) /\
      config_dir c = PStr dir /\
      process_file c = os_path_join dir file /\
      os_path_isfile (process_file c) = true /\
      py_compile_compile (process_file c) = true) /\
  (exists pyr grid output_metatiling output_pixelbuffer,
      dict_get (_raw c) "pyramid" = Some (PDict pyr) /\
      dict_get pyr "grid" = Some grid /\
      BufferedTilePyramid grid (dict_get_default pyr "metatiling" (PInt 1))
        (dict_get_default pyr "pixelbuffer" (PInt 0))
      = Ok (process_pyramid c) /\
      BufferedTilePyramid grid output_metatiling output_pixelbuffer
      = Ok (output_pyramid c) /\
      py_gt output_metatiling (dict_get_default pyr "metatiling" (PInt 1))
      = Ok false).
Proof.
  revert c. apply reachable_core_invariant.
  - intros s s' Hcore Hs.
    destruct (core_all_fields Hcore)
      as [Hraw [Hpf [Hdir [Hpp [Hop [Hmode _]]]]]].
    now rewrite Hraw, Hpf, Hdir, Hpp, Hop, Hmode.
  - intros ic zoom bounds_arg mode0 c H.
    destruct (init_states _ _ _ _ H)
      as [s0 [declared [zs [pz [w [s3 [reg [s' [Hpre [Hdecl [Hzs [_
           [Hw [_ [-> Hframe]]]]]]]]]]]]]]].
    destruct (preamble_inv _ _ _ _ Hpre)
      as [_ [_ [_ [_ [_ [_ [_ [_ [_ [_ [Hout0 _]]]]]]]]]]].
    destruct (preamble_attributes _ _ _ _ Hpre)
      as [Hmode [Hmodes [Hfile Hpyramids]]].
    set (s2 := set_params_at_zoom pz _) in *.
    assert (Hout2 : output_slot s2 = None) by exact Hout0.
    destruct (output_fresh _ Hout2 Hw) as [o [out [fmt [_ [_ [Hraw3 _]]]]]].
    assert (K3 : forall F (f : MapcheteConfig -> F),
               (forall v s, f (set_raw v s) = f s) ->
               (forall v s, f (set_params_at_zoom v s) = f s) ->
               (forall v s, f (set_output_slot v s) = f s) ->
               f s3 = f s2).
    { intros F f H1 H2 H3.
      pose proof (@keeps_output E F f H1 H2 H3 s2) as K.
      now rewrite Hw in K. }
    cbn [mode _raw config_dir process_file process_pyramid output_pyramid
           set_input_slot].
    rewrite (Hframe _ mode ltac:(kept) ltac:(kept)).
    rewrite (Hframe _ _raw ltac:(kept) ltac:(kept)).
    rewrite (Hframe _ config_dir ltac:(kept) ltac:(kept)).
    rewrite (Hframe _ process_file ltac:(kept) ltac:(kept)).
    rewrite (Hframe _ process_pyramid ltac:(kept) ltac:(kept)).
    rewrite (Hframe _ output_pyramid ltac:(kept) ltac:(kept)).
    rewrite (K3 _ mode ltac:(kept) ltac:(kept) ltac:(kept)).
    rewrite (K3 _ config_dir ltac:(kept) ltac:(kept) ltac:(kept)).
    rewrite (K3 _ process_file ltac:(kept) ltac:(kept) ltac:(kept)).
    rewrite (K3 _ process_pyramid ltac:(kept) ltac:(kept) ltac:(kept)).
    rewrite (K3 _ output_pyramid ltac:(kept) ltac:(kept) ltac:(kept)).
    rewrite !Hraw3 by discriminate.
    cbn [mode _raw config_dir process_file process_pyramid output_pyramid
           s2 set_params_at_zoom set_init_zoom_levels_slot
           set_zoom_levels_slot].
    rewrite Hmode. split; [assumption |]. split; assumption.
Qed.

(* ===================================================================== *)
(** ** The area of a configuration without inputs *)
(* ===================================================================== *)

(** X24. For every configuration, in every state it reaches, whose
    document has [None] or an empty mapping under "input": at every
    initialized zoom level the area is the box of the bounds the object
    is initialized with, whatever the zoom level, and the snapshot of
    the zoom level has an empty mapping under "input". *)
Theorem area_without_input (c : MapcheteConfig) (zooms : list Z)
  (ib : Bounds) (z : Z) :
  reachable c ->
  fst (init_zoom_levels c) = Ok zooms -> fst (init_bounds c) = Ok ib ->
  In z zooms ->
  (forall element, In ("input", element) (_raw c) ->
                   element = PNone \/ element = PDict []) ->
  fst (area_at_zoom (PInt z) c) = Ok (box ib) /\
  exists snapshot,
    fst (params_at_zoom z c) = Ok snapshot /\
    dict_get snapshot "input" = Some (PDict []).
Proof.
  intros Hreach Hzooms Hib Hz Hnone.
  pose proof (reachable_caches_sound Hreach) as Hs.
  destruct (area_at_zoom_value Hs)
    as [zs [reg [ib' [Sz [Sreg [Sib Hval]]]]]].
  rewrite (init_zoom_levels_stored _ Sz) in Hzooms. injection Hzooms as <-.
  unfold init_bounds in Hib. rewrite (cached_stored _ _ _ _ Sib) in Hib.
  injection Hib as <-.
  destruct (reachable_zooms_sound Hreach)
    as [declared [zs' [_ [Sz' [_ [_ [_ Hparams]]]]]]].
  rewrite Sz in Sz'. injection Sz' as <-.
  destruct (kd_get Z.eqb (_params_at_zoom c) z) as [params |] eqn:Hp.
  2: { exfalso. now apply (proj2 (Hparams z) Hz). }
  assert (Hinput : dict_get params "input" = None).
  { destruct (dict_get params "input") as [v |] eqn:Hv; [| reflexivity].
    exfalso.
    pose proof (reachable_params_sound Hreach) as Hall.
    unfold params_sound in Hall.
    assert (Hname : "input" <> "output") by discriminate.
    destruct (Hall z params "input" Hp Hname) as [Hsound _].
    destruct (Hsound v Hv) as [_ [Hne [element [Hin Hel]]]].
    destruct (Hnone element Hin) as [-> | ->]; cbn in Hel;
      injection Hel as <-; now apply Hne. }
  split.
  - destruct (Hval (PInt z)) as [-> _]. cbn [area_value].
    apply zoom_in_spec in Hz. rewrite Hz. cbn [negb].
    unfold area_now, area_of. now rewrite Hp, Hinput.
  - rewrite (@params_at_zoom_value c zs reg z Sz Sreg). cbn [fst].
    unfold snapshot_value. apply zoom_in_spec in Hz. rewrite Hz.
    cbn [negb]. rewrite Hp, Hinput. eexists. split; [reflexivity |].
    apply dict_get_set_same.
Qed.

End Levels.

Lemma initialized_zooms_within_declared_witness :
  exists declared zs,
    @zoom_levels Demo.world (Demo.built_of Demo.flat_document)
    = (Ok declared, Demo.built_of Demo.flat_document) /\
    @init_zoom_levels Demo.world (Demo.built_of Demo.flat_document)
    = (Ok zs, Demo.built_of Demo.flat_document) /\
    @declared_zoom_levels
      (_raw (Demo.built_of Demo.flat_document)) = Ok declared /\
    incl zs declared /\
    exists lo hi, forall z, In z zs <-> lo <= z < hi.
Proof.
  exact (@initialized_zooms_within_declared Demo.world
           (Demo.built_of Demo.flat_document) flat_document_reachable).
Defined.

Lemma zoom_outside_initialized_is_refused_witness :
  @params_at_zoom Demo.world 7 (Demo.built_of Demo.flat_document)
  = (Raise zoom_unavailable, Demo.built_of Demo.flat_document) /\
  @area_at_zoom Demo.world (PInt 7) (Demo.built_of Demo.flat_document)
  = (Raise zoom_unavailable, Demo.built_of Demo.flat_document) /\
  @bounds_at_zoom Demo.world (PInt 7) (Demo.built_of Demo.flat_document)
  = (Raise zoom_unavailable, Demo.built_of Demo.flat_document).
Proof.
  apply (@zoom_outside_initialized_is_refused Demo.world
           (Demo.built_of Demo.flat_document) [1; 2; 3] 7).
  - exact flat_document_reachable.
  - vm_compute. reflexivity.
  - cbn. lia.
Defined.

Lemma bounds_at_zoom_of_area_witness :
  fst (@bounds_at_zoom Demo.world (PInt 2) (Demo.built_of Demo.flat_document))
  = (a <- fst (@area_at_zoom Demo.world (PInt 2)
                 (Demo.built_of Demo.flat_document)) ;;
     Ok (if @geom_is_empty Demo.world a then None
         else Some (@geom_bounds Demo.world a))).
Proof.
  exact (@bounds_at_zoom_of_area Demo.world
           (Demo.built_of Demo.flat_document) (PInt 2)
           flat_document_reachable).
Defined.

Lemma parameter_document_reachable :
  @reachable Demo.world (Demo.built_of parameter_document).
Proof.
  apply (@reach_init Demo.world parameter_document PNone PNone "continue").
  vm_compute. reflexivity.
Qed.

Lemma document_reachable :
  @reachable Demo.world (Demo.built_of Demo.document).
Proof.
  apply (@reach_init Demo.world Demo.document PNone PNone "continue").
  vm_compute. reflexivity.
Qed.

(** The zoom argument [[3, 2]] on declared zoom levels 1 to 3 *)
Lemma zoom_argument_selects_levels_witness :
  exists declared zs,
    fst (@zoom_levels Demo.world
           (built_with Demo.flat_document (PList [PInt 3; PInt 2]) PNone))
    = Ok declared /\
    fst (@init_zoom_levels Demo.world
           (built_with Demo.flat_document (PList [PInt 3; PInt 2]) PNone))
    = Ok zs /\
    requested_zooms (PList [PInt 3; PInt 2]) = Some zs /\
    incl zs declared.
Proof.
  apply (@zoom_argument_selects_levels Demo.world Demo.flat_document
           (PList [PInt 3; PInt 2]) PNone "continue").
  vm_compute. reflexivity.
Defined.

(** The empty list and a string as zoom arguments *)
Lemma malformed_zoom_argument_witness :
  @__init__ Demo.world Demo.flat_document (PList []) PNone "continue"
  = Raise (ValueError "min() arg is an empty sequence") /\
  @__init__ Demo.world Demo.flat_document (PStr "3") PNone "continue"
  = Raise zoom_format_error.
Proof.
  split.
  - apply (proj1 (@malformed_zoom_argument Demo.world Demo.flat_document
                    (PList []) PNone "continue"
                    (prepared_with Demo.flat_document (PList []) PNone)
                    ltac:(vm_compute; reflexivity))).
    reflexivity.
  - apply (proj2 (@malformed_zoom_argument Demo.world Demo.flat_document
                    (PStr "3") PNone "continue"
                    (prepared_with Demo.flat_document (PStr "3") PNone)
                    ltac:(vm_compute; reflexivity))).
    + reflexivity.
    + intros z. discriminate.
    + intros l. discriminate.
Defined.

(** The bounds argument [[0, 0, 10, 10]] on a document without bounds *)
Lemma bounds_argument_selects_bounds_witness :
  exists rb pb ib,
    dict_get
      (_raw (built_with Demo.flat_document PNone
               (PList [PInt 0; PInt 0; PInt 10; PInt 10]))) "bounds"
    = Some rb /\
    @bounds Demo.world
      (built_with Demo.flat_document PNone
         (PList [PInt 0; PInt 0; PInt 10; PInt 10]))
    = (Ok pb, built_with Demo.flat_document PNone
                (PList [PInt 0; PInt 0; PInt 10; PInt 10])) /\
    @init_bounds Demo.world
      (built_with Demo.flat_document PNone
         (PList [PInt 0; PInt 0; PInt 10; PInt 10]))
    = (Ok ib, built_with Demo.flat_document PNone
                (PList [PInt 0; PInt 0; PInt 10; PInt 10])) /\
    (if is_none rb
     then pb = @pyramid_bounds Demo.world
                 (process_pyramid
                    (built_with Demo.flat_document PNone
                       (PList [PInt 0; PInt 0; PInt 10; PInt 10])))
     else _validate_bounds rb = Ok pb) /\
    _validate_bounds (PList [PInt 0; PInt 0; PInt 10; PInt 10]) = Ok ib.
Proof.
  apply (@bounds_argument_selects_bounds Demo.world Demo.flat_document
           PNone (PList [PInt 0; PInt 0; PInt 10; PInt 10]) "continue").
  vm_compute. reflexivity.
Defined.

Lemma constructed_output_document_witness :
  exists out fmt path w,
    dict_get (_raw (Demo.built_of parameter_document)) "output"
    = Some (PDict out) /\
    dict_get out "format" = Some (PStr fmt) /\
    In fmt (@available_output_formats Demo.world) /\
    dict_get out "type"
    = Some (@pyramid_type Demo.world
              (output_pyramid (Demo.built_of parameter_document))) /\
    dict_get out "pixelbuffer"
    = Some (@pyramid_pixelbuffer Demo.world
              (output_pyramid (Demo.built_of parameter_document))) /\
    dict_get out "metatiling"
    = Some (@pyramid_metatiling Demo.world
              (output_pyramid (Demo.built_of parameter_document))) /\
    dict_get out "path" = Some path /\
    (path = PNone \/ exists abs, path = PStr abs) /\
    @output Demo.world (Demo.built_of parameter_document)
    = (Ok w, Demo.built_of parameter_document) /\
    @load_output_writer Demo.world out = Ok w.
Proof.
  exact (@constructed_output_document Demo.world
           (Demo.built_of parameter_document) parameter_document_reachable).
Defined.

(** The snapshot of zoom 2: the threshold is the one below zoom 3. *)
Lemma snapshot_is_filtered_document_witness :
  str_in "threshold" _RESERVED_PARAMETERS = false /\
  PInt 10 <> PNone /\
  exists element,
    In ("threshold", element) (_raw (Demo.built_of parameter_document)) /\
    _element_at_zoom "threshold" element 2 = Ok (PInt 10).
Proof.
  refine (proj1 (proj2 (proj2
            (@snapshot_is_filtered_document Demo.world
               (Demo.built_of parameter_document) 2
               [("input", PDict [("dem", PObj 0)]);
                ("output",
                 PDict [("format", PStr "GTiff");
                        ("path", PStr "/home/user/out");
                        ("type", PStr "geodetic"); ("pixelbuffer", PInt 0);
                        ("metatiling", PInt 4)]);
                ("threshold", PInt 10)]
               parameter_document_reachable _)))
            "threshold" (PInt 10) _ _ _).
  - vm_compute. reflexivity.
  - discriminate.
  - discriminate.
  - reflexivity.
Defined.

(** Reading the full area, then the reads again *)
Lemma reads_are_repeatable_witness :
  fst (@params_at_zoom Demo.world 2
         (after (call_area_at_zoom PNone)
            (Demo.built_of Demo.flat_document)))
  = fst (@params_at_zoom Demo.world 2 (Demo.built_of Demo.flat_document)) /\
  fst (@area_at_zoom Demo.world (PInt 2)
         (after (call_area_at_zoom PNone)
            (Demo.built_of Demo.flat_document)))
  = fst (@area_at_zoom Demo.world (PInt 2)
           (Demo.built_of Demo.flat_document)).
Proof.
  destruct (@reads_are_repeatable Demo.world
              (Demo.built_of Demo.flat_document) (call_area_at_zoom PNone)
              flat_document_reachable)
    as [_ [_ [_ [_ [_ [_ [_ [H1 [H2 _]]]]]]]]].
  split; [apply H1 | apply H2].
Defined.

(** Baselevels with a "min" of 2 on process zoom levels 1 to 3 *)
Lemma baselevels_of_document_witness :
  exists bl lo hi,
    dict_get (_raw (Demo.built_of parameter_document)) "baselevels"
    = Some (PDict bl) /\
    [2; 3] = py_range lo (hi + 1) /\
    [1; 2; 3] <> [] /\
    dict_in "min" bl || dict_in "max" bl = true /\
    match dict_get bl "min" with
    | Some v => v = PInt lo /\ 0 <= lo
    | None => zooms_min [1; 2; 3] = Ok lo
    end /\
    match dict_get bl "max" with
    | Some v => v = PInt hi /\ 0 <= hi
    | None => zooms_max [1; 2; 3] = Ok hi
    end.
Proof.
  refine (proj2 (@baselevels_of_document Demo.world
                   (Demo.built_of parameter_document) [1; 2; 3]
                   parameter_document_reachable _)
            (@Build_Baselevels Demo.world [2; 3] (PStr "bilinear")
               (PStr "nearest") (PStr "geodetic", PInt 4, PInt 0)) _).
  - vm_compute. reflexivity.
  - vm_compute. reflexivity.
Defined.

(** The two files of the flat document and the objects of its
    registry *)
Lemma registry_holds_declared_inputs_witness :
  (forall v,
      @declared_input Demo.world (Demo.built_of Demo.flat_document)
        [1; 2; 3] v ->
      ((exists path, v = PStr path) \/
       (exists abstract, v = PDict abstract)) /\
      exists h obj,
        @get_hash Demo.world v = Ok h /\
        kd_get identity_eqb
          (registry_of (Demo.built_of Demo.flat_document)) h = Some obj) /\
  (forall h obj,
      In (h, obj) (registry_of (Demo.built_of Demo.flat_document)) ->
      exists v,
        @declared_input Demo.world (Demo.built_of Demo.flat_document)
          [1; 2; 3] v /\
        @get_hash Demo.world v = Ok h /\
        @load_input Demo.world (Demo.built_of Demo.flat_document)
          {| delim_zoom := [1; 2; 3];
             delim_bounds := (-180, -90, 180, 90);
             delim_process_bounds := (-180, -90, 180, 90) |} v
        = Ok (obj_reader obj)).
Proof.
  apply (@registry_holds_declared_inputs Demo.world
           (Demo.built_of Demo.flat_document) [1; 2; 3]
           (-180, -90, 180, 90) (-180, -90, 180, 90)
           (registry_of (Demo.built_of Demo.flat_document))).
  - exact flat_document_reachable.
  - vm_compute. reflexivity.
  - vm_compute. reflexivity.
  - vm_compute. reflexivity.
  - vm_compute. reflexivity.
Defined.

(** The group of the document of the demonstration at zoom 1 *)
Lemma area_of_input_group_fails_witness :
  (forall a, fst (@area_at_zoom Demo.world (PInt 1)
                    (Demo.built_of Demo.document)) <> Ok a) /\
  (forall a, fst (@area_at_zoom Demo.world PNone
                    (Demo.built_of Demo.document)) <> Ok a) /\
  (forall b, fst (@bounds_at_zoom Demo.world (PInt 1)
                    (Demo.built_of Demo.document)) <> Ok b) /\
  (forall b, fst (@bounds_at_zoom Demo.world PNone
                    (Demo.built_of Demo.document)) <> Ok b).
Proof.
  apply (@area_of_input_group_fails Demo.world
           (Demo.built_of Demo.document) [1; 2; 3; 4; 5]
           (registry_of (Demo.built_of Demo.document)) 1
           [("input",
             PDict [("dem", PStr "dem.tif"); ("land", PStr "coarse.tif");
                    ("group", PDict [("a", PStr "a.tif");
                                     ("b", PStr "dem.tif")])]);
            ("output",
             PDict [("format", PStr "GTiff"); ("path", PStr "/home/user/out");
                    ("metatiling", PInt 2); ("type", PStr "geodetic");
                    ("pixelbuffer", PInt 0)])]
           [("dem", PStr "dem.tif"); ("land", PStr "coarse.tif");
            ("group", PDict [("a", PStr "a.tif"); ("b", PStr "dem.tif")])]
           [("a", PStr "a.tif"); ("b", PStr "dem.tif")] "group").
  - exact document_reachable.
  - vm_compute. reflexivity.
  - vm_compute. reflexivity.
  - cbn. tauto.
  - vm_compute. reflexivity.
  - reflexivity.
  - cbn. tauto.
  - intros h Hh.
    assert (Hmiss :
              match @get_hash Demo.world
                      (PDict [("a", PStr "a.tif"); ("b", PStr "dem.tif")])
              with
              | Ok h' =>
                  kd_get identity_eqb
                    (registry_of (Demo.built_of Demo.document)) h'
              | Raise _ => None
              end = None) by (vm_compute; reflexivity).
    rewrite Hh in Hmiss. exact Hmiss.
Defined.

Lemma snapshot_shares_output_witness :
  exists out,
    dict_get (_raw (Demo.built_of parameter_document)) "output"
    = Some (PDict out) /\
    dict_get
      [("input", PDict [("dem", PObj 0)]);
       ("output",
        PDict [("format", PStr "GTiff"); ("path", PStr "/home/user/out");
               ("type", PStr "geodetic"); ("pixelbuffer", PInt 0);
               ("metatiling", PInt 4)]);
       ("threshold", PInt 10)] "output"
    = Some (PDict out).
Proof.
  apply (@snapshot_shares_output Demo.world
           (Demo.built_of parameter_document) 2).
  - exact parameter_document_reachable.
  - vm_compute. reflexivity.
Defined.

Lemma constructed_attributes_witness :
  In (mode (Demo.built_of parameter_document)) modes /\
  (exists dir file,
      dict_get (_raw (Demo.built_of parameter_document)) "config_dir"
      = Some (PStr dir) /\
      dict_get (_raw (Demo.built_of parameter_document)) "process_file"
      = Some (PStr file) /\
      config_dir (Demo.built_of parameter_document) = PStr dir /\
      process_file (Demo.built_of parameter_document)
      = @os_path_join Demo.world dir file /\
      @os_path_isfile Demo.world
        (process_file (Demo.built_of parameter_document)) = true /\
      @py_compile_compile Demo.world
        (process_file (Demo.built_of parameter_document)) = true) /\
  (exists pyr grid output_metatiling output_pixelbuffer,
      dict_get (_raw (Demo.built_of parameter_document)) "pyramid"
      = Some (PDict pyr) /\
      dict_get pyr "grid" = Some grid /\
      @BufferedTilePyramid Demo.world grid
        (dict_get_default pyr "metatiling" (PInt 1))
        (dict_get_default pyr "pixelbuffer" (PInt 0))
      = Ok (process_pyramid (Demo.built_of parameter_document)) /\
      @BufferedTilePyramid Demo.world grid output_metatiling
        output_pixelbuffer
      = Ok (output_pyramid (Demo.built_of parameter_document)) /\
      py_gt output_metatiling (dict_get_default pyr "metatiling" (PInt 1))
      = Ok false).
Proof.
  exact (@constructed_attributes Demo.world
           (Demo.built_of parameter_document) parameter_document_reachable).
Defined.

Lemma in_values_of_key {V} (d : list (string * V)) (k : string) (v : V) :
  In (k, v) d ->
  In v (map snd (filter (fun kv => String.eqb (fst kv) k) d)).
Proof.
  intros Hin. apply in_map_iff. exists (k, v). split; [reflexivity |].
  apply filter_In. split; [assumption | apply String.eqb_refl].
Qed.

Lemma no_input_document_reachable :
  @reachable Demo.world (Demo.built_of no_input_document).
Proof.
  apply (@reach_init Demo.world no_input_document PNone PNone "continue").
  vm_compute. reflexivity.
Qed.

(** Zoom 2 of the document without inputs: the box of the bounds of
    the pyramid *)
Lemma area_without_input_witness :
  fst (@area_at_zoom Demo.world (PInt 2) (Demo.built_of no_input_document))
  = Ok (@box Demo.world (-180, -90, 180, 90)) /\
  exists snapshot,
    fst (@params_at_zoom Demo.world 2 (Demo.built_of no_input_document))
    = Ok snapshot /\
    dict_get snapshot "input" = Some (PDict []).
Proof.
  apply (@area_without_input Demo.world (Demo.built_of no_input_document)
           [1; 2; 3] (-180, -90, 180, 90) 2).
  - exact no_input_document_reachable.
  - vm_compute. reflexivity.
  - vm_compute. reflexivity.
  - cbn. tauto.
  - intros element Hin. apply in_values_of_key in Hin.
    assert (Hvalues :
              map snd (filter (fun kv => String.eqb (fst kv) "input")
                         (_raw (Demo.built_of no_input_document)))
              = [PNone]) by (vm_compute; reflexivity).
    rewrite Hvalues in Hin. destruct Hin as [<- | []]. now left.
Defined.
